(* ===== verification/_CoqProject ===== *)
-Q . S2P
Prelude.v
Float.v
Rounding.v
Bytes.v
Layout.v
KernelError.v
Lz4.v
Zram.v
ZramCounters.v
Lts.v
ZramSteps.v
Scheduler.v
SchedulerSteps.v
SchedulerLocks.v
Demo.v
Task.v
Transport.v
Fault.v
BreakerSteps.v
Executor.v
ExecutorSteps.v
Pool.v
PoolSteps.v
Vmm.v
Virtio.v
VirtioSteps.v
Simd.v
SimdError.v
Abi.v
Memory.v
BlkMq.v
Gpu.v
DebugFmt.v
DeviceAbi.v
Main.v
Build.v
VerificationSpecs.v
Contracts.v
Testing.v
CoreTests.v
FaultTests.v
TransportTests.v
ExecutionTests.v
VirtioTests.v
MachineTests.v
KernelTests.v
StorageTests.v
Accessors.v
