(* ===== verification/Prelude.v ===== *)
(** * Prelude: a verification of the pepita crate, and its shared foundations

    Pepita (README.md, src/) is a Rust crate of kernel-style components for a
    small execution engine: a work-stealing scheduler, executors with a pool on
    top, retry and failure-detection policies, a binary wire format, a
    compressed RAM disk (zram), virtio devices, a micro-VM monitor, a mock GPU
    device, SIMD kernels, and the structures of io_uring, ublk and blk-mq.
    This library models the code of every module that carries behaviour and
    proves what makes it correct.  Line-level correspondence is in PROJECT.json.

    ** The parts and how they interact

    - [KernelError]: src/error.rs.  The error enumeration every fallible
      operation returns, with its errno conversions.
    - [Lz4], [Zram], [ZramCounters], [ZramSteps]: src/zram.rs.  The LZ4 block
      codec ([compress_lz4], [decompress_lz4] and their helpers); on top of it the
      device ([ZramDevice], [PageTable], [CompressionStream], [AtomicStats]) and
      what its statistics say; and the atomic actions of its methods as a step
      relation for concurrent callers, which hold the stream's mutex and the page
      table's lock across actions, simulated by a page store.
    - [Scheduler], [SchedulerSteps], [SchedulerLocks]: src/scheduler.rs.
      [WorkStealingDeque] and every method of [Scheduler] as a function on its
      state; the atomic events of the methods as a step relation for concurrent
      callers, for what becomes of the tasks; and the same methods with the locks
      of [workers] and of the deques held across actions, for who waits for whom.
    - [Demo]: examples/scheduler_demo.rs, a program over [Scheduler] with every
      line it prints.
    - [Task]: src/task.rs.  [Task], [TaskBuilder], [ExecutionResult] and their
      components; the vocabulary of the four parts below.
    - [Transport]: src/transport.rs.  Messages and payloads, encoders and
      decoders, over the integer and UTF-8 encodings of [Bytes].
    - [Fault], [BreakerSteps]: src/fault.rs.  [RetryPolicy], [FailureDetector],
      [CircuitBreaker]; and the atomic actions of the breaker's methods, with
      their locks, as a step relation for threads that share it.
    - [Executor], [ExecutorSteps]: src/executor.rs.  The trait [Executor] as a
      class, its CPU, GPU and remote instances, and [ExecutorRegistry], over an
      operating system whose pipes and waits may block for ever; and the
      atomic actions of the CPU executor's methods, each poll of a process among
      them, as a step relation for threads that share it.
    - [Pool], [PoolSteps]: src/pool.rs.  [Pool] dispatches to a registry, retries by a policy
      of [Fault] and queues asynchronous tasks on the [Scheduler].  Its theorems
      are proved against the class [ReliableExecutor], which the executors of
      [Executor] discharge.  [PoolSteps] has the atomic actions of its methods
      as a step relation over [SchedulerSteps], for threads that share a pool.
    - [Vmm]: src/vmm.rs.  [MicroVm] with its life cycle, sequential and
      interleaved, [VmConfig], vCPUs, [Jailer].
    - [Virtio], [VirtioSteps]: src/virtio.rs.  [VirtQueue], [VirtioVsock],
      [VirtioBlock]; and the atomic actions of the block device's methods as a step
      relation for threads that share it, with copies that go byte by byte under
      the storage lock.
    - [Accessors]: the methods of eleven files that return a field.
    - [Simd], [SimdError]: src/simd.rs.  Capability detection, the vector kernels
      with their dispatch, [MatrixOps]; and the accuracy of dot products and matrix
      products in IEEE [f32].
    - [Abi], [DeviceAbi]: src/io_uring.rs and src/ublk.rs, and the structures of
      src/virtio.rs and src/vmm.rs.  What is shared with the kernel and with
      devices: memory images and sizes, command and [ioctl] numbers, flags; the
      constants of src/lib.rs.
    - [Memory]: src/memory.rs.  Addresses, page frames, DMA descriptors, flags.
    - [BlkMq]: src/blk_mq.rs.  Requests and tag sets.
    - [Gpu]: src/gpu.rs.  The mock device, buffers, shaders, pipelines.
    - [DebugFmt]: the implementations of [Debug] written by hand in src/.
    - [Main]: src/main.rs.  The command line: arguments, the report with its
      checks over [Abi], the exit status.
    - [Build]: build.rs.  The variables it sets for each contract binding; the
      file system, the YAML parser and the Unicode upper case are parameters.
    - [VerificationSpecs]: src/verification_specs.rs.  The functions and the
      contracts their comments state (lib.rs does not declare this module).
    - [Contracts]: contracts/*.yaml.  The law on identity matrices in IEEE 754, and
      the obligations the code does not meet.
    - [CoreTests], [FaultTests], [TransportTests], [ExecutionTests],
      [VirtioTests], [MachineTests], [KernelTests], [StorageTests]: the modules'
      unit tests and two files of tests/, translated over the definitions of
      the other files with the vocabulary of [Testing].

    Shared by several parts: this file; [Float], IEEE 754 arithmetic on the
    Standard Library's [SpecFloat]; [Rounding], the error of its sums of products
    against real arithmetic; [Bytes], integers and strings as bytes;
    [Layout], the [#[repr(C)]] layout of structures, for any contents of the
    padding; [Lts], runs of labelled transition systems, forward simulation, and
    the class [SharedObject] of an object whose calls threads interleave and whose
    actions may have to wait for each other, with the scheduler, the zram device,
    the block device and the CPU executor as instances; a reader-writer lock
    prefers readers or writers ([LockPolicy]), and theorems hold for both.

    Functions keep the source's names, with the type's name or a short prefix in
    front where two methods share a name ([deque_push], [phys_page_align_up]).

    ** How the code is modelled

    - A method that takes [&self] or [&mut self] maps a state record to its
      result and its next state; locks ([Lock]) and atomics are fields.  A lock
      is a value with its poison flag, and the branches for a poisoned lock are
      the code's; no operation of the crate sets the flag.
    - A panic is a value of the monad [comp]: indexing and slicing out of range,
      [expect] and [assert] that fail, overflow.  A function that cannot panic is
      plain.
    - Integers are [Z] with their widths in the hypotheses.  A plain operator is
      [checked]: it panics on overflow under the [dev] profile and wraps under
      [release]; theorems hold for both unless they say so.  [usize] is 64 bits;
      lengths and positions inside one slice are [nat].
    - A [while] loop is [loop] with fuel, and running out is a third outcome,
      apart from results and panics.  The codec's loops take the input's length
      plus one, which the proofs show is never exhausted.  An executor's polling
      loop needs one poll per 10 ms of the allowed time ([enough_polls]), and a
      retry loop one attempt more than the policy's limit; the termination
      theorems conclude that a result is returned under these bounds.
    - The clock, child processes and sleeping are the class [Os] of [Executor] or
      an argument [now].  [f64] ratios are computed by [Float]; the kernels of
      [Simd] are written over the class [FloatOps] of [Float], with [binary32] as
      its IEEE instance.
    - Of the operations of [Os], the write to a child's standard input and the wait
      for a child and its output may never return.  A call that runs into that has
      no result with any fuel; what a child must do for the call to come back is a
      visible hypothesis ([behaved]).
    - A vector with capacity for more than [isize::MAX] bytes panics
      ([allocate_bytes]) where a size comes from the caller: the queues' buffers and
      the block device.  Below that memory is assumed to be there.
    - A call that waits for a lock does not move; nothing bounds how long another
      call is suspended with the lock, so progress is stated as no deadlock, a
      bound on the actions that remain, and what a call made alone does.

    ** What the theorems show

    - Scheduler: in every interleaving of submissions, pops, steals, batch
      steals, stops and added workers no task is lost or duplicated, queues keep
      within capacity and ids are distinct; each submission ends with an id or a
      refusal, and is refused only after a stop, a deactivation or more tasks than
      one queue holds; the locks never deadlock and the calls in flight finish
      within a bound on their actions, but one suspended for ever does block
      others; each method is a run of that system; submit, steal and batch steal choose
      the worker and the tasks the code means to choose.
    - Storage: the codec shortens an input or returns it as it is, decompression
      restores every shortened input and is safe on arbitrary bytes; the zram
      device is a finite map of pages, also for threads that share it, the
      virtio block device an array of bytes on which each admitted request takes
      effect at one instant, no read seeing half a write, also for threads that
      share it, with no deadlock (requests that end at or above 2^64 apart, whose
      overflow is stated); statistics count completed operations, those of
      the block device included, and the sizes of the zram device's kept pages, so
      that its compression ratio is at least 1.
    - Execution: an executor answers if the children do their part, in bounded time
      when a timeout is set, which does not cover a child that never reads its
      input; a pipeline feeds each stage's output to the next; threads that share a
      CPU executor keep its count of running tasks, and a stopped one starts no
      process; the registry picks the first executor that accepts; the pool
      retries as its policy says, its counters account for every submission and
      its success rate is a number between 0 and 1, 1 exactly without failures.
      Threads that share a pool keep the same accounts in every interleaving, lose
      no queued task, get distinct ids and are not refused while there is ample
      room, and [submit], [submit_async] and [shutdown] are runs of that system.
    - Policies: the circuit breaker is the three-state automaton, opens at its
      threshold and blocks until its timeout; shared between threads it never
      deadlocks nor stays open for ever and counts every concurrent failure; the
      failure detector judges each worker by its own events and its last
      heartbeat; delays are bounded and increase.
    - Wire format: frames and typed payloads round-trip; on arbitrary bytes a
      decoder answers with a value or an error, with the exact inputs on which
      it panics.
    - Virtual machines: the life cycle's invariant under interleaving, and the
      sequential machine against its specification.
    - Numeric kernels: every kernel gives the scalar result bit for bit, for all
      capabilities and lengths; the tiled product is the naive one; the AVX2 dot
      product is exact in IEEE [f32] on integers whose products sum below 2^24;
      on any vectors a finite dot product, and a finite entry of a matrix product,
      is within the standard forward error bound of the exact one, whatever the
      kernel; an identity matrix preserves finite matrices.
    - Virtio queues and sockets: a queue is a stack of descriptors, a socket
      device keeps one connection per remote and moves no data.
    - Kernel interfaces: layouts, command numbers, completion results, page
      arithmetic with its overflow, the frames of a DMA buffer, requests, tag-set
      limits.
    - GPU: the device is a memory of numbered buffers; a dispatch only counts.
    - Tests: every assertion of the translated unit tests holds of the model.

    Where the code departs from its own documentation or from what it evidently
    means, the theorem states what it does, and the manifest lists the finding.

    ** Not modelled

    Derived [Debug] output beyond the enumerations [DebugFmt] needs; the
    virtqueue ring memory (plain data no code reads; its layout is in
    [DeviceAbi]); the traits [BlockOps] and [PageAllocator] (neither implemented
    nor called); a failing write to the standard streams; the benchmarks.  Of the
    unit tests, those that start processes, or are about derived [Debug], [Clone]
    and [Copy], and two whose evaluation is too large. *)

From stdpp Require Export base tactics list numbers option strings.
From stdpp Require Export gmap.
From stdpp Require Export list_monad.
From Stdlib Require Export Lia ZifyBool ZifyNat.
#[global] Open Scope Z_scope.
#[global] Set Default Proof Using "Type".

(** ** Panics, divergence and the monad of computations

    A Rust function either returns a value or panics (the crate is built with
    [panic = "abort"], so a panic is not caught).  A [while] loop is run with
    fuel, and running out of fuel is a third outcome, never confused with a
    result: the termination theorems say that it does not happen. *)

Inductive comp (A : Type) : Type :=
| Ret (a : A)
| Panic
| OutOfFuel.
Arguments Ret {A} _.
Arguments Panic {A}.
Arguments OutOfFuel {A}.

#[export] Instance comp_ret : MRet comp := @Ret.
#[export] Instance comp_bind : MBind comp := fun A B f m =>
  match m with
  | Ret a => f a
  | Panic => Panic
  | OutOfFuel => OutOfFuel
  end.
#[export] Instance comp_fmap : FMap comp := fun A B f m =>
  match m with
  | Ret a => Ret (f a)
  | Panic => Panic
  | OutOfFuel => OutOfFuel
  end.

(** Rust's [Result<T, E>]. *)
Inductive result (E A : Type) : Type :=
| Ok (a : A)
| Err (e : E).
Arguments Ok {E A} _.
Arguments Err {E A} _.

#[export] Instance result_ret E : MRet (result E) := @Ok E.
#[export] Instance result_bind E : MBind (result E) := fun A B f m =>
  match m with
  | Ok a => f a
  | Err e => Err e
  end.
#[export] Instance result_fmap E : FMap (result E) := fun A B f m =>
  match m with
  | Ok a => Ok (f a)
  | Err e => Err e
  end.

#[export] Instance result_eq_dec E A `{EqDecision E, EqDecision A} : EqDecision (result E A).
Proof. solve_decision. Defined.
#[export] Instance comp_eq_dec A `{EqDecision A} : EqDecision (comp A).
Proof. solve_decision. Defined.

(** [ok_or] and the [?] operator under a possible panic. *)
Definition ok_or {E A} (e : E) (o : option A) : result E A :=
  match o with Some a => Ok a | None => Err e end.

Definition comp_try {E A B} (m : comp (result E A)) (k : A -> comp (result E B)) :
  comp (result E B) :=
  r ← m; match r with Ok a => k a | Err e => Ret (Err e) end.

Declare Scope pepita_scope.
Delimit Scope pepita_scope with pepita.
#[global] Open Scope pepita_scope.

Notation "x '←?' m ; k" := (comp_try m (fun x => k))
  (at level 20, m at level 100, k at level 200, right associativity) : pepita_scope.

(** [returns m Q]: [m] terminates without a panic, in a value that satisfies [Q]. *)
Definition returns {A} (m : comp A) (Q : A -> Prop) : Prop :=
  exists a, m = Ret a /\ Q a.

Lemma returns_ret {A} (a : A) (Q : A -> Prop) : Q a -> returns (Ret a) Q.
Proof. intros H; exists a; auto. Qed.

Lemma returns_bind {A B} (m : comp A) (k : A -> comp B) (P : A -> Prop) (Q : B -> Prop) :
  returns m P -> (forall a, P a -> returns (k a) Q) -> returns (m ≫= k) Q.
Proof. intros (a & -> & Ha) Hk. apply Hk, Ha. Qed.

Lemma returns_mono {A} (m : comp A) (P Q : A -> Prop) :
  returns m P -> (forall a, P a -> Q a) -> returns m Q.
Proof. intros (a & -> & Ha) H; exists a; auto. Qed.

Lemma bind_ret {A B} (a : A) (k : A -> comp B) : Ret a ≫= k = k a.
Proof. reflexivity. Qed.

Lemma bind_ret_inv {A B} (m : comp A) (k : A -> comp B) b :
  m ≫= k = Ret b -> exists a, m = Ret a /\ k a = Ret b.
Proof. destruct m; intros H; [eauto | done | done]. Qed.

Lemma comp_bind_assoc {A B C} (m : comp A) (f : A -> comp B) (g : B -> comp C) :
  (m ≫= f) ≫= g = m ≫= (fun a => f a ≫= g).
Proof. destruct m; reflexivity. Qed.

(** ** Machine integers

    A [w]-bit unsigned integer is a [Z] in [[0, 2^w)]; a signed one is in
    [[-2^(w-1), 2^(w-1))].  [as] casts and the [wrapping_*] operations reduce
    modulo [2^w]; the plain operators [+], [-], [*] panic on overflow when the
    build has overflow checks (the dev profile) and wrap when it has not (the
    release profile), which is the parameter [overflow_checks]. *)

Definition wrap (w z : Z) : Z := z mod 2 ^ w.
Definition swrap (w z : Z) : Z := (z + 2 ^ (w - 1)) mod 2 ^ w - 2 ^ (w - 1).
Definition uint (w z : Z) : Prop := 0 <= z < 2 ^ w.
Definition sint (w z : Z) : Prop := - 2 ^ (w - 1) <= z < 2 ^ (w - 1).

#[export] Instance uint_dec w z : Decision (uint w z).
Proof. unfold uint; apply _. Defined.
#[export] Instance sint_dec w z : Decision (sint w z).
Proof. unfold sint; apply _. Defined.

Abbreviation u8 := (uint 8).
Abbreviation u16 := (uint 16).
Abbreviation u32 := (uint 32).
Abbreviation u64 := (uint 64).
Abbreviation i32 := (sint 32).

(** Maximum of an unsigned width ([u64::MAX] is [umax 64]). *)
Definition umax (w : Z) : Z := 2 ^ w - 1.

Class Profile := overflow_checks : bool.
Definition dev : Profile := true.
Definition release : Profile := false.

Section arith.
Context {prof : Profile}.

(** The value [z] of a plain operator at width [w]. *)
Definition checked (w z : Z) : comp Z :=
  if decide (uint w z) then Ret z
  else if overflow_checks then Panic else Ret (wrap w z).

Definition schecked (w z : Z) : comp Z :=
  if decide (sint w z) then Ret z
  else if overflow_checks then Panic else Ret (swrap w z).

Definition add_w (w a b : Z) : comp Z := checked w (a + b).
Definition sub_w (w a b : Z) : comp Z := checked w (a - b).
Definition mul_w (w a b : Z) : comp Z := checked w (a * b).
Definition neg_w (w a : Z) : comp Z := schecked w (- a).

Lemma checked_in w z : uint w z -> checked w z = Ret z.
Proof. intros; unfold checked; by rewrite decide_True. Qed.

Lemma checked_out w z :
  ~ uint w z -> checked w z = if overflow_checks then Panic else Ret (wrap w z).
Proof. intros; unfold checked; by rewrite decide_False. Qed.

Lemma schecked_in w z : sint w z -> schecked w z = Ret z.
Proof. intros; unfold schecked; by rewrite decide_True. Qed.

(** Without overflow checks a plain operator wraps. *)
Lemma checked_wraps w z : overflow_checks = false -> checked w z = Ret (wrap w z).
Proof.
  unfold checked, wrap. intros ->. case_decide as Hz; [| done].
  by rewrite Z.mod_small.
Qed.

End arith.

(** The operators that never panic. *)
Definition saturating_add (w a b : Z) : Z := Z.min (a + b) (umax w).
Definition saturating_sub (a b : Z) : Z := Z.max (a - b) 0.
Definition saturating_mul (w a b : Z) : Z := Z.min (a * b) (umax w).
Definition checked_add (w a b : Z) : option Z :=
  if decide (uint w (a + b)) then Some (a + b) else None.

Lemma wrap_id w z : uint w z -> wrap w z = z.
Proof. intros; by apply Z.mod_small. Qed.

Lemma wrap_add_wrap w a b : wrap w (wrap w a + b) = wrap w (a + b).
Proof. unfold wrap. apply Zplus_mod_idemp_l. Qed.

Lemma wrap_uint w z : 0 <= w -> uint w (wrap w z).
Proof. intros; apply Z.mod_pos_bound; lia. Qed.

Lemma swrap_id w z : 0 < w -> sint w z -> swrap w z = z.
Proof.
  intros Hw Hz; unfold swrap, sint in *.
  assert (2 ^ w = 2 * 2 ^ (w - 1)) by (rewrite <- Z.pow_succ_r by lia; f_equal; lia).
  rewrite Z.mod_small; lia.
Qed.

Lemma wrap_swrap w z : 0 < w -> wrap w (swrap w z) = wrap w z.
Proof.
  intros Hw; unfold wrap, swrap.
  rewrite Zminus_mod_idemp_l. f_equal; lia.
Qed.

Lemma uint_mono w w' z : 0 <= w <= w' -> uint w z -> uint w' z.
Proof.
  intros Hw [? ?]; split; [done |].
  assert (2 ^ w <= 2 ^ w') by (apply Z.pow_le_mono_r; lia). lia.
Qed.

(** Range goals: the widths' powers as numerals, then [lia]. *)
Ltac width_simpl :=
  unfold wrap, umax, uint, sint in *;
  change (2 ^ (32 - 1)) with 2147483648 in *; change (2 ^ (64 - 1)) with 9223372036854775808 in *;
  change (2 ^ 8) with 256 in *; change (2 ^ 16) with 65536 in *;
  change (2 ^ 32) with 4294967296 in *; change (2 ^ 64) with 18446744073709551616 in *.
Ltac width := width_simpl; lia.

(** A 512-byte sector number times the sector size, on [u64]. *)
Lemma sector_offset {P : Profile} x :
  u64 x ->
  mul_w 64 x 512 =
    (if x <? 2 ^ 55 then Ret (x * 512)
     else if overflow_checks then Panic else Ret (x mod 2 ^ 55 * 512)).
Proof.
  intros Hx. unfold mul_w, uint in *. destruct (Z.ltb_spec x (2 ^ 55)) as [H | H].
  - apply checked_in. unfold uint. lia.
  - rewrite checked_out by (unfold uint; lia). destruct overflow_checks; [done |].
    unfold wrap. change (2 ^ 64) with (2 ^ 55 * 512). by rewrite Z.mul_mod_distr_r.
Qed.

(** ** Flag words *)

(** The test of a single-bit mask, as the code writes it. *)
Lemma bit_set x k : 0 <= k -> negb (Z.land x (Z.shiftl 1 k) =? 0) = Z.testbit x k.
Proof.
  intros Hk. destruct (Z.testbit x k) eqn:Hb.
  - apply negb_true_iff, Z.eqb_neq. intros H. apply (f_equal (fun y => Z.testbit y k)) in H.
    rewrite Z.land_spec, Z.shiftl_spec, Hb, Z.sub_diag, Z.bits_0 in H by done. done.
  - apply negb_false_iff, Z.eqb_eq, Z.bits_inj'. intros n Hn.
    rewrite Z.land_spec, Z.shiftl_spec, Z.bits_0 by done.
    destruct (Z.eq_dec n k) as [-> | Hne]; [by rewrite Hb |].
    destruct (Z.lt_decidable n k).
    + rewrite (Z.testbit_neg_r 1) by lia. apply andb_false_r.
    + rewrite (Z.bits_above_log2 1); [apply andb_false_r | done | change (Z.log2 1) with 0; lia].
Qed.

(** Setting a bit sets it and leaves the others. *)
Lemma set_bit x k i : 0 <= k -> Z.testbit (Z.lor x (Z.shiftl 1 k)) i = Z.testbit x i || (i =? k).
Proof.
  intros Hk. destruct (Z.lt_decidable i 0) as [Hi | Hi].
  { rewrite !Z.testbit_neg_r by done. symmetry. apply Z.eqb_neq. lia. }
  rewrite Z.lor_spec, Z.shiftl_spec by lia. f_equal.
  destruct (Z.eqb_spec i k) as [-> | Hne]; [by rewrite Z.sub_diag |].
  destruct (Z.lt_decidable i k); [apply Z.testbit_neg_r; lia |].
  apply Z.bits_above_log2; [done | change (Z.log2 1) with 0; lia].
Qed.

(** ** Slices

    [bytes[i]], [&s[a..b]], [&s[a..]] and [dst[a..b].copy_from_slice(src)]
    panic when out of range. *)

Section slices.
Context {A : Type}.

Definition index (l : list A) (i : nat) : comp A :=
  match l !! i with Some a => Ret a | None => Panic end.

Definition index_set (l : list A) (i : nat) (a : A) : comp (list A) :=
  if decide (i < length l)%nat then Ret (<[i := a]> l) else Panic.

Definition slice (l : list A) (a b : nat) : comp (list A) :=
  if decide (a <= b /\ b <= length l)%nat then Ret (take (b - a) (drop a l)) else Panic.

Definition slice_from (l : list A) (a : nat) : comp (list A) := slice l a (length l).

(** [Vec::with_capacity] and [vec![x; n]] for so many bytes: above [isize::MAX]
    they panic, "capacity overflow".  Below, the memory is assumed to be there. *)
Definition allocate_bytes (n : Z) : comp unit := if n <? 2 ^ 63 then Ret tt else Panic.

(** [l[a..b].copy_from_slice(src)]: the range must exist and the lengths agree. *)
Definition copy_from_slice (l : list A) (a b : nat) (src : list A) : comp (list A) :=
  if decide (a <= b /\ b <= length l /\ length src = b - a)%nat
  then Ret (take a l ++ src ++ drop b l) else Panic.

(** [l[a..b].fill(v)]. *)
Definition fill (l : list A) (a b : nat) (v : A) : comp (list A) :=
  if decide (a <= b /\ b <= length l)%nat
  then Ret (take a l ++ replicate (b - a) v ++ drop b l) else Panic.

Lemma index_lookup l i a : l !! i = Some a -> index l i = Ret a.
Proof. unfold index; by intros ->. Qed.

Lemma index_lt l i : (i < length l)%nat -> exists a, l !! i = Some a /\ index l i = Ret a.
Proof.
  intros [a Ha]%lookup_lt_is_Some. exists a; split; [done | by apply index_lookup].
Qed.

Lemma index_drop l i a r : drop i l = a :: r -> index l i = Ret a /\ drop (S i) l = r.
Proof.
  intros H. assert (Hl : l !! i = Some a).
  { rewrite <- (Nat.add_0_r i), <- lookup_drop, H. done. }
  split; [by apply index_lookup |].
  rewrite (drop_S _ _ _ Hl) in H. by injection H.
Qed.

Lemma slice_ok l a b :
  (a <= b)%nat -> (b <= length l)%nat -> slice l a b = Ret (take (b - a) (drop a l)).
Proof. intros; unfold slice; by rewrite decide_True. Qed.

Lemma slice_from_ok l a : (a <= length l)%nat -> slice_from l a = Ret (drop a l).
Proof.
  intros; unfold slice_from; rewrite slice_ok by lia.
  by rewrite take_ge by (rewrite length_drop; lia).
Qed.

Lemma copy_from_slice_ok l a b src :
  (a <= b)%nat -> (b <= length l)%nat -> length src = (b - a)%nat ->
  copy_from_slice l a b src = Ret (take a l ++ src ++ drop b l).
Proof. intros; unfold copy_from_slice; by rewrite decide_True. Qed.

Lemma fill_ok l a b v :
  (a <= b)%nat -> (b <= length l)%nat ->
  fill l a b v = Ret (take a l ++ replicate (b - a) v ++ drop b l).
Proof. intros; unfold fill; by rewrite decide_True. Qed.

End slices.

(** ** Loops *)

(** [while]: [body] returns the next state ([inl]) or leaves the loop ([inr]). *)
Fixpoint loop {S A} (fuel : nat) (body : S -> comp (S + A)) (s : S) : comp A :=
  match fuel with
  | O => OutOfFuel
  | Datatypes.S fuel' =>
      r ← body s;
      match r with
      | inl s' => loop fuel' body s'
      | inr a => Ret a
      end
  end.

#[global] Arguments Nat.leb : simpl never.
#[global] Arguments Nat.ltb : simpl never.
#[global] Arguments index : simpl never.
#[global] Arguments slice : simpl never.

(** Total correctness: an invariant, a variant and an exit condition. *)
Lemma loop_total {S A} (body : S -> comp (S + A)) (I : S -> Prop) (m : S -> nat) (Q : A -> Prop) :
  (forall s, I s -> returns (body s) (fun r =>
     match r with inl s' => I s' /\ (m s' < m s)%nat | inr a => Q a end)) ->
  forall fuel s, I s -> (m s < fuel)%nat -> returns (loop fuel body s) Q.
Proof.
  intros Hbody fuel; induction fuel as [|fuel IH]; intros s HI Hm; [lia |]. cbn [loop].
  destruct (Hbody s HI) as ([s' | a] & -> & H); cbn.
  - apply IH; [tauto | lia].
  - by apply returns_ret.
Qed.

Lemma loop_S {S A} fuel (body : S -> comp (S + A)) s :
  loop (Datatypes.S fuel) body s =
  (r ← body s; match r with inl s' => loop fuel body s' | inr a => Ret a end).
Proof. reflexivity. Qed.

(** More fuel does not change a result. *)
Lemma loop_mono {S A} (body : S -> comp (S + A)) fuel fuel' s a :
  loop fuel body s = Ret a -> (fuel <= fuel')%nat -> loop fuel' body s = Ret a.
Proof.
  revert fuel' s; induction fuel as [|fuel IH]; intros fuel' s H Hle; [done |].
  destruct fuel' as [|fuel']; [lia |]. cbn [loop] in *.
  destruct (body s) as [[s' | a'] | |]; cbn in *; try done.
  apply IH; [done | lia].
Qed.

#[global] Arguments loop : simpl never.

(** [for x in l]: the body may panic. *)
Fixpoint for_each {S X} (l : list X) (body : X -> S -> comp S) (s : S) : comp S :=
  match l with
  | [] => Ret s
  | x :: l' => s' ← body x s; for_each l' body s'
  end.

Lemma for_each_app {S X} (l1 l2 : list X) (body : X -> S -> comp S) s :
  for_each (l1 ++ l2) body s = (s' ← for_each l1 body s; for_each l2 body s').
Proof.
  revert s; induction l1 as [|x l1 IH]; intros s; cbn; [done |].
  destruct (body x s); cbn; [apply IH | done | done].
Qed.

Lemma for_each_ext {S X} (l : list X) (f g : X -> S -> comp S) s :
  (forall x s, x ∈ l -> f x s = g x s) -> for_each l f s = for_each l g s.
Proof.
  revert s; induction l as [|x l IH]; intros s H; cbn; [done |].
  rewrite H by left. destruct (g x s); cbn; [| done | done].
  apply IH; intros; apply H; by right.
Qed.

(** A nested loop is one loop over the flattened list of steps. *)
Lemma for_each_flat {S X Y} (l : list X) (f : X -> list Y) (body : Y -> S -> comp S) s :
  for_each l (fun x => for_each (f x) body) s = for_each (flat_map f l) body s.
Proof.
  revert s; induction l as [|x l IH]; intros s; cbn; [done |].
  rewrite for_each_app. destruct (for_each (f x) body s); cbn; auto.
Qed.

(** The rules of [for i in start..start + n] and of [for i in 0..n]. *)
Lemma for_seq {S} (start n : nat) (body : nat -> S -> comp S) (I : nat -> S -> Prop) s :
  I start s ->
  (forall i s, (start <= i < start + n)%nat -> I i s -> returns (body i s) (I (Datatypes.S i))) ->
  returns (for_each (seq start n) body s) (I (start + n)%nat).
Proof.
  intros H0 Hstep. induction n as [|n IH]; [rewrite Nat.add_0_r; by apply returns_ret |].
  rewrite seq_S, for_each_app; cbn.
  eapply returns_bind; [apply IH; intros; apply Hstep; [lia | done] |].
  intros s' Hs'. eapply returns_bind; [apply Hstep; [lia | exact Hs'] |].
  intros; rewrite Nat.add_succ_r; by apply returns_ret.
Qed.

Lemma for_range {S} (n : nat) (body : nat -> S -> comp S) (I : nat -> S -> Prop) s :
  I O s ->
  (forall i s, (i < n)%nat -> I i s -> returns (body i s) (I (Datatypes.S i))) ->
  returns (for_each (seq 0 n) body s) (I n).
Proof. intros H0 Hstep. apply (for_seq 0 n body I); [done | intros; apply Hstep; [lia | done]]. Qed.

(** ** Locks

    [Mutex] and [RwLock] carry a poison flag: [lock()], [read()] and [write()]
    fail when a holder has panicked.  No operation of the crate sets the flag
    itself; the code still handles it, and the models keep that branch. *)

Record Lock (A : Type) : Type := mkLock { content : A; poisoned : bool }.
Arguments mkLock {A} _ _.
Arguments content {A} _.
Arguments poisoned {A} _.

Definition lock_new {A} (a : A) : Lock A := mkLock a false.
Definition lock {A} (l : Lock A) : option A :=
  if poisoned l then None else Some (content l).
(** The guard's writes: the content changes, the flag does not. *)
Definition lock_set {A} (l : Lock A) (a : A) : Lock A := mkLock a (poisoned l).
(** [.expect("lock poisoned")]. *)
Definition expect {A} (o : option A) : comp A :=
  match o with Some a => Ret a | None => Panic end.

Lemma lock_healthy {A} (l : Lock A) : poisoned l = false -> lock l = Some (content l).
Proof. unfold lock; by intros ->. Qed.

(** ** Automation *)

(** Lemmas that compute an operation whose side conditions [lia] proves. *)
Create HintDb comp.
Create Rewrite HintDb comp.
#[export] Hint Resolve returns_ret : comp.
#[export] Hint Rewrite @bind_ret : comp.
#[export] Hint Rewrite @checked_in @schecked_in using width : comp.
#[export] Hint Rewrite @slice_ok @slice_from_ok @copy_from_slice_ok @fill_ok
  using (rewrite ?length_app, ?length_take, ?length_drop, ?length_insert, ?length_replicate; lia) : comp.

(** Splits a boolean/decidable test of the goal or of a hypothesis. *)
Ltac case_test :=
  match goal with
  | |- context [decide ?P] => destruct (decide P)
  | H : context [decide ?P] |- _ => destruct (decide P)
  | |- context [if ?b then _ else _] => destruct b eqn:?
  | H : context [if ?b then _ else _] |- _ => destruct b eqn:?
  end.

(** Boolean comparisons as propositions [lia] reads. *)
Ltac to_prop :=
  repeat match goal with
  | H : _ && _ = true |- _ => apply andb_true_iff in H as [? ?]
  | H : _ || _ = false |- _ => apply orb_false_iff in H as [? ?]
  | H : negb _ = true |- _ => apply negb_true_iff in H
  | H : negb _ = false |- _ => apply negb_false_iff in H
  end.

(** ** Builders

    The last value a selector picks from a sequence of calls, or the default. *)

Definition latest {O A} (d : A) (sel : O -> option A) (ops : list O) : A :=
  default d (last (omap sel ops)).

Lemma latest_snoc {O A} (d : A) (sel : O -> option A) ops o :
  latest d sel (ops ++ [o]) = match sel o with Some a => a | None => latest d sel ops end.
Proof.
  unfold latest. rewrite omap_app. cbn. destruct (sel o) as [a |]; cbn.
  - by rewrite last_snoc.
  - by rewrite app_nil_r.
Qed.
