(* ===== verification/Float.v ===== *)
(** * Float: IEEE 754 arithmetic

    [f32] and [f64] as the Standard Library's specification of binary
    floating-point numbers ([SpecFloat], which computes and rounds to nearest,
    ties to even), and what the models need of it: the conversion from
    integers, and the exactness of sums and products of integers that the
    significand can hold. *)

From Stdlib Require Import SpecFloat.
From S2P Require Import Prelude.

(** ** Exact integers

    [holds_int prec emax x z]: the number [x] is canonical and its value is the
    integer [z].  Values are compared after scaling by [2^K], which makes every
    exponent that occurs non-negative. *)

#[local] Set Default Proof Using "All".

Section exact.
Context (prec emax : Z) (Hprec : 1 < prec) (Hemax : prec < emax).

#[local] Abbreviation K := (2 * (emax + prec)).
#[local] Abbreviation emin := (emin prec emax).
#[local] Abbreviation fexp := (fexp prec emax).

(** The positive mantissa [m] with exponent [e] has the value [z]. *)
Definition scaled (m e z : Z) : Prop := 0 <= e + K /\ m * 2 ^ (e + K) = z * 2 ^ K.

Definition holds_int (x : spec_float) (z : Z) : Prop :=
  match x with
  | S754_zero _ => z = 0
  | S754_finite s m e => bounded prec emax m e = true /\ scaled (cond_Zopp s (Zpos m)) e z
  | _ => False
  end.

Lemma digits2_log2 m : Zpos (digits2_pos m) = Z.log2 (Zpos m) + 1.
Proof.
  induction m as [m IH | m IH |]; cbn [digits2_pos]; [| | done].
  - rewrite Pos2Z.inj_succ, IH.
    change (Zpos m~1) with (2 * Zpos m + 1). rewrite Z.log2_succ_double by lia. lia.
  - rewrite Pos2Z.inj_succ, IH.
    change (Zpos m~0) with (2 * Zpos m). rewrite Z.log2_double by lia. lia.
Qed.

Lemma scaled_log2 m e z : 0 < m -> 0 < z -> scaled m e z -> Z.log2 m + e = Z.log2 z.
Proof.
  intros Hm Hz [He H]. apply (f_equal Z.log2) in H.
  rewrite !Z.log2_mul_pow2 in H by lia. lia.
Qed.

Lemma scaled_pos m e z : scaled m e z -> 0 < z <-> 0 < m.
Proof.
  intros [He H]. pose proof (Z.pow_pos_nonneg 2 (e + K) ltac:(done) He).
  pose proof (Z.pow_pos_nonneg 2 K ltac:(done) ltac:(lia)). nia.
Qed.

Lemma scaled_inj m m' e z : scaled m e z -> scaled m' e z -> m = m'.
Proof.
  intros [He H] [_ H']. pose proof (Z.pow_pos_nonneg 2 (e + K) ltac:(done) He). nia.
Qed.

Lemma scaled_shift m e d z : 0 <= d -> 0 <= e + K -> scaled (m * 2 ^ d) e z <-> scaled m (e + d) z.
Proof.
  intros Hd He. unfold scaled.
  replace (e + d + K) with (d + (e + K)) by lia. rewrite (Z.pow_add_r 2 d) by lia.
  rewrite Z.mul_assoc. split; intros [_ H]; split; (lia || exact H).
Qed.

(** The exponent of an integer below [2^prec]. *)
Lemma fexp_int L : 0 <= L <= prec -> fexp (L + 1) = L + 1 - prec.
Proof. unfold SpecFloat.fexp, SpecFloat.emin. lia. Qed.

(** The canonical significand of an integer. *)
Lemma significand z :
  0 < z <= 2 ^ prec ->
  exists q, 0 < q /\ scaled q (Z.log2 z + 1 - prec) z.
Proof.
  intros [Hz Hmax]. set (L := Z.log2 z).
  assert (0 <= L) by apply Z.log2_nonneg.
  assert (L <= prec) by (subst L; rewrite <- (Z.log2_pow2 prec) by lia; by apply Z.log2_le_mono).
  destruct (decide (L = prec)) as [E | E].
  - exists (2 ^ (prec - 1)). split; [by apply Z.pow_pos_nonneg; lia |].
    assert (z = 2 ^ prec) as ->.
    { apply Z.le_antisymm; [done |]. rewrite <- E. by apply Z.log2_spec. }
    rewrite E. split; [lia |]. rewrite <- !Z.pow_add_r by lia. f_equal; lia.
  - exists (z * 2 ^ (prec - 1 - L)). split.
    + apply Z.mul_pos_pos; [done |]. apply Z.pow_pos_nonneg; lia.
    + apply scaled_shift; [lia | lia |]. split; [lia |]. f_equal. f_equal. lia.
Qed.

(** ** Shifting out zeros *)

Lemma iter_pos_nat {A} (f : A -> A) p x : SpecFloat.iter_pos f p x = Nat.iter (Pos.to_nat p) f x.
Proof.
  revert x; induction p as [p IH | p IH |]; intros x; cbn [SpecFloat.iter_pos]; [| | done].
  - rewrite !IH, <- Nat.iter_add. rewrite Pos2Nat.inj_xI.
    replace (S (2 * Pos.to_nat p)) with (S (Pos.to_nat p + Pos.to_nat p)) by lia.
    by rewrite Nat.iter_succ_r.
  - rewrite !IH, <- Nat.iter_add. f_equal. lia.
Qed.

Lemma shr_1_double q : 0 < q ->
  shr_1 (Build_shr_record (2 * q) false false) = Build_shr_record q false false.
Proof. by destruct q. Qed.

Lemma shr_exact q e n :
  0 < q -> 0 <= n ->
  shr (Build_shr_record (q * 2 ^ n) false false) e n = (Build_shr_record q false false, e + n).
Proof.
  intros Hq Hn. destruct n as [| p | p]; [| | lia].
  - cbn [shr]. by rewrite Z.mul_1_r, Z.add_0_r.
  - cbn [shr]. rewrite iter_pos_nat. f_equal.
    rewrite <- (positive_nat_Z p). generalize (Pos.to_nat p) as k.
    induction k as [|k IH]; [cbn; by rewrite Z.mul_1_r |].
    rewrite Nat2Z.inj_succ, Z.pow_succ_r by lia.
    rewrite Nat.iter_succ_r. replace (q * (2 * 2 ^ Z.of_nat k)) with (2 * (q * 2 ^ Z.of_nat k)) by lia.
    rewrite shr_1_double; [done |]. apply Z.mul_pos_pos; [done |]. apply Z.pow_pos_nonneg; lia.
Qed.

(** ** Rounding an integer is exact *)

Lemma round_aux_exact s m e z :
  0 < z <= 2 ^ prec -> scaled (Zpos m) e z -> e <= Z.log2 z + 1 - prec ->
  holds_int (binary_round_aux prec emax s (Zpos m) e loc_Exact) (cond_Zopp s z).
Proof.
  intros Hz Hm He. destruct (significand z Hz) as (q & Hq & Hqz).
  set (E := Z.log2 z + 1 - prec) in *.
  assert (HL : 0 <= Z.log2 z <= prec).
  { split; [apply Z.log2_nonneg |]. rewrite <- (Z.log2_pow2 prec) by lia.
    apply Z.log2_le_mono, Hz. }
  assert (Hmq : Zpos m = q * 2 ^ (E - e)).
  { apply (scaled_inj _ _ e z); [done |]. apply scaled_shift; [lia | apply Hm |].
    by replace (e + (E - e)) with E by lia. }
  assert (Hlm : Z.log2 (Zpos m) + e = Z.log2 z) by (apply scaled_log2; [done | lia | done]).
  assert (Hlq : Z.log2 q + E = Z.log2 z) by (apply scaled_log2; [done | lia | done]).
  unfold binary_round_aux, shr_fexp. cbn [shr_record_of_loc Zdigits2].
  rewrite digits2_log2. replace (Z.log2 (Zpos m) + 1 + e) with (Z.log2 z + 1) by lia.
  rewrite fexp_int by done. fold E. rewrite Hmq, shr_exact by lia.
  replace (e + (E - e)) with E by lia. cbn [shr_m loc_of_shr_record round_nearest_even].
  destruct q as [| q | q]; [lia | | lia]. cbn [shr_record_of_loc Zdigits2].
  rewrite digits2_log2. replace (Z.log2 (Zpos q) + 1 + E) with (Z.log2 z + 1) by lia.
  rewrite fexp_int by done. fold E. rewrite Z.sub_diag. cbn [shr shr_m].
  destruct (Z.leb_spec E (emax - prec)); [| lia]. cbn [holds_int]. split.
  - unfold bounded, canonical_mantissa. rewrite digits2_log2.
    replace (Z.log2 (Zpos q) + 1 + E) with (Z.log2 z + 1) by lia.
    rewrite fexp_int by done. fold E. rewrite Z.eqb_refl. cbn. by apply Z.leb_le.
  - destruct Hqz as [HE Hqz]. split; [done |]. destruct s; cbn [cond_Zopp]; [| done].
    change (Z.neg q) with (- Z.pos q). rewrite !Z.mul_opp_l. by f_equal.
Qed.

Lemma shl_align_value m e e' :
  e' <= e -> Zpos (shl_align m e e').1 = Zpos m * 2 ^ (e - e') /\ (shl_align m e e').2 = e'.
Proof.
  intros He. unfold shl_align. destruct (e' - e) as [| d | d] eqn:Ed; [| lia |]; cbn [fst snd].
  - replace (e - e') with 0 by lia. split; [by rewrite Z.mul_1_r | lia].
  - split; [| done]. replace (e - e') with (Zpos d) by lia. clear.
    rewrite <- (positive_nat_Z d), Pos2Nat.inj_iter. generalize (Pos.to_nat d) as k.
    induction k as [|k IH]; [cbn; by rewrite Z.mul_1_r |].
    rewrite Nat2Z.inj_succ, Z.pow_succ_r by lia. cbn [nat_rect].
    match goal with |- Z.pos ?p~0 = _ => change (Z.pos p~0) with (2 * Z.pos p) end.
    rewrite IH. lia.
Qed.

Lemma round_exact s m e z :
  0 < z <= 2 ^ prec -> scaled (Zpos m) e z ->
  holds_int (binary_round prec emax s m e) (cond_Zopp s z).
Proof.
  intros Hz Hm. unfold binary_round.
  assert (HL : 0 <= Z.log2 z <= prec).
  { split; [apply Z.log2_nonneg |]. rewrite <- (Z.log2_pow2 prec) by lia.
    apply Z.log2_le_mono, Hz. }
  assert (Hlm : Z.log2 (Zpos m) + e = Z.log2 z) by (apply scaled_log2; [done | lia | done]).
  rewrite digits2_log2. replace (Z.log2 (Zpos m) + 1 + e) with (Z.log2 z + 1) by lia.
  rewrite fexp_int by done. set (E := Z.log2 z + 1 - prec).
  destruct (Z.le_gt_cases E e) as [He | He].
  - destruct (shl_align_value m e E He) as [Hv He']. destruct (shl_align m e E) as [m' e'].
    cbn [fst snd] in *. subst e'. apply round_aux_exact; [done | | done].
    rewrite Hv. apply scaled_shift; [lia | lia |]. by replace (E + (e - E)) with e by lia.
  - unfold shl_align. destruct (E - e) eqn:Ed; [lia | | lia].
    apply round_aux_exact; [done | done | lia].
Qed.

Lemma scaled_opp m e z : scaled m e z -> scaled (- m) e (- z).
Proof. unfold scaled. lia. Qed.

Lemma scaled_sum m m' e z z' : scaled m e z -> scaled m' e z' -> scaled (m + m') e (z + z').
Proof. unfold scaled. lia. Qed.

Lemma scaled_zero m e z : scaled m e z -> m = 0 <-> z = 0.
Proof.
  intros [He H]. pose proof (Z.pow_pos_nonneg 2 (e + K) ltac:(done) He).
  pose proof (Z.pow_pos_nonneg 2 K ltac:(done) ltac:(lia)). nia.
Qed.

Lemma normalize_exact m e z b :
  scaled m e z -> Z.abs z <= 2 ^ prec -> holds_int (binary_normalize prec emax m e b) z.
Proof.
  intros Hm Hz. pose proof (scaled_zero _ _ _ Hm) as H0. pose proof (scaled_pos _ _ _ Hm) as Hp.
  destruct m as [| m | m]; cbn [binary_normalize holds_int]; [tauto | |].
  - apply (round_exact false); [lia | done].
  - replace z with (cond_Zopp true (- z)) by (cbn; lia).
    apply round_exact; [lia |]. by apply (scaled_opp (Zneg m)).
Qed.

(** Integers convert exactly. *)
Definition of_int (z : Z) : spec_float := binary_normalize prec emax z 0 false.

Lemma of_int_holds z : Z.abs z <= 2 ^ prec -> holds_int (of_int z) z.
Proof. apply normalize_exact. split; [lia | done]. Qed.

Lemma holds_aligned s m e ez z :
  holds_int (S754_finite s m e) z -> ez <= e -> 0 <= ez + K ->
  scaled (cond_Zopp s (Zpos (shl_align m e ez).1)) ez z.
Proof.
  intros [_ Hm] He Hez. rewrite (proj1 (shl_align_value m e ez He)).
  replace (cond_Zopp s (Z.pos m * 2 ^ (e - ez))) with (cond_Zopp s (Z.pos m) * 2 ^ (e - ez))
    by (destruct s; cbn [cond_Zopp]; lia).
  apply scaled_shift; [lia | done |]. by replace (ez + (e - ez)) with e by lia.
Qed.

Lemma add_exact x y a b :
  holds_int x a -> holds_int y b -> Z.abs (a + b) <= 2 ^ prec ->
  holds_int (SFadd prec emax x y) (a + b).
Proof.
  intros Hx Hy Hab.
  destruct x as [s1 | s1 | | s1 m1 e1]; [| done | done |];
    destruct y as [s2 | s2 | | s2 m2 e2]; try done; cbn [SFadd].
  - cbn in Hx, Hy. subst. by destruct s1, s2.
  - cbn in Hx. subst. by rewrite Z.add_0_l.
  - cbn in Hy. subst. by rewrite Z.add_0_r.
  - pose proof Hx as [_ [H1 _]]. pose proof Hy as [_ [H2 _]].
    apply normalize_exact; [| done]. apply scaled_sum; apply holds_aligned; (done || lia).
Qed.

(** The significand of a non-zero integer uses every bit. *)
Lemma holds_full s m e z :
  holds_int (S754_finite s m e) z -> Z.abs z <= 2 ^ prec ->
  0 < Z.abs z /\ scaled (Zpos m) e (Z.abs z) /\ Z.log2 (Zpos m) = prec - 1 /\
  e = Z.log2 (Z.abs z) + 1 - prec /\ z = cond_Zopp s (Z.abs z).
Proof.
  intros [Hb Hm] Hz.
  assert (Hs : scaled (Zpos m) e (Z.abs z) /\ z = cond_Zopp s (Z.abs z)).
  { destruct s; cbn [cond_Zopp] in *.
    - pose proof (scaled_opp _ _ _ Hm) as Hm'. rewrite Z.opp_involutive in Hm'.
      pose proof (proj2 (scaled_pos _ _ _ Hm') ltac:(done)).
      replace (Z.abs z) with (- z) by lia. split; [done | lia].
    - pose proof (proj2 (scaled_pos _ _ _ Hm) ltac:(done)).
      replace (Z.abs z) with z by lia. done. }
  destruct Hs as [Hs Hz'].
  assert (0 < Z.abs z) by (by apply (scaled_pos _ _ _ Hs)).
  assert (Hl : Z.log2 (Zpos m) + e = Z.log2 (Z.abs z)) by by apply scaled_log2.
  assert (HL : 0 <= Z.log2 (Z.abs z) <= prec).
  { split; [apply Z.log2_nonneg |]. rewrite <- (Z.log2_pow2 prec) by lia. by apply Z.log2_le_mono. }
  apply andb_true_iff in Hb as [Hb _]. apply Z.eqb_eq in Hb. rewrite digits2_log2 in Hb.
  replace (Z.log2 (Zpos m) + 1 + e) with (Z.log2 (Z.abs z) + 1) in Hb by lia.
  rewrite fexp_int in Hb by done. repeat (split; [done || lia |]). done.
Qed.

Lemma mul_exact x y a b :
  holds_int x a -> holds_int y b -> Z.abs (a * b) <= 2 ^ prec ->
  holds_int (SFmul prec emax x y) (a * b).
Proof.
  intros Hx Hy Hab.
  destruct x as [s1 | s1 | | s1 m1 e1]; [| done | done |];
    destruct y as [s2 | s2 | | s2 m2 e2]; try done; cbn [SFmul].
  - cbn in Hx. by subst.
  - cbn in Hx. by subst.
  - cbn in Hy. subst. by rewrite Z.mul_0_r.
  - pose proof Hx as [_ Hx']. pose proof Hy as [_ Hy'].
    assert (Ha0 : a <> 0) by (intros E; apply (scaled_zero _ _ _ Hx') in E; by destruct s1).
    assert (Hb0 : b <> 0) by (intros E; apply (scaled_zero _ _ _ Hy') in E; by destruct s2).
    rewrite Z.abs_mul in Hab.
    destruct (holds_full _ _ _ _ Hx) as (Ha & Hm1 & Hl1 & He1 & Ea); [nia |].
    destruct (holds_full _ _ _ _ Hy) as (Hb & Hm2 & Hl2 & He2 & Eb); [nia |].
    pose proof (Z.log2_nonneg (Z.abs a)). pose proof (Z.log2_nonneg (Z.abs b)).
    assert (Hsc : scaled (Zpos (m1 * m2)) (e1 + e2) (Z.abs a * Z.abs b)).
    { destruct Hm1 as [_ H1], Hm2 as [_ H2]. split; [lia |].
      rewrite Pos2Z.inj_mul.
      apply (Z.mul_cancel_r _ _ (2 ^ K)); [pose proof (Z.pow_pos_nonneg 2 K ltac:(done)); lia |].
      transitivity ((Z.pos m1 * 2 ^ (e1 + K)) * (Z.pos m2 * 2 ^ (e2 + K))); [| rewrite H1, H2; lia].
      replace (Z.pos m1 * Z.pos m2 * 2 ^ (e1 + e2 + K) * 2 ^ K)
        with (Z.pos m1 * Z.pos m2 * (2 ^ (e1 + e2 + K) * 2 ^ K)) by lia.
      rewrite <- Z.pow_add_r by lia.
      replace (e1 + e2 + K + K) with ((e1 + K) + (e2 + K)) by lia.
      rewrite Z.pow_add_r by lia. lia. }
    replace (a * b) with (cond_Zopp (xorb s1 s2) (Z.abs a * Z.abs b)).
    2: { rewrite Ea, Eb at 2. destruct s1, s2; cbn [xorb cond_Zopp]; lia. }
    apply round_aux_exact; [split; [nia | done] | done |].
    assert (Hl : Z.log2 (Zpos (m1 * m2)) + (e1 + e2) = Z.log2 (Z.abs a * Z.abs b))
      by (apply scaled_log2; [done | nia | done]).
    assert (prec - 1 <= Z.log2 (Zpos (m1 * m2))); [| lia].
    rewrite <- Hl1. apply Z.log2_le_mono. rewrite Pos2Z.inj_mul. nia.
Qed.

(** ** Multiplying by one and by zero *)

(** A number that is neither infinite nor a NaN, in canonical form. *)
Definition is_number (x : spec_float) : Prop :=
  match x with
  | S754_zero _ => True
  | S754_finite _ m e => bounded prec emax m e = true
  | _ => False
  end.

(** The significand of 1. *)
Section one.
Context (one : positive) (Hsig : Zpos one = 2 ^ (prec - 1)).

Lemma round_aux_one s m e :
  bounded prec emax m e = true ->
  binary_round_aux prec emax s (Zpos (m * one)) (e + (1 - prec)) loc_Exact = S754_finite s m e.
Proof.
  intros [Hc He]%andb_true_iff. unfold canonical_mantissa in Hc.
  apply Z.eqb_eq in Hc. rewrite digits2_log2 in Hc.
  assert (Hl : Z.log2 (Zpos (m * one)) = Z.log2 (Zpos m) + (prec - 1)).
  { rewrite Pos2Z.inj_mul, Hsig. rewrite Z.log2_mul_pow2 by lia. lia. }
  unfold binary_round_aux, shr_fexp. cbn [shr_record_of_loc Zdigits2].
  rewrite digits2_log2, Hl.
  replace (Z.log2 (Z.pos m) + (prec - 1) + 1 + (e + (1 - prec)))
    with (Z.log2 (Z.pos m) + 1 + e) by lia.
  rewrite Hc, Pos2Z.inj_mul, Hsig. replace (e - (e + (1 - prec))) with (prec - 1) by lia.
  rewrite shr_exact by lia. replace (e + (1 - prec) + (prec - 1)) with e by lia.
  cbn [shr_m loc_of_shr_record round_nearest_even shr_record_of_loc Zdigits2].
  rewrite digits2_log2, Hc, Z.sub_diag. cbn [shr shr_m]. by rewrite He.
Qed.

Lemma mul_one_r x : is_number x -> SFmul prec emax x (S754_finite false one (1 - prec)) = x.
Proof.
  destruct x as [s | s | | s m e]; intros H; [by destruct s | done | done |].
  cbn [SFmul]. rewrite round_aux_one by done. by destruct s.
Qed.

Lemma mul_one_l x : is_number x -> SFmul prec emax (S754_finite false one (1 - prec)) x = x.
Proof.
  destruct x as [s | s | | s m e]; intros H; [by destruct s | done | done |].
  cbn [SFmul]. rewrite Pos.mul_comm, (Z.add_comm (1 - prec)). by rewrite round_aux_one.
Qed.

End one.

Lemma mul_zero x : is_number x ->
  (exists s, SFmul prec emax x (S754_zero false) = S754_zero s) /\
  (exists s, SFmul prec emax (S754_zero false) x = S754_zero s).
Proof. destruct x; intros H; cbn; try done; split; by eexists. Qed.

(** ** Ratios *)

Lemma shr_m_loc q l : shr_m (shr_record_of_loc q l) = q.
Proof. by destruct l as [| []]. Qed.

Lemma round_nearest_bounds m l : m <= round_nearest_even m l <= m + 1.
Proof. destruct l as [| []]; cbn [round_nearest_even]; [lia | case_match; lia | lia | lia]. Qed.

(** Shifting one bit out and rounding. *)
Lemma shift_round q l :
  0 < q ->
  let r := shr_1 (shr_record_of_loc q l) in
  shr_m r = q / 2 /\ q / 2 <= round_nearest_even (shr_m r) (loc_of_shr_record r) <= (q + 1) / 2.
Proof.
  intros Hq r. assert (Hm : shr_m r = q / 2).
  { subst r. pose proof (shr_m_loc q l) as Hr. destruct (shr_record_of_loc q l) as [m b b'].
    cbn [shr_m] in Hr. subst m. destruct q as [| [q | q |] | q]; try done; cbn [shr_1 shr_m].
    - rewrite (Pos2Z.inj_xI q). apply (Z.div_unique _ _ _ 1); lia.
    - rewrite (Pos2Z.inj_xO q). apply (Z.div_unique _ _ _ 0); lia. }
  split; [done |]. pose proof (round_nearest_bounds (shr_m r) (loc_of_shr_record r)) as Hb.
  rewrite Hm in *. destruct (Z.even q) eqn:He.
  - assert (Hr : shr_r r = false).
    { subst r. destruct (shr_record_of_loc q l) as [m b b'] eqn:E.
      pose proof (shr_m_loc q l) as Hr. rewrite E in Hr. cbn [shr_m] in Hr. subst m.
      by destruct q as [| [q | q |] | q]. }
    assert (Hrn : round_nearest_even (q / 2) (loc_of_shr_record r) = q / 2)
      by (destruct r as [m [] []]; done).
    rewrite Hrn. split; [lia |]. apply Z.div_le_mono; lia.
  - assert (Ho : Z.odd q = true) by (rewrite <- Z.negb_even; by rewrite He).
    apply Z.odd_spec in Ho as [k ->]. replace (2 * k + 1 + 1) with (2 * (k + 1)) by lia.
    rewrite (Z.mul_comm 2 (k + 1)), Z.div_mul by done.
    replace ((2 * k + 1) / 2) with k in * by (apply (Z.div_unique _ _ _ 1); lia). lia.
Qed.

(** A significand of [prec] or [prec + 1] bits below the last value of its
    binade rounds within the binade. *)
Lemma round_aux_below q e l n :
  (n = 0 \/ n = 1) -> 2 ^ (prec - 1 + n) <= q < 2 ^ (prec + n) - 1 ->
  emin <= e -> e + n <= emax - prec ->
  exists m, binary_round_aux prec emax false q e l = S754_finite false m (e + n) /\
    2 ^ (prec - 1) <= Zpos m < 2 ^ prec.
Proof.
  intros Hn Hq He Hmax.
  assert (Hpow : 2 ^ prec = 2 * 2 ^ (prec - 1)) by (rewrite <- Z.pow_succ_r by lia; f_equal; lia).
  pose proof (Z.pow_pos_nonneg 2 (prec - 1) ltac:(done) ltac:(lia)) as Hpos.
  assert (Hdig : forall x k, 0 <= k -> 2 ^ k <= x < 2 ^ (k + 1) -> Zdigits2 x = k + 1).
  { intros x k Hk Hx. pose proof (Z.pow_pos_nonneg 2 k ltac:(done) Hk).
    destruct x as [| x | x]; [lia | | lia]. cbn [Zdigits2]. rewrite digits2_log2.
    f_equal. by apply Z.log2_unique. }
  assert (Hfe : forall e', emin <= e' -> fexp (prec + e') = e') by (unfold SpecFloat.fexp; lia).
  assert (Hround : exists m, 2 ^ (prec - 1) <= m < 2 ^ prec /\
    (let '(mrs, e') := shr_fexp prec emax q e l in
     (round_nearest_even (shr_m mrs) (loc_of_shr_record mrs), e')) = (m, e + n)).
  { unfold shr_fexp. rewrite (Hdig q (prec - 1 + n)); [| lia |].
    2: { replace (prec - 1 + n + 1) with (prec + n) by lia. lia. }
    replace (prec - 1 + n + 1 + e) with (prec + (e + n)) by lia. rewrite Hfe by lia.
    replace (e + n - e) with n by lia. destruct Hn as [-> | ->]; cbn [shr].
    - rewrite shr_m_loc, !Z.add_0_r in *. eexists; split; [| done].
      pose proof (round_nearest_bounds q (loc_of_shr_record (shr_record_of_loc q l))). lia.
    - cbn [SpecFloat.iter_pos]. rewrite (Z.add_1_r prec), Z.pow_succ_r in Hq by lia.
      replace (prec - 1 + 1) with prec in Hq by lia.
      destruct (shift_round q l ltac:(lia)) as [_ [H1 H2]]. eexists; split; [| done].
      assert (2 ^ (prec - 1) <= q / 2) by (apply Z.div_le_lower_bound; lia).
      assert ((q + 1) / 2 < 2 ^ prec) by (apply Z.div_lt_upper_bound; lia). lia. }
  destruct Hround as (m & Hm & Heq). unfold binary_round_aux.
  destruct (shr_fexp prec emax q e l) as [mrs e']. injection Heq as Hrn ->.
  rewrite Hrn. unfold shr_fexp. rewrite (Hdig m (prec - 1)); [| lia |].
  2: { replace (prec - 1 + 1) with prec by lia. lia. }
  replace (prec - 1 + 1 + (e + n)) with (prec + (e + n)) by lia. rewrite Hfe by lia.
  rewrite Z.sub_diag. cbn [shr shr_record_of_loc shr_m].
  destruct m as [| m | m]; [lia | | lia]. destruct (Z.leb_spec (e + n) (emax - prec)); [| lia].
  by exists m.
Qed.

(** The number 1. *)
Lemma holds_one x :
  holds_int x 1 -> exists m, x = S754_finite false m (1 - prec) /\ Zpos m = 2 ^ (prec - 1).
Proof.
  intros Hx. destruct x as [| | | s m e]; try done.
  destruct (holds_full _ _ _ _ Hx) as (_ & Hm & _ & He & Hs);
    [pose proof (Z.pow_pos_nonneg 2 prec ltac:(done)); cbn; lia |].
  change (Z.abs 1) with 1 in *. change (Z.log2 1) with 0 in *. cbn in He.
  destruct s; [done |]. exists m. replace e with (1 - prec) in * by lia. split; [done |].
  eapply scaled_inj; [exact Hm |]. split; [lia |]. rewrite <- Z.pow_add_r by lia. rewrite Z.mul_1_l.
  f_equal. lia.
Qed.

(** The quotients of two full significands. *)
Lemma quotient_low m1 m2 q r :
  2 ^ (prec - 1) <= m1 < 2 ^ prec -> 2 ^ (prec - 1) <= m2 < 2 ^ prec -> m1 < m2 ->
  m1 * 2 ^ prec = m2 * q + r -> 0 <= r < m2 -> 2 ^ (prec - 1) <= q < 2 ^ prec - 1.
Proof.
  assert (Hpow : 2 ^ prec = 2 * 2 ^ (prec - 1)) by (rewrite <- Z.pow_succ_r by lia; f_equal; lia).
  rewrite Hpow. generalize (2 ^ (prec - 1)) as h. intros h H1 H2 Hlt Hq Hr. split.
  - destruct (Z.le_gt_cases h q) as [| Hc]; [done |]. assert (m2 * (q + 1) <= m2 * h) by nia. nia.
  - destruct (Z.lt_ge_cases q (2 * h - 1)) as [| Hc]; [done |].
    assert (m2 * (2 * h - 1) <= m2 * q) by nia. assert (m1 * (2 * h) <= (m2 - 1) * (2 * h)) by nia. nia.
Qed.

Lemma quotient_high m1 m2 q r :
  2 ^ (prec - 1) <= m1 < 2 ^ prec -> 2 ^ (prec - 1) <= m2 < 2 ^ prec -> m2 <= m1 ->
  m1 * 2 ^ prec = m2 * q + r -> 0 <= r < m2 -> 2 ^ prec <= q < 2 ^ (prec + 1) - 1.
Proof.
  assert (Hpow : 2 ^ prec = 2 * 2 ^ (prec - 1)) by (rewrite <- Z.pow_succ_r by lia; f_equal; lia).
  rewrite (Z.add_1_r prec), Z.pow_succ_r, Hpow by lia.
  generalize (2 ^ (prec - 1)) as h. intros h H1 H2 Hle Hq Hr. split.
  - destruct (Z.le_gt_cases (2 * h) q) as [| Hc]; [done |].
    assert (m2 * (q + 1) <= m2 * (2 * h)) by nia. nia.
  - destruct (Z.lt_ge_cases q (2 * (2 * h) - 1)) as [| Hc]; [done |].
    assert (h * (2 * (2 * h) - 1) <= m2 * q) by nia. nia.
Qed.

Context (Hwide : prec + 3 <= emax).

(** Division of two integers is the rounding of the integer quotient of their
    significands. *)
Lemma div_quotient sx m1 e1 sy m2 e2 a b :
  holds_int (S754_finite sx m1 e1) a -> holds_int (S754_finite sy m2 e2) b ->
  0 < a <= 2 ^ prec -> 0 < b <= 2 ^ prec ->
  exists q r,
    SFdiv prec emax (S754_finite sx m1 e1) (S754_finite sy m2 e2) =
      binary_round_aux prec emax false q (e1 - e2 - prec) (new_location (Zpos m2) r) /\
    Zpos m1 * 2 ^ prec = Zpos m2 * q + r /\ 0 <= r < Zpos m2 /\
    2 ^ (prec - 1) <= Zpos m1 < 2 ^ prec /\ 2 ^ (prec - 1) <= Zpos m2 < 2 ^ prec /\
    scaled (Zpos m1) e1 a /\ scaled (Zpos m2) e2 b /\
    e1 = Z.log2 a + 1 - prec /\ e2 = Z.log2 b + 1 - prec.
Proof.
  intros Hx Hy Ha Hb.
  destruct (holds_full _ _ _ _ Hx) as (_ & Hm1 & Hl1 & He1 & Ea); [lia |].
  destruct (holds_full _ _ _ _ Hy) as (_ & Hm2 & Hl2 & He2 & Eb); [lia |].
  rewrite (Z.abs_eq a), (Z.abs_eq b) in * by lia.
  assert (sx = false) as -> by (destruct sx; [cbn in Ea; lia | done]).
  assert (sy = false) as -> by (destruct sy; [cbn in Eb; lia | done]).
  assert (Hlog : forall z, 0 < z <= 2 ^ prec -> 0 <= Z.log2 z <= prec).
  { intros z Hz. split; [apply Z.log2_nonneg |]. rewrite <- (Z.log2_pow2 prec) by lia.
    apply Z.log2_le_mono. lia. }
  pose proof (Hlog a Ha). pose proof (Hlog b Hb).
  cbn [SFdiv xorb]. unfold SFdiv_core_binary.
  change (Zdigits2 (Zpos m1)) with (Zpos (digits2_pos m1)).
  change (Zdigits2 (Zpos m2)) with (Zpos (digits2_pos m2)).
  rewrite !digits2_log2, Hl1, Hl2.
  replace (prec - 1 + 1 + e1 - (prec - 1 + 1 + e2)) with (e1 - e2) by lia.
  assert (Hfe : fexp (e1 - e2) = e1 - e2 - prec)
    by (unfold SpecFloat.fexp, SpecFloat.emin; lia).
  rewrite Hfe, Z.min_l by lia. replace (e1 - e2 - (e1 - e2 - prec)) with prec by lia.
  assert (Hs : forall p, 0 < p -> match p with Z0 => Zpos m1 | Zpos _ => Z.shiftl (Zpos m1) p
      | Zneg _ => 0 end = Zpos m1 * 2 ^ p)
    by (intros p Hp; rewrite <- Z.shiftl_mul_pow2 by lia; by destruct p).
  rewrite Hs by lia.
  pose proof (Z.log2_spec (Zpos m1) ltac:(done)) as Hb1.
  pose proof (Z.log2_spec (Zpos m2) ltac:(done)) as Hb2.
  rewrite Hl1 in Hb1. rewrite Hl2 in Hb2. replace (Z.succ (prec - 1)) with prec in * by lia.
  pose proof (Z_div_mod (Zpos m1 * 2 ^ prec) (Zpos m2) ltac:(done)) as Hdiv.
  destruct (Z.div_eucl (Zpos m1 * 2 ^ prec) (Zpos m2)) as [q r]. destruct Hdiv as [Hqr Hr].
  by exists q, r.
Qed.

(** The significand [2^prec] at the exponent [- prec] rounds to one. *)
Lemma round_aux_unit :
  exists m, binary_round_aux prec emax false (2 ^ prec) (- prec) loc_Exact =
    S754_finite false m (1 - prec) /\ Zpos m = 2 ^ (prec - 1).
Proof.
  pose proof (Z.pow_pos_nonneg 2 prec ltac:(done) ltac:(lia)).
  assert (exists w, 2 ^ prec = Zpos w) as [w Ew]
    by (destruct (2 ^ prec) as [| w | w]; [lia | by exists w | lia]).
  apply holds_one. rewrite Ew. apply (round_aux_exact false w (- prec) 1); [lia | | cbn; lia].
  rewrite <- Ew. split; [lia |]. rewrite <- Z.pow_add_r, Z.mul_1_l by lia. f_equal; lia.
Qed.

(** Significands of equal exponents are ordered as the integers. *)
Lemma scaled_lt m1 m2 e1 e2 a b :
  scaled m1 e1 a -> scaled m2 e2 b -> e1 = e2 -> a < b <-> m1 < m2.
Proof.
  intros [Hk H1] [_ H2] <-.
  pose proof (Z.pow_pos_nonneg 2 (e1 + K) ltac:(done) Hk).
  pose proof (Z.pow_pos_nonneg 2 K ltac:(done) ltac:(lia)). nia.
Qed.

(** The quotient of two positive integers is a full number of the exponent of one
    or above it, or of one below it, as the first is at least the second or not;
    of equal ones it is one. *)
Lemma div_positive x y a b :
  holds_int x a -> holds_int y b -> 0 < a <= 2 ^ prec -> 0 < b <= 2 ^ prec ->
  exists m e, SFdiv prec emax x y = S754_finite false m e /\ 2 ^ (prec - 1) <= Zpos m /\
    (a = b -> e = 1 - prec /\ Zpos m = 2 ^ (prec - 1)) /\
    (a < b -> e < 1 - prec) /\ (b < a -> 1 - prec <= e).
Proof.
  intros Hx Hy Ha Hb.
  destruct y as [sy | | | sy m2 e2]; try done; [cbn in Hy; lia |].
  destruct x as [sx | | | sx m1 e1]; try done; [cbn in Hx; lia |].
  destruct (div_quotient _ _ _ _ _ _ _ _ Hx Hy Ha Hb)
    as (q & r & -> & Hqr & Hr & Hb1 & Hb2 & Hm1 & Hm2 & He1 & He2).
  pose proof (scaled_lt _ _ _ _ _ _ Hm1 Hm2) as Hlt.
  assert (Hle : e1 = e2 -> b < a <-> Zpos m2 < Zpos m1)
    by (intros E; by apply (scaled_lt _ _ _ _ _ _ Hm2 Hm1)).
  pose proof (Z.log2_nonneg a). pose proof (Z.log2_nonneg b).
  assert (Hlog : forall z, 0 < z <= 2 ^ prec -> Z.log2 z <= prec)
    by (intros z Hz; rewrite <- (Z.log2_pow2 prec) by lia; apply Z.log2_le_mono; lia).
  pose proof (Hlog a Ha). pose proof (Hlog b Hb).
  assert (Hmono : (a <= b -> e1 <= e2) /\ (b <= a -> e2 <= e1))
    by (split; intros Hab; apply Z.log2_le_mono in Hab; lia).
  destruct (Z.eq_dec a b) as [-> | Hne].
  - assert (e1 = e2) as -> by lia. pose proof (scaled_inj _ _ _ _ Hm1 Hm2) as [= <-].
    assert (q = 2 ^ prec /\ r = 0) as [-> ->] by (apply (Z.div_mod_unique (Zpos m1)); lia).
    replace (new_location (Zpos m1) 0) with loc_Exact
      by (unfold new_location, new_location_even, new_location_odd; by case_match).
    rewrite Z.sub_diag, Z.sub_0_l. destruct round_aux_unit as (m & -> & Hm).
    exists m, (1 - prec). split; [done |]. split; [lia |]. split; [done |]. lia.
  - destruct (Z.lt_ge_cases (Zpos m1) (Zpos m2)) as [Hm | Hm];
      [destruct (round_aux_below q (e1 - e2 - prec) (new_location (Zpos m2) r) 0)
        as (m & -> & Hfull & _) | destruct (round_aux_below q (e1 - e2 - prec) (new_location (Zpos m2) r) 1)
        as (m & -> & Hfull & _)];
      try (unfold SpecFloat.emin; lia).
    + rewrite !Z.add_0_r. by apply (quotient_low (Zpos m1) (Zpos m2) q r).
    + do 2 eexists. split; [done |]. split; [done |]. split; [done |]. split; lia.
    + replace (prec - 1 + 1) with prec by lia. by apply (quotient_high (Zpos m1) (Zpos m2) q r).
    + do 2 eexists. split; [done |]. split; [done |]. split; [done |]. split; lia.
Qed.

(** The quotient of [a] by [b] for [0 <= a <= b]: zero, one, or a positive number
    of an exponent below that of one, as [a] is [0], [b] or between. *)
Lemma div_exact x y a b :
  holds_int x a -> holds_int y b -> 0 <= a <= b -> 0 < b <= 2 ^ prec ->
  match SFdiv prec emax x y with
  | S754_zero _ => a = 0
  | S754_finite false m e =>
      0 < a /\ ((a = b /\ e = 1 - prec /\ Zpos m = 2 ^ (prec - 1)) \/ (a < b /\ e < 1 - prec))
  | _ => False
  end.
Proof.
  intros Hx Hy Hab Hb. destruct (Z.eq_dec a 0) as [-> | H0].
  - destruct y as [sy | | | sy m2 e2]; try done; [cbn in Hy; lia |].
    destruct x as [sx | | | sx m1 e1]; try done.
    destruct (holds_full _ _ _ _ Hx) as (Ha & _); cbn in *; lia.
  - destruct (div_positive x y a b Hx Hy) as (m & e & -> & _ & Heq & Hlt & _); [lia | done |].
    split; [lia |]. destruct (Z.eq_dec a b) as [E | E]; [left; by destruct (Heq E) | right].
    split; [lia |]. apply Hlt. lia.
Qed.

End exact.

(** ** The two formats *)

(** [is_finite] of [f32] and [f64]. *)
Definition is_finite (x : spec_float) : bool :=
  match x with S754_zero _ | S754_finite _ _ _ => true | _ => false end.

(** The arithmetic of a floating-point type: [0.0], the value [Iterator::sum]
    starts from, [+] and [*]. *)
Class FloatOps (F : Type) := mkFloatOps {
  fzero : F;
  sum_zero : F;
  fadd : F -> F -> F;
  fmul : F -> F -> F;
}.

(** The numbers [sum_of_products h l s] that adding up the products of the pairs
    [l] can give, in some order and with some association: every product is
    below at most [h] additions. *)
Inductive sum_of_products {F} `{FloatOps F} : nat -> list (F * F) -> F -> Prop :=
| sum_fzero : sum_of_products 0 [] fzero
| sum_sum_zero : sum_of_products 0 [] sum_zero
| sum_product x y : sum_of_products 0 [(x, y)] (fmul x y)
| sum_add h k l1 l2 s1 s2 :
    sum_of_products h l1 s1 -> sum_of_products k l2 s2 ->
    sum_of_products (S (h `max` k)) (l1 ++ l2) (fadd s1 s2)
| sum_permuted h l l' s : l ≡ₚ l' -> sum_of_products h l s -> sum_of_products h l' s.

Lemma sum_snoc {F} `{FloatOps F} h l s x y :
  sum_of_products h l s -> sum_of_products (S h) (l ++ [(x, y)]) (fadd s (fmul x y)).
Proof.
  intros Hs. rewrite <- (Nat.max_0_r h). apply sum_add; [done | apply sum_product].
Qed.

(** Adding from left to right. *)
Lemma sum_foldl {F} `{FloatOps F} {I} (f g : I -> F) idx s h l :
  sum_of_products h l s ->
  sum_of_products (h + length idx) (l ++ ((fun i => (f i, g i)) <$> idx))
    (foldl (fun acc i => fadd acc (fmul (f i) (g i))) s idx).
Proof.
  revert h l s. induction idx as [|i idx IH]; intros h l s Hs; cbn [foldl length fmap list_fmap].
  - by rewrite Nat.add_0_r, app_nil_r.
  - rewrite Nat.add_succ_r, <- Nat.add_succ_l, cons_middle, app_assoc.
    by apply IH, sum_snoc.
Qed.

(** IEEE 754 binary formats; [sum] starts from [-0.0], the neutral element. *)
Definition binary (prec emax : Z) : FloatOps spec_float :=
  mkFloatOps spec_float (S754_zero false) (S754_zero true) (SFadd prec emax) (SFmul prec emax).
Definition binary32 : FloatOps spec_float := binary 24 128.
Definition f32_of_int : Z -> spec_float := of_int 24 128.
Abbreviation holds_f32 := (holds_int 24 128).

(** IEEE 754 binary64: [as f64] of an unsigned integer, [-], [/] and the
    comparisons. *)
Definition f64_of_int : Z -> spec_float := of_int 53 1024.
Definition f64_sub : spec_float -> spec_float -> spec_float := SFsub 53 1024.
Definition f64_div : spec_float -> spec_float -> spec_float := SFdiv 53 1024.
Abbreviation holds_f64 := (holds_int 53 1024).

(** A ratio of two counters, [a as f64 / b as f64], and what it says. *)
Definition f64_ratio (a b : Z) : spec_float := f64_div (f64_of_int a) (f64_of_int b).

(** A part of a whole below [2^53]: a number between 0 and 1, 1 for the whole
    and 0 for nothing only. *)
Definition is_share (r : spec_float) (a b : Z) : Prop :=
  SFleb (f64_of_int 0) r = true /\ SFleb r (f64_of_int 1) = true /\
  (SFeqb r (f64_of_int 1) = true <-> a = b) /\ (SFeqb r (f64_of_int 0) = true <-> a = 0).

Lemma f64_zero : f64_of_int 0 = S754_zero false.
Proof. reflexivity. Qed.
Lemma f64_one : f64_of_int 1 = S754_finite false 4503599627370496 (-52).
Proof. vm_compute. reflexivity. Qed.

Lemma f64_ratio_share a b : 0 <= a <= b -> 0 < b <= 2 ^ 53 -> is_share (f64_ratio a b) a b.
Proof.
  intros Ha Hb. unfold f64_ratio, f64_div.
  assert (Hex : forall z, 0 <= z <= 2 ^ 53 -> holds_f64 (f64_of_int z) z)
    by (intros z Hz; apply of_int_holds; [done | done | rewrite Z.abs_eq; lia]).
  pose proof (div_exact 53 1024 eq_refl eq_refl ltac:(done) _ _ a b
    (Hex a ltac:(lia)) (Hex b ltac:(lia)) Ha Hb) as H.
  unfold is_share. rewrite f64_zero, f64_one. destruct (SFdiv _ _ _ _) as [s | | | [] m e]; try done.
  - subst a. split_and!; [by destruct s | by destruct s | | by destruct s].
    split; [by destruct s | intros E; lia].
  - destruct H as [Hpos H].
    split; [done |]. unfold SFleb, SFeqb, SFcompare.
    destruct H as [(-> & -> & Hm) | [Hlt He]].
    + change (2 ^ (53 - 1)) with 4503599627370496 in Hm. injection Hm as ->. cbn.
      split; [done |]. split; [done |]. split; [done | intros; lia].
    + rewrite (proj2 (Z.compare_lt_iff e (-52))) by lia. split; [done |].
      split; split; (done || lia).
Qed.

(** A ratio of at least one is computed as a number of at least one. *)
Lemma f64_ratio_ge_one a b :
  0 < b <= a -> a <= 2 ^ 53 ->
  is_finite (f64_ratio a b) = true /\ SFleb (f64_of_int 1) (f64_ratio a b) = true.
Proof.
  intros Hb Ha. unfold f64_ratio, f64_div.
  assert (Hex : forall z, 0 <= z <= 2 ^ 53 -> holds_f64 (f64_of_int z) z)
    by (intros z Hz; apply of_int_holds; [done | done | rewrite Z.abs_eq; lia]).
  destruct (div_positive 53 1024 eq_refl eq_refl ltac:(done) _ _ a b
    (Hex a ltac:(lia)) (Hex b ltac:(lia))) as (m & e & -> & Hm & Heq & _ & Hge); [lia | lia |].
  split; [done |]. rewrite f64_one. unfold SFleb, SFcompare.
  change (2 ^ (53 - 1)) with (Zpos 4503599627370496) in Hm. change (1 - 53) with (-52) in *.
  assert (-52 <= e) by (destruct (Z.eq_dec a b) as [E | E]; [destruct (Heq E); lia | apply Hge; lia]).
  destruct (Z.compare_spec (-52) e); [| done | lia].
  revert Hm. clear. generalize 4503599627370496%positive as one. intros one Hm.
  change (Pos.compare_cont Eq one m) with (one ?= m)%positive.
  destruct (Pos.compare_spec one m); [done | done | lia].
Qed.

(** The share of successes among [completed + failed] outcomes, 1 before the
    first one, as [WorkerHealth] and [PoolStats] compute it. *)
Definition success_share {prof : Profile} (completed failed : Z) : comp spec_float :=
  total ← add_w 64 completed failed;
  if total =? 0 then Ret (f64_of_int 1) else Ret (f64_ratio completed total).

Definition reports_share {prof : Profile} (c : comp spec_float) (completed failed : Z) : Prop :=
  exists r, c = Ret r /\
    (completed + failed = 0 -> r = f64_of_int 1) /\
    (0 < completed + failed -> is_share r completed (completed + failed)).

Lemma success_share_spec {prof : Profile} completed failed :
  0 <= completed -> 0 <= failed -> completed + failed <= 2 ^ 53 ->
  reports_share (success_share completed failed) completed failed.
Proof.
  intros Hc Hf Hle. unfold success_share, add_w.
  rewrite checked_in by (unfold uint; lia). rewrite bind_ret.
  destruct (Z.eqb_spec (completed + failed) 0) as [H0 | H0]; eexists; (split; [done |]); split; intros; try lia; try done.
  apply f64_ratio_share; lia.
Qed.
