(* ===== verification/Rounding.v ===== *)
(** * Rounding: the error of IEEE 754 operations

    The real number a floating-point number stands for, and the standard model
    of rounding to nearest: a product is exact up to a relative error [u] and an
    absolute error [eta] that only underflow causes, a sum up to a relative
    error [u].  From it the forward error of a sum of products in any order of
    evaluation, in terms of the depth of the additions. *)

From Stdlib Require Import SpecFloat Reals Lra.
From S2P Require Import Prelude Float.

#[local] Set Default Proof Using "All".

(** ** Shifting bits out

    After [k] bits the record holds the quotient by [2^k], and its flags say how
    the remainder compares with a half. *)
Lemma shr_parts m k :
  0 <= m ->
  let r := Nat.iter k shr_1 (Build_shr_record m false false) in
  exists rem, m = shr_m r * 2 ^ Z.of_nat k + rem /\ 0 <= rem < 2 ^ Z.of_nat k /\ 0 <= shr_m r /\
    (shr_r r = true <-> 2 ^ Z.of_nat k <= 2 * rem) /\
    (shr_s r = false <-> rem = 0 \/ 2 * rem = 2 ^ Z.of_nat k).
Proof.
  intros Hm. induction k as [|k (rem & Hk & Hrem & Hq & Hr & Hs)].
  { exists 0. cbn. rewrite Z.mul_1_r. split_and!; try lia; split; intros; (done || lia). }
  cbn zeta. rewrite Nat.iter_succ, Nat2Z.inj_succ, Z.pow_succ_r by lia.
  set (P := 2 ^ Z.of_nat k) in *.
  destruct (Nat.iter k shr_1 _) as [q r s]. cbn [shr_m shr_r shr_s] in *.
  exists (rem + q mod 2 * P).
  assert (Hq2 : q = 2 * (q / 2) + q mod 2) by (apply Z.div_mod; lia).
  assert (Hb : 0 <= q mod 2 < 2) by (by apply Z.mod_pos_bound).
  assert (Hparts : shr_1 (Build_shr_record q r s) =
    Build_shr_record (q / 2) (q mod 2 =? 1) (r || s)).
  { rewrite <- Z.div2_div, Zmod_odd. destruct q as [| [q | q |] | q]; (done || lia). }
  rewrite Hparts. cbn [shr_m shr_r shr_s].
  assert (Hdiv : 0 <= q / 2) by (apply Z.div_pos; lia).
  split; [nia |]. split; [nia |]. split; [done |]. split.
  - rewrite Z.eqb_eq. split; intros; nia.
  - rewrite orb_false_iff, Hs, <- not_true_iff_false, Hr.
    destruct (Z.eq_dec (q mod 2) 0) as [E | E].
    + rewrite E. nia.
    + replace (q mod 2) with 1 by lia. nia.
Qed.

(** The integer nearest to [m / 2^k], ties to even. *)
Definition nearest (m : Z) (k : nat) : Z :=
  let r := Nat.iter k shr_1 (Build_shr_record m false false) in
  round_nearest_even (shr_m r) (loc_of_shr_record r).

Lemma nearest_half m k :
  0 <= m -> 2 * Z.abs (nearest m k * 2 ^ Z.of_nat k - m) <= 2 ^ Z.of_nat k /\
    0 <= nearest m k /\ (nearest m k - 1) * 2 ^ Z.of_nat k <= m.
Proof.
  intros Hm. unfold nearest. destruct (shr_parts m k Hm) as (rem & Hk & Hrem & Hq & Hr & Hs).
  destruct (Nat.iter k shr_1 _) as [q r s]. cbn [shr_m shr_r shr_s] in *.
  set (P := 2 ^ Z.of_nat k) in *.
  assert (Hr' : if r then P <= 2 * rem else 2 * rem < P).
  { destruct r; [by apply Hr |]. destruct (Z.le_gt_cases P (2 * rem)) as [H |]; [| done].
    by apply Hr in H. }
  assert (Hs' : if s then rem <> 0 /\ 2 * rem <> P else rem = 0 \/ 2 * rem = P).
  { destruct s; [| by apply Hs]. split; intros H.
    - enough (true = false) by done. apply Hs. by left.
    - enough (true = false) by done. apply Hs. by right. }
  clear Hr Hs. destruct r, s; cbn [loc_of_shr_record round_nearest_even];
    try destruct (Z.even q); split_and!; nia.
Qed.

(** ** Powers of two and values *)

Definition pow2 (e : Z) : R := powerRZ 2 e.

Lemma pow2_pos e : (0 < pow2 e)%R.
Proof. apply powerRZ_lt. lra. Qed.

Lemma pow2_add e f : pow2 (e + f) = (pow2 e * pow2 f)%R.
Proof. apply powerRZ_add. lra. Qed.

Lemma pow2_half e : pow2 e = (2 * pow2 (e - 1))%R.
Proof.
  replace e with (1 + (e - 1)) at 1 by lia. rewrite pow2_add. f_equal. unfold pow2; simpl; lra.
Qed.

Lemma IZR_pow2 e : 0 <= e -> IZR (2 ^ e) = pow2 e.
Proof.
  intros He. unfold pow2. destruct e as [| p | p]; [done | | lia].
  exact (Zpower_pos_powerRZ 2 p).
Qed.

Lemma pow2_mono e f : e <= f -> (pow2 e <= pow2 f)%R.
Proof.
  intros H. replace f with (e + (f - e)) by lia. rewrite pow2_add, <- (IZR_pow2 (f - e)) by lia.
  pose proof (pow2_pos e). assert (1 <= 2 ^ (f - e)) by (pose proof (Z.pow_pos_nonneg 2 (f - e)); lia).
  apply IZR_le in H1. nra.
Qed.

(** The number a finite floating-point number stands for. *)
Definition F2R (x : spec_float) : R :=
  match x with
  | S754_finite s m e => (IZR (cond_Zopp s (Zpos m)) * pow2 e)%R
  | _ => 0%R
  end.

(** The exact sum of the products of pairs, and of their absolute values. *)
Definition dot_real (l : list (spec_float * spec_float)) : R :=
  foldr (fun p s => F2R p.1 * F2R p.2 + s)%R 0%R l.
Definition dot_magnitude (l : list (spec_float * spec_float)) : R :=
  foldr (fun p s => Rabs (F2R p.1 * F2R p.2) + s)%R 0%R l.

Lemma dot_real_app l k : dot_real (l ++ k) = (dot_real l + dot_real k)%R.
Proof. unfold dot_real. induction l as [|p l IH]; cbn; lra. Qed.

Lemma dot_magnitude_app l k : dot_magnitude (l ++ k) = (dot_magnitude l + dot_magnitude k)%R.
Proof. unfold dot_magnitude. induction l as [|p l IH]; cbn; lra. Qed.

Lemma dot_real_perm l k : l ≡ₚ k -> dot_real l = dot_real k.
Proof. unfold dot_real. induction 1; cbn; lra. Qed.

Lemma dot_magnitude_perm l k : l ≡ₚ k -> dot_magnitude l = dot_magnitude k.
Proof. unfold dot_magnitude. induction 1; cbn; lra. Qed.

Lemma dot_bounded l : (0 <= dot_magnitude l /\ Rabs (dot_real l) <= dot_magnitude l)%R.
Proof.
  induction l as [|p l [IH0 IH]]; cbn; [rewrite Rabs_R0; lra |].
  fold (dot_magnitude l) (dot_real l). pose proof (Rabs_pos (F2R p.1 * F2R p.2)).
  split; [lra |]. eapply Rle_trans; [apply Rabs_triang | lra].
Qed.

(** One addition on top of two sums with errors. *)
Lemma error_step u f r s1 s2 d1 d2 m1 m2 e1 e2 g :
  (0 < u)%R -> (Rabs d1 <= m1)%R -> (Rabs d2 <= m2)%R ->
  (Rabs (s1 - d1) <= (g - 1) * m1 + e1)%R -> (Rabs (s2 - d2) <= (g - 1) * m2 + e2)%R ->
  (Rabs (r - (s1 + s2)) <= u * Rabs (s1 + s2))%R -> (f = (1 + u) * (e1 + e2))%R ->
  (Rabs (r - (d1 + d2)) <= ((1 + u) * g - 1) * (m1 + m2) + f)%R.
Proof.
  intros Hu Hd1 Hd2 H1 H2 H ->.
  assert (Hs : (Rabs (s1 + s2) <= m1 + m2 + Rabs (s1 - d1) + Rabs (s2 - d2))%R)
    by (split_Rabs; lra).
  assert (Ht : (Rabs (r - (d1 + d2)) <=
    Rabs (r - (s1 + s2)) + Rabs (s1 - d1) + Rabs (s2 - d2))%R) by (split_Rabs; lra).
  apply (Rmult_le_compat_l u) in Hs; [| lra]. nra.
Qed.

Lemma bound_weaken u a m e h k :
  (0 < u)%R -> (0 <= m)%R -> (0 <= e)%R -> (h <= k)%nat ->
  (a <= ((1 + u) ^ S h - 1) * m + e * (1 + u) ^ h)%R ->
  (a <= ((1 + u) ^ S k - 1) * m + e * (1 + u) ^ k)%R.
Proof.
  intros Hu Hm He Hk Ha.
  assert (H1 : ((1 + u) ^ h <= (1 + u) ^ k)%R) by (apply Rle_pow; [lra | done]).
  assert (H2 : ((1 + u) ^ S h <= (1 + u) ^ S k)%R) by (apply Rle_pow; [lra | lia]).
  eapply Rle_trans; [exact Ha |]. apply Rplus_le_compat; [apply Rmult_le_compat_r | apply Rmult_le_compat_l]; lra.
Qed.

Section rounding.
Context (prec emax : Z) (Hprec : 1 < prec) (Hemax : prec < emax).

#[local] Abbreviation emin := (emin prec emax).
#[local] Abbreviation fexp := (fexp prec emax).

(** ** The rounded significand *)

#[local] Abbreviation digits m := (Z.log2 (Zpos m) + 1).
#[local] Abbreviation round s m e := (binary_round_aux prec emax s (Zpos m) e loc_Exact).

Lemma fexp_max e : fexp e = Z.max (e - prec) emin.
Proof. reflexivity. Qed.

(** The bits to shift out of the significand [m] with exponent [e]. *)
Definition excess (m : positive) (e : Z) : nat := Z.to_nat (fexp (digits m + e) - e).

Lemma digits2_digits m : Zpos (digits2_pos m) = digits m.
Proof. exact (digits2_log2 prec emax Hprec Hemax m). Qed.

Lemma shr_fexp_excess m e :
  shr_fexp prec emax (Zpos m) e loc_Exact =
  (Nat.iter (excess m e) shr_1 (Build_shr_record (Zpos m) false false), e + Z.of_nat (excess m e)).
Proof.
  unfold shr_fexp, excess. cbn [Zdigits2 shr_record_of_loc]. rewrite digits2_digits.
  destruct (fexp (digits m + e) - e) as [| p | p] eqn:E; cbn [shr Z.to_nat Nat.iter].
  - by rewrite Z.add_0_r.
  - by rewrite (iter_pos_nat prec emax Hprec Hemax), Z2Nat.id by done.
  - by rewrite Z.add_0_r.
Qed.

Lemma excess_exponent m e :
  emin <= e + Z.of_nat (excess m e) /\ digits m + e - prec <= e + Z.of_nat (excess m e).
Proof. unfold excess, SpecFloat.fexp. lia. Qed.

Lemma nearest_small m e : nearest (Zpos m) (excess m e) <= 2 ^ prec.
Proof.
  destruct (nearest_half (Zpos m) (excess m e)) as (_ & _ & Hn); [done |].
  destruct (excess_exponent m e) as [_ Hk]. set (k := Z.of_nat (excess m e)) in *.
  assert (Hm : Zpos m < 2 ^ digits m) by (apply Z.log2_spec; done).
  assert (Hpow : 2 ^ digits m <= 2 ^ prec * 2 ^ k).
  { rewrite <- Z.pow_add_r by lia. apply Z.pow_le_mono_r; lia. }
  assert (0 < 2 ^ k) by (apply Z.pow_pos_nonneg; lia). nia.
Qed.

(** What is returned is the nearest integer with the exponent of the rest. *)
Lemma round_parts s m e :
  is_finite (round s m e) = true ->
  let N := nearest (Zpos m) (excess m e) in
  let E := e + Z.of_nat (excess m e) in
  (N = 0 /\ round s m e = S754_zero s) \/
  exists m' e', round s m e = S754_finite s m' e' /\ E <= e' /\ Zpos m' * 2 ^ (e' - E) = N.
Proof.
  intros Hfin N E. unfold binary_round_aux in *. rewrite shr_fexp_excess in *.
  fold (nearest (Zpos m) (excess m e)) in *. fold N E in Hfin |- *.
  destruct (nearest_half (Zpos m) (excess m e)) as (_ & Hn & _); [done |]. fold N in Hn.
  pose proof (nearest_small m e) as Hs. fold N in Hs.
  destruct (excess_exponent m e) as [HE _]. fold E in HE.
  unfold shr_fexp in *.
  assert (Hsh : forall M x n, n <= 0 ->
    shr (shr_record_of_loc M loc_Exact) x n = (Build_shr_record M false false, x)).
  { intros M x n Hle. destruct n; (done || lia). }
  destruct N as [| n | n] eqn:HN; [left | right | lia].
  - cbn [Zdigits2] in *. rewrite Hsh in * by (unfold SpecFloat.fexp; lia). done.
  - cbn [Zdigits2] in *. rewrite digits2_digits in *.
    destruct (Z.eq_dec (Zpos n) (2 ^ prec)) as [Heq | Hne].
    + rewrite Heq, Z.log2_pow2 in * by lia.
      replace (fexp (prec + 1 + E) - E) with 1 in * by (unfold SpecFloat.fexp; lia).
      replace (2 ^ prec) with (2 ^ (prec - 1) * 2 ^ 1) in *
        by (rewrite <- Z.pow_add_r by lia; f_equal; lia).
      assert (0 < 2 ^ (prec - 1)) by (apply Z.pow_pos_nonneg; lia).
      cbn [shr_record_of_loc] in *. rewrite (shr_exact prec emax Hprec Hemax) in * by lia.
      cbn [shr_m] in *. destruct (2 ^ (prec - 1)) as [| h | h]; [lia | | lia].
      destruct (Z.leb_spec (E + 1) (emax - prec)); [| done].
      exists h, (E + 1). split; [done |]. split; [lia |]. by replace (E + 1 - E) with 1 by lia.
    + assert (Z.log2 (Zpos n) < prec) by (apply Z.log2_lt_pow2; lia).
      rewrite Hsh in * by (unfold SpecFloat.fexp; lia). cbn [shr_m] in *.
      destruct (Z.leb_spec E (emax - prec)); [| done].
      exists n, E. split; [done |]. split; [lia |]. by rewrite Z.sub_diag, Z.mul_1_r.
Qed.

(** ** Values *)

#[local] Open Scope R_scope.

#[local] Abbreviation real s m e := (IZR (cond_Zopp s (Zpos m)) * pow2 e).

(** The unit roundoff and half the least positive number. *)
Definition unit_roundoff : R := pow2 (- prec).
Definition underflow : R := pow2 (emin - 1).

(** The exponent is in range. *)
Definition representable (x : spec_float) : Prop :=
  match x with S754_finite _ _ e => (emin <= e)%Z | _ => True end.

Lemma real_abs s m e : Rabs (real s m e) = IZR (Zpos m) * pow2 e.
Proof.
  rewrite Rabs_mult, (Rabs_pos_eq (pow2 e)) by (left; apply pow2_pos).
  f_equal. rewrite Rabs_Zabs. by destruct s.
Qed.

(** The result of rounding and its distance to the exact value, at the exponent of
    the last bit. *)
Lemma round_distance s m e :
  is_finite (round s m e) = true ->
  representable (round s m e) /\
  (excess m e = 0%nat -> F2R (round s m e) = real s m e) /\
  Rabs (F2R (round s m e) - real s m e) <= pow2 (e + Z.of_nat (excess m e) - 1).
Proof.
  intros Hfin. destruct (nearest_half (Zpos m) (excess m e)) as (Hhalf & _); [done |].
  pose proof (excess_exponent m e) as [HE _].
  assert (Hv : representable (round s m e) /\ F2R (round s m e) =
    IZR (cond_Zopp s (nearest (Zpos m) (excess m e))) * pow2 (e + Z.of_nat (excess m e))).
  { destruct (round_parts s m e Hfin) as [[-> ->] | (m' & e' & -> & He' & <-)]; cbn [F2R representable].
    - split; [done |]. destruct s; cbn [cond_Zopp Z.opp]; by rewrite Rmult_0_l.
    - split; [lia |]. replace (cond_Zopp s (Z.pos m' * 2 ^ (e' - (e + Z.of_nat (excess m e)))))
        with (cond_Zopp s (Zpos m') * 2 ^ (e' - (e + Z.of_nat (excess m e))))%Z by (destruct s; cbn; lia).
      rewrite mult_IZR, IZR_pow2 by lia. rewrite Rmult_assoc, <- pow2_add. do 2 f_equal. lia. }
  destruct Hv as [Hr ->]. set (k := excess m e) in *. set (N := nearest (Zpos m) k) in *.
  split; [done |]. rewrite pow2_add, <- (IZR_pow2 (Z.of_nat k)) by lia.
  assert (Hdist : IZR (cond_Zopp s N) * (pow2 e * IZR (2 ^ Z.of_nat k)) - real s m e =
    IZR (cond_Zopp s (N * 2 ^ Z.of_nat k - Zpos m)) * pow2 e).
  { destruct s; cbn [cond_Zopp]; rewrite ?opp_IZR, minus_IZR, mult_IZR, ?opp_IZR; lra. }
  split.
  - intros Hk. apply Rminus_diag_uniq. rewrite Hdist. rewrite Hk in *.
    change (2 ^ Z.of_nat 0)%Z with 1%Z in *. replace (N * 1 - Zpos m)%Z with 0%Z by lia.
    replace (cond_Zopp s 0) with 0%Z by (by destruct s). lra.
  - rewrite Hdist, Rabs_mult, (Rabs_pos_eq (pow2 e)) by (left; apply pow2_pos).
    replace (e + Z.of_nat k - 1)%Z with ((Z.of_nat k - 1) + e)%Z by lia.
    rewrite pow2_add. apply Rmult_le_compat_r; [left; apply pow2_pos |].
    rewrite Rabs_Zabs. replace (Z.abs (cond_Zopp s _)) with (Z.abs (N * 2 ^ Z.of_nat k - Zpos m))
      by (destruct s; cbn; lia).
    apply IZR_le in Hhalf. rewrite mult_IZR, IZR_pow2 in Hhalf by lia.
    rewrite pow2_half in Hhalf. lra.
Qed.

(** The standard model. *)
Lemma round_error s m e :
  is_finite (round s m e) = true ->
  let x := real s m e in
  Rabs (F2R (round s m e) - x) <= unit_roundoff * Rabs x + underflow /\
  ((emin <= e)%Z -> Rabs (F2R (round s m e) - x) <= unit_roundoff * Rabs x).
Proof.
  intros Hfin x. destruct (round_distance s m e Hfin) as (_ & Hex & Hd). fold x in Hex, Hd.
  assert (Hu : 0 < unit_roundoff) by apply pow2_pos.
  assert (He : 0 < underflow) by apply pow2_pos.
  assert (Hux : 0 <= unit_roundoff * Rabs x) by (apply Rmult_le_pos; [lra | apply Rabs_pos]).
  destruct (excess m e) as [| k] eqn:Hk.
  { rewrite Hex by done. rewrite Rminus_diag, Rabs_R0. split; intros; lra. }
  assert (HE : (e + Z.of_nat (S k) = Z.max (digits m + e - prec) emin)%Z).
  { rewrite <- Hk. unfold excess in *. rewrite fexp_max in *. lia. }
  assert (Hrel : (e + Z.of_nat (S k) = digits m + e - prec)%Z ->
    Rabs (F2R (round s m e) - x) <= unit_roundoff * Rabs x).
  { intros HE'. eapply Rle_trans; [exact Hd |]. unfold x. rewrite real_abs, HE'.
    replace (digits m + e - prec - 1)%Z with (- prec + (Z.log2 (Zpos m) + e))%Z by lia.
    rewrite pow2_add. apply Rmult_le_compat_l; [lra |]. rewrite pow2_add.
    apply Rmult_le_compat_r; [left; apply pow2_pos |].
    rewrite <- IZR_pow2 by apply Z.log2_nonneg. apply IZR_le. by apply Z.log2_spec. }
  split; [| intros; apply Hrel; lia].
  destruct (Z.le_gt_cases emin (digits m + e - prec)); [pose proof (Hrel ltac:(lia)); lra |].
  eapply Rle_trans; [exact Hd |]. rewrite HE, Z.max_r by lia. fold underflow. lra.
Qed.

(** ** The operations *)

Lemma real_align s m e e' :
  (e' <= e)%Z -> real s (shl_align m e e').1 e' = real s m e.
Proof.
  intros He. destruct (shl_align_value prec emax Hprec Hemax m e e' He) as [Hm _].
  replace (cond_Zopp s (Zpos (shl_align m e e').1))
    with (cond_Zopp s (Zpos m) * 2 ^ (e - e'))%Z by (rewrite Hm; destruct s; cbn [cond_Zopp]; lia).
  rewrite mult_IZR, IZR_pow2 by lia. rewrite Rmult_assoc, <- pow2_add. do 2 f_equal. lia.
Qed.

Lemma binary_round_error s m e :
  (emin <= e)%Z -> is_finite (binary_round prec emax s m e) = true ->
  representable (binary_round prec emax s m e) /\
  Rabs (F2R (binary_round prec emax s m e) - real s m e) <= unit_roundoff * Rabs (real s m e).
Proof.
  intros He. unfold binary_round. rewrite digits2_digits. set (f := fexp (digits m + e)).
  assert (Hf : (emin <= f)%Z) by (subst f; rewrite fexp_max; lia).
  destruct (Z.le_gt_cases f e) as [Hle | Hgt].
  - pose proof (real_align s m e f Hle) as Hr.
    destruct (shl_align_value prec emax Hprec Hemax m e f Hle) as [_ He'].
    destruct (shl_align m e f) as [m' e']. cbn [fst snd] in *. subst e'. intros Hfin.
    rewrite <- Hr. split; [by apply round_distance |]. by apply round_error.
  - unfold shl_align. destruct (f - e)%Z eqn:E; [lia | | lia]. intros Hfin.
    split; [by apply round_distance |]. by apply round_error.
Qed.

Lemma normalize_error m e b :
  (emin <= e)%Z -> is_finite (binary_normalize prec emax m e b) = true ->
  representable (binary_normalize prec emax m e b) /\
  Rabs (F2R (binary_normalize prec emax m e b) - IZR m * pow2 e) <=
    unit_roundoff * Rabs (IZR m * pow2 e).
Proof.
  intros He. destruct m as [| m | m]; cbn [binary_normalize].
  - intros _. cbn [F2R representable]. rewrite Rmult_0_l, Rminus_diag, Rabs_R0, Rmult_0_r.
    split; [done | lra].
  - by apply (binary_round_error false).
  - by apply (binary_round_error true).
Qed.

Lemma add_finite x y :
  is_finite (SFadd prec emax x y) = true -> is_finite x = true /\ is_finite y = true.
Proof. destruct x as [[] | [] | |], y as [[] | [] | |]; done. Qed.

Lemma add_error x y :
  representable x -> representable y -> is_finite (SFadd prec emax x y) = true ->
  representable (SFadd prec emax x y) /\
  Rabs (F2R (SFadd prec emax x y) - (F2R x + F2R y)) <= unit_roundoff * Rabs (F2R x + F2R y).
Proof.
  intros Hx Hy Hfin.
  assert (Hu : 0 < unit_roundoff) by apply pow2_pos.
  assert (Hexact : forall r v, r = v -> Rabs (r - v) <= unit_roundoff * Rabs v).
  { intros r v ->. rewrite Rminus_diag, Rabs_R0.
    apply Rmult_le_pos; [lra | apply Rabs_pos]. }
  destruct x as [s1 | s1 | | s1 m1 e1], y as [s2 | s2 | | s2 m2 e2];
    try done; try (by destruct s1, s2).
  - split; [by destruct s1, s2 |]. apply Hexact. destruct s1, s2; cbn; lra.
  - split; [done |]. apply Hexact. cbn; lra.
  - split; [done |]. apply Hexact. cbn; lra.
  - cbn [SFadd F2R representable is_finite] in *. set (e := (e1 `min` e2)%Z) in *.
    assert (HE : (emin <= e)%Z) by lia.
    destruct (normalize_error _ e false HE Hfin) as [Hr He].
    rewrite plus_IZR, Rmult_plus_distr_r in He. rewrite !real_align in He by lia. done.
Qed.

Lemma mul_error x y :
  is_finite (SFmul prec emax x y) = true ->
  is_finite x = true /\ is_finite y = true /\ representable (SFmul prec emax x y) /\
  Rabs (F2R (SFmul prec emax x y) - F2R x * F2R y) <= unit_roundoff * Rabs (F2R x * F2R y) + underflow.
Proof.
  intros Hfin.
  assert (Hu : 0 < unit_roundoff) by apply pow2_pos.
  assert (He : 0 < underflow) by apply pow2_pos.
  assert (Hexact : forall r v, r = 0 -> v = 0 -> Rabs (r - v) <= unit_roundoff * Rabs v + underflow).
  { intros r v -> ->. rewrite Rminus_0_r, Rabs_R0. lra. }
  destruct x as [s1 | s1 | | s1 m1 e1], y as [s2 | s2 | | s2 m2 e2]; try done.
  - split_and!; try done. apply Hexact; cbn; lra.
  - split_and!; try done. apply Hexact; cbn; lra.
  - split_and!; try done. apply Hexact; cbn; lra.
  - cbn [SFmul F2R representable is_finite] in *.
    destruct (round_distance (xorb s1 s2) (m1 * m2) (e1 + e2) Hfin) as [Hr _].
    destruct (round_error (xorb s1 s2) (m1 * m2) (e1 + e2) Hfin) as [Herr _].
    split_and!; [done | done | done |].
    replace (real s1 m1 e1 * real s2 m2 e2) with (real (xorb s1 s2) (m1 * m2) (e1 + e2)); [done |].
    rewrite pow2_add. transitivity (IZR (cond_Zopp s1 (Zpos m1) * cond_Zopp s2 (Zpos m2)) *
      (pow2 e1 * pow2 e2)); [| rewrite mult_IZR; lra].
    do 2 f_equal. rewrite Pos2Z.inj_mul. destruct s1, s2; cbn [xorb cond_Zopp]; lia.
Qed.

(** ** Sums of products *)

#[local] Instance ops : FloatOps spec_float := binary prec emax.

Lemma sum_error h l s :
  sum_of_products h l s -> is_finite s = true ->
  representable s /\ Forall (fun p => is_finite p.1 = true /\ is_finite p.2 = true) l /\
  Rabs (F2R s - dot_real l) <=
    ((1 + unit_roundoff) ^ S h - 1) * dot_magnitude l +
    INR (length l) * underflow * (1 + unit_roundoff) ^ h.
Proof.
  assert (Hu : 0 < unit_roundoff) by apply pow2_pos.
  assert (He : 0 < underflow) by apply pow2_pos.
  induction 1 as [| | x y | h k l1 l2 s1 s2 H1 IH1 H2 IH2 | h l l' s Hl H IH]; intros Hfin.
  - cbn [dot_real dot_magnitude foldr length INR]. split_and!; [done | done |].
    cbn [F2R]. rewrite Rminus_diag, Rabs_R0. lra.
  - cbn [dot_real dot_magnitude foldr length INR]. split_and!; [done | done |].
    cbn [F2R]. rewrite Rminus_diag, Rabs_R0. lra.
  - destruct (mul_error x y Hfin) as (Hx & Hy & Hr & Herr). cbn [fmul ops binary] in *.
    split_and!; [done | by repeat constructor |].
    cbn [dot_real dot_magnitude foldr length INR fst snd pow]. rewrite !Rplus_0_r, Rabs_mult in *. lra.
  - cbn [fadd ops binary] in *.
    destruct (add_finite s1 s2 Hfin) as [Hf1 Hf2].
    destruct (IH1 Hf1) as (Hr1 & Hl1 & He1), (IH2 Hf2) as (Hr2 & Hl2 & He2).
    destruct (add_error s1 s2 Hr1 Hr2 Hfin) as [Hr Hadd].
    split_and!; [done | by apply Forall_app |].
    rewrite dot_real_app, dot_magnitude_app, length_app, plus_INR.
    destruct (dot_bounded l1) as [Hm1 Hd1], (dot_bounded l2) as [Hm2 Hd2].
    set (d := (1 + unit_roundoff) ^ (h `max` k)).
    apply (error_step unit_roundoff _ _ (F2R s1) (F2R s2) _ _ _ _
      (INR (length l1) * underflow * d) (INR (length l2) * underflow * d) ((1 + unit_roundoff) * d));
      try done; [| | cbn [pow]; fold d; lra];
      [eapply (bound_weaken _ _ _ _ h); [.. | exact He1] | eapply (bound_weaken _ _ _ _ k); [.. | exact He2]];
      (done || lia || (apply Rmult_le_pos; [apply pos_INR | lra])).
  - destruct (IH Hfin) as (Hr & Hf & Herr). rewrite Hl in Hf.
    split_and!; [done | done |]. by rewrite <- (dot_real_perm _ _ Hl), <- (dot_magnitude_perm _ _ Hl), <- Hl.
Qed.

End rounding.
