(* ===== verification/Bytes.v ===== *)
(** * Bytes: integer encodings and UTF-8

    The part of the Rust core library the wire formats use:
    [uN::to_be_bytes], [uN::from_be_bytes], [from_le_bytes], the signed
    versions, [String::as_bytes] and [String::from_utf8].  A byte is a [Z] in
    [[0, 256)]; a string is Rocq's [string] (a sequence of bytes), and Rust's
    guarantee that a [String] holds valid UTF-8 is the predicate [is_utf8]. *)

From S2P Require Import Prelude.

Abbreviation bytes := (list Z).

(** All elements are bytes. *)
Definition is_bytes (l : bytes) : Prop := Forall u8 l.

#[export] Instance is_bytes_dec l : Decision (is_bytes l).
Proof. unfold is_bytes; apply _. Defined.

(** ** Big-endian and little-endian integers *)

Fixpoint le_bytes (n : nat) (z : Z) : bytes :=
  match n with
  | O => []
  | S n' => z mod 256 :: le_bytes n' (z / 256)
  end.

Fixpoint le_value (l : bytes) : Z :=
  match l with
  | [] => 0
  | b :: l' => b + 256 * le_value l'
  end.

Definition be_bytes (n : nat) (z : Z) : bytes := reverse (le_bytes n z).
Definition be_value (l : bytes) : Z := le_value (reverse l).

(** [i32::to_be_bytes] and [i32::from_be_bytes]: two's complement. *)
Definition i32_to_be_bytes (z : Z) : bytes := be_bytes 4 (wrap 32 z).
Definition i32_from_be_bytes (l : bytes) : Z := swrap 32 (be_value l).

Lemma length_le_bytes n z : length (le_bytes n z) = n.
Proof. revert z; induction n; intros; cbn; auto. Qed.

Lemma length_be_bytes n z : length (be_bytes n z) = n.
Proof. unfold be_bytes; by rewrite length_reverse, length_le_bytes. Qed.

Lemma le_bytes_is_bytes n z : is_bytes (le_bytes n z).
Proof.
  revert z; induction n; intros; constructor; [| apply IHn].
  apply Z.mod_pos_bound; lia.
Qed.

Lemma be_bytes_is_bytes n z : is_bytes (be_bytes n z).
Proof. apply Forall_reverse, le_bytes_is_bytes. Qed.

Lemma le_value_bytes n z : le_value (le_bytes n z) = z mod 256 ^ Z.of_nat n.
Proof.
  revert z; induction n as [|n IH]; intros z; cbn [le_bytes le_value].
  - by rewrite Z.mod_1_r.
  - rewrite IH, Nat2Z.inj_succ, Z.pow_succ_r by lia.
    rewrite Z.rem_mul_r by (try apply Z.pow_pos_nonneg; lia). lia.
Qed.

Lemma be_value_bytes n z : be_value (be_bytes n z) = z mod 256 ^ Z.of_nat n.
Proof. unfold be_value, be_bytes; rewrite reverse_involutive. apply le_value_bytes. Qed.

Lemma be_roundtrip n z : uint (8 * Z.of_nat n) z -> be_value (be_bytes n z) = z.
Proof.
  intros Hz. rewrite be_value_bytes. apply Z.mod_small.
  unfold uint in Hz. rewrite Z.pow_mul_r in Hz by lia. exact Hz.
Qed.

Lemma i32_be_roundtrip z : i32 z -> i32_from_be_bytes (i32_to_be_bytes z) = z.
Proof.
  intros Hz. unfold i32_from_be_bytes, i32_to_be_bytes.
  rewrite be_roundtrip by (apply wrap_uint; lia).
  unfold wrap, swrap. rewrite Zplus_mod_idemp_l.
  by apply swrap_id.
Qed.

Lemma le_value_bound l : is_bytes l -> 0 <= le_value l < 256 ^ Z.of_nat (length l).
Proof.
  induction 1 as [|b l Hb _ IH]; [done |]. cbn [le_value length].
  rewrite Nat2Z.inj_succ, Z.pow_succ_r by lia. unfold uint in Hb. lia.
Qed.

Lemma be_value_bound l : is_bytes l -> 0 <= be_value l < 256 ^ Z.of_nat (length l).
Proof.
  intros H. unfold be_value. rewrite <- length_reverse.
  apply le_value_bound. by apply Forall_reverse.
Qed.

Lemma le_value_roundtrip l : is_bytes l -> le_bytes (length l) (le_value l) = l.
Proof.
  induction 1 as [|b l Hb _ IH]; [done |]. cbn [le_value length le_bytes].
  unfold uint in Hb. change (2 ^ 8) with 256 in Hb.
  rewrite (Z.mul_comm 256), Z.mod_add, Z.div_add by lia.
  by rewrite Z.mod_small, Z.div_small, Z.add_0_l, IH by lia.
Qed.

Lemma be_value_roundtrip l n : is_bytes l -> length l = n -> be_bytes n (be_value l) = l.
Proof.
  intros H <-. unfold be_bytes, be_value. rewrite <- length_reverse, le_value_roundtrip.
  - apply reverse_involutive.
  - by apply Forall_reverse.
Qed.

(** The bytes [l[i], l[i+1], ..., l[i+n-1]], indexed one by one. *)
Definition index_n (l : bytes) (i n : nat) : comp bytes :=
  mapM (index l) (seq i n).

Lemma mapM_index_ok (l : bytes) i n :
  (i + n <= length l)%nat -> index_n l i n = Ret (take n (drop i l)).
Proof.
  unfold index_n. revert i; induction n as [|n IH]; intros i Hle; [done |]. cbn.
  destruct (index_lt l i) as (a & Ha & ->); [lia |]. cbn.
  rewrite IH by lia. cbn. rewrite (drop_S _ _ _ Ha). done.
Qed.

Lemma index_n_panic (l : bytes) i n :
  (length l < i + n)%nat -> (0 < n)%nat -> index_n l i n = Panic.
Proof.
  unfold index_n. revert i; induction n as [|n IH]; intros i Hlt Hn; [lia |]. cbn.
  destruct (decide (i < length l)%nat) as [Hi | Hi].
  - destruct (index_lt l i) as (a & Ha & ->); [lia |]. cbn.
    rewrite IH by lia. done.
  - unfold index. by rewrite lookup_ge_None_2 by lia.
Qed.

(** Reading at a known prefix: [pre ++ x ++ post] indexed at [length pre]. *)
Lemma index_n_mid (pre x post : bytes) n i :
  length pre = i -> length x = n -> index_n (pre ++ x ++ post) i n = Ret x.
Proof.
  intros <- <-. rewrite mapM_index_ok by (rewrite !length_app; lia).
  by rewrite drop_app_length, take_app_length.
Qed.

Lemma index_mid (pre post : bytes) b i :
  length pre = i -> index (pre ++ b :: post) i = Ret b.
Proof. intros <-. apply index_lookup. apply list_lookup_middle; done. Qed.

(** ** UTF-8

    The well-formed byte sequences of the Unicode standard's table 3-7, which
    is what [String::from_utf8] accepts. *)

Definition in_range (lo hi b : Z) : bool := (lo <=? b) && (b <=? hi).
Definition is_cont (b : Z) : bool := in_range 128 191 b.

Fixpoint utf8_valid (l : bytes) : bool :=
  match l with
  | [] => true
  | b0 :: r0 =>
      if in_range 0 127 b0 then utf8_valid r0
      else match r0 with
      | [] => false
      | b1 :: r1 =>
          if in_range 194 223 b0 then is_cont b1 && utf8_valid r1
          else match r1 with
          | [] => false
          | b2 :: r2 =>
              if in_range 224 239 b0 then
                in_range (if b0 =? 224 then 160 else 128) (if b0 =? 237 then 159 else 191) b1
                && is_cont b2 && utf8_valid r2
              else match r2 with
              | [] => false
              | b3 :: r3 =>
                  in_range 240 244 b0
                  && in_range (if b0 =? 240 then 144 else 128) (if b0 =? 244 then 143 else 191) b1
                  && is_cont b2 && is_cont b3 && utf8_valid r3
              end
          end
      end
  end.

(** [String::from_utf8_lossy]: each maximal prefix of a character that is not
    continued as it must be is replaced by U+FFFD. *)
Definition replacement : bytes := [239; 191; 189].

Fixpoint utf8_lossy (l : bytes) : bytes :=
  match l with
  | [] => []
  | b0 :: r0 =>
      if in_range 0 127 b0 then b0 :: utf8_lossy r0
      else if in_range 194 244 b0 then
        match r0 with
        | [] => replacement
        | b1 :: r1 =>
            if in_range 194 223 b0 then
              if is_cont b1 then b0 :: b1 :: utf8_lossy r1 else replacement ++ utf8_lossy r0
            else if in_range 224 239 b0 then
              if in_range (if b0 =? 224 then 160 else 128) (if b0 =? 237 then 159 else 191) b1 then
                match r1 with
                | [] => replacement
                | b2 :: r2 =>
                    if is_cont b2 then b0 :: b1 :: b2 :: utf8_lossy r2
                    else replacement ++ utf8_lossy r1
                end
              else replacement ++ utf8_lossy r0
            else if in_range (if b0 =? 240 then 144 else 128) (if b0 =? 244 then 143 else 191) b1 then
              match r1 with
              | [] => replacement
              | b2 :: r2 =>
                  if is_cont b2 then
                    match r2 with
                    | [] => replacement
                    | b3 :: r3 =>
                        if is_cont b3 then b0 :: b1 :: b2 :: b3 :: utf8_lossy r3
                        else replacement ++ utf8_lossy r2
                    end
                  else replacement ++ utf8_lossy r1
              end
            else replacement ++ utf8_lossy r0
        end
      else replacement ++ utf8_lossy r0
  end.

Lemma utf8_replacement l : utf8_valid (replacement ++ l) = utf8_valid l.
Proof. reflexivity. Qed.

(** The first byte of well-formed text. *)
Lemma utf8_valid_head b0 r0 :
  utf8_valid (b0 :: r0) = true -> in_range 0 127 b0 = false -> in_range 194 244 b0 = true.
Proof.
  cbn [utf8_valid]. intros H E. rewrite E in H. destruct (in_range 194 244 b0) eqn:Eh; [done |].
  assert (E2 : in_range 194 223 b0 = false) by (unfold in_range in *; lia).
  assert (E3 : in_range 224 239 b0 = false) by (unfold in_range in *; lia).
  assert (E4 : in_range 240 244 b0 = false) by (unfold in_range in *; lia).
  rewrite E2, E3, E4 in H. by destruct r0 as [|? [|? [|? ?]]].
Qed.

(** The result is well formed, and well-formed text is left alone. *)
Lemma utf8_lossy_spec l :
  utf8_valid (utf8_lossy l) = true /\ (utf8_valid l = true -> utf8_lossy l = l).
Proof.
  induction l as [l IH] using (induction_ltof1 _ (@length Z)). unfold ltof in IH.
  assert (IHv : forall k, (length k < length l)%nat -> utf8_valid (utf8_lossy k) = true)
    by (intros; by apply IH).
  assert (IHe : forall k, (length k < length l)%nat -> utf8_valid k = true -> utf8_lossy k = k)
    by (intros k ?; by apply IH).
  clear IH. destruct l as [|b0 r0]; [done |]. pose proof (utf8_valid_head b0 r0) as Hhead.
  cbn [utf8_lossy]. destruct (in_range 0 127 b0) eqn:E0.
  { cbn [utf8_valid]. rewrite E0. split; [apply IHv; clear; cbn; lia | intros H; f_equal; apply IHe; (done || clear; cbn; lia)]. }
  destruct (in_range 194 244 b0) eqn:E1.
  2: { rewrite utf8_replacement. split; [apply IHv; clear; cbn; lia | intros H; by specialize (Hhead H eq_refl)]. }
  clear Hhead. cbn [utf8_valid]. rewrite E0.
  destruct r0 as [|b1 r1]; [done |]. destruct (in_range 194 223 b0) eqn:E2.
  { destruct (is_cont b1) eqn:C1; [cbn [utf8_valid]; rewrite E0, E2, C1 | rewrite utf8_replacement].
    - split; [apply IHv; clear; cbn; lia | intros H; do 2 f_equal; apply IHe; (done || clear; cbn; lia)].
    - split; [apply IHv; clear; cbn; lia | done]. }
  destruct (in_range 224 239 b0) eqn:E3.
  { destruct (in_range (if b0 =? 224 then 160 else 128) (if b0 =? 237 then 159 else 191) b1) eqn:C1.
    2: { rewrite utf8_replacement. split; [apply IHv; clear; cbn; lia | by destruct r1]. }
    destruct r1 as [|b2 r2]; [done |]. destruct (is_cont b2) eqn:C2.
    - cbn [utf8_valid]. rewrite E0, E2, E3, C1, C2.
      split; [apply IHv; clear; cbn; lia | intros H; do 3 f_equal; apply IHe; (done || clear; cbn; lia)].
    - rewrite utf8_replacement. split; [apply IHv; clear; cbn; lia | done]. }
  assert (E4 : in_range 240 244 b0 = true) by (unfold in_range in *; lia).
  destruct (in_range (if b0 =? 240 then 144 else 128) (if b0 =? 244 then 143 else 191) b1) eqn:C1.
  2: { rewrite utf8_replacement, E4. split; [apply IHv; clear; cbn; lia | by destruct r1 as [|b2 [|b3 r3]]]. }
  destruct r1 as [|b2 r2]; [done |]. destruct (is_cont b2) eqn:C2.
  2: { rewrite utf8_replacement, E4. split; [apply IHv; clear; cbn; lia | by destruct r2]. }
  destruct r2 as [|b3 r3]; [done |]. destruct (is_cont b3) eqn:C3.
  - cbn [utf8_valid]. rewrite E0, E2, E3, E4, C1, C2, C3.
    split; [apply IHv; clear; cbn; lia | intros H; do 4 f_equal; apply IHe; (done || clear; cbn; lia)].
  - rewrite utf8_replacement, E4. split; [apply IHv; clear; cbn; lia | done].
Qed.

Lemma utf8_lossy_bytes l : is_bytes l -> is_bytes (utf8_lossy l).
Proof.
  assert (Hr : is_bytes replacement) by by repeat constructor.
  unfold is_bytes in *.
  induction l as [l IH] using (induction_ltof1 _ (@length Z)). unfold ltof in IH.
  assert (IHb : forall k, (length k < length l)%nat -> Forall (uint 8) k -> Forall (uint 8) (utf8_lossy k))
    by (intros; by apply IH).
  clear IH. intros Hl. destruct l as [|b0 r0]; [done |]. inversion_clear Hl as [|? ? H0 Hr0].
  pose proof (IHb r0 ltac:(clear; cbn; lia) Hr0) as I0. cbn [utf8_lossy].
  destruct r0 as [|b1 r1]; [repeat case_match; repeat first [done | apply Forall_app_2 | apply Forall_cons_2] |].
  inversion_clear Hr0 as [|? ? H1 Hr1]. pose proof (IHb r1 ltac:(clear; cbn; lia) Hr1) as I1.
  destruct r1 as [|b2 r2].
  { repeat case_match; repeat first [done | apply Forall_app_2 | apply Forall_cons_2]. }
  inversion_clear Hr1 as [|? ? H2 Hr2]. pose proof (IHb r2 ltac:(clear; cbn; lia) Hr2) as I2.
  destruct r2 as [|b3 r3].
  { repeat case_match; repeat first [done | apply Forall_app_2 | apply Forall_cons_2]. }
  inversion_clear Hr2 as [|? ? H3 Hr3]. pose proof (IHb r3 ltac:(clear; cbn; lia) Hr3) as I3.
  repeat case_match; repeat first [done | apply Forall_app_2 | apply Forall_cons_2].
Qed.

Definition byte_of_ascii (a : Ascii.ascii) : Z := Z.of_N (Ascii.N_of_ascii a).
Definition ascii_of_byte (b : Z) : Ascii.ascii := Ascii.ascii_of_N (Z.to_N b).

(** [String::as_bytes] and [String::into_bytes]. *)
Definition as_bytes (s : string) : bytes := byte_of_ascii <$> String.list_ascii_of_string s.
Definition string_of_bytes (l : bytes) : string :=
  String.string_of_list_ascii (ascii_of_byte <$> l).

(** Rust's invariant on [String]. *)
Definition is_utf8 (s : string) : Prop := utf8_valid (as_bytes s) = true.

(** [String::from_utf8]. *)
Definition from_utf8 (l : bytes) : option string :=
  if utf8_valid l then Some (string_of_bytes l) else None.

Lemma string_of_as_bytes s : string_of_bytes (as_bytes s) = s.
Proof.
  unfold string_of_bytes, as_bytes. rewrite <- list_fmap_compose.
  rewrite <- (String.string_of_list_ascii_of_string s) at 2. f_equal.
  rewrite <- (list_fmap_id (String.list_ascii_of_string s)) at 2.
  apply list_fmap_ext; intros i a _. cbn.
  unfold ascii_of_byte, byte_of_ascii. by rewrite N2Z.id, Ascii.ascii_N_embedding.
Qed.

Lemma as_bytes_is_bytes s : is_bytes (as_bytes s).
Proof.
  apply Forall_fmap, Forall_true; intros a. cbn.
  unfold byte_of_ascii. pose proof (Ascii.N_ascii_bounded a). unfold uint. lia.
Qed.

Lemma as_bytes_of_string l : is_bytes l -> as_bytes (string_of_bytes l) = l.
Proof.
  intros Hl. unfold as_bytes, string_of_bytes.
  rewrite String.list_ascii_of_string_of_list_ascii, <- list_fmap_compose.
  rewrite <- (list_fmap_id l) at 2. apply list_fmap_ext; intros i b Hb. cbn.
  pose proof (Forall_lookup_1 _ _ _ _ Hl Hb) as Hu. unfold uint in Hu. cbn in Hu.
  unfold byte_of_ascii, ascii_of_byte. rewrite Ascii.N_ascii_embedding by lia. apply Z2N.id; lia.
Qed.

(** What [from_utf8] returns is a Rust string with the same bytes. *)
Lemma from_utf8_inv l s : is_bytes l -> from_utf8 l = Some s -> is_utf8 s /\ as_bytes s = l.
Proof.
  unfold from_utf8. intros Hl. destruct (utf8_valid l) eqn:Hv; [| done]. intros [= <-].
  unfold is_utf8. rewrite as_bytes_of_string by done. done.
Qed.

Lemma from_utf8_as_bytes s : is_utf8 s -> from_utf8 (as_bytes s) = Some s.
Proof. unfold is_utf8, from_utf8; intros ->. by rewrite string_of_as_bytes. Qed.

Lemma as_bytes_nil s : as_bytes s = [] <-> s = "".
Proof.
  split; [| by intros ->]. intros H.
  rewrite <- (string_of_as_bytes s), H. done.
Qed.

#[export] Hint Rewrite length_le_bytes length_be_bytes : comp.
#[export] Hint Resolve be_bytes_is_bytes le_bytes_is_bytes as_bytes_is_bytes : comp.
