(* ===== verification/Layout.v ===== *)
(** * Layout: how [#[repr(C)]] lays structures out in memory

    Fields in declaration order, each at the next multiple of its alignment,
    the size rounded up to the structure's alignment, integers little endian;
    and the numbers of [ioctl] commands, which carry the size of the structure
    they pass.  Shared by the structures of [Abi] and [DeviceAbi]. *)

From S2P Require Import Prelude Bytes.

(** ** [#[repr(C)]]

    A structure is the list of its fields' widths in bytes; the alignment of
    a primitive integer is its width (an array [[u64; 1]] counts as its
    element). *)

Definition align_up (pos a : nat) : nat := ((pos + a - 1) / a * a)%nat.

Fixpoint offsets (pos : nat) (widths : list nat) : list nat :=
  match widths with
  | [] => []
  | w :: ws => let off := align_up pos w in off :: offsets (off + w) ws
  end.

Fixpoint end_of (pos : nat) (widths : list nat) : nat :=
  match widths with
  | [] => pos
  | w :: ws => end_of (align_up pos w + w) ws
  end.

Definition align_of (widths : list nat) : nat := foldr Nat.max 1%nat widths.
Definition size_of (widths : list nat) : nat := align_up (end_of 0 widths) (align_of widths).

(** The bytes of a value: its fields in place.  The bytes of the gaps are
    unspecified: [gaps] gives them, by their position, and every statement
    holds for all of them. *)
Fixpoint fields_image (gaps : nat -> Z) (pos : nat) (fields : list (nat * Z)) : bytes :=
  match fields with
  | [] => []
  | (w, v) :: fs =>
      let off := align_up pos w in
      (gaps <$> seq pos (off - pos)) ++ le_bytes w v ++ fields_image gaps (off + w) fs
  end.

Definition image (gaps : nat -> Z) (fields : list (nat * Z)) : bytes :=
  let body := fields_image gaps 0 fields in
  body ++ (gaps <$> seq (length body) (size_of fields.*1 - length body)).

(** Structures with arrays and structures inside. *)
Inductive CType : Set :=
| CInt (width : nat)
| CArray (elem : CType) (n : nat)
| CStruct (fields : list CType).

Fixpoint c_align (t : CType) : nat :=
  match t with
  | CInt w => w
  | CArray t _ => c_align t
  | CStruct fs => fold_right (fun t a => Nat.max (c_align t) a) 1%nat fs
  end.

Fixpoint c_size (t : CType) : nat :=
  match t with
  | CInt w => w
  | CArray t n => (n * c_size t)%nat
  | CStruct fs =>
      align_up (fold_left (fun pos t => align_up pos (c_align t) + c_size t)%nat fs 0%nat)
        (fold_right (fun t a => Nat.max (c_align t) a) 1%nat fs)
  end.

(** The bytes of the fields themselves, without padding. *)
Fixpoint c_data (t : CType) : nat :=
  match t with
  | CInt w => w
  | CArray t n => (n * c_data t)%nat
  | CStruct fs => fold_right (fun t a => c_data t + a)%nat 0%nat fs
  end.

(** The size and the type of an ioctl number ([_IOC] of the kernel's headers). *)
Definition ioc_size (z : Z) : Z := Z.land (Z.shiftr z 16) 0x3fff.
Definition ioc_type (z : Z) : Z := Z.land (Z.shiftr z 8) 0xff.
(** The direction: 1 passes the structure to the kernel, 2 back, 3 both. *)
Definition ioc_dir (z : Z) : Z := Z.shiftr z 30.

(** ** Images *)

(** [img] holds each value of [w] bytes at its offset, little endian (two's
    complement where the field is signed). *)
Definition holds_at (img : bytes) (table : list (nat * (nat * Z))) : Prop :=
  Forall (fun '(o, (w, v)) => le_value (take w (drop o img)) = wrap (8 * Z.of_nat w) v) table.

Lemma align_up_ge pos w : (0 < w)%nat -> (pos <= align_up pos w)%nat.
Proof.
  intros Hw. unfold align_up. pose proof (Nat.div_mod (pos + w - 1) w ltac:(lia)).
  pose proof (Nat.mod_upper_bound (pos + w - 1) w ltac:(lia)). nia.
Qed.

Lemma length_fields_image gaps pos fields :
  Forall (fun f => 0 < f.1)%nat fields ->
  (pos + length (fields_image gaps pos fields) = end_of pos fields.*1)%nat.
Proof.
  intros H; revert pos; induction H as [|[w v] fs Hw H IH]; intros pos; cbn; [lia |].
  pose proof (align_up_ge pos w Hw).
  rewrite !length_app, length_fmap, length_seq, length_le_bytes, <- IH. lia.
Qed.

Lemma le_value_field w v : le_value (le_bytes w v) = wrap (8 * Z.of_nat w) v.
Proof. unfold wrap. rewrite le_value_bytes, Z.pow_mul_r by lia. done. Qed.

Lemma fields_image_holds gaps pre fields post :
  Forall (fun f => 0 < f.1)%nat fields ->
  holds_at (pre ++ fields_image gaps (length pre) fields ++ post)
    (zip (offsets (length pre) fields.*1) fields).
Proof.
  intros H; revert pre; induction H as [|[w v] fs Hw H IH]; intros pre; cbn; [constructor |].
  cbn in Hw. pose proof (align_up_ge (length pre) w Hw) as Ha.
  set (gap := gaps <$> seq _ _).
  assert (Hg : length (pre ++ gap) = align_up (length pre) w)
    by (unfold gap; rewrite length_app, length_fmap, length_seq; lia).
  constructor.
  - rewrite <- !app_assoc, app_assoc, <- Hg, drop_app_length.
    rewrite take_app_le, take_ge by (rewrite length_le_bytes; lia). apply le_value_field.
  - specialize (IH (pre ++ gap ++ le_bytes w v)).
    assert (length (pre ++ gap ++ le_bytes w v) = align_up (length pre) w + w)%nat as E
      by (rewrite app_assoc, length_app, Hg, length_le_bytes; done).
    rewrite E, <- !app_assoc in IH.
    by rewrite <- !app_assoc.
Qed.

Lemma image_holds gaps fields :
  Forall (fun f => 0 < f.1)%nat fields ->
  holds_at (image gaps fields) (zip (offsets 0 fields.*1) fields).
Proof. intros H. by apply (fields_image_holds gaps [] fields). Qed.

Lemma length_image gaps fields :
  Forall (fun f => 0 < f.1)%nat fields -> (end_of 0 fields.*1 <= size_of fields.*1)%nat ->
  length (image gaps fields) = size_of fields.*1.
Proof.
  intros H Hle. unfold image. rewrite length_app, length_fmap, length_seq.
  pose proof (length_fields_image gaps 0 fields H). lia.
Qed.

(** A structure of integers is its list of widths. *)
Lemma c_align_flat ws : c_align (CStruct (CInt <$> ws)) = align_of ws.
Proof. unfold align_of. cbn. by induction ws as [| w ws IH]; cbn; [| rewrite IH]. Qed.

Lemma c_size_flat ws : c_size (CStruct (CInt <$> ws)) = size_of ws.
Proof.
  unfold size_of. rewrite <- c_align_flat. cbn [c_size c_align]. f_equal. generalize 0%nat as pos.
  induction ws as [| w ws IH]; intros pos; cbn; [done |]. by rewrite <- IH.
Qed.

(** Distinct single bits of a [w]-bit word. *)
Definition flag_set (w : Z) (flags : list Z) : Prop :=
  NoDup flags /\ Forall (fun f => exists k, 0 <= k < w /\ f = 2 ^ k) flags.

Definition flag_setb (w : Z) (flags : list Z) : bool :=
  bool_decide (NoDup flags) &&
  forallb (fun f => (0 <? f) && (Z.log2 f <? w) && (f =? 2 ^ Z.log2 f)) flags.

Lemma flag_set_true w flags : flag_setb w flags = true -> flag_set w flags.
Proof.
  unfold flag_setb. intros [Hnd Hf]%andb_true_iff. split; [by apply bool_decide_eq_true in Hnd |].
  apply Forall_forall. intros f Hin. rewrite forallb_forall in Hf.
  specialize (Hf f ltac:(by apply list_elem_of_In)). apply andb_true_iff in Hf as [[H0 H1]%andb_true_iff H2].
  exists (Z.log2 f). pose proof (Z.log2_nonneg f). lia.
Qed.
