(* ===== verification/KernelError.v ===== *)
(** * KernelError: the crate's error type (src/error.rs)

    The enumeration [KernelError], its errno conversions and classifications
    and its [Display] text.  Every fallible operation of the crate returns
    [Result T], the [result] of the prelude at this error type. *)

From S2P Require Import Prelude.

Inductive KernelError : Set :=
| OutOfMemory
| InvalidAddress
| AlignmentError
| OverlappingRegion
| IoTimeout
| DeviceNotReady
| InvalidRequest
| Cancelled
| UblkQueueFull
| UblkInvalidTag
| UblkDeviceBusy
| UblkDeviceNotFound
| UblkInvalidDeviceId
| UblkNotPermitted
| IoUringSubmitFull
| IoUringCqOverflow
| IoUringInvalidOpcode
| BlockError
| NoTagsAvailable
| InvalidQueueId
| NotSupported
| InvalidArgument
| WouldBlock
| Interrupted
| ResourceBusy.

#[export] Instance KernelError_eq_dec : EqDecision KernelError.
Proof. solve_decision. Defined.

Abbreviation Result := (result KernelError).

(** [to_errno]: the negative Linux errno of an error. *)
Definition to_errno (e : KernelError) : Z :=
  match e with
  | OutOfMemory => -12
  | InvalidAddress => -14
  | AlignmentError => -22
  | OverlappingRegion => -22
  | IoTimeout => -110
  | DeviceNotReady => -19
  | InvalidRequest => -22
  | Cancelled => -125
  | UblkQueueFull => -11
  | UblkInvalidTag => -22
  | UblkDeviceBusy => -16
  | UblkDeviceNotFound => -19
  | UblkInvalidDeviceId => -22
  | UblkNotPermitted => -1
  | IoUringSubmitFull => -11
  | IoUringCqOverflow => -75
  | IoUringInvalidOpcode => -22
  | BlockError => -5
  | NoTagsAvailable => -11
  | InvalidQueueId => -22
  | NotSupported => -95
  | InvalidArgument => -22
  | WouldBlock => -11
  | Interrupted => -4
  | ResourceBusy => -16
  end.

(** [from_errno]: the error of a negative errno, [InvalidArgument] for the rest. *)
Definition from_errno (errno : Z) : KernelError :=
  match errno with
  | -12 => OutOfMemory
  | -14 => InvalidAddress
  | -110 => IoTimeout
  | -19 => DeviceNotReady
  | -125 => Cancelled
  | -16 => UblkDeviceBusy
  | -1 => UblkNotPermitted
  | -75 => IoUringCqOverflow
  | -5 => BlockError
  | -95 => NotSupported
  | -4 => Interrupted
  | -11 => WouldBlock
  | _ => InvalidArgument
  end.

Definition is_retriable (e : KernelError) : bool :=
  match e with
  | WouldBlock | UblkQueueFull | IoUringSubmitFull | NoTagsAvailable | UblkDeviceBusy => true
  | _ => false
  end.

Definition is_resource_error (e : KernelError) : bool :=
  match e with
  | OutOfMemory | UblkQueueFull | NoTagsAvailable => true
  | _ => false
  end.

(** [impl fmt::Display for KernelError]. *)
Definition KernelError_fmt (e : KernelError) : string :=
  match e with
  | OutOfMemory => "out of memory"
  | InvalidAddress => "invalid address"
  | AlignmentError => "alignment error"
  | OverlappingRegion => "overlapping memory region"
  | IoTimeout => "I/O timeout"
  | DeviceNotReady => "device not ready"
  | InvalidRequest => "invalid request"
  | Cancelled => "operation cancelled"
  | UblkQueueFull => "ublk queue full"
  | UblkInvalidTag => "invalid ublk tag"
  | UblkDeviceBusy => "ublk device busy"
  | UblkDeviceNotFound => "ublk device not found"
  | UblkInvalidDeviceId => "invalid ublk device ID"
  | UblkNotPermitted => "ublk operation not permitted"
  | IoUringSubmitFull => "io_uring submission queue full"
  | IoUringCqOverflow => "io_uring completion queue overflow"
  | IoUringInvalidOpcode => "invalid io_uring opcode"
  | BlockError => "block device error"
  | NoTagsAvailable => "no tags available"
  | InvalidQueueId => "invalid queue ID"
  | NotSupported => "operation not supported"
  | InvalidArgument => "invalid argument"
  | WouldBlock => "operation would block"
  | Interrupted => "operation interrupted"
  | ResourceBusy => "resource is busy"
  end.

(** All the errors, to decide a property of each. *)
Definition all_errors : list KernelError :=
  [OutOfMemory; InvalidAddress; AlignmentError; OverlappingRegion; IoTimeout;
   DeviceNotReady; InvalidRequest; Cancelled; UblkQueueFull; UblkInvalidTag;
   UblkDeviceBusy; UblkDeviceNotFound; UblkInvalidDeviceId; UblkNotPermitted; IoUringSubmitFull;
   IoUringCqOverflow; IoUringInvalidOpcode; BlockError; NoTagsAvailable; InvalidQueueId;
   NotSupported; InvalidArgument; WouldBlock; Interrupted; ResourceBusy].

Lemma elem_of_all_errors e : e ∈ all_errors.
Proof. destruct e; unfold all_errors; set_solver. Qed.

#[export] Instance KernelError_finite_forall (P : KernelError -> Prop)
  `{forall e, Decision (P e)} : Decision (forall e, P e).
Proof.
  refine (cast_if (decide (Forall P all_errors))).
  - abstract (intros e; pose proof (elem_of_all_errors e); by eapply Forall_forall).
  - abstract (intros H'; contradict n; apply Forall_forall; auto).
Defined.

(** ** Properties *)

(** The errno conversions agree: every errno is in [-125, -1], converting an
    error to its errno and back gives an error with the same errno, the round
    trip keeps the retriable classification exactly for the errors other than
    [ResourceBusy] (which comes back as the retriable [UblkDeviceBusy]), and an
    integer that is no error's errno becomes [InvalidArgument]. *)
Theorem errno_roundtrip :
  (forall e, -125 <= to_errno e <= -1)
  /\ (forall e, to_errno (from_errno (to_errno e)) = to_errno e)
  /\ (forall e, is_retriable (from_errno (to_errno e)) = is_retriable e <-> e <> ResourceBusy)
  /\ (forall n, (forall e, to_errno e <> n) -> from_errno n = InvalidArgument).
Proof.
  split; [by apply (bool_decide_unpack _); vm_compute |].
  split; [by apply (bool_decide_unpack _); vm_compute |].
  split; [intros []; cbn; split; intros; congruence |].
  intros n Hn. assert (Hall : forall k, from_errno k <> InvalidArgument -> to_errno (from_errno k) = k).
  { intros k. unfold from_errno. repeat case_match; cbn; congruence. }
  destruct (decide (from_errno n = InvalidArgument)) as [| Hne]; [done |].
  destruct (Hn (from_errno n)). by apply Hall.
Qed.
