(* ===== verification/Lz4.v ===== *)
(** * Lz4: the LZ4 block codec of the zram compression stream

    src/zram.rs, [CompressionStream::compress_lz4], [lz4_emit_sequence],
    [lz4_emit_literals_only], [decompress_lz4] and [lz4_hash].

    First the code, position by position ([usize] positions are [nat]: a slice
    is shorter than 2^63 and no sum of positions here reaches 2^64), with every
    index and sub-slice a possible panic; then the LZ4 block format as a
    specification (a list of sequences, their encoding and their expansion);
    then the two refinements, compressor and decompressor against the format,
    whose composition is the round trip. *)

From S2P Require Import Prelude Bytes KernelError.

(** ** The compressor *)

(** [a - b] on [usize] where no wrap-around is intended. *)
Definition usize_sub (a b : nat) : comp nat :=
  if (b <=? a)%nat then Ret (a - b)%nat else Panic.

(** [lz4_hash]. *)
Definition lz4_hash (data : bytes) : comp Z :=
  if (length data <? 4)%nat then Ret 0
  else
    v ← index_n data 0 4;
    Ret (Z.shiftr (wrap 32 (le_value v * 2654435761)) 20).

(** The extended-length loop, [while remaining >= 255 { push(255); ... }]. *)
Definition emit_extended (output : bytes) (remaining : nat) : comp bytes :=
  loop (S remaining) (fun '(output, remaining) =>
    if (255 <=? remaining)%nat
    then Ret (inl (output ++ [255], (remaining - 255)%nat))
    else Ret (inr (output ++ [Z.of_nat remaining])))
    (output, remaining).

(** [lz4_emit_sequence]. *)
Definition lz4_emit_sequence (output literals : bytes) (offset match_len : nat) : comp bytes :=
  let literal_len := length literals in
  let lit_token := if (15 <=? literal_len)%nat then 15 else Z.of_nat literal_len in
  m ← usize_sub match_len 4;
  let match_token := if (15 <=? m)%nat then 15 else Z.of_nat m in
  let output := output ++ [Z.lor (wrap 8 (Z.shiftl lit_token 4)) match_token] in
  output ← (if (15 <=? literal_len)%nat then emit_extended output (literal_len - 15) else Ret output);
  let output := output ++ literals in
  let output := output ++ [Z.land (Z.of_nat offset) 255] in
  let output := output ++ [Z.land (Z.shiftr (Z.of_nat offset) 8) 255] in
  if (15 <=? m)%nat then emit_extended output (m - 15) else Ret output.

(** [lz4_emit_literals_only]. *)
Definition lz4_emit_literals_only (output literals : bytes) : comp bytes :=
  let literal_len := length literals in
  let lit_token := if (15 <=? literal_len)%nat then 15 else Z.of_nat literal_len in
  let output := output ++ [wrap 8 (Z.shiftl lit_token 4)] in
  output ← (if (15 <=? literal_len)%nat then emit_extended output (literal_len - 15) else Ret output);
  Ret (output ++ literals).

(** The match test of [compress_lz4], with the short-circuit [&&]. *)
Definition match_at (input : bytes) (ip ref_pos : nat) : comp bool :=
  if (0 <? ref_pos)%nat && (ref_pos <? ip)%nat && (Z.of_nat (ip - ref_pos) <? 65535)
     && (ip + 4 <=? length input)%nat && (ref_pos + 4 <=? length input)%nat
  then
    a ← slice input ref_pos (ref_pos + 4);
    b ← slice input ip (ip + 4);
    Ret (bool_decide (a = b))
  else Ret false.

(** [while ip + match_len < input.len() && ... { match_len += 1 }]. *)
Definition extend_match (input : bytes) (ip ref_pos : nat) : comp nat :=
  loop (S (length input)) (fun match_len : nat =>
    if (ip + match_len <? length input)%nat && (ref_pos + match_len <? length input)%nat
    then
      a ← index input (ip + match_len);
      b ← index input (ref_pos + match_len);
      if a =? b then Ret (inl (S match_len)) else Ret (inr match_len)
    else Ret (inr match_len)) 4%nat.

(** The mutable variables of [compress_lz4]. *)
Record CompressState : Type := mkCompressState {
  c_output : bytes;
  c_hash_table : list Z;
  c_ip : nat;
  c_anchor : nat }.

(** One turn of [while ip < limit]. *)
Definition compress_step (input : bytes) (limit : nat) (st : CompressState) :
  comp (CompressState + CompressState) :=
  let '(mkCompressState output hash_table ip anchor) := st in
  if negb (ip <? limit)%nat then Ret (inr st)
  else
    tail ← slice_from input ip;
    h ← lz4_hash tail;
    let hash := Z.to_nat (h mod 4096) in
    r ← index hash_table hash;
    let ref_pos := Z.to_nat r in
    hash_table ← index_set hash_table hash (wrap 32 (Z.of_nat ip));
    found ← match_at input ip ref_pos;
    if (found : bool) then
      offset ← usize_sub ip ref_pos;
      match_len ← extend_match input ip ref_pos;
      literals ← slice input anchor ip;
      output ← lz4_emit_sequence output literals offset match_len;
      Ret (inl (mkCompressState output hash_table (ip + match_len)%nat (ip + match_len)%nat))
    else Ret (inl (mkCompressState output hash_table (S ip) anchor)).

(** [compress_lz4]. *)
Definition compress_lz4 (input : bytes) : comp (Result bytes) :=
  if (length input =? 0)%nat then Ret (Ok [])
  else if (length input <? 16)%nat then Ret (Ok input)
  else
    let limit := (length input - 5)%nat in
    st ← loop (S (length input)) (compress_step input limit)
           (mkCompressState [] (replicate 4096 0) 0 0);
    output ← (if (c_anchor st <? length input)%nat
              then literals ← slice_from input (c_anchor st);
                   lz4_emit_literals_only (c_output st) literals
              else Ret (c_output st));
    if (length input <=? length output)%nat then Ret (Ok input) else Ret (Ok output).

(** ** The decompressor *)

(** The extended-length loop, [while ip < input.len() { ... if byte != 255 break }]. *)
Definition read_extended (input : bytes) (ip len : nat) : comp (nat * nat) :=
  loop (S (length input)) (fun '(ip, len) =>
    if (ip <? length input)%nat then
      byte ← index input ip;
      if negb (byte =? 255) then Ret (inr (S ip, (len + Z.to_nat byte)%nat))
      else Ret (inl (S ip, (len + Z.to_nat byte)%nat))
    else Ret (inr (ip, len))) (ip, len).

(** The literal copy of one sequence. *)
Definition decompress_literals (input : bytes) (ip literal_len op : nat) (output : bytes) :
  comp (Result (nat * nat * bytes)) :=
  if (0 <? literal_len)%nat then
    if (length input <? ip + literal_len)%nat || (length output <? op + literal_len)%nat
    then Ret (Err InvalidArgument)
    else
      src ← slice input ip (ip + literal_len);
      output ← copy_from_slice output op (op + literal_len) src;
      Ret (Ok ((ip + literal_len)%nat, (op + literal_len)%nat, output))
  else Ret (Ok (ip, op, output)).

(** The byte-by-byte, possibly overlapping match copy. *)
Definition copy_match (output : bytes) (op match_pos match_len : nat) : comp bytes :=
  for_each (seq 0 match_len) (fun i output =>
    v ← index output (match_pos + i);
    index_set output (op + i) v) output.

(** The offset, the match length and the match copy of one sequence. *)
Definition decompress_match (input : bytes) (token : Z) (ip op : nat) (output : bytes) :
  comp (Result (nat * nat * bytes)) :=
  if (length input <? ip + 2)%nat then Ret (Err InvalidArgument)
  else
    b0 ← index input ip;
    b1 ← index input (ip + 1);
    let offset := Z.to_nat (Z.lor b0 (Z.shiftl b1 8)) in
    let ip := (ip + 2)%nat in
    if (offset =? 0)%nat || (op <? offset)%nat then Ret (Err InvalidArgument)
    else
      let match_len := (Z.to_nat (Z.land token 15) + 4)%nat in
      p ← (if Z.land token 15 =? 15 then read_extended input ip match_len
           else Ret (ip, match_len));
      let '(ip, match_len) := p in
      match_pos ← usize_sub op offset;
      if (length output <? op + match_len)%nat then Ret (Err InvalidArgument)
      else
        output ← copy_match output op match_pos match_len;
        Ret (Ok (ip, (op + match_len)%nat, output)).

(** One turn of [while ip < input.len()]: the state is (ip, op, output). *)
Definition decompress_step (input : bytes) (st : nat * nat * bytes) :
  comp (nat * nat * bytes + Result nat * bytes) :=
  let '(ip, op, output) := st in
  if negb (ip <? length input)%nat then Ret (inr (Ok op, output))
  else
    token ← index input ip;
    let ip := S ip in
    let literal_len := Z.to_nat (Z.land (Z.shiftr token 4) 15) in
    p ← (if (literal_len =? 15)%nat then read_extended input ip literal_len
         else Ret (ip, literal_len));
    let '(ip, literal_len) := p in
    r ← decompress_literals input ip literal_len op output;
    match r with
    | Err e => Ret (inr (Err e, output))
    | Ok (ip, op, output) =>
        if (length input <=? ip)%nat then Ret (inr (Ok op, output))
        else
          r ← decompress_match input token ip op output;
          match r with
          | Err e => Ret (inr (Err e, output))
          | Ok st' => Ret (inl st')
          end
    end.

(** [decompress_lz4]: the result and the output buffer, which is written in
    place even when an error is returned. *)
Definition decompress_lz4 (input output : bytes) : comp (Result nat * bytes) :=
  if (length input =? 0)%nat then Ret (Ok 0%nat, output)
  else loop (S (length input)) (decompress_step input) (0%nat, 0%nat, output).

(** Concrete runs. *)
Example compress_abc :
  compress_lz4 (concat (replicate 10 [97; 98; 99])) =
  Ret (Ok [79; 97; 98; 99; 97; 3; 0; 7]).
Proof. vm_compute. reflexivity. Qed.
Example decompress_abc :
  decompress_lz4 [79; 97; 98; 99; 97; 3; 0; 7] (replicate 32 7) =
  Ret (Ok 30%nat, concat (replicate 10 [97; 98; 99]) ++ [7; 7]).
Proof. vm_compute. reflexivity. Qed.
Example decompress_bad_offset :
  decompress_lz4 [0; 5; 0] (replicate 32 7) = Ret (Err InvalidArgument, replicate 32 7).
Proof. vm_compute. reflexivity. Qed.

(** ** The block format

    A block is a list of sequences (literals, then a match [sq_len] long that
    starts [sq_off] bytes back) and the last literals. *)

Record Sequence : Type := mkSequence { sq_lits : bytes; sq_off : nat; sq_len : nat }.

Definition nibble (n : nat) : Z := Z.of_nat (n `min` 15).

(** The bytes that extend a length nibble of 15. *)
Definition extension (n : nat) : bytes :=
  if (15 <=? n)%nat
  then replicate ((n - 15) `div` 255) 255 ++ [Z.of_nat ((n - 15) `mod` 255)]
  else [].

Definition encode_seq (s : Sequence) : bytes :=
  (16 * nibble (length (sq_lits s)) + nibble (sq_len s - 4))
  :: extension (length (sq_lits s)) ++ sq_lits s
  ++ [Z.of_nat (sq_off s) mod 256; Z.of_nat (sq_off s) / 256]
  ++ extension (sq_len s - 4).

Definition encode_last (lits : bytes) : bytes :=
  match lits with
  | [] => []
  | _ => 16 * nibble (length lits) :: extension (length lits) ++ lits
  end.

Definition encode (seqs : list Sequence) (last : bytes) : bytes :=
  concat (encode_seq <$> seqs) ++ encode_last last.

(** [n] bytes copied from [off] back, each readable once written. *)
Fixpoint copy_back (out : bytes) (off n : nat) : bytes :=
  match n with
  | O => out
  | S n' => copy_back (out ++ [nth (length out - off) out 0]) off n'
  end.

Definition expand_seq (out : bytes) (s : Sequence) : bytes :=
  copy_back (out ++ sq_lits s) (sq_off s) (sq_len s).

Definition expand (out : bytes) (seqs : list Sequence) : bytes :=
  fold_left expand_seq seqs out.

Definition wf_seq (out : bytes) (s : Sequence) : Prop :=
  (0 < sq_off s <= length out + length (sq_lits s))%nat
  /\ Z.of_nat (sq_off s) < 65536 /\ (4 <= sq_len s)%nat.

Fixpoint wf_seqs (out : bytes) (seqs : list Sequence) : Prop :=
  match seqs with
  | [] => True
  | s :: seqs' => wf_seq out s /\ wf_seqs (expand_seq out s) seqs'
  end.

Lemma length_copy_back out off n : length (copy_back out off n) = (length out + n)%nat.
Proof.
  revert out; induction n as [|n IH]; intros out; cbn; [lia |].
  rewrite IH, length_app; cbn; lia.
Qed.

Lemma length_expand_seq out s :
  length (expand_seq out s) = (length out + length (sq_lits s) + sq_len s)%nat.
Proof. unfold expand_seq; rewrite length_copy_back, length_app; lia. Qed.

Lemma wf_seqs_app out seqs1 seqs2 :
  wf_seqs out (seqs1 ++ seqs2) <-> wf_seqs out seqs1 /\ wf_seqs (expand out seqs1) seqs2.
Proof.
  revert out; induction seqs1 as [|s seqs1 IH]; intros out; cbn; [tauto |].
  rewrite IH. tauto.
Qed.

Lemma expand_app out seqs1 seqs2 :
  expand out (seqs1 ++ seqs2) = expand (expand out seqs1) seqs2.
Proof. unfold expand; apply fold_left_app. Qed.

Lemma length_expand_ge out seqs : (length out <= length (expand out seqs))%nat.
Proof.
  revert out; induction seqs as [|s seqs IH]; intros out; [done |].
  change (expand out (s :: seqs)) with (expand (expand_seq out s) seqs).
  specialize (IH (expand_seq out s)). rewrite length_expand_seq in IH. lia.
Qed.

Lemma encode_snoc seqs s :
  concat (encode_seq <$> (seqs ++ [s])) = concat (encode_seq <$> seqs) ++ encode_seq s.
Proof. rewrite fmap_app, concat_app. cbn [fmap list_fmap concat]. by rewrite app_nil_r. Qed.

(** A match of the input with itself: copying back rebuilds the input. *)
Lemma copy_back_self (input : bytes) ip off n :
  (0 < off <= ip)%nat -> (ip + n <= length input)%nat ->
  (forall k, (k < n)%nat -> input !! (ip + k)%nat = input !! (ip - off + k)%nat) ->
  copy_back (take ip input) off n = take (ip + n) input.
Proof.
  revert ip; induction n as [|n IH]; intros ip Hoff Hlen Hk; cbn; [by rewrite Nat.add_0_r |].
  replace (ip + S n)%nat with (S ip + n)%nat by lia.
  rewrite <- IH; [| lia | lia |].
  - f_equal. destruct (lookup_lt_is_Some_2 input ip) as [b Hb]; [lia |].
    rewrite (take_S_r _ _ _ Hb). f_equal. f_equal.
    rewrite length_take_le by lia.
    apply nth_lookup_Some. rewrite lookup_take_lt by lia.
    rewrite <- Hb. specialize (Hk O ltac:(lia)). rewrite !Nat.add_0_r in Hk. by rewrite Hk.
  - intros k Hk'. specialize (Hk (S k) ltac:(lia)).
    replace (S ip + k)%nat with (ip + S k)%nat by lia.
    replace (S ip - off + k)%nat with (ip - off + S k)%nat by lia. done.
Qed.

(** ** The compressor emits the format *)

Lemma emit_extended_spec output n :
  emit_extended output n =
  Ret (output ++ replicate (n `div` 255) 255 ++ [Z.of_nat (n `mod` 255)]).
Proof.
  unfold emit_extended.
  assert (Hgen : forall fuel output n, (n < fuel)%nat ->
    loop fuel (fun '(output, remaining) =>
      if (255 <=? remaining)%nat
      then Ret (inl (output ++ [255], (remaining - 255)%nat))
      else Ret (inr (output ++ [Z.of_nat remaining]))) (output, n) =
    Ret (output ++ replicate (n `div` 255) 255 ++ [Z.of_nat (n `mod` 255)])).
  { clear. induction fuel as [|fuel IH]; intros output n Hn; [lia |].
    rewrite loop_S. destruct (255 <=? n)%nat eqn:Hle; rewrite bind_ret.
    - apply Nat.leb_le in Hle. rewrite IH by lia.
      assert (n `div` 255 = S ((n - 255) `div` 255))%nat as ->.
      { apply Nat2Z.inj. rewrite Nat2Z.inj_succ, !Nat2Z.inj_div, Nat2Z.inj_sub by lia.
        Z.to_euclidean_division_equations; lia. }
      assert (n `mod` 255 = (n - 255) `mod` 255)%nat as ->.
      { apply Nat2Z.inj. rewrite !Nat2Z.inj_mod, Nat2Z.inj_sub by lia.
        Z.to_euclidean_division_equations; lia. }
      cbn [replicate]. by rewrite <- !app_assoc.
    - apply Nat.leb_gt in Hle. rewrite Nat.div_small, Nat.mod_small by lia. done. }
  apply Hgen; lia.
Qed.

Lemma emit_extension output n :
  (if (15 <=? n)%nat then emit_extended output (n - 15) else Ret output) =
  Ret (output ++ extension n).
Proof.
  unfold extension. destruct (15 <=? n)%nat.
  - apply emit_extended_spec.
  - by rewrite app_nil_r.
Qed.

Lemma nibble_token n :
  (if (15 <=? n)%nat then 15 else Z.of_nat n) = nibble n.
Proof. unfold nibble. destruct (Nat.leb_spec 15 n); lia. Qed.

Lemma nibble_bound n : 0 <= nibble n < 16.
Proof. unfold nibble; lia. Qed.

Lemma token_lor a b :
  0 <= a < 16 -> 0 <= b < 16 -> Z.lor (wrap 8 (Z.shiftl a 4)) b = 16 * a + b.
Proof.
  intros Ha Hb. rewrite Z.shiftl_mul_pow2 by lia.
  change (2 ^ 4) with 16. rewrite wrap_id by width.
  assert (Hland : Z.land (a * 16) b = 0).
  { apply Z.bits_inj'; intros n Hn. rewrite Z.land_spec, Z.bits_0.
    change 16 with (2 ^ 4). destruct (Z.lt_ge_cases n 4).
    - by rewrite Z.mul_pow2_bits_low.
    - rewrite andb_false_iff; right.
      rewrite <- (Z.mod_small b (2 ^ 4)) by (change (2 ^ 4) with 16; lia).
      apply Z.mod_pow2_bits_high; lia. }
  pose proof (Z.add_lor_land (a * 16) b). lia.
Qed.

Lemma emit_sequence_spec output s :
  (4 <= sq_len s)%nat -> Z.of_nat (sq_off s) < 65536 ->
  lz4_emit_sequence output (sq_lits s) (sq_off s) (sq_len s) = Ret (output ++ encode_seq s).
Proof.
  intros Hlen Hoff. unfold lz4_emit_sequence, usize_sub.
  destruct (Nat.leb_spec 4 (sq_len s)); [| lia]. rewrite bind_ret.
  rewrite !nibble_token, emit_extension, bind_ret, emit_extension. f_equal.
  rewrite token_lor by apply nibble_bound.
  unfold encode_seq.
  change 255 with (Z.ones 8). rewrite !Z.land_ones, Z.shiftr_div_pow2 by lia.
  change (2 ^ 8) with 256.
  rewrite (Z.mod_small (_ / 256)) by (split; [apply Z.div_pos | apply Z.div_lt_upper_bound]; lia).
  by rewrite <- !app_assoc.
Qed.

Lemma emit_literals_only_spec output lits :
  lits <> [] -> lz4_emit_literals_only output lits = Ret (output ++ encode_last lits).
Proof.
  intros Hne. unfold lz4_emit_literals_only. rewrite nibble_token, emit_extension, bind_ret.
  f_equal.
  assert (wrap 8 (Z.shiftl (nibble (length lits)) 4) = 16 * nibble (length lits)) as ->.
  { pose proof (nibble_bound (length lits)).
    rewrite <- (Z.lor_0_r (wrap _ _)), token_lor by lia. lia. }
  destruct lits; [done |]. unfold encode_last. by rewrite <- !app_assoc.
Qed.

Definition agree (input : bytes) (ip ref_pos n : nat) : Prop :=
  forall k, (k < n)%nat -> input !! (ip + k)%nat = input !! (ref_pos + k)%nat.

Lemma lz4_hash_returns data : returns (lz4_hash data) (fun _ => True).
Proof.
  unfold lz4_hash. destruct (Nat.ltb_spec (length data) 4); [by apply returns_ret |].
  rewrite mapM_index_ok by lia. by apply returns_ret.
Qed.

Lemma match_at_spec input ip ref_pos :
  returns (match_at input ip ref_pos) (fun found : bool => found = true ->
    (0 < ref_pos < ip)%nat /\ Z.of_nat (ip - ref_pos) < 65535
    /\ (ip + 4 <= length input)%nat /\ agree input ip ref_pos 4).
Proof.
  unfold match_at. destruct (_ && _) eqn:Ht; [| by apply returns_ret]. to_prop.
  rewrite !slice_ok, !bind_ret by lia. apply returns_ret.
  intros Heq%bool_decide_eq_true.
  repeat split; [lia.. |]. intros k Hk.
  apply (f_equal (.!! k)) in Heq.
  rewrite !lookup_take_lt, !lookup_drop in Heq by lia. done.
Qed.

Lemma extend_match_spec input ip ref_pos :
  (ref_pos < ip)%nat -> (ip + 4 <= length input)%nat -> agree input ip ref_pos 4 ->
  returns (extend_match input ip ref_pos) (fun n =>
    (4 <= n)%nat /\ (ip + n <= length input)%nat /\ agree input ip ref_pos n).
Proof.
  intros Href Hip Hag. unfold extend_match.
  apply loop_total with
    (I := fun n => (4 <= n)%nat /\ (ip + n <= length input)%nat /\ agree input ip ref_pos n)
    (m := fun n => (length input - n)%nat); [| done | lia].
  intros n (Hn & Hle & Hagn). destruct (_ && _) eqn:Ht; [| by apply returns_ret].
  to_prop.
  destruct (index_lt input (ip + n)) as (a & Ha & ->); [lia |].
  destruct (index_lt input (ref_pos + n)) as (b & Hb & ->); [lia |].
  rewrite !bind_ret. destruct (Z.eqb_spec a b) as [<- |]; apply returns_ret; [| done].
  repeat split; [lia.. | | lia]. intros k Hk.
  destruct (decide (k = n)) as [-> |]; [congruence | apply Hagn; lia].
Qed.

(** The loop invariant of the compressor: the output is the encoding of
    well-formed sequences that expand to the input before [anchor]. *)
Definition compress_inv (input : bytes) (st : CompressState) : Prop :=
  (c_anchor st <= c_ip st <= length input)%nat
  /\ length (c_hash_table st) = 4096%nat
  /\ exists seqs, c_output st = concat (encode_seq <$> seqs)
       /\ wf_seqs [] seqs /\ expand [] seqs = take (c_anchor st) input.

Lemma compress_inv_match input ip ref_pos n anchor seqs :
  (anchor <= ip)%nat -> (0 < ref_pos < ip)%nat -> Z.of_nat (ip - ref_pos) < 65535 ->
  (4 <= n)%nat -> (ip + n <= length input)%nat -> agree input ip ref_pos n ->
  wf_seqs [] seqs -> expand [] seqs = take anchor input ->
  let s := mkSequence (take (ip - anchor) (drop anchor input)) (ip - ref_pos) n in
  wf_seqs [] (seqs ++ [s]) /\ expand [] (seqs ++ [s]) = take (ip + n) input.
Proof.
  intros Hanchor Href Hoff Hn Hle Hag Hwf Hexp s.
  assert (Hout : take anchor input ++ sq_lits s = take ip input).
  { cbn. rewrite take_take_drop. f_equal. lia. }
  rewrite wf_seqs_app, expand_app, Hexp. split.
  - split; [done |]. split; [| done]. unfold wf_seq. cbn.
    rewrite !length_take, length_drop. lia.
  - change (expand (take anchor input) [s]) with (expand_seq (take anchor input) s).
    unfold expand_seq. rewrite Hout. apply copy_back_self; [cbn; lia.. |].
    intros k Hk. cbn in *. rewrite Hag by lia. f_equal. lia.
Qed.

Lemma compress_step_spec input limit st :
  (limit <= length input)%nat -> compress_inv input st ->
  returns (compress_step input limit st) (fun r =>
    match r with
    | inl st' => compress_inv input st' /\ (length input - c_ip st' < length input - c_ip st)%nat
    | inr st' => compress_inv input st'
    end).
Proof.
  intros Hlimit Hinv. destruct st as [output table ip anchor].
  pose proof Hinv as ((Hanchor & Hip) & Htable & seqs & Hout & Hwf & Hexp). cbn in *.
  destruct (Nat.ltb_spec ip limit) as [Hlt |]; cbn [negb]; [| by apply returns_ret].
  rewrite slice_from_ok, bind_ret by lia.
  destruct (lz4_hash_returns (drop ip input)) as (h & -> & _). rewrite bind_ret.
  destruct (index_lt table (Z.to_nat (h mod 4096))) as (r & Hr & ->).
  { rewrite Htable. pose proof (Z.mod_pos_bound h 4096). lia. }
  rewrite bind_ret. unfold index_set.
  rewrite decide_True by (by eapply lookup_lt_Some). rewrite bind_ret.
  destruct (match_at_spec input ip (Z.to_nat r)) as (found & -> & Hfound). rewrite bind_ret.
  destruct found.
  - destruct Hfound as (Href & Hoff & Hle & Hag); [done |].
    unfold usize_sub at 1. destruct (Nat.leb_spec (Z.to_nat r) ip); [| lia]. rewrite bind_ret.
    destruct (extend_match_spec input ip (Z.to_nat r)) as (n & -> & Hn & Hle' & Hag');
      [lia | done | done |]. rewrite bind_ret.
    rewrite slice_ok, bind_ret by lia.
    destruct (compress_inv_match input ip (Z.to_nat r) n anchor seqs) as [Hwf' Hexp']; try done.
    pose proof (emit_sequence_spec output
      (mkSequence (take (ip - anchor) (drop anchor input)) (ip - Z.to_nat r) n)) as Hemit.
    cbn in Hemit. rewrite Hemit, bind_ret by lia. apply returns_ret. split; [| cbn; lia].
    split; [cbn; lia |]. split; [cbn; by rewrite length_insert |].
    eexists; split; [| split; [exact Hwf' | exact Hexp']].
    rewrite encode_snoc, <- Hout. done.
  - apply returns_ret. split; [| cbn; lia].
    split; [cbn; lia |]. split; [cbn; by rewrite length_insert |]. by exists seqs.
Qed.

(** The compressor, whole: on 16 bytes or more its result is the input itself or
    a shorter encoding of sequences and literals that expand to the input. *)
Lemma compress_lz4_spec input :
  (16 <= length input)%nat ->
  returns (compress_lz4 input) (fun r =>
    r = Ok input
    \/ exists seqs last, r = Ok (encode seqs last) /\ wf_seqs [] seqs
         /\ expand [] seqs ++ last = input
         /\ (length (encode seqs last) < length input)%nat).
Proof.
  intros Hlen. unfold compress_lz4.
  destruct (Nat.eqb_spec (length input) 0); [lia |].
  destruct (Nat.ltb_spec (length input) 16); [lia |].
  eapply returns_bind.
  { apply loop_total with (I := compress_inv input) (m := fun st => (length input - c_ip st)%nat)
      (Q := compress_inv input).
    - intros st Hst. apply compress_step_spec; [lia | done].
    - split; [cbn; lia |]. split; [apply length_replicate |]. by exists [].
    - cbn; lia. }
  intros st ((Hanchor & Hip) & _ & seqs & Hout & Hwf & Hexp).
  assert (Htail : returns
    (if (c_anchor st <? length input)%nat
     then literals ← slice_from input (c_anchor st);
          lz4_emit_literals_only (c_output st) literals
     else Ret (c_output st))
    (fun output => output = encode seqs (drop (c_anchor st) input))).
  { unfold encode. destruct (Nat.ltb_spec (c_anchor st) (length input)).
    - rewrite slice_from_ok, bind_ret by lia.
      rewrite emit_literals_only_spec, Hout; [by apply returns_ret |].
      intros Hnil%(f_equal length). rewrite length_drop in Hnil. cbn in Hnil. lia.
    - apply returns_ret. rewrite drop_ge, Hout by lia. cbn. by rewrite app_nil_r. }
  eapply returns_bind; [exact Htail |]. intros output ->.
  destruct (Nat.leb_spec (length input) (length (encode seqs (drop (c_anchor st) input))));
    apply returns_ret; [by left | right].
  do 2 eexists; split; [done |]. split; [done |]. split; [| done].
  rewrite Hexp. apply take_drop.
Qed.

(** ** The decompressor reads the format *)

Lemma read_extended_run input q r ip len rest fuel :
  drop ip input = replicate q 255 ++ r :: rest -> r <> 255 -> (q < fuel)%nat ->
  loop fuel (fun '(ip, len) =>
    if (ip <? length input)%nat then
      byte ← index input ip;
      if negb (byte =? 255) then Ret (inr (S ip, (len + Z.to_nat byte)%nat))
      else Ret (inl (S ip, (len + Z.to_nat byte)%nat))
    else Ret (inr (ip, len))) (ip, len) =
  Ret ((ip + q + 1)%nat, (len + 255 * q + Z.to_nat r)%nat).
Proof.
  intros Hdrop Hr. revert q ip len Hdrop.
  induction fuel as [|fuel IH]; intros q ip len Hdrop Hq; [lia |]. rewrite loop_S.
  assert (Hip : (ip < length input)%nat).
  { apply (f_equal length) in Hdrop. rewrite length_drop, length_app in Hdrop.
    cbn in Hdrop. lia. }
  destruct (Nat.ltb_spec ip (length input)); [| lia].
  destruct q as [|q]; cbn [replicate app] in Hdrop;
    apply index_drop in Hdrop as [-> Hdrop]; rewrite bind_ret.
  - destruct (Z.eqb_spec r 255); [done |]. cbn. f_equal. f_equal; lia.
  - cbn [Z.eqb Pos.eqb negb]. rewrite bind_ret. rewrite (IH q) by (done || lia).
    f_equal. f_equal; lia.
Qed.

(** A length nibble and its extension read back. *)
Lemma read_length input ip n base rest :
  drop ip input = extension n ++ rest ->
  (if (n `min` 15 =? 15)%nat then read_extended input ip (base + n `min` 15)
   else Ret (ip, (base + n `min` 15)%nat)) =
  Ret ((ip + length (extension n))%nat, (base + n)%nat).
Proof.
  unfold extension. intros Hdrop. destruct (Nat.leb_spec 15 n) as [Hn | Hn].
  - rewrite Nat.min_r, Nat.eqb_refl by lia. unfold read_extended.
    rewrite <- app_assoc in Hdrop. cbn [app] in Hdrop.
    pose proof (Nat.mod_upper_bound (n - 15) 255).
    rewrite (read_extended_run input _ _ ip _ rest _ Hdrop).
    + rewrite length_app, length_replicate. cbn [length].
      rewrite Nat2Z.id. f_equal. f_equal; [lia |].
      pose proof (Nat.div_mod_eq (n - 15) 255). lia.
    + lia.
    + apply (f_equal length) in Hdrop.
      rewrite length_drop, length_app, length_replicate in Hdrop. lia.
  - rewrite Nat.min_l by lia. destruct (Nat.eqb_spec n 15); [lia |].
    cbn [length]. f_equal. f_equal; lia.
Qed.

Lemma copy_back_S_r out off n :
  copy_back out off (S n) =
  copy_back out off n ++ [nth (length (copy_back out off n) - off) (copy_back out off n) 0].
Proof.
  revert out; induction n as [|n IH]; intros out; [done |].
  change (copy_back out off (S (S n)))
    with (copy_back (out ++ [nth (length out - off) out 0]) off (S n)).
  rewrite IH. done.
Qed.

(** The overlapping copy in the buffer is the format's copy. *)
Lemma copy_match_spec (out buf : bytes) off n :
  (0 < off <= length out)%nat -> (n <= length buf)%nat ->
  copy_match (out ++ buf) (length out) (length out - off) n =
  Ret (copy_back out off n ++ drop n buf).
Proof.
  intros Hoff Hn. unfold copy_match.
  destruct (for_range n (fun i output =>
      v ← index output (length out - off + i); index_set output (length out + i) v)
    (fun i output => output = copy_back out off i ++ drop i buf) (out ++ buf))
    as (output & -> & ->); [done | | done].
  intros i output Hi ->.
  assert (Hlen : length (copy_back out off i) = (length out + i)%nat) by apply length_copy_back.
  set (j := (length out - off + i)%nat).
  destruct (nth_lookup_or_length (copy_back out off i) j 0) as [Hj | ]; [| lia].
  erewrite index_lookup by (rewrite lookup_app_l by lia; exact Hj).
  rewrite bind_ret. unfold index_set.
  rewrite decide_True by (rewrite length_app, length_drop; lia).
  apply returns_ret. rewrite copy_back_S_r, Hlen, <- app_assoc.
  rewrite insert_app_r_alt by lia. f_equal.
  replace (length out + i - length (copy_back out off i))%nat with O by lia.
  destruct (lookup_lt_is_Some_2 buf i) as [b Hb]; [lia |].
  rewrite (drop_S _ _ _ Hb). cbn. do 2 f_equal. unfold j. lia.
Qed.

Lemma token_hi a b : 0 <= a < 16 -> 0 <= b < 16 -> Z.land (Z.shiftr (16 * a + b) 4) 15 = a.
Proof.
  intros. change 15 with (Z.ones 4). rewrite Z.land_ones, Z.shiftr_div_pow2 by lia.
  change (2 ^ 4) with 16. Z.to_euclidean_division_equations; lia.
Qed.

Lemma token_lo a b : 0 <= a < 16 -> 0 <= b < 16 -> Z.land (16 * a + b) 15 = b.
Proof.
  intros. change 15 with (Z.ones 4). rewrite Z.land_ones by lia.
  change (2 ^ 4) with 16. Z.to_euclidean_division_equations; lia.
Qed.

Lemma nibble_to_nat n : Z.to_nat (nibble n) = (n `min` 15)%nat.
Proof. unfold nibble; lia. Qed.

Lemma drop_app_prefix {A} (l x r : list A) i n :
  drop i l = x ++ r -> length x = n -> drop (i + n) l = r.
Proof. intros H <-. rewrite <- drop_drop, H. apply drop_app_length. Qed.

Lemma drop_app_take {A} (l x r : list A) i :
  drop i l = x ++ r -> take (length x) (drop i l) = x.
Proof. intros ->. apply take_app_length. Qed.

(** Reading the literals of a sequence. *)
Lemma decompress_literals_spec input ip lits rest (out buf : bytes) :
  drop ip input = lits ++ rest -> (length lits <= length buf)%nat ->
  decompress_literals input ip (length lits) (length out) (out ++ buf) =
  Ret (Ok ((ip + length lits)%nat, length (out ++ lits),
           (out ++ lits) ++ drop (length lits) buf)).
Proof.
  intros Hdrop Hbuf. unfold decompress_literals.
  destruct (Nat.ltb_spec 0 (length lits)) as [Hpos | Hpos].
  - assert (length (drop ip input) = length lits + length rest)%nat as Hl
      by (by rewrite Hdrop, length_app).
    rewrite length_drop in Hl.
    destruct (Nat.ltb_spec (length input) (ip + length lits)); [lia |].
    destruct (Nat.ltb_spec (length (out ++ buf)) (length out + length lits)) as [Hlt |];
      [rewrite length_app in Hlt; lia |].
    cbn [orb]. rewrite slice_ok, bind_ret by lia.
    replace (ip + length lits - ip)%nat with (length lits) by lia.
    rewrite (drop_app_take _ _ _ _ Hdrop).
    rewrite copy_from_slice_ok, bind_ret by (rewrite ?length_app; lia).
    rewrite take_app_length, drop_app_ge by lia.
    rewrite length_app, <- app_assoc. do 6 f_equal. lia.
  - destruct lits; [| cbn in Hpos; lia]. cbn. by rewrite !app_nil_r, Nat.add_0_r.
Qed.

Lemma offset_value off :
  Z.of_nat off < 65536 ->
  Z.to_nat (Z.lor (Z.of_nat off mod 256) (Z.shiftl (Z.of_nat off / 256) 8)) = off.
Proof.
  intros Hoff. set (z := Z.of_nat off) in *.
  assert (Hz : Z.lor (z mod 256) (Z.shiftl (z / 256) 8) = z); [| lia].
  change 256 with (2 ^ 8).
  apply Z.bits_inj'; intros n Hn. rewrite Z.lor_spec. destruct (Z.lt_ge_cases n 8).
  - rewrite Z.mod_pow2_bits_low, Z.shiftl_spec_low by lia. apply orb_false_r.
  - rewrite Z.mod_pow2_bits_high, Z.shiftl_spec, Z.div_pow2_bits by lia.
    cbn [orb]. f_equal; lia.
Qed.

(** Reading the match of a sequence. *)
Lemma decompress_match_spec input ip a m off rest (out buf : bytes) :
  0 <= a < 16 -> (0 < off <= length out)%nat -> Z.of_nat off < 65536 ->
  drop ip input = [Z.of_nat off mod 256; Z.of_nat off / 256] ++ extension m ++ rest ->
  (m + 4 <= length buf)%nat ->
  decompress_match input (16 * a + nibble m) ip (length out) (out ++ buf) =
  Ret (Ok ((ip + 2 + length (extension m))%nat, length (copy_back out off (m + 4)),
           copy_back out off (m + 4) ++ drop (m + 4) buf)).
Proof.
  intros Ha Hoff Hoff' Hdrop Hbuf. unfold decompress_match.
  assert (length (drop ip input) = 2 + length (extension m ++ rest))%nat as Hl
    by (by rewrite Hdrop).
  rewrite length_drop in Hl.
  destruct (Nat.ltb_spec (length input) (ip + 2)); [lia |].
  pose proof (drop_app_prefix _ _ _ _ 2 Hdrop eq_refl) as Hdrop2.
  cbn [app] in Hdrop. apply index_drop in Hdrop as [-> Hdrop].
  replace (ip + 1)%nat with (S ip) by lia.
  apply index_drop in Hdrop as [-> _]. rewrite !bind_ret, offset_value by done.
  destruct (Nat.eqb_spec off 0); [lia |]. destruct (Nat.ltb_spec (length out) off); [lia |].
  cbn [orb]. pose proof (nibble_bound m). rewrite token_lo, nibble_to_nat by lia.
  replace (nibble m =? 15) with (m `min` 15 =? 15)%nat by (unfold nibble; lia).
  rewrite (Nat.add_comm _ 4). rewrite (read_length _ _ _ _ _ Hdrop2), bind_ret.
  unfold usize_sub. destruct (Nat.leb_spec off (length out)); [| lia]. rewrite bind_ret.
  destruct (Nat.ltb_spec (length (out ++ buf)) (length out + (4 + m))) as [Hlt |];
    [rewrite length_app in Hlt; lia |].
  rewrite copy_match_spec, bind_ret by lia.
  rewrite length_copy_back, (Nat.add_comm 4 m). done.
Qed.

Lemma length_encode_seq s :
  length (encode_seq s) =
  (1 + length (extension (length (sq_lits s))) + length (sq_lits s) + 2
   + length (extension (sq_len s - 4)))%nat.
Proof. unfold encode_seq. cbn [length]. rewrite !length_app. cbn [length]. lia. Qed.

(** One turn of the decoder's loop consumes one sequence. *)
Lemma decompress_step_seq input ip s rest (out buf : bytes) :
  drop ip input = encode_seq s ++ rest -> wf_seq out s ->
  (length (sq_lits s) + sq_len s <= length buf)%nat ->
  decompress_step input (ip, length out, out ++ buf) =
  Ret (inl ((ip + length (encode_seq s))%nat, length (expand_seq out s),
            expand_seq out s ++ drop (length (sq_lits s) + sq_len s) buf)).
Proof.
  intros Hdrop (Hoff & Hoff' & Hlen) Hbuf. rewrite length_encode_seq.
  destruct s as [lits off mlen]; cbn [sq_lits sq_off sq_len] in *.
  assert (Hin : (ip + length (encode_seq (mkSequence lits off mlen)) <= length input)%nat).
  { apply (f_equal length) in Hdrop. rewrite length_drop, length_app in Hdrop.
    rewrite length_encode_seq in Hdrop. rewrite length_encode_seq. lia. }
  rewrite length_encode_seq in Hin. cbn [sq_lits sq_off sq_len] in Hin.
  unfold decompress_step. destruct (Nat.ltb_spec ip (length input)); [| lia]. cbn [negb].
  unfold encode_seq in Hdrop. cbn [sq_lits sq_off sq_len] in Hdrop.
  rewrite <- app_comm_cons, <- !app_assoc in Hdrop.
  apply index_drop in Hdrop as [-> Hdrop]. rewrite bind_ret.
  pose proof (nibble_bound (length lits)). pose proof (nibble_bound (mlen - 4)).
  rewrite token_hi, nibble_to_nat by lia.
  pose proof (read_length _ _ (length lits) 0 _ Hdrop) as Hread. cbn [Nat.add] in Hread.
  rewrite Hread, bind_ret.
  apply drop_app_prefix with (n := length (extension (length lits))) in Hdrop; [| done].
  rewrite (decompress_literals_spec _ _ lits _ _ _ Hdrop), bind_ret by lia.
  apply drop_app_prefix with (n := length lits) in Hdrop; [| done].
  destruct (Nat.leb_spec (length input) (S ip + length (extension (length lits)) + length lits));
    [lia |].
  rewrite (decompress_match_spec _ _ _ _ off rest);
    [| lia | rewrite length_app; lia | done | by rewrite Hdrop | rewrite length_drop; lia].
  rewrite bind_ret. replace (mlen - 4 + 4)%nat with mlen by lia.
  unfold expand_seq. cbn [sq_lits sq_off sq_len]. rewrite drop_drop.
  do 4 f_equal; lia.
Qed.

Lemma decompress_step_last input ip last (out buf : bytes) :
  last <> [] -> drop ip input = encode_last last -> (length last <= length buf)%nat ->
  decompress_step input (ip, length out, out ++ buf) =
  Ret (inr (Ok (length (out ++ last)), (out ++ last) ++ drop (length last) buf)).
Proof.
  intros Hne Hdrop Hbuf.
  assert (Hdrop' : drop ip input =
    16 * nibble (length last) + 0 :: extension (length last) ++ last ++ []).
  { rewrite Hdrop, Z.add_0_r, app_nil_r. by destruct last. }
  clear Hdrop. rename Hdrop' into Hdrop. pose proof Hdrop as Hl.
  apply (f_equal length) in Hl. cbn [length] in Hl.
  rewrite length_drop, !length_app in Hl. cbn [length] in Hl.
  unfold decompress_step. destruct (Nat.ltb_spec ip (length input)); [| lia]. cbn [negb].
  apply index_drop in Hdrop as [-> Hdrop]. rewrite bind_ret.
  pose proof (nibble_bound (length last)). rewrite token_hi, nibble_to_nat by lia.
  pose proof (read_length _ _ (length last) 0 _ Hdrop) as Hread. cbn [Nat.add] in Hread.
  rewrite Hread, bind_ret.
  apply drop_app_prefix with (n := length (extension (length last))) in Hdrop; [| done].
  rewrite (decompress_literals_spec _ _ last _ _ _ Hdrop), bind_ret by lia.
  destruct (Nat.leb_spec (length input) (S ip + length (extension (length last)) + length last));
    [done | lia].
Qed.

Lemma decompress_run input seqs last fuel ip (out buf : bytes) :
  drop ip input = encode seqs last -> (ip <= length input)%nat -> wf_seqs out seqs ->
  (length (expand out seqs ++ last) <= length (out ++ buf))%nat ->
  (length input - ip < fuel)%nat ->
  loop fuel (decompress_step input) (ip, length out, out ++ buf) =
  Ret (Ok (length (expand out seqs ++ last)),
       (expand out seqs ++ last) ++ drop (length (expand out seqs ++ last) - length out) buf).
Proof.
  revert fuel ip out buf. induction seqs as [|s seqs IH];
    intros fuel ip out buf Hdrop Hip Hwf Hlen Hfuel.
  - cbn [encode expand fold_left concat fmap list_fmap app] in *.
    destruct fuel as [|fuel]; [lia |]. rewrite loop_S.
    change (expand out []) with out in *. rewrite !length_app in *.
    destruct (decide (last = [])) as [-> | Hne].
    + apply (f_equal length) in Hdrop. rewrite length_drop in Hdrop. cbn in Hdrop.
      unfold decompress_step. destruct (Nat.ltb_spec ip (length input)); [lia |].
      cbn [negb]. rewrite bind_ret, app_nil_r. do 3 f_equal; cbn; [lia |].
      by rewrite Nat.add_0_r, Nat.sub_diag, drop_0.
    + rewrite (decompress_step_last _ _ last) by (done || lia). rewrite bind_ret, length_app.
      do 3 f_equal. f_equal. lia.
  - destruct Hwf as [Hs Hwf]. destruct fuel as [|fuel]; [lia |]. rewrite loop_S.
    change (expand out (s :: seqs)) with (expand (expand_seq out s) seqs) in *.
    assert (Hge := length_expand_ge (expand_seq out s) seqs).
    pose proof (length_expand_seq out s) as Hls. rewrite !length_app in Hlen.
    assert (Hcons : encode (s :: seqs) last = encode_seq s ++ encode seqs last)
      by (unfold encode; cbn [fmap list_fmap concat]; by rewrite <- app_assoc).
    rewrite Hcons in Hdrop.
    rewrite (decompress_step_seq _ _ _ _ _ _ Hdrop Hs), bind_ret by lia.
    assert (Hin := f_equal length Hdrop). rewrite length_drop, length_app in Hin.
    pose proof (length_encode_seq s).
    rewrite IH; [| by eapply drop_app_prefix | lia | done | | lia].
    + do 3 f_equal. rewrite drop_drop. f_equal. rewrite !length_app in *. lia.
    + rewrite !length_app, length_drop. lia.
Qed.

(** Decoding an encoded block, into any buffer that is large enough. *)
Lemma decompress_encode seqs last buf :
  wf_seqs [] seqs -> (length (expand [] seqs ++ last) <= length buf)%nat ->
  decompress_lz4 (encode seqs last) buf =
  Ret (Ok (length (expand [] seqs ++ last)),
       (expand [] seqs ++ last) ++ drop (length (expand [] seqs ++ last)) buf).
Proof.
  intros Hwf Hlen. unfold decompress_lz4.
  destruct (Nat.eqb_spec (length (encode seqs last)) 0) as [Hnil%length_zero_iff_nil |].
  - apply app_nil in Hnil as [Hseqs Hlast].
    destruct seqs as [|s seqs]; [| done]. destruct last; [| done].
    cbn. by rewrite drop_0.
  - rewrite (decompress_run _ seqs last _ 0 [] buf); cbn [length app]; try done; try lia.
    by rewrite Nat.sub_0_r.
Qed.

(** ** The decompressor on arbitrary input *)

Lemma read_extended_returns input ip len :
  (ip <= length input)%nat ->
  returns (read_extended input ip len) (fun '(ip', len') =>
    (ip <= ip' <= length input)%nat /\ (len <= len')%nat).
Proof.
  intros Hip. unfold read_extended.
  apply loop_total with
    (I := fun '(ip', len') => (ip <= ip' <= length input)%nat /\ (len <= len')%nat)
    (m := fun '(ip', _) => (length input - ip')%nat); [| lia | lia].
  intros [ip' len'] (Hip' & Hlen'). destruct (Nat.ltb_spec ip' (length input)).
  - destruct (index_lt input ip') as (b & _ & ->); [lia |]. rewrite bind_ret.
    destruct (negb (b =? 255)); apply returns_ret; lia.
  - apply returns_ret. lia.
Qed.

(** What a decoding action may do to the output buffer: it keeps its length and
    everything from the new position on. *)
Definition writes_below (output0 : bytes) (op : nat) (output : bytes) : Prop :=
  (op <= length output)%nat /\ length output = length output0
  /\ drop op output = drop op output0.

Lemma writes_below_drop output0 op output op' :
  writes_below output0 op output -> (op <= op')%nat -> drop op' output = drop op' output0.
Proof.
  intros (_ & _ & Hd) Hle. replace op' with (op + (op' - op))%nat by lia.
  by rewrite <- !drop_drop, Hd.
Qed.

Lemma decompress_literals_returns input ip n op output0 output :
  (ip <= length input)%nat -> writes_below output0 op output ->
  returns (decompress_literals input ip n op output) (fun r =>
    match r with
    | Ok (ip', op', output') =>
        (ip <= ip' <= length input)%nat /\ writes_below output0 op' output'
    | Err e => e = InvalidArgument
    end).
Proof.
  intros Hip Hw. pose proof Hw as (Hop & Hlen & Hdrop). unfold decompress_literals.
  destruct (0 <? n)%nat; [| by apply returns_ret].
  destruct (Nat.ltb_spec (length input) (ip + n)); [by apply returns_ret |].
  destruct (Nat.ltb_spec (length output) (op + n)); [by apply returns_ret |]. cbn [orb].
  rewrite slice_ok, bind_ret by lia.
  rewrite copy_from_slice_ok, bind_ret by (rewrite ?length_take, ?length_drop; lia).
  apply returns_ret. split; [lia |].
  unfold writes_below. rewrite !length_app, !length_take, !length_drop.
  split; [lia |]. split; [lia |].
  rewrite <- (writes_below_drop _ _ _ (op + n) Hw) by lia.
  rewrite app_assoc, drop_app_ge by (rewrite length_app, !length_take, length_drop; lia).
  rewrite length_app, !length_take, length_drop, drop_drop. f_equal. lia.
Qed.

Lemma copy_match_returns output0 op output match_pos n :
  writes_below output0 op output -> (match_pos < op)%nat -> (op + n <= length output)%nat ->
  returns (copy_match output op match_pos n) (writes_below output0 (op + n)).
Proof.
  intros Hw Hpos Hn. pose proof Hw as (Hop & Hlen & Hdrop).
  eapply returns_mono.
  { apply for_range with
      (I := fun _ o => length o = length output0 /\ drop (op + n) o = drop (op + n) output0).
    - split; [done |]. apply (writes_below_drop _ _ _ _ Hw). lia.
    - intros i o Hi (Ho & Hd). destruct (index_lt o (match_pos + i)) as (v & _ & ->); [lia |].
      rewrite bind_ret. unfold index_set. rewrite decide_True by lia.
      apply returns_ret. rewrite length_insert, drop_insert_lt by lia. done. }
  intros o (Ho & Hd). unfold writes_below. split; [lia |]. done.
Qed.

Lemma decompress_match_returns input token ip op output0 output :
  (ip <= length input)%nat -> writes_below output0 op output ->
  returns (decompress_match input token ip op output) (fun r =>
    match r with
    | Ok (ip', op', output') =>
        (ip < ip' <= length input)%nat /\ writes_below output0 op' output'
    | Err e => e = InvalidArgument
    end).
Proof.
  intros Hip Hw. pose proof Hw as (Hop & Hlen & Hdrop). unfold decompress_match.
  destruct (Nat.ltb_spec (length input) (ip + 2)); [by apply returns_ret |].
  destruct (index_lt input ip) as (b0 & _ & ->); [lia |].
  destruct (index_lt input (ip + 1)) as (b1 & _ & ->); [lia |]. rewrite !bind_ret.
  set (offset := Z.to_nat (Z.lor b0 (Z.shiftl b1 8))).
  destruct (Nat.eqb_spec offset 0); [by apply returns_ret |].
  destruct (Nat.ltb_spec op offset); [by apply returns_ret |]. cbn [orb].
  eapply returns_bind with (P := fun '(ip', _) => (ip + 2 <= ip' <= length input)%nat).
  { destruct (Z.land token 15 =? 15).
    - eapply returns_mono; [apply read_extended_returns; lia |]. intros []; lia.
    - apply returns_ret; lia. }
  intros [ip' ml] Hip'. unfold usize_sub. destruct (Nat.leb_spec offset op); [| lia].
  rewrite bind_ret. destruct (Nat.ltb_spec (length output) (op + ml)); [by apply returns_ret |].
  eapply returns_bind; [apply (copy_match_returns output0); [done | lia | lia] |].
  intros o Ho. apply returns_ret. split; [lia | done].
Qed.

Definition decompress_post (output : bytes) (r : Result nat * bytes) : Prop :=
  length r.2 = length output
  /\ match r.1 with
     | Ok n => (n <= length output)%nat /\ drop n r.2 = drop n output
     | Err e => e = InvalidArgument
     end.

Lemma decompress_step_returns input output0 ip op output :
  (ip <= length input)%nat -> writes_below output0 op output ->
  returns (decompress_step input (ip, op, output)) (fun r =>
    match r with
    | inl (ip', op', output') =>
        (ip < ip' <= length input)%nat /\ writes_below output0 op' output'
    | inr r => decompress_post output0 r
    end).
Proof.
  intros Hip Hw. pose proof Hw as (Hop & Hlen & Hdrop).
  unfold decompress_step, decompress_post.
  destruct (Nat.ltb_spec ip (length input)); cbn [negb]; [| apply returns_ret; cbn; auto with lia].
  destruct (index_lt input ip) as (token & _ & ->); [lia |]. rewrite bind_ret.
  eapply returns_bind with (P := fun '(ip', _) => (S ip <= ip' <= length input)%nat).
  { destruct (_ =? 15)%nat.
    - eapply returns_mono; [apply read_extended_returns; lia |]. intros []; lia.
    - apply returns_ret; lia. }
  intros [ip1 ll] Hip1.
  eapply returns_bind; [apply (decompress_literals_returns _ _ _ _ output0); [lia | done] |].
  intros [[[ip2 op2] o2] | e]; [| intros ->; by apply returns_ret].
  intros (Hip2 & Hw2). pose proof Hw2 as (Hop2 & Hlen2 & Hdrop2).
  destruct (Nat.leb_spec (length input) ip2); [apply returns_ret; cbn; auto with lia |].
  eapply returns_bind; [apply (decompress_match_returns _ _ _ _ output0); [lia | done] |].
  intros [[[ip3 op3] o3] | e] H3; apply returns_ret; [| done].
  destruct H3. split; [lia | done].
Qed.

(** ** Properties *)

(** C4. LZ4 round trip: on every input the compressor terminates without a
    panic and never grows it; from 16 bytes on, its result either is the input
    itself (stored raw) or is strictly shorter and decompresses, into any buffer
    with room for the input, to exactly the input, leaving the rest of the
    buffer untouched. *)
Theorem lz4_roundtrip (input : bytes) :
  exists c, compress_lz4 input = Ret (Ok c) /\ (length c <= length input)%nat
    /\ (c = input \/
        ((16 <= length input)%nat /\ (length c < length input)%nat
         /\ forall buf, (length input <= length buf)%nat ->
              decompress_lz4 c buf =
              Ret (Ok (length input), input ++ drop (length input) buf))).
Proof.
  destruct (decide (16 <= length input)%nat) as [Hlen | Hlen].
  - destruct (compress_lz4_spec input Hlen) as (r & -> & [-> | H]); [by eauto |].
    destruct H as (seqs & last & -> & Hwf & <- & Hshort).
    eexists; split; [done |]. split; [lia |]. right. split; [done |]. split; [done |].
    intros buf Hbuf. by apply decompress_encode.
  - unfold compress_lz4. destruct (Nat.eqb_spec (length input) 0) as [H0 |].
    + exists []. apply length_zero_iff_nil in H0 as ->. auto.
    + destruct (Nat.ltb_spec (length input) 16); [| lia]. eauto.
Qed.

(** C27. Decompressing untrusted bytes is safe: for every input and every output
    buffer the decoder terminates without an out-of-bounds access; it keeps the
    buffer's length, its only error is [InvalidArgument], and when it succeeds
    with [n] bytes, [n] fits the buffer and the buffer beyond [n] is unchanged. *)
Theorem decompress_lz4_safe (input output : bytes) :
  returns (decompress_lz4 input output) (decompress_post output).
Proof.
  unfold decompress_lz4.
  destruct (length input =? 0)%nat; [apply returns_ret; split; cbn; auto with lia |].
  apply loop_total with
    (I := fun '(ip, op, o) => (ip <= length input)%nat /\ writes_below output op o)
    (m := fun '(ip, _, _) => (length input - ip)%nat); [| | lia].
  - intros [[ip op] o] (Hip & Hw).
    eapply returns_mono; [by apply decompress_step_returns |].
    intros [[[ip' op'] o'] | r]; [| done]. intros (? & ?). split; [| lia]. split; [lia | done].
  - split; [lia |]. split; [lia |]. done.
Qed.
