(* ===== verification/Zram.v ===== *)
(** * Zram: the compressed RAM block device (src/zram.rs)

    Configuration, statistics, page entries, page table, compression stream and
    the device [ZramDevice] with its operations [read_page], [write_page],
    [discard_page], [reset], [stored_pages] and [stats].  The LZ4 codec is the
    file Lz4.

    The device refines an abstract page store: a finite map from page numbers to
    page contents, absent pages reading as zeros. *)

From S2P Require Import Prelude Float Bytes KernelError Lz4.

Definition PAGE_SIZE : nat := 4096.

(** ** Compressor and configuration *)

Inductive ZramCompressor : Set := Lz4 | NoCompression.

#[export] Instance ZramCompressor_eq_dec : EqDecision ZramCompressor.
Proof. solve_decision. Defined.

(** [ZramCompressor::default]. *)
Definition ZramCompressor_default : ZramCompressor := Lz4.

Definition ZramCompressor_name (c : ZramCompressor) : string :=
  match c with Lz4 => "lz4" | NoCompression => "none" end.

(** [2.5] and [1.0]. *)
Definition typical_ratio (c : ZramCompressor) : SpecFloat.spec_float :=
  match c with Lz4 => f64_ratio 5 2 | NoCompression => f64_of_int 1 end.

Record ZramConfig : Type := mkZramConfig {
  size_bytes : Z;
  compressor : ZramCompressor;
  mem_limit : option Z;
  num_streams : Z;
  track_stats : bool }.

Definition ZramConfig_default : ZramConfig :=
  mkZramConfig (4 * 1024 * 1024 * 1024) Lz4 None 4 true.

Definition with_size (size : Z) : ZramConfig := mkZramConfig size Lz4 None 4 true.

Definition with_compressor (c : ZramConfig) (k : ZramCompressor) : ZramConfig :=
  mkZramConfig (size_bytes c) k (mem_limit c) (num_streams c) (track_stats c).
Definition with_mem_limit (c : ZramConfig) (limit : Z) : ZramConfig :=
  mkZramConfig (size_bytes c) (compressor c) (Some limit) (num_streams c) (track_stats c).
Definition with_num_streams (c : ZramConfig) (streams : Z) : ZramConfig :=
  mkZramConfig (size_bytes c) (compressor c) (mem_limit c) streams (track_stats c).

Definition max_pages (c : ZramConfig) : Z := size_bytes c / Z.of_nat PAGE_SIZE.

Definition effective_mem_limit (c : ZramConfig) : Z :=
  default (size_bytes c / 2) (mem_limit c).

(** ** Statistics *)

Record ZramStats : Type := mkZramStats {
  orig_data_size : Z;
  compr_data_size : Z;
  mem_used_total : Z;
  pages_stored : Z;
  zero_pages : Z;
  same_pages : Z;
  huge_pages : Z;
  num_reads : Z;
  num_writes : Z;
  failed_reads : Z;
  failed_writes : Z }.

Definition ZramStats_default : ZramStats := mkZramStats 0 0 0 0 0 0 0 0 0 0 0.

(** [AtomicStats] holds the same counters, each an [AtomicU64]. *)
Definition AtomicStats : Type := ZramStats.

Definition snapshot (s : AtomicStats) : ZramStats :=
  mkZramStats (orig_data_size s) (compr_data_size s) (mem_used_total s) (pages_stored s)
    (zero_pages s) (same_pages s) (huge_pages s) (num_reads s) (num_writes s)
    (failed_reads s) (failed_writes s).

(** [AtomicU64::fetch_add]: wraps around. *)
Definition fetch_add (x n : Z) : Z := wrap 64 (x + n).

Definition record_write (s : AtomicStats) (orig_size compr_size : Z) : AtomicStats :=
  mkZramStats (fetch_add (orig_data_size s) orig_size)
    (fetch_add (compr_data_size s) compr_size) (fetch_add (mem_used_total s) compr_size)
    (fetch_add (pages_stored s) 1) (zero_pages s) (same_pages s) (huge_pages s)
    (num_reads s) (fetch_add (num_writes s) 1) (failed_reads s) (failed_writes s).

Definition record_zero_page (s : AtomicStats) : AtomicStats :=
  mkZramStats (orig_data_size s) (compr_data_size s) (mem_used_total s)
    (fetch_add (pages_stored s) 1) (fetch_add (zero_pages s) 1) (same_pages s) (huge_pages s)
    (num_reads s) (fetch_add (num_writes s) 1) (failed_reads s) (failed_writes s).

Definition record_same_page (s : AtomicStats) : AtomicStats :=
  mkZramStats (orig_data_size s) (compr_data_size s) (mem_used_total s)
    (fetch_add (pages_stored s) 1) (zero_pages s) (fetch_add (same_pages s) 1) (huge_pages s)
    (num_reads s) (fetch_add (num_writes s) 1) (failed_reads s) (failed_writes s).

Definition record_huge_page (s : AtomicStats) : AtomicStats :=
  let page := Z.of_nat PAGE_SIZE in
  mkZramStats (fetch_add (orig_data_size s) page) (fetch_add (compr_data_size s) page)
    (fetch_add (mem_used_total s) page) (fetch_add (pages_stored s) 1) (zero_pages s)
    (same_pages s) (fetch_add (huge_pages s) 1) (num_reads s) (fetch_add (num_writes s) 1)
    (failed_reads s) (failed_writes s).

Definition record_read (s : AtomicStats) : AtomicStats :=
  mkZramStats (orig_data_size s) (compr_data_size s) (mem_used_total s) (pages_stored s)
    (zero_pages s) (same_pages s) (huge_pages s) (fetch_add (num_reads s) 1) (num_writes s)
    (failed_reads s) (failed_writes s).

Definition record_failed_read (s : AtomicStats) : AtomicStats :=
  mkZramStats (orig_data_size s) (compr_data_size s) (mem_used_total s) (pages_stored s)
    (zero_pages s) (same_pages s) (huge_pages s) (num_reads s) (num_writes s)
    (fetch_add (failed_reads s) 1) (failed_writes s).

Definition record_failed_write (s : AtomicStats) : AtomicStats :=
  mkZramStats (orig_data_size s) (compr_data_size s) (mem_used_total s) (pages_stored s)
    (zero_pages s) (same_pages s) (huge_pages s) (num_reads s) (num_writes s)
    (failed_reads s) (fetch_add (failed_writes s) 1).

Definition compression_ratio (s : ZramStats) : SpecFloat.spec_float :=
  if compr_data_size s =? 0 then f64_of_int 1 else f64_ratio (orig_data_size s) (compr_data_size s).
Definition memory_efficiency (s : ZramStats) : SpecFloat.spec_float :=
  if mem_used_total s =? 0 then f64_of_int 1 else f64_ratio (orig_data_size s) (mem_used_total s).

(** [special_pages]: a plain [+] on [u64]. *)
Definition special_pages {prof : Profile} (s : ZramStats) : comp Z :=
  add_w 64 (zero_pages s) (same_pages s).

(** ** Page entries and the page table *)

Inductive PageEntry : Type :=
| Empty
| Zero
| Same (value : Z)
| Compressed (data : bytes)
| Uncompressed (data : bytes).

Definition memory_size (e : PageEntry) : nat :=
  match e with
  | Empty => 0
  | Zero => 0
  | Same _ => 1
  | Compressed data => length data
  | Uncompressed data => length data
  end.

Definition PageEntry_is_empty (e : PageEntry) : bool :=
  match e with Empty => true | _ => false end.

Record PageTable : Type := mkPageTable { entries : Lock (gmap Z PageEntry) }.

Definition PageTable_new : PageTable := mkPageTable (lock_new ∅).

Definition PageTable_get (t : PageTable) (page_index : Z) : Result PageEntry :=
  m ← ok_or ResourceBusy (lock (entries t));
  Ok (default Empty ((m : gmap Z PageEntry) !! page_index)).

Definition PageTable_set (t : PageTable) (page_index : Z) (e : PageEntry) :
  Result unit * PageTable :=
  match lock (entries t) with
  | None => (Err ResourceBusy, t)
  | Some m => (Ok tt, mkPageTable (lock_set (entries t) (<[page_index := e]> m)))
  end.

Definition PageTable_remove (t : PageTable) (page_index : Z) :
  Result (option PageEntry) * PageTable :=
  match lock (entries t) with
  | None => (Err ResourceBusy, t)
  | Some m => (Ok (m !! page_index), mkPageTable (lock_set (entries t) (delete page_index m)))
  end.

Definition PageTable_len (t : PageTable) : nat :=
  match lock (entries t) with Some m => size m | None => 0 end.

Definition PageTable_is_empty (t : PageTable) : bool := (PageTable_len t =? 0)%nat.

(** ** Compression stream *)

Record CompressionStream : Set := mkCompressionStream { stream_compressor : ZramCompressor }.

Definition CompressionStream_new (c : ZramCompressor) : CompressionStream :=
  mkCompressionStream c.

Definition compress (s : CompressionStream) (input : bytes) : comp (Result bytes) :=
  match stream_compressor s with
  | Lz4 => compress_lz4 input
  | NoCompression => Ret (Ok input)
  end.

Definition decompress (s : CompressionStream) (input output : bytes) :
  comp (Result nat * bytes) :=
  match stream_compressor s with
  | Lz4 => decompress_lz4 input output
  | NoCompression =>
      let len := (length input `min` length output)%nat in
      src ← slice input 0 len;
      output ← copy_from_slice output 0 len src;
      Ret (Ok len, output)
  end.

(** ** The device *)

Record ZramDevice : Type := mkZramDevice {
  config : ZramConfig;
  page_table : PageTable;
  stream : Lock CompressionStream;
  stats_counters : AtomicStats }.

Definition ZramDevice_new (c : ZramConfig) : Result ZramDevice :=
  Ok (mkZramDevice c PageTable_new (lock_new (CompressionStream_new (compressor c)))
        ZramStats_default).

Definition set_page_table (d : ZramDevice) (t : PageTable) : ZramDevice :=
  mkZramDevice (config d) t (stream d) (stats_counters d).
Definition set_stats (d : ZramDevice) (s : AtomicStats) : ZramDevice :=
  mkZramDevice (config d) (page_table d) (stream d) s.

Definition stats (d : ZramDevice) : ZramStats := snapshot (stats_counters d).

(** The [match entry] of [read_page]: the buffer after it, and whether it failed. *)
Definition read_entry (d : ZramDevice) (entry : PageEntry) (buffer : bytes) :
  comp (Result unit * bytes) :=
  match entry with
  | Empty => buffer ← fill buffer 0 PAGE_SIZE 0; Ret (Ok tt, buffer)
  | Zero => buffer ← fill buffer 0 PAGE_SIZE 0; Ret (Ok tt, buffer)
  | Same value => buffer ← fill buffer 0 PAGE_SIZE value; Ret (Ok tt, buffer)
  | Compressed data =>
      match lock (stream d) with
      | None => Ret (Err ResourceBusy, buffer)
      | Some s =>
          page ← slice buffer 0 PAGE_SIZE;
          p ← decompress s data page;
          let '(r, page) := p in
          buffer ← copy_from_slice buffer 0 PAGE_SIZE page;
          match r with
          | Err e => Ret (Err e, buffer)
          | Ok decompressed =>
              if negb (decompressed =? PAGE_SIZE)%nat
              then buffer ← fill buffer decompressed PAGE_SIZE 0; Ret (Ok tt, buffer)
              else Ret (Ok tt, buffer)
          end
      end
  | Uncompressed data =>
      let len := (length data `min` PAGE_SIZE)%nat in
      src ← slice data 0 len;
      buffer ← copy_from_slice buffer 0 len src;
      if (len <? PAGE_SIZE)%nat
      then buffer ← fill buffer len PAGE_SIZE 0; Ret (Ok tt, buffer)
      else Ret (Ok tt, buffer)
  end.

Definition read_page (d : ZramDevice) (page_index : Z) (buffer : bytes) :
  comp (Result unit * ZramDevice * bytes) :=
  if (length buffer <? PAGE_SIZE)%nat then Ret (Err InvalidArgument, d, buffer)
  else if page_index >=? max_pages (config d) then Ret (Err InvalidArgument, d, buffer)
  else
    match PageTable_get (page_table d) page_index with
    | Err e => Ret (Err e, d, buffer)
    | Ok entry =>
        p ← read_entry d entry buffer;
        let '(r, buffer) := p in
        match r with
        | Err e => Ret (Err e, d, buffer)
        | Ok _ => Ret (Ok tt, set_stats d (record_read (stats_counters d)), buffer)
        end
    end.

Definition check_same_filled (data : bytes) : option Z :=
  match data with
  | [] => None
  | first :: _ => if forallb (fun b => b =? first) data then Some first else None
  end.

(** [self.page_table.set(..)?] followed by a statistics update. *)
Definition store_entry (d : ZramDevice) (page_index : Z) (e : PageEntry)
    (record : AtomicStats -> AtomicStats) : Result unit * ZramDevice :=
  match PageTable_set (page_table d) page_index e with
  | (Err err, t) => (Err err, set_page_table d t)
  | (Ok _, t) => (Ok tt, set_stats (set_page_table d t) (record (stats_counters d)))
  end.

Definition write_page (d : ZramDevice) (page_index : Z) (data : bytes) :
  comp (Result unit * ZramDevice) :=
  if (length data <? PAGE_SIZE)%nat then Ret (Err InvalidArgument, d)
  else if page_index >=? max_pages (config d) then Ret (Err InvalidArgument, d)
  else
    page_data ← slice data 0 PAGE_SIZE;
    if forallb (fun b => b =? 0) page_data
    then Ret (store_entry d page_index Zero record_zero_page)
    else match check_same_filled page_data with
    | Some value => Ret (store_entry d page_index (Same value) record_same_page)
    | None =>
        match lock (stream d) with
        | None => Ret (Err ResourceBusy, d)
        | Some s =>
            r ← compress s page_data;
            match r with
            | Err e => Ret (Err e, d)
            | Ok compressed =>
                if (PAGE_SIZE - PAGE_SIZE / 8 <=? length compressed)%nat
                then Ret (store_entry d page_index (Uncompressed page_data) record_huge_page)
                else Ret (store_entry d page_index (Compressed compressed)
                       (fun s => record_write s (Z.of_nat PAGE_SIZE) (Z.of_nat (length compressed))))
            end
        end
    end.

(** What [write_page] decides before it touches the shared table: the entry
    to store and the counters to update. *)
Definition prepare_write (d : ZramDevice) (page_index : Z) (data : bytes) :
  comp (Result (PageEntry * (AtomicStats -> AtomicStats))) :=
  if (length data <? PAGE_SIZE)%nat then Ret (Err InvalidArgument)
  else if page_index >=? max_pages (config d) then Ret (Err InvalidArgument)
  else
    page_data ← slice data 0 PAGE_SIZE;
    if forallb (fun b => b =? 0) page_data then Ret (Ok (Zero, record_zero_page))
    else match check_same_filled page_data with
    | Some value => Ret (Ok (Same value, record_same_page))
    | None =>
        match lock (stream d) with
        | None => Ret (Err ResourceBusy)
        | Some s =>
            r ← compress s page_data;
            match r with
            | Err e => Ret (Err e)
            | Ok compressed =>
                if (PAGE_SIZE - PAGE_SIZE / 8 <=? length compressed)%nat
                then Ret (Ok (Uncompressed page_data, record_huge_page))
                else Ret (Ok (Compressed compressed, fun s =>
                       record_write s (Z.of_nat PAGE_SIZE) (Z.of_nat (length compressed))))
            end
        end
    end.

Definition discard_page (d : ZramDevice) (page_index : Z) : Result unit * ZramDevice :=
  if page_index >=? max_pages (config d) then (Err InvalidArgument, d)
  else
    match PageTable_remove (page_table d) page_index with
    | (Err e, t) => (Err e, set_page_table d t)
    | (Ok _, t) => (Ok tt, set_page_table d t)
    end.

Definition stored_pages (d : ZramDevice) : nat := PageTable_len (page_table d).

(** [reset]: [for i in 0..max_pages { let _ = self.page_table.remove(i); }]. *)
Definition reset (d : ZramDevice) : Result unit * ZramDevice :=
  (Ok tt, set_page_table d
     (fold_left (fun t i => (PageTable_remove t i).2) (seqZ 0 (max_pages (config d)))
        (page_table d))).

(** ** The abstract page store *)

Abbreviation Store := (gmap Z bytes).

Inductive Op : Type :=
| OpWrite (page_index : Z) (data : bytes)
| OpRead (page_index : Z) (buffer : bytes)
| OpDiscard (page_index : Z)
| OpReset.

(** What an operation returns: its result and, for a read, the buffer. *)
Abbreviation Output := (Result unit * bytes)%type.

Definition zero_page : bytes := replicate PAGE_SIZE 0.

Definition spec_step (pages : Z) (m : Store) (op : Op) : Output * Store :=
  match op with
  | OpWrite i data =>
      if (length data <? PAGE_SIZE)%nat || (i >=? pages) then ((Err InvalidArgument, []), m)
      else ((Ok tt, []), <[i := take PAGE_SIZE data]> m)
  | OpRead i buffer =>
      if (length buffer <? PAGE_SIZE)%nat || (i >=? pages)
      then ((Err InvalidArgument, buffer), m)
      else ((Ok tt, default zero_page (m !! i) ++ drop PAGE_SIZE buffer), m)
  | OpDiscard i =>
      if i >=? pages then ((Err InvalidArgument, []), m) else ((Ok tt, []), delete i m)
  | OpReset => ((Ok tt, []), ∅)
  end.

Fixpoint spec_run (pages : Z) (m : Store) (ops : list Op) : list Output :=
  match ops with
  | [] => []
  | op :: ops' => let '(o, m') := spec_step pages m op in o :: spec_run pages m' ops'
  end.

(** The device on the same operations. *)
Definition device_step (d : ZramDevice) (op : Op) : comp (Output * ZramDevice) :=
  match op with
  | OpWrite i data => p ← write_page d i data; let '(r, d) := p in Ret ((r, []), d)
  | OpRead i buffer =>
      p ← read_page d i buffer; let '(r, d, buffer) := p in Ret ((r, buffer), d)
  | OpDiscard i => let '(r, d) := discard_page d i in Ret ((r, []), d)
  | OpReset => let '(r, d) := reset d in Ret ((r, []), d)
  end.

Fixpoint device_run (d : ZramDevice) (ops : list Op) : comp (list Output * ZramDevice) :=
  match ops with
  | [] => Ret ([], d)
  | op :: ops' =>
      p ← device_step d op;
      let '(o, d) := p in
      q ← device_run d ops';
      let '(os, d) := q in Ret (o :: os, d)
  end.

(** Page numbers are [u64]. *)
Definition op_page (op : Op) : Z :=
  match op with OpWrite i _ | OpRead i _ | OpDiscard i => i | OpReset => 0 end.
Definition wf_op (op : Op) : Prop := 0 <= op_page op.

(** ** The simulation relation *)

(** A stored entry represents a page: reading it yields the page. *)
Definition represents (s : CompressionStream) (e : PageEntry) (page : bytes) : Prop :=
  length page = PAGE_SIZE /\
  match e with
  | Empty => False
  | Zero => page = zero_page
  | Same v => page = replicate PAGE_SIZE v
  | Compressed c => forall buf, length buf = PAGE_SIZE ->
      decompress s c buf = Ret (Ok PAGE_SIZE, page)
  | Uncompressed data => data = page
  end.

(** No lock is poisoned. *)
Definition healthy (d : ZramDevice) : Prop :=
  poisoned (entries (page_table d)) = false /\ poisoned (stream d) = false.

Definition table (d : ZramDevice) : gmap Z PageEntry := content (entries (page_table d)).

Definition simulates (d : ZramDevice) (m : Store) : Prop :=
  healthy d
  /\ (forall i, match table d !! i, m !! i with
                | Some e, Some page => represents (content (stream d)) e page
                | None, None => True
                | _, _ => False
                end)
  /\ (forall i, is_Some (table d !! i) -> 0 <= i < max_pages (config d)).

Lemma forallb_replicate (l : bytes) v :
  forallb (fun b => b =? v) l = true -> l = replicate (length l) v.
Proof.
  induction l as [|b l IH]; [done |]. cbn [forallb length replicate].
  intros [->%Z.eqb_eq H]%andb_true_iff. f_equal. auto.
Qed.

Lemma check_same_filled_spec data v :
  check_same_filled data = Some v -> data = replicate (length data) v.
Proof.
  destruct data as [|b data]; [done |]. unfold check_same_filled.
  destruct (forallb _ _) eqn:Hall; [| done]. intros [= <-]. by apply forallb_replicate.
Qed.

Lemma page_min : (16 <= PAGE_SIZE)%nat.
Proof. unfold PAGE_SIZE; lia. Qed.

Lemma worthwhile_short n : (n < PAGE_SIZE - PAGE_SIZE / 8)%nat -> (n < PAGE_SIZE)%nat.
Proof. lia. Qed.

Lemma decompress_none_page c buf :
  length c = PAGE_SIZE -> length buf = PAGE_SIZE ->
  decompress (mkCompressionStream NoCompression) c buf = Ret (Ok PAGE_SIZE, c).
Proof.
  intros Hc Hbuf. unfold decompress; cbn [stream_compressor].
  rewrite Hc, Hbuf, Nat.min_id. rewrite slice_ok, bind_ret by lia.
  rewrite Nat.sub_0_r, drop_0, take_ge by lia.
  rewrite copy_from_slice_ok, bind_ret by lia.
  rewrite drop_ge, app_nil_r by lia. done.
Qed.

(** Compressing a page that shrinks gives an entry that represents it. *)
Lemma compress_page s page :
  length page = PAGE_SIZE ->
  exists c, compress s page = Ret (Ok c)
    /\ ((length c < PAGE_SIZE)%nat -> represents s (Compressed c) page).
Proof.
  intros Hlen. destruct s as [[|]]; unfold compress; cbn [stream_compressor].
  - assert (16 <= length page)%nat as H16 by (rewrite Hlen; apply Nat.leb_le; reflexivity).
    destruct (compress_lz4_spec page H16) as (r & -> & [-> | (seqs & last & -> & Hwf & <- & Hshort)]);
      [exists page; split; [done | lia] |].
    eexists. split; [done |]. intros _. split; [done |]. intros buf Hbuf.
    unfold decompress; cbn [stream_compressor].
    rewrite decompress_encode, Hlen by (done || lia). by rewrite drop_ge, app_nil_r by lia.
  - exists page. split; [done |]. lia.
Qed.

#[local] Opaque PAGE_SIZE.

Lemma fill_page (buffer : bytes) (v : Z) :
  (PAGE_SIZE <= length buffer)%nat ->
  fill buffer 0 PAGE_SIZE v = Ret (replicate PAGE_SIZE v ++ drop PAGE_SIZE buffer).
Proof. intros. rewrite fill_ok, Nat.sub_0_r by lia. rewrite take_0, app_nil_l. reflexivity. Qed.

(** Reading a stored entry copies the page it represents. *)
Lemma read_entry_represents d e (page buffer : bytes) :
  healthy d -> represents (content (stream d)) e page -> (PAGE_SIZE <= length buffer)%nat ->
  read_entry d e buffer = Ret (Ok tt, page ++ drop PAGE_SIZE buffer).
Proof.
  intros [_ Hs] [Hlen Hrep] Hbuf. destruct e as [| | v | c | data]; cbn [read_entry].
  - done.
  - by rewrite fill_page, bind_ret, Hrep by done.
  - by rewrite fill_page, bind_ret, Hrep by done.
  - rewrite (lock_healthy _ Hs), slice_ok, bind_ret by lia.
    rewrite Hrep, bind_ret by (rewrite length_take, length_drop; lia).
    rewrite copy_from_slice_ok, bind_ret by lia. cbn [take app].
    by rewrite Nat.eqb_refl.
  - subst data. rewrite Hlen, Nat.min_id, slice_ok, bind_ret by lia.
    rewrite Nat.sub_0_r, drop_0, take_ge by lia.
    rewrite copy_from_slice_ok, bind_ret by lia.
    by rewrite Nat.ltb_irrefl.
Qed.

Lemma read_entry_empty d (buffer : bytes) :
  (PAGE_SIZE <= length buffer)%nat ->
  read_entry d Empty buffer = Ret (Ok tt, zero_page ++ drop PAGE_SIZE buffer).
Proof. intros. cbn [read_entry]. by rewrite fill_page, bind_ret. Qed.

Definition same_setup (d d' : ZramDevice) : Prop :=
  config d' = config d /\ stream d' = stream d
  /\ poisoned (entries (page_table d')) = poisoned (entries (page_table d)).

Lemma simulates_insert d d' m i e page :
  simulates d m -> same_setup d d' -> table d' = <[i := e]> (table d) ->
  0 <= i < max_pages (config d) -> represents (content (stream d)) e page ->
  simulates d' (<[i := page]> m).
Proof.
  intros (Hh & Hrel & Hdom) (Hc & Hs & Hp) Ht Hi Hrep. split; [split; [by rewrite Hp; apply Hh | by rewrite Hs; apply Hh] |].
  rewrite Hc, Hs, Ht. split; intros j.
  - destruct (decide (i = j)) as [-> | Hne].
    + by rewrite !lookup_insert_eq.
    + rewrite !lookup_insert_ne by done. apply Hrel.
  - destruct (decide (i = j)) as [-> | Hne]; [done |].
    rewrite lookup_insert_ne by done. apply Hdom.
Qed.

Lemma simulates_shrink d d' m (keep : Z -> bool) :
  simulates d m -> same_setup d d' ->
  (forall i, table d' !! i = if keep i then table d !! i else None) ->
  forall m', (forall i, m' !! i = if keep i then m !! i else None) -> simulates d' m'.
Proof.
  intros (Hh & Hrel & Hdom) (Hc & Hs & Hp) Ht m' Hm'.
  split; [split; [by rewrite Hp; apply Hh | by rewrite Hs; apply Hh] |].
  rewrite Hc, Hs. split; intros j; rewrite Ht; [rewrite Hm' |]; destruct (keep j).
  - apply Hrel.
  - done.
  - apply Hdom.
  - by intros [].
Qed.

(** A write of a representing entry. *)
Lemma store_entry_simulates d m i e page record :
  simulates d m -> 0 <= i < max_pages (config d) ->
  represents (content (stream d)) e page ->
  exists d', store_entry d i e record = (Ok tt, d') /\ simulates d' (<[i := page]> m)
    /\ config d' = config d.
Proof.
  intros Hsim Hi Hrep. pose proof Hsim as ((Hp & _) & _ & _).
  unfold store_entry, PageTable_set. rewrite (lock_healthy _ Hp).
  eexists; split; [done |]. split; [| done].
  by eapply simulates_insert.
Qed.

Lemma write_page_prepare d i data :
  write_page d i data =
  (r ← prepare_write d i data;
   match r with
   | Err e => Ret (Err e, d)
   | Ok (e, record) => Ret (store_entry d i e record)
   end).
Proof.
  unfold write_page, prepare_write. destruct (_ <? _)%nat; [done |]. destruct (_ >=? _); [done |].
  destruct (slice data 0 PAGE_SIZE) as [page | |]; [| done | done]. rewrite !bind_ret.
  destruct (forallb _ page); [done |]. destruct (check_same_filled page); [done |].
  destruct (lock (stream d)) as [s |]; [| done].
  destruct (compress s page) as [[c | e] | |]; [| done | done | done]. rewrite !bind_ret.
  by destruct (_ <=? _)%nat.
Qed.

(** The entry a valid write prepares represents the page. *)
Lemma prepare_write_spec d i data :
  healthy d -> 0 <= i ->
  if (length data <? PAGE_SIZE)%nat || (i >=? max_pages (config d))
  then prepare_write d i data = Ret (Err InvalidArgument)
  else exists e record, prepare_write d i data = Ret (Ok (e, record)) /\
    represents (content (stream d)) e (take PAGE_SIZE data).
Proof.
  intros [_ Hs] Hi. unfold prepare_write.
  destruct (Nat.ltb_spec (length data) PAGE_SIZE) as [| Hlen]; [done |].
  destruct (i >=? max_pages (config d)); [done |]. cbn [orb].
  rewrite slice_ok, bind_ret, Nat.sub_0_r, drop_0 by lia.
  set (page := take PAGE_SIZE data).
  assert (Hpage : length page = PAGE_SIZE) by (apply length_take_le; lia).
  destruct (forallb (fun b => b =? 0) page) eqn:Hz.
  { do 2 eexists; split; [done |]. split; [done |]. apply forallb_replicate in Hz. by rewrite Hz, Hpage. }
  destruct (check_same_filled page) as [v |] eqn:Hsame.
  { do 2 eexists; split; [done |]. split; [done |]. apply check_same_filled_spec in Hsame.
    by rewrite Hsame, Hpage at 1. }
  rewrite (lock_healthy _ Hs).
  destruct (compress_page (content (stream d)) page Hpage) as (c & -> & Hc). rewrite bind_ret.
  destruct (Nat.leb_spec (PAGE_SIZE - PAGE_SIZE / 8) (length c)) as [| Hshort];
    (do 2 eexists; split; [done |]); [done |]. by apply Hc, worthwhile_short.
Qed.

Lemma write_page_simulates d m i data :
  simulates d m -> 0 <= i ->
  exists d', write_page d i data = Ret ((spec_step (max_pages (config d)) m (OpWrite i data)).1.1, d')
    /\ simulates d' (spec_step (max_pages (config d)) m (OpWrite i data)).2
    /\ config d' = config d.
Proof.
  intros Hsim Hi. rewrite write_page_prepare. cbn [spec_step].
  pose proof (prepare_write_spec d i data (proj1 Hsim) Hi) as Hp.
  destruct (_ || _) eqn:Hv; [rewrite Hp, bind_ret; eauto |].
  destruct Hp as (e & record & -> & Hrep). rewrite bind_ret. cbn [fst snd].
  destruct (store_entry_simulates d m i e (take PAGE_SIZE data) record) as (d' & -> & ?);
    [done | | done | eauto].
  apply orb_false_iff in Hv as [_ Hv]. lia.
Qed.

Lemma read_page_simulates d m i buffer :
  simulates d m ->
  exists d', read_page d i buffer =
      Ret ((spec_step (max_pages (config d)) m (OpRead i buffer)).1.1, d',
           (spec_step (max_pages (config d)) m (OpRead i buffer)).1.2)
    /\ simulates d' m /\ config d' = config d.
Proof.
  intros Hsim. pose proof Hsim as (Hh & Hrel & _). unfold read_page; cbn [spec_step].
  destruct (Nat.ltb_spec (length buffer) PAGE_SIZE) as [| Hlen]; [by eauto |].
  destruct (i >=? max_pages (config d)); [by eauto |]. cbn [orb fst snd].
  unfold PageTable_get. rewrite (lock_healthy _ (proj1 Hh)). cbn [ok_or mbind result_bind].
  specialize (Hrel i). fold (table d). 
  assert (Hentry : read_entry d (default Empty (table d !! i)) buffer =
                   Ret (Ok tt, default zero_page (m !! i) ++ drop PAGE_SIZE buffer)).
  { destruct (table d !! i) as [e |], (m !! i) as [page |]; cbn [default from_option]; try done.
    - by apply read_entry_represents.
    - by apply read_entry_empty. }
  rewrite Hentry, bind_ret. eauto.
Qed.

(** Removing the keys below [n] one by one. *)
Lemma remove_all_lookup t n i :
  poisoned (entries t) = false ->
  let t' := fold_left (fun t i => (PageTable_remove t i).2) (seqZ 0 n) t in
  poisoned (entries t') = false
  /\ content (entries t') !! i = if decide (0 <= i < n) then None else content (entries t) !! i.
Proof.
  intros Hp. cbv zeta.
  enough (Hgen : forall l t, poisoned (entries t) = false ->
    let t' := fold_left (fun t i => (PageTable_remove t i).2) l t in
    poisoned (entries t') = false
    /\ content (entries t') !! i = if decide (i ∈ l) then None else content (entries t) !! i).
  { destruct (Hgen (seqZ 0 n) t Hp) as [Hp' ->]. split; [done |].
    do 2 case_decide; try done; rewrite elem_of_seqZ in *; lia. }
  clear. induction l as [|j l IH]; intros t Hp; cbn [fold_left].
  - split; [done |]. rewrite decide_False; [done | apply not_elem_of_nil].
  - assert (Hrem : (PageTable_remove t j).2 =
        mkPageTable (lock_set (entries t) (delete j (content (entries t)))))
      by (unfold PageTable_remove; by rewrite (lock_healthy _ Hp)).
    rewrite Hrem. destruct (IH (mkPageTable (lock_set (entries t) (delete j (content (entries t))))))
      as [Hp' Hlook]; [done |]. split; [done |]. rewrite Hlook. cbn.
    destruct (decide (i ∈ l)) as [Hl | Hl], (decide (i ∈ j :: l)) as [Hin | Hin];
      rewrite elem_of_cons in Hin; try done.
    + by destruct Hin; right.
    + destruct Hin as [-> |]; [apply lookup_delete_eq | done].
    + apply lookup_delete_ne. by intros ->; apply Hin; left.
Qed.

Lemma discard_page_simulates d m i :
  simulates d m ->
  exists d', discard_page d i = ((spec_step (max_pages (config d)) m (OpDiscard i)).1.1, d')
    /\ simulates d' (spec_step (max_pages (config d)) m (OpDiscard i)).2
    /\ config d' = config d.
Proof.
  intros Hsim. pose proof Hsim as ((Hp & _) & _ & _). unfold discard_page; cbn [spec_step].
  destruct (i >=? max_pages (config d)); [by eauto |]. cbn [fst snd].
  unfold PageTable_remove. rewrite (lock_healthy _ Hp).
  eexists; split; [done |]. split; [| done].
  eapply (simulates_shrink d _ m (fun j => negb (i =? j))); [done | done | |];
    intros j; destruct (Z.eqb_spec i j) as [-> |]; cbn;
    (apply lookup_delete_eq || by apply lookup_delete_ne).
Qed.

Lemma reset_simulates d m :
  simulates d m ->
  exists d', reset d = (Ok tt, d') /\ simulates d' ∅ /\ config d' = config d.
Proof.
  intros Hsim. pose proof Hsim as ((Hp & _) & Hrel & Hdom).
  eexists; split; [reflexivity |]. split; [| done].
  eapply (simulates_shrink d _ m (fun _ => false)); [done | | |].
  - split; [done |]. split; [done |]. cbn. rewrite Hp.
    apply (proj1 (remove_all_lookup _ _ 0 Hp)).
  - intros i. cbn. destruct (remove_all_lookup (page_table d) (max_pages (config d)) i Hp) as [_ Hl].
    unfold table. cbn [page_table set_page_table]. rewrite Hl. fold (table d).
    case_decide; [done |]. destruct (table d !! i) eqn:He; [| done].
    destruct (Hdom i); [by rewrite He | lia].
  - intros i. apply lookup_empty.
Qed.

Lemma device_step_simulates d m op :
  simulates d m -> wf_op op ->
  exists d', device_step d op = Ret ((spec_step (max_pages (config d)) m op).1, d')
    /\ simulates d' (spec_step (max_pages (config d)) m op).2 /\ config d' = config d.
Proof.
  intros Hsim Hwf. destruct op as [i data | i buffer | i |]; cbn [device_step].
  - destruct (write_page_simulates d m i data Hsim Hwf) as (d' & -> & Hd' & Hc).
    rewrite bind_ret. exists d'. split; [| done]. cbn [spec_step]. by case_test.
  - destruct (read_page_simulates d m i buffer Hsim) as (d' & -> & Hd' & Hc).
    rewrite bind_ret. exists d'. split; [cbn [spec_step]; by case_test |].
    split; [| done]. cbn [spec_step]. by case_test.
  - destruct (discard_page_simulates d m i Hsim) as (d' & -> & Hd' & Hc).
    exists d'. split; [| done]. cbn [spec_step]. by case_test.
  - destruct (reset_simulates d m Hsim) as (d' & -> & Hd' & Hc). by exists d'.
Qed.

Lemma simulates_new c d : ZramDevice_new c = Ok d -> simulates d ∅ /\ config d = c.
Proof.
  intros [= <-]. split; [| done]. split; [done |]. split; intros i.
  - by rewrite lookup_empty.
  - unfold table; cbn. rewrite lookup_empty. by intros [].
Qed.

Lemma device_run_simulates d m ops :
  simulates d m -> Forall wf_op ops ->
  exists d', device_run d ops = Ret (spec_run (max_pages (config d)) m ops, d')
    /\ healthy d'.
Proof.
  intros Hsim Hwf. revert d m Hsim. induction Hwf as [|op ops Hop _ IH]; intros d m Hsim.
  - exists d. split; [done | apply Hsim].
  - cbn [device_run spec_run].
    destruct (device_step_simulates d m op Hsim Hop) as (d' & -> & Hsim' & Hc).
    rewrite bind_ret. destruct (IH d' _ Hsim') as (d'' & -> & Hh). rewrite bind_ret, Hc.
    destruct (spec_step _ m op) as [o m']. by exists d''.
Qed.

(** C6. The zram device refines the page store: from a new device, whatever the
    compressor, every sequence of writes, reads, discards and resets terminates
    without a panic and returns exactly what a plain map from page numbers to
    4096-byte pages returns - a read gives the last page written there, zeros if
    there is none or it was discarded, and the errors are those of a buffer
    shorter than a page and of a page number outside the device. *)
Theorem zram_refines_store c d ops :
  ZramDevice_new c = Ok d -> Forall wf_op ops ->
  exists d', device_run d ops = Ret (spec_run (max_pages c) ∅ ops, d').
Proof.
  intros Hnew Hwf. destruct (simulates_new c d Hnew) as [Hsim <-].
  destruct (device_run_simulates d ∅ ops Hsim Hwf) as (d' & ? & _). by exists d'.
Qed.

(** ** Witness *)

(** Three pages of a 16 KiB device: constant, patterned and rejected writes,
    reads, a discard and a reset. *)
Definition demo_config : ZramConfig := with_size 16384.
Definition demo_page : bytes := concat (replicate 1024 [1; 2; 3; 4]).
Definition demo_ops : list Op :=
  [OpWrite 0 demo_page; OpWrite 1 zero_page; OpRead 0 zero_page; OpWrite 9 demo_page;
   OpWrite 0 (replicate 4096 7); OpDiscard 1; OpRead 1 demo_page; OpRead 0 zero_page; OpReset;
   OpRead 0 []].

Lemma zram_refines_store_witness :
  exists d', device_run (mkZramDevice demo_config PageTable_new
      (lock_new (CompressionStream_new Lz4)) ZramStats_default) demo_ops =
    Ret (spec_run 4 ∅ demo_ops, d').
Proof.
  apply (zram_refines_store demo_config); [reflexivity |].
  repeat constructor; vm_compute; discriminate.
Defined.

Definition demo_device : ZramDevice :=
  mkZramDevice demo_config PageTable_new (lock_new (CompressionStream_new Lz4)) ZramStats_default.
