(* ===== verification/ZramCounters.v ===== *)
(** * ZramCounters: the statistics of the compressed RAM device (src/zram.rs)

    What the counters of a [ZramDevice] say after any sequence of calls: how many
    operations completed, and how many bytes the stored pages took before and
    after compression. *)

From S2P Require Import Prelude Float Bytes KernelError Lz4 Zram.

Definition is_ok {A} (r : Result A) : bool := match r with Ok _ => true | Err _ => false end.

(** ** What an operation records *)

(** The updates [write_page] chooses from: a zero page, a constant page, a page
    kept as it is, and one kept compressed, in less than 3584 bytes. *)
Inductive write_record : (AtomicStats -> AtomicStats) -> Prop :=
| write_zero : write_record record_zero_page
| write_same : write_record record_same_page
| write_huge : write_record record_huge_page
| write_compressed (n : nat) : (n < PAGE_SIZE - PAGE_SIZE / 8)%nat ->
    write_record (fun s => record_write s (Z.of_nat PAGE_SIZE) (Z.of_nat n)).

(** A write either stores an entry and records it, or leaves the device alone. *)
Lemma write_page_cases d i data r d' :
  write_page d i data = Ret (r, d') ->
  (is_ok r = false /\ d' = d)
  \/ exists e record, write_record record /\ store_entry d i e record = (r, d').
Proof.
  unfold write_page. intros H.
  destruct (_ <? _)%nat; [injection H as <- <-; by left |].
  destruct (_ >=? _); [injection H as <- <-; by left |].
  apply bind_ret_inv in H as (page & _ & H).
  destruct (forallb _ page); [injection H as H; right; do 2 eexists; split; [constructor | exact H] |].
  destruct (check_same_filled page);
    [injection H as H; right; do 2 eexists; split; [constructor | exact H] |].
  destruct (lock (stream d)) as [cs |]; [| injection H as <- <-; by left].
  apply bind_ret_inv in H as ([c | e] & _ & H); [| injection H as <- <-; by left].
  destruct (_ <=? _)%nat eqn:Hn; injection H as H; right; do 2 eexists; (split; [| exact H]);
    [constructor |]. constructor. by apply Nat.leb_gt in Hn.
Qed.

Lemma write_page_records d i data r d' :
  write_page d i data = Ret (r, d') ->
  if is_ok r then exists record, write_record record /\ stats_counters d' = record (stats_counters d)
  else stats_counters d' = stats_counters d.
Proof.
  intros [[Hr ->] | (e & record & Hrec & Hst)]%write_page_cases; [by rewrite Hr |].
  revert Hst. unfold store_entry, PageTable_set.
  destruct (lock (entries (page_table d))); intros [= <- <-]; [by exists record | done].
Qed.

Lemma read_page_records d i buffer r d' buffer' :
  read_page d i buffer = Ret (r, d', buffer') ->
  stats_counters d' = if is_ok r then record_read (stats_counters d) else stats_counters d.
Proof.
  unfold read_page. intros H.
  destruct (_ <? _)%nat; [by injection H as <- <- <- |].
  destruct (_ >=? _); [by injection H as <- <- <- |].
  destruct (PageTable_get _ _); [| by injection H as <- <- <-].
  apply bind_ret_inv in H as ([[] b] & _ & H); by injection H as <- <- <-.
Qed.

(** A property of the counters and of the numbers of completed writes and reads
    that the updates keep holds after every run. *)
Section run.
Context (I : Z -> Z -> AtomicStats -> Prop).
Context (Hwrite : forall w r s record, write_record record -> I w r s -> I (w + 1) r (record s)).
Context (Hread : forall w r s, I w r s -> I w (r + 1) (record_read s)).

Definition is_write (op : Op) : bool := match op with OpWrite _ _ => true | _ => false end.
Definition is_read (op : Op) : bool := match op with OpRead _ _ => true | _ => false end.

(** The completed operations of a kind: of one, and of a run. *)
Definition completes (f : Op -> bool) (op : Op) (r : Result unit) : Z :=
  if f op && is_ok r then 1 else 0.
Definition completed (f : Op -> bool) (ops : list Op) (outs : list Output) : Z :=
  Z.of_nat (length (filter (fun p => f p.1 && is_ok p.2.1) (zip ops outs))).

Lemma completed_cons f op ops o outs :
  completed f (op :: ops) (o :: outs) = completes f op o.1 + completed f ops outs.
Proof.
  unfold completed, completes. cbn [zip zip_with]. rewrite filter_cons. cbn [fst snd].
  destruct (f op && is_ok o.1); [rewrite decide_True by done | rewrite decide_False by auto];
    cbn [length]; lia.
Qed.

Lemma device_step_records d op o d' w r :
  device_step d op = Ret (o, d') -> I w r (stats_counters d) ->
  I (w + completes is_write op o.1) (r + completes is_read op o.1) (stats_counters d').
Proof using Hwrite Hread.
  unfold completes. intros H HI. destruct op as [i data | i buffer | i |]; cbn [device_step] in H;
    cbn [is_write is_read andb]; rewrite ?Z.add_0_r.
  - apply bind_ret_inv in H as ([res d1] & Hw%write_page_records & [= <- <-]). cbn [fst].
    destruct (is_ok res); [| by rewrite Hw, Z.add_0_r].
    destruct Hw as (record & Hrec & ->). by apply Hwrite.
  - apply bind_ret_inv in H as ([[res d1] b] & Hr%read_page_records & [= <- <-]). cbn [fst].
    rewrite Hr. destruct (is_ok res); [by apply Hread | by rewrite Z.add_0_r].
  - destruct (discard_page d i) as [res d1] eqn:Hd. injection H as <- <-.
    replace (stats_counters d1) with (stats_counters d); [done |]. revert Hd.
    unfold discard_page, PageTable_remove. repeat case_match; intros; by simplify_eq/=.
  - by injection H as <- <-.
Qed.

Lemma device_run_records d ops outs d' w r :
  device_run d ops = Ret (outs, d') -> I w r (stats_counters d) ->
  I (w + completed is_write ops outs) (r + completed is_read ops outs) (stats_counters d').
Proof using Hwrite Hread.
  revert d outs w r; induction ops as [|op ops IH]; intros d outs w r; cbn [device_run].
  - intros [= <- <-]. change (completed _ [] []) with 0. by rewrite !Z.add_0_r.
  - intros ([o d1] & Hstep & H)%bind_ret_inv HI.
    apply bind_ret_inv in H as ([os d2] & Hrun & [= <- <-]).
    rewrite !completed_cons, !Z.add_assoc. eapply IH; [exact Hrun |].
    by eapply device_step_records.
Qed.

End run.

(** ** What the counters say *)

(** After [w] completed writes: the pages that are neither zero nor constant were
    kept, each counted with its size; one that is not huge saved more than 512
    bytes. *)
Definition sizes (w : Z) (s : ZramStats) : Prop :=
  let kept := w - zero_pages s - same_pages s in
  0 <= zero_pages s /\ 0 <= same_pages s /\ 0 <= huge_pages s <= kept /\
  orig_data_size s = 4096 * kept /\ mem_used_total s = compr_data_size s /\
  0 <= compr_data_size s <= orig_data_size s - 513 * (kept - huge_pages s).

Definition tally (w r : Z) (s : AtomicStats) : Prop :=
  0 <= w /\ num_writes s = wrap 64 w /\ pages_stored s = wrap 64 w /\ num_reads s = wrap 64 r /\
  failed_reads s = 0 /\ failed_writes s = 0 /\ (w <= 2 ^ 41 -> sizes w s).

Lemma fetch_add_counts x n : fetch_add (wrap 64 x) n = wrap 64 (x + n).
Proof. unfold fetch_add, wrap. by rewrite Zplus_mod_idemp_l. Qed.

Lemma fetch_add_exact x n : 0 <= x + n <= 2 ^ 54 -> fetch_add x n = x + n.
Proof. intros H. unfold fetch_add, wrap. apply Z.mod_small. lia. Qed.

Lemma sizes_write w s record :
  0 <= w < 2 ^ 41 -> write_record record -> sizes w s -> sizes (w + 1) (record s).
Proof.
  intros Hw Hr (Hz & Hs & Hh & Ho & Hm & Hc). unfold sizes.
  destruct Hr as [| | | n Hn]; cbn [record_zero_page record_same_page record_huge_page record_write
    zero_pages same_pages huge_pages orig_data_size compr_data_size mem_used_total].
  - rewrite !fetch_add_exact by lia. lia.
  - rewrite !fetch_add_exact by lia. lia.
  - change (Z.of_nat PAGE_SIZE) with 4096. rewrite !fetch_add_exact by lia. lia.
  - change (PAGE_SIZE - PAGE_SIZE / 8)%nat with (Z.to_nat 3584) in Hn.
    change (Z.of_nat PAGE_SIZE) with 4096. rewrite !fetch_add_exact by lia. lia.
Qed.

Lemma tally_write w r s record : write_record record -> tally w r s -> tally (w + 1) r (record s).
Proof.
  intros Hr (Hw & Hn & Hp & Hrd & Hfr & Hfw & Hsz). unfold tally.
  assert (Hsizes : w + 1 <= 2 ^ 41 -> sizes (w + 1) (record s))
    by (intros Hle; apply sizes_write; [lia | done | apply Hsz; lia]).
  split_and!; [lia | | | | | | exact Hsizes]; destruct Hr; cbn; rewrite ?Hn, ?Hp, ?fetch_add_counts; done.
Qed.

Lemma tally_read w r s : tally w r s -> tally w (r + 1) (record_read s).
Proof.
  intros (Hw & Hn & Hp & Hrd & Hfr & Hfw & Hsz). split_and!; try done.
  cbn. by rewrite Hrd, fetch_add_counts.
Qed.

Lemma tally_new : tally 0 0 ZramStats_default.
Proof. by split_and!. Qed.

Lemma sizes_ratio {prof : Profile} w s :
  0 <= w <= 2 ^ 41 -> sizes w s ->
  is_finite (compression_ratio s) = true /\ SpecFloat.SFleb (f64_of_int 1) (compression_ratio s) = true /\
  memory_efficiency s = compression_ratio s /\ special_pages s = Ret (zero_pages s + same_pages s).
Proof.
  intros Hw (Hz & Hs & Hh & Ho & Hm & Hc). unfold memory_efficiency, compression_ratio. rewrite Hm.
  assert (Hone : forall x, is_finite x = true /\ SpecFloat.SFleb (f64_of_int 1) x = true ->
    is_finite x = true /\ SpecFloat.SFleb (f64_of_int 1) x = true /\ x = x /\
    special_pages s = Ret (zero_pages s + same_pages s)).
  { intros x [Hx Hx']. split_and!; [done | done | done |].
    unfold special_pages, add_w. rewrite checked_in; [done |]. unfold uint. lia. }
  apply Hone. destruct (Z.eqb_spec (compr_data_size s) 0); [done |]. apply f64_ratio_ge_one; lia.
Qed.

(** C38. What the statistics say after any run from a new device, whatever it was
    called with.  [num_writes] and [num_reads] are the numbers of completed writes
    and reads (modulo 2^64), [pages_stored] equals [num_writes] - it counts
    completed writes, not the pages the table holds - and [failed_reads] and
    [failed_writes] are still zero, whatever failed.  Up to [2^41] writes, the
    pages that were neither zero nor constant count 4096 bytes each as original
    data; their compressed size is smaller by more than 512 bytes for each that is
    not huge, and it is all of [mem_used_total]; so that the compression ratio
    and the memory efficiency are the same number, finite and at least 1, and
    [special_pages] does not overflow. *)
Theorem zram_stats_count_operations {prof : Profile} c d ops outs d' :
  ZramDevice_new c = Ok d -> device_run d ops = Ret (outs, d') ->
  let s := stats d' in let w := completed is_write ops outs in
  num_writes s = wrap 64 w /\ pages_stored s = num_writes s /\
  num_reads s = wrap 64 (completed is_read ops outs) /\
  failed_reads s = 0 /\ failed_writes s = 0 /\
  (w <= 2 ^ 41 ->
   sizes w s /\ memory_efficiency s = compression_ratio s /\
   is_finite (compression_ratio s) = true /\
   SpecFloat.SFleb (f64_of_int 1) (compression_ratio s) = true /\
   special_pages s = Ret (zero_pages s + same_pages s)).
Proof.
  intros [= <-] Hrun s w.
  destruct (device_run_records tally tally_write tally_read _ _ _ _ 0 0 Hrun tally_new)
    as (Hw & Hn & Hp & Hr & Hfr & Hfw & Hs).
  rewrite !Z.add_0_l in *. fold w in Hw, Hn, Hp, Hs.
  assert (Es : stats_counters d' = s) by (unfold s, stats; by destruct (stats_counters d')).
  rewrite Es in *. split_and!; try done; [by rewrite Hp |].
  intros Hle. destruct (sizes_ratio w s ltac:(lia) (Hs Hle)) as (? & ? & ? & ?). auto.
Qed.

(** Two writes of one page and its discard: the counter says 2, the table is empty. *)
Definition rewrite_ops : list Op := [OpWrite 0 zero_page; OpWrite 0 zero_page; OpDiscard 0].

Lemma zram_stats_witness :
  exists outs d', device_run demo_device rewrite_ops = Ret (outs, d')
    /\ pages_stored (stats d') = num_writes (stats d')
    /\ pages_stored (stats d') = 2 /\ stored_pages d' = 0%nat.
Proof.
  do 2 eexists. split; [vm_compute; reflexivity |].
  split; [| split; reflexivity].
  eapply (zram_stats_count_operations (prof := dev) demo_config demo_device rewrite_ops);
    [reflexivity | vm_compute; reflexivity].
Defined.
