(* ===== verification/Lts.v ===== *)
(** * Lts: labelled transition systems and forward simulation

    The systems of concurrent callers share this vocabulary: a step carries a
    visible label or none, a run collects the visible ones, and a forward
    simulation turns runs of a detailed system into runs of a specification
    with the same labels. *)

From S2P Require Import Prelude.

Section runs.
Context {S L : Type} (step : S -> option L -> S -> Prop).

Inductive run : S -> list L -> S -> Prop :=
| run_nil s : run s [] s
| run_step s l s1 tr s2 : step s l s1 -> run s1 tr s2 -> run s (option_list l ++ tr) s2.

Lemma run_one s l s' : step s l s' -> run s (option_list l) s'.
Proof. intros H. rewrite <- (app_nil_r (option_list l)). by eapply run_step; [| constructor]. Qed.

Lemma run_app s tr1 s1 tr2 s2 : run s tr1 s1 -> run s1 tr2 s2 -> run s (tr1 ++ tr2) s2.
Proof.
  induction 1 as [s | s l s1' tr s2' Hs Hr IH]; intros H2; [done |].
  rewrite <- app_assoc. eapply run_step; eauto.
Qed.

(** Rule induction for what every step preserves. *)
Lemma run_invariant (I : S -> Prop) :
  (forall s l s', I s -> step s l s' -> I s') -> forall s tr s', I s -> run s tr s' -> I s'.
Proof. intros Hstep s tr s' Hs Hr. induction Hr as [| s l s1 tr s2 H Hr IH]; [done |]. eauto. Qed.

(** The same with the labels so far in view. *)
Lemma run_history (I : list L -> S -> Prop) :
  (forall h s l s', I h s -> step s l s' -> I (h ++ option_list l) s') ->
  forall h s tr s', I h s -> run s tr s' -> I (h ++ tr) s'.
Proof.
  intros Hstep h s tr s' Hs Hr. revert h Hs.
  induction Hr as [s | s l s1 tr s2 H Hr IH]; intros h Hs; [by rewrite app_nil_r |].
  rewrite app_assoc. eauto.
Qed.

End runs.
Arguments run {S L} step _ _ _.

Section simulation.
Context {S1 S2 L : Type}.
Context (step1 : S1 -> option L -> S1 -> Prop) (step2 : S2 -> option L -> S2 -> Prop).
Context (R : S1 -> S2 -> Prop).

(** [ok] restricts the labels, to the calls a theorem admits. *)
Lemma forward_simulation (ok : L -> Prop) :
  (forall s1 l s1' s2, R s1 s2 -> Forall ok (option_list l) -> step1 s1 l s1' ->
     exists s2', run step2 s2 (option_list l) s2' /\ R s1' s2') ->
  forall s1 tr s1' s2, R s1 s2 -> run step1 s1 tr s1' -> Forall ok tr ->
    exists s2', run step2 s2 tr s2' /\ R s1' s2'.
Proof.
  intros Hstep s1 tr s1' s2 HR Hrun; revert s2 HR.
  induction Hrun as [s | s l s' tr s'' H Hr IH]; intros s2 HR Hok.
  - exists s2. split; [constructor | done].
  - apply Forall_app in Hok as [Hl Hok].
    destruct (Hstep _ _ _ _ HR Hl H) as (s2' & H2 & HR').
    destruct (IH _ HR' Hok) as (s2'' & Hr2 & HR''). exists s2''. split; [| done].
    by eapply run_app.
Qed.

End simulation.

(** What a client sees of a shared object: calls and returns, by thread. *)
Inductive Event (Op Out : Type) : Type :=
| Invoke (thread : nat) (op : Op)
| Return (thread : nat) (out : Out).
Arguments Invoke {Op Out} _ _.
Arguments Return {Op Out} _ _.

(** A call among those [good] describes, or a return. *)
Definition calls {Op Out} (good : Op -> Prop) (e : Event Op Out) : Prop :=
  match e with Invoke _ op => good op | Return _ _ => True end.

(** ** The calls of concurrent threads, as a map from thread numbers *)

Lemma phases_insert {A B} (R : A -> B -> Prop) (ph : gmap nat A) (ph' : gmap nat B) t p q :
  R p q -> (forall j, option_Forall2 R (ph !! j) (ph' !! j)) ->
  forall j, option_Forall2 R (<[t := p]> ph !! j) (<[t := q]> ph' !! j).
Proof.
  intros Hpq Hph j. destruct (decide (t = j)) as [-> |].
  - rewrite !lookup_insert_eq. by constructor.
  - by rewrite !lookup_insert_ne.
Qed.

Lemma phases_delete {A B} (R : A -> B -> Prop) (ph : gmap nat A) (ph' : gmap nat B) t :
  (forall j, option_Forall2 R (ph !! j) (ph' !! j)) ->
  forall j, option_Forall2 R (delete t ph !! j) (delete t ph' !! j).
Proof.
  intros Hph j. destruct (decide (t = j)) as [-> |].
  - rewrite !lookup_delete_eq. constructor.
  - by rewrite !lookup_delete_ne.
Qed.

(** A specification can move a call from [q] to [q'] and its state from [m] to [m']
    unobserved, whatever the other calls are. *)
Section catching_up.
Context {M Q L : Type} (step : M * gmap nat Q -> option L -> M * gmap nat Q -> Prop).

Definition catches_up (m : M) (q : Q) (m' : M) (q' : Q) : Prop :=
  forall (t : nat) (qs : gmap nat Q), qs !! t = Some q -> run step (m, qs) [] (m', <[t := q']> qs).

Lemma catches_up_stutter m q : catches_up m q m q.
Proof. intros t qs Ht. rewrite insert_id by done. constructor. Qed.

Lemma catches_up_step m q m' q' :
  (forall t qs, qs !! t = Some q -> step (m, qs) None (m', <[t := q']> qs)) -> catches_up m q m' q'.
Proof. intros Hstep t qs Ht. apply (run_one step _ None). auto. Qed.

Lemma catches_up_trans m q m1 q1 m2 q2 :
  catches_up m q m1 q1 -> catches_up m1 q1 m2 q2 -> catches_up m q m2 q2.
Proof.
  intros H1 H2 t qs Ht. apply (run_app _ _ [] _ [] _ (H1 t qs Ht)).
  rewrite <- (insert_insert_eq qs t q2 q1). apply H2, lookup_insert_eq.
Qed.

End catching_up.

(** What the calls in flight have before them. *)
Definition total {P} (f : P -> nat) (ph : gmap nat P) : nat := map_fold (fun _ p n => f p + n)%nat 0%nat ph.

Lemma total_delete {P} (f : P -> nat) ph t p :
  ph !! t = Some p -> total f ph = (f p + total f (delete t ph))%nat.
Proof. apply (map_fold_delete_L (fun _ p n => f p + n)%nat). intros; lia. Qed.

Lemma total_le {P} (f : P -> nat) k ph :
  (forall t p, ph !! t = Some p -> (f p <= k)%nat) -> (total f ph <= k * size ph)%nat.
Proof.
  induction ph as [| t p ph Hnone IH] using map_ind; intros Hle; [unfold total; rewrite map_fold_empty; lia |].
  rewrite (total_delete f (<[t := p]> ph) t p) by apply lookup_insert_eq.
  rewrite map_size_insert_None, delete_insert_id by done.
  assert (f p <= k)%nat by (apply (Hle t), lookup_insert_eq).
  assert (total f ph <= k * size ph)%nat; [| lia]. apply IH. intros t' p' Hp'. apply (Hle t').
  rewrite lookup_insert_ne; [done |]. intros ->. congruence.
Qed.

Lemma total_insert {P} (f : P -> nat) ph t p p' :
  ph !! t = Some p -> (total f (<[t := p']> ph) + f p = total f ph + f p')%nat.
Proof.
  intros Hp. rewrite (total_delete f ph t p Hp).
  rewrite (total_delete f (<[t := p']> ph) t p') by apply lookup_insert_eq.
  rewrite delete_insert_eq. lia.
Qed.

(** Something the calls in flight carry, all together. *)
Definition view {P B} (f : P -> list B) (ph : gmap nat P) : list B := mjoin (f <$> (map_to_list ph).*2).

Lemma view_lookup {P B} (f : P -> list B) (ph : gmap nat P) t p :
  ph !! t = Some p -> view f ph ≡ₚ f p ++ view f (delete t ph).
Proof. intros Hp. unfold view. by rewrite <- (map_to_list_delete ph t p Hp). Qed.

Lemma view_insert {P B} (f : P -> list B) (ph : gmap nat P) t p :
  view f (<[t := p]> ph) ≡ₚ f p ++ view f (delete t ph).
Proof.
  unfold view. rewrite <- insert_delete_eq.
  by rewrite map_to_list_insert by apply lookup_delete_eq.
Qed.

Lemma view_empty {P B} (f : P -> list B) : view f (∅ : gmap nat P) = [].
Proof. unfold view. by rewrite map_to_list_empty. Qed.

(** ** Locks

    Who holds a lock, or waits for it, is read off the phases of the calls in
    flight.  The standard library leaves open whether a reader may pass a writer
    that waits: both policies are admitted ([writers_first]). *)

Definition nobody {P} (f : P -> bool) (ph : gmap nat P) : Prop := map_Forall (fun _ p => f p = false) ph.
#[export] Instance nobody_dec {P} (f : P -> bool) ph : Decision (nobody f ph).
Proof. unfold nobody. apply _. Defined.

Lemma somebody {P} (f : P -> bool) (ph : gmap nat P) :
  ~ nobody f ph -> exists t p, ph !! t = Some p /\ f p = true.
Proof.
  intros (t & p & Hp & Hf)%map_not_Forall; [| intros ?; apply _].
  exists t, p. split; [done |]. by destruct (f p).
Qed.

Lemma nobody_insert {P} (f : P -> bool) (ph : gmap nat P) t p :
  nobody f ph -> f p = false -> nobody f (<[t := p]> ph).
Proof. intros H Hp. by apply map_Forall_insert_2. Qed.

Lemma nobody_singleton {P} (f : P -> bool) t p : f p = false -> nobody f {[t := p]}.
Proof. intros H. by apply map_Forall_singleton. Qed.

Class LockPolicy : Type := writers_first : bool.

(** [RwLock::read] waits for the writer to leave, [RwLock::write] for everybody. *)
Definition may_read {P} {policy : LockPolicy} (writes waits : P -> bool) (ph : gmap nat P) : Prop :=
  nobody writes ph /\ (writers_first = true -> nobody waits ph).
#[export] Instance may_read_dec {P} {policy : LockPolicy} (writes waits : P -> bool) ph :
  Decision (may_read writes waits ph).
Proof. unfold may_read. apply _. Defined.

(** ** An object that threads share

    A call goes through phases by the atomic actions of its method, each between
    its invocation and its return; an action may have to wait for the other calls
    ([may_act]), to take a lock. *)
Class SharedObject (D P Op Out : Type) : Type := {
  enter : Op -> P;
  act : D -> P -> comp (D * P);
  outcome : P -> option Out;
  may_act : gmap nat P -> P -> Prop;
  may_act_dec ph p : Decision (may_act ph p) }.
#[export] Existing Instance may_act_dec.

Section shared.
Context {D P Op Out : Type} `{!SharedObject D P Op Out}.
Implicit Types (d : D) (ph : gmap nat P) (p : P) (t : nat).

Inductive conc_step : D * gmap nat P -> option (Event Op Out) -> D * gmap nat P -> Prop :=
| conc_invoke d ph t op :
    ph !! t = None -> conc_step (d, ph) (Some (Invoke t op)) (d, <[t := enter op]> ph)
| conc_advance d ph t p d' p' :
    ph !! t = Some p -> outcome p = None -> may_act ph p -> act d p = Ret (d', p') ->
    conc_step (d, ph) None (d', <[t := p']> ph)
| conc_return d ph t p out :
    ph !! t = Some p -> outcome p = Some out ->
    conc_step (d, ph) (Some (Return t out)) (d, delete t ph).

(** An interleaving as a program: each entry names a thread, and the call it
    makes or, without one, its next action or its return.  [None] when the
    thread cannot make the move. *)
Definition conc_move (x : D * gmap nat P) (a : nat * option Op) :
  option (option (Event Op Out) * (D * gmap nat P)) :=
  let '(d, ph) := x in
  match a.2, ph !! a.1 with
  | Some op, None => Some (Some (Invoke a.1 op), (d, <[a.1 := enter op]> ph))
  | None, Some p =>
      match outcome p with
      | Some out => Some (Some (Return a.1 out), (d, delete a.1 ph))
      | None =>
          if decide (may_act ph p) then
            match act d p with
            | Ret (d', p') => Some (None, (d', <[a.1 := p']> ph))
            | _ => None
            end
          else None
      end
  | _, _ => None
  end.

Fixpoint conc_exec (x : D * gmap nat P) (schedule : list (nat * option Op)) :
  option (list (Event Op Out) * (D * gmap nat P)) :=
  match schedule with
  | [] => Some ([], x)
  | a :: schedule =>
      match conc_move x a with
      | None => None
      | Some (l, x) =>
          match conc_exec x schedule with
          | None => None
          | Some (tr, x) => Some (option_list l ++ tr, x)
          end
      end
  end.

Lemma conc_move_step x a l x' : conc_move x a = Some (l, x') -> conc_step x l x'.
Proof.
  destruct x as [d ph], a as [t [op |]]; unfold conc_move; cbn [fst snd];
    destruct (ph !! t) as [p |] eqn:Hp; try done.
  - intros [= <- <-]. by constructor.
  - destruct (outcome p) as [out |] eqn:Ho; [intros [= <- <-]; by econstructor |].
    destruct (decide _); [| done].
    destruct (act d p) as [[d' p'] | |] eqn:Ha; [| done | done]. intros [= <- <-]. by econstructor.
Qed.

Lemma conc_exec_run schedule : forall x tr x', conc_exec x schedule = Some (tr, x') -> run conc_step x tr x'.
Proof.
  induction schedule as [| a schedule IH]; intros x tr x'; cbn [conc_exec].
  - intros [= <- <-]. constructor.
  - destruct (conc_move x a) as [[l x1] |] eqn:Hm; [| done].
    destruct (conc_exec x1 schedule) as [[tr1 x2] |] eqn:He; [| done]. intros [= <- <-].
    eapply run_step; [by apply conc_move_step in Hm | by apply IH].
Qed.

(** One call that no other interleaves with. *)
Fixpoint run_alone (fuel : nat) d p : comp (Out * D) :=
  match outcome p with
  | Some out => Ret (out, d)
  | None =>
      match fuel with
      | O => OutOfFuel
      | S fuel => '(d, p) ← act d p; run_alone fuel d p
      end
  end.

Lemma run_alone_finished fuel d p out : outcome p = Some out -> run_alone fuel d p = Ret (out, d).
Proof. intros H. destruct fuel; cbn; by rewrite H. Qed.

Lemma run_alone_step fuel d p :
  outcome p = None -> run_alone (S fuel) d p = ('(d, p) ← act d p; run_alone fuel d p).
Proof. intros H. cbn. by rewrite H. Qed.

Lemma act_alone fuel d p d' p' :
  (0 < fuel)%nat -> outcome p = None -> act d p = Ret (d', p') ->
  run_alone fuel d p = run_alone (pred fuel) d' p'.
Proof. intros Hf Ho Ha. destruct fuel; [lia |]. by rewrite run_alone_step, Ha, bind_ret. Qed.

(** The same as a relation. *)
Definition alone_step (x x' : D * P) : Prop := outcome x.2 = None /\ act x.1 x.2 = Ret x'.

Lemma run_alone_steps fuel : forall d p out d', run_alone fuel d p = Ret (out, d') ->
  exists p', rtc alone_step (d, p) (d', p') /\ outcome p' = Some out.
Proof.
  induction fuel as [| fuel IH]; intros d p out d'; cbn [run_alone];
    destruct (outcome p) as [o |] eqn:Ho; [| done | |]; try (intros [= <- <-]; exists p; by split; [apply rtc_refl |]).
  intros ([d1 p1] & Ha & Hr)%bind_ret_inv. destruct (IH _ _ _ _ Hr) as (p' & Hs & Hp').
  exists p'. split; [| done]. by eapply rtc_l.
Qed.

(** No call waits for itself: with no other in flight it runs to its return. *)
Lemma call_alone_steps d op t d' p' out :
  (forall p, may_act {[t := p]} p) -> rtc alone_step (d, enter op) (d', p') -> outcome p' = Some out ->
  run conc_step (d, ∅) [Invoke t op; Return t out] (d', ∅).
Proof.
  intros Hfree Hr Hout.
  apply (run_step conc_step _ (Some (Invoke t op)) (d, {[t := enter op]}) [Return t out]); [by apply conc_invoke |].
  remember (d, enter op) as x eqn:Hx. remember (d', p') as x' eqn:Hx'.
  revert Hx'. replace d with x.1 by (by subst). replace (enter op) with x.2 by (by subst). clear Hx d op.
  induction Hr as [x | x x1 x2 [Ho Ha] _ IH]; intros ->.
  - cbn. replace (∅ : gmap nat P) with (delete t {[t := p']} : gmap nat P) by apply delete_singleton_eq.
    apply (run_one conc_step _ (Some (Return t out))). apply (conc_return _ _ _ p'); [by rewrite lookup_singleton_eq | done].
  - apply (run_step conc_step _ None (x1.1, {[t := x1.2]}) [Return t out]); [| by apply IH].
    rewrite <- (insert_singleton_eq t x1.2 x.2). eapply conc_advance; [by rewrite lookup_singleton_eq | done | done |].
    by destruct x1.
Qed.

Lemma call_alone_run fuel d op t out d' :
  (forall p, may_act {[t := p]} p) -> run_alone fuel d (enter op) = Ret (out, d') ->
  run conc_step (d, ∅) [Invoke t op; Return t out] (d', ∅).
Proof. intros Hfree (p' & Hs & Hp')%run_alone_steps. by eapply call_alone_steps. Qed.

(** ** Progress *)

(** A step that starts no call. *)
Definition moves (x x' : D * gmap nat P) : Prop :=
  exists l, conc_step x l x' /\ forall t op, l <> Some (Invoke t op).

Lemma moves_act d ph t p d' p' :
  ph !! t = Some p -> outcome p = None -> may_act ph p -> act d p = Ret (d', p') ->
  moves (d, ph) (d', <[t := p']> ph).
Proof. intros. exists None. split; [by eapply conc_advance | done]. Qed.

Lemma moves_return d ph t p out :
  ph !! t = Some p -> outcome p = Some out -> moves (d, ph) (d, delete t ph).
Proof. intros. exists (Some (Return t out)). split; [by eapply conc_return | done]. Qed.

Lemma moves_runs n x x' : nsteps moves n x x' -> exists tr, run conc_step x tr x' /\ Forall (calls (fun _ => False)) tr.
Proof.
  induction 1 as [x | n x x1 x2 (l & Hs & Hl) _ (tr & Hr & Htr)]; [exists []; by split; [constructor |] |].
  exists (option_list l ++ tr). split; [by eapply run_step |].
  apply Forall_app. split; [| done]. destruct l as [[t op | t out] |]; [by destruct (Hl t op) | ..]; by repeat constructor.
Qed.

(** Where every action leaves its call less to do, without new calls the calls in
    flight take at most as many steps as they have before them together. *)
Section bounded.
Context (I : D * gmap nat P -> Prop) (work : P -> nat).
Hypothesis I_moves : forall x x', I x -> moves x x' -> I x'.
Hypothesis act_work : forall d ph t p d' p', I (d, ph) -> ph !! t = Some p -> outcome p = None ->
  act d p = Ret (d', p') -> (work p' < work p)%nat.
Hypothesis finished_work : forall p out, outcome p = Some out -> (0 < work p)%nat.

Lemma move_work x x' : I x -> moves x x' -> (total work x'.2 < total work x.2)%nat.
Proof using act_work finished_work.
  intros HI (l & Hstep & Hl).
  destruct Hstep as [d ph t op Hn | d ph t p d' p' Hp Ho Hm Ha | d ph t p out Hp Ho]; cbn.
  - by destruct (Hl t op).
  - pose proof (total_insert work ph t p p' Hp). pose proof (act_work _ _ _ _ _ _ HI Hp Ho Ha). lia.
  - pose proof (total_delete work ph t p Hp). pose proof (finished_work _ _ Ho). lia.
Qed.

Lemma moves_work n x x' : I x -> nsteps moves n x x' -> (n + total work x'.2 <= total work x.2)%nat.
Proof using I_moves act_work finished_work.
  intros HI H. revert HI. induction H as [x | n x x1 x2 H1 _ IH]; intros HI; [done |].
  pose proof (move_work _ _ HI H1). pose proof (IH (I_moves _ _ HI H1)). lia.
Qed.

(** If besides one call in flight can always move, they all return. *)
Lemma moves_finish :
  (forall x, I x -> x.2 <> ∅ -> exists x', moves x x') ->
  forall x, I x -> exists d', rtc moves x (d', ∅).
Proof using I_moves act_work finished_work.
  intros Hon x. remember (total work x.2) as n eqn:Hn. revert x Hn.
  induction (Nat.lt_wf_0 n) as [n _ IH]. intros x -> HI.
  destruct (decide (x.2 = ∅)) as [He | Hne]; [destruct x as [d ph]; cbn in He; subst; by exists d |].
  destruct (Hon x HI Hne) as [x1 H1].
  destruct (IH _ (move_work _ _ HI H1) x1 eq_refl (I_moves _ _ HI H1)) as [d' Hr].
  exists d'. by eapply rtc_l.
Qed.

End bounded.

End shared.

(** ** The calls of concurrent threads, as a list

    A thread replaces its own call; a shared counter is the sum of what each
    call contributes. *)

Definition over {C} (f : C -> Z) (cs : list C) : Z := foldr (fun c n => f c + n) 0 cs.

Section calls.
Context {C : Type}.
Implicit Types (f : C -> Z) (c : C) (cs : list C).

Lemma over_cons f c cs : over f (c :: cs) = f c + over f cs.
Proof. done. Qed.

Lemma over_insert f cs i c c' : cs !! i = Some c -> over f (<[i := c']> cs) = over f cs - f c + f c'.
Proof.
  revert i; induction cs as [| c0 cs IH]; intros [| i] Hi; try done.
  - injection Hi as ->. change (<[0%nat := c']> (c :: cs)) with (c' :: cs). rewrite !over_cons. lia.
  - change (<[S i := c']> (c0 :: cs)) with (c0 :: <[i := c']> cs).
    rewrite !over_cons, (IH i) by done. lia.
Qed.

Lemma over_snoc f cs c : over f (cs ++ [c]) = over f cs + f c.
Proof.
  induction cs as [| c0 cs IH]; [unfold over; cbn; lia |].
  change ((c0 :: cs) ++ [c]) with (c0 :: (cs ++ [c])). rewrite !over_cons, IH. lia.
Qed.

Lemma over_nonneg f cs : (forall c, 0 <= f c) -> 0 <= over f cs.
Proof.
  intros Hf. induction cs as [| c cs IH]; [done |]. rewrite over_cons. specialize (Hf c). lia.
Qed.

Lemma over_zero f cs : (forall c, 0 <= f c) -> over f cs = 0 -> Forall (fun c => f c = 0) cs.
Proof.
  intros Hf. induction cs as [| c cs IH]; [done |]. rewrite over_cons. intros H.
  pose proof (over_nonneg f cs Hf). specialize (Hf c). constructor; [lia | apply IH; lia].
Qed.

Lemma over_member f cs i c : (forall c, 0 <= f c) -> cs !! i = Some c -> f c <= over f cs.
Proof.
  intros Hf. revert i; induction cs as [| c0 cs IH]; intros [| i] Hi; try done; rewrite over_cons.
  - injection Hi as ->. pose proof (over_nonneg f cs Hf). lia.
  - specialize (IH i Hi). specialize (Hf c0). lia.
Qed.

Lemma over_minus f g cs : over (fun c => f c - g c) cs = over f cs - over g cs.
Proof. induction cs as [| c cs IH]; [done |]. rewrite !over_cons, IH. lia. Qed.

(** A positive sum has a positive summand. *)
Lemma over_positive f cs : 0 < over f cs -> exists i c, cs !! i = Some c /\ 0 < f c.
Proof.
  induction cs as [| c cs IH]; [unfold over; cbn; lia |]. rewrite over_cons. intros H.
  destruct (decide (0 < f c)); [by exists 0%nat, c |].
  destruct IH as (i & c' & Hi & Hc'); [lia |]. by exists (S i), c'.
Qed.

Lemma omap_insert_none {A B} (f : A -> option B) (l : list A) i a a' :
  l !! i = Some a -> f a = None -> f a' = None -> omap f (<[i := a']> l) = omap f l.
Proof.
  intros Hi Ha Ha'. rewrite <- (take_drop_middle _ _ _ Hi) at 2.
  rewrite insert_take_drop by (by eapply lookup_lt_Some).
  rewrite !omap_app. cbn. by rewrite Ha, Ha'.
Qed.

Lemma omap_insert_some {A B} (f : A -> option B) (l : list A) i a a' b :
  l !! i = Some a -> f a = None -> f a' = Some b -> omap f (<[i := a']> l) ≡ₚ omap f l ++ [b].
Proof.
  intros Hi Ha Ha'. rewrite <- (take_drop_middle _ _ _ Hi) at 2.
  rewrite insert_take_drop by (by eapply lookup_lt_Some).
  rewrite !omap_app. cbn. rewrite Ha, Ha'. solve_Permutation.
Qed.

Lemma snoc_lookup cs c : (cs ++ [c]) !! length cs = Some c.
Proof. by rewrite list_lookup_middle. Qed.

Lemma snoc_insert cs c c' : <[length cs := c']> (cs ++ [c]) = cs ++ [c'].
Proof. rewrite <- (Nat.add_0_r (length cs)). by rewrite insert_app_r. Qed.

End calls.
