(* ===== verification/ZramSteps.v ===== *)
(** * ZramSteps: concurrent clients of the zram device (src/zram.rs)

    Every method of [ZramDevice] takes [&self], so threads run them at the
    same time.  Two locks stand between them, and a call holds them across
    several actions here, so that it can be suspended while it does: the mutex of
    the compression stream, which a write that compresses takes before the
    compression and drops when it returns, its access to the page table and its
    counting included, and which a read holds while it decodes a compressed entry;
    and the reader-writer lock of the page table, taken for one access at a time,
    by a compressing write while it holds the stream.  A reset removes the pages
    one by one and lets go of the table between two of them.

    The specification is a page store with the same threads on which each write,
    read and discard takes effect in one step between its invocation and its return,
    and a reset page by page, each page at one instant.  Safety is a forward
    simulation; progress is what locks allow: no deadlock, and no call that keeps
    the others from returning if it is not suspended for ever itself. *)

From S2P Require Import Prelude Bytes KernelError Lz4 Zram Lts.

(** ** The device and its threads *)

(** An access to the page table.  A write that compressed does it inside the stream. *)
Inductive Access : Type :=
| Get (page_index : Z) (buffer : bytes)
| Put (page_index : Z) (e : PageEntry) (record : AtomicStats -> AtomicStats) (in_stream : bool)
| Take (page_index : Z)
| Clear (page_index : Z).

(** What the stream is taken for. *)
Inductive Job : Type :=
| Compress (page_index : Z) (page_data : bytes)
| Decompress (data buffer : bytes).

(** A method in flight; in [StreamWait] and [TableWait] it is about to take the lock
    that it holds in [InStream] and [InTable]. *)
Inductive Phase : Type :=
| Invoked (op : Op)
| StreamWait (j : Job)
| InStream (j : Job)
| TableWait (a : Access)
| InTable (a : Access)
| Loaded (e : PageEntry) (buffer : bytes)
| Counting (record : AtomicStats -> AtomicStats) (out : Output) (in_stream : bool)
| Leaving (out : Output)
| Resetting (next : Z)
| Finished (out : Output).

Definition put_in_stream (a : Access) : bool := match a with Put _ _ _ b => b | _ => false end.
Definition exclusive (a : Access) : bool := match a with Get _ _ => false | _ => true end.

Definition holds_stream (p : Phase) : bool :=
  match p with
  | InStream _ | Leaving _ => true
  | TableWait a | InTable a => put_in_stream a
  | Counting _ _ in_stream => in_stream
  | _ => false
  end.
Definition holds_table (p : Phase) : bool := match p with InTable _ => true | _ => false end.
Definition writes_table (p : Phase) : bool := match p with InTable a => exclusive a | _ => false end.
Definition waits_to_write (p : Phase) : bool := match p with TableWait a => exclusive a | _ => false end.

(** The entry a compressed page becomes, and what is counted. *)
Definition compressed_entry (page_data compressed : bytes) : PageEntry * (AtomicStats -> AtomicStats) :=
  if (PAGE_SIZE - PAGE_SIZE / 8 <=? length compressed)%nat
  then (Uncompressed page_data, record_huge_page)
  else (Compressed compressed,
        fun s => record_write s (Z.of_nat PAGE_SIZE) (Z.of_nat (length compressed))).

(** The [Compressed] arm of [read_page], inside the stream. *)
Definition decode_page (s : CompressionStream) (data buffer : bytes) : comp (Result unit * bytes) :=
  page ← slice buffer 0 PAGE_SIZE;
  '(r, page) ← decompress s data page;
  buffer ← copy_from_slice buffer 0 PAGE_SIZE page;
  match r with
  | Err e => Ret (Err e, buffer)
  | Ok decompressed =>
      if negb (decompressed =? PAGE_SIZE)%nat
      then buffer ← fill buffer decompressed PAGE_SIZE 0; Ret (Ok tt, buffer)
      else Ret (Ok tt, buffer)
  end.

(** The lock is poisoned: [ResourceBusy], which a reset ignores. *)
Definition stream_refused (j : Job) : Output :=
  match j with Compress _ _ => (Err ResourceBusy, []) | Decompress _ buffer => (Err ResourceBusy, buffer) end.
Definition table_refused (a : Access) : Phase :=
  match a with
  | Get _ buffer => Finished (Err ResourceBusy, buffer)
  | Put _ _ _ true => Leaving (Err ResourceBusy, [])
  | Put _ _ _ false | Take _ => Finished (Err ResourceBusy, [])
  | Clear i => Resetting (i + 1)
  end.

(** The next atomic action of a method in flight. *)
Definition advance (d : ZramDevice) (p : Phase) : comp (ZramDevice * Phase) :=
  match p with
  | Invoked (OpWrite i data) =>
      if (length data <? PAGE_SIZE)%nat then Ret (d, Finished (Err InvalidArgument, []))
      else if i >=? max_pages (config d) then Ret (d, Finished (Err InvalidArgument, []))
      else
        page_data ← slice data 0 PAGE_SIZE;
        if forallb (fun b => b =? 0) page_data
        then Ret (d, TableWait (Put i Zero record_zero_page false))
        else match check_same_filled page_data with
        | Some value => Ret (d, TableWait (Put i (Same value) record_same_page false))
        | None => Ret (d, StreamWait (Compress i page_data))
        end
  | Invoked (OpRead i buffer) =>
      if (length buffer <? PAGE_SIZE)%nat then Ret (d, Finished (Err InvalidArgument, buffer))
      else if i >=? max_pages (config d) then Ret (d, Finished (Err InvalidArgument, buffer))
      else Ret (d, TableWait (Get i buffer))
  | Invoked (OpDiscard i) =>
      if i >=? max_pages (config d) then Ret (d, Finished (Err InvalidArgument, []))
      else Ret (d, TableWait (Take i))
  | Invoked OpReset => Ret (d, Resetting 0)
  | Resetting i =>
      if i <? max_pages (config d) then Ret (d, TableWait (Clear i)) else Ret (d, Finished (Ok tt, []))
  | StreamWait j =>
      match lock (stream d) with
      | None => Ret (d, Finished (stream_refused j))
      | Some _ => Ret (d, InStream j)
      end
  | InStream (Compress i page_data) =>
      r ← compress (content (stream d)) page_data;
      match r with
      | Err e => Ret (d, Leaving (Err e, []))
      | Ok compressed =>
          let '(e, record) := compressed_entry page_data compressed in
          Ret (d, TableWait (Put i e record true))
      end
  | InStream (Decompress data buffer) =>
      '(r, buffer) ← decode_page (content (stream d)) data buffer;
      match r with
      | Err e => Ret (d, Finished (Err e, buffer))
      | Ok _ => Ret (d, Counting record_read (Ok tt, buffer) false)
      end
  | TableWait a =>
      match lock (entries (page_table d)) with
      | None => Ret (d, table_refused a)
      | Some _ => Ret (d, InTable a)
      end
  | InTable (Get i buffer) => Ret (d, Loaded (default Empty (table d !! i)) buffer)
  | InTable (Put i e record in_stream) =>
      Ret (set_page_table d (PageTable_set (page_table d) i e).2, Counting record (Ok tt, []) in_stream)
  | InTable (Take i) =>
      Ret (set_page_table d (PageTable_remove (page_table d) i).2, Finished (Ok tt, []))
  | InTable (Clear i) =>
      Ret (set_page_table d (PageTable_remove (page_table d) i).2, Resetting (i + 1))
  | Loaded (Compressed data) buffer => Ret (d, StreamWait (Decompress data buffer))
  | Loaded entry buffer =>
      '(r, buffer) ← read_entry d entry buffer;
      match r with
      | Err e => Ret (d, Finished (Err e, buffer))
      | Ok _ => Ret (d, Counting record_read (Ok tt, buffer) false)
      end
  | Counting record out in_stream =>
      Ret (set_stats d (record (stats_counters d)), if in_stream then Leaving out else Finished out)
  | Leaving out => Ret (d, Finished out)
  | Finished out => Ret (d, Finished out)
  end.

Section sharing.
Context {policy : LockPolicy}.

(** [Mutex::lock] waits for the holder, and the table's lock as its kind has it. *)
Definition may_advance (ph : gmap nat Phase) (p : Phase) : Prop :=
  match p with
  | StreamWait _ => nobody holds_stream ph
  | TableWait a => if exclusive a then nobody holds_table ph else may_read writes_table waits_to_write ph
  | _ => True
  end.
#[export] Instance may_advance_dec ph p : Decision (may_advance ph p).
Proof. destruct p; cbn; try apply _. destruct (exclusive a); apply _. Defined.

#[export] Instance zram_object : SharedObject ZramDevice Phase Op Output := {|
  enter := Invoked;
  act := advance;
  outcome p := match p with Finished out => Some out | _ => None end;
  may_act := may_advance;
  may_act_dec := may_advance_dec |}.

End sharing.

(** ** The page store and its threads *)

Inductive SpecPhase : Type :=
| Pending (op : Op)
| Clearing (next : Z)
| Responded (out : Output).

Inductive atomic_step (pages : Z) : Store * gmap nat SpecPhase -> option (Event Op Output) ->
    Store * gmap nat SpecPhase -> Prop :=
| atomic_invoke m ph t op :
    ph !! t = None ->
    atomic_step pages (m, ph) (Some (Invoke t op)) (m, <[t := Pending op]> ph)
| atomic_effect m ph t op :
    ph !! t = Some (Pending op) -> op <> OpReset ->
    atomic_step pages (m, ph) None
      ((spec_step pages m op).2, <[t := Responded (spec_step pages m op).1]> ph)
| atomic_reset m ph t :
    ph !! t = Some (Pending OpReset) ->
    atomic_step pages (m, ph) None (m, <[t := Clearing 0]> ph)
| atomic_clear m ph t i :
    ph !! t = Some (Clearing i) -> i < pages ->
    atomic_step pages (m, ph) None (delete i m, <[t := Clearing (i + 1)]> ph)
| atomic_cleared m ph t i :
    ph !! t = Some (Clearing i) -> pages <= i ->
    atomic_step pages (m, ph) None (m, <[t := Responded (Ok tt, [])]> ph)
| atomic_return m ph t out :
    ph !! t = Some (Responded out) ->
    atomic_step pages (m, ph) (Some (Return t out)) (m, delete t ph).

(** ** The simulation *)

(** A read that has its entry has its answer. *)
Definition answers (s : CompressionStream) (e : PageEntry) (buffer out : bytes) : Prop :=
  (PAGE_SIZE <= length buffer)%nat /\
  exists page, (represents s e page \/ e = Empty /\ page = zero_page) /\ out = page ++ drop PAGE_SIZE buffer.

Definition in_device (pages i : Z) (data : bytes) : Prop := 0 <= i < pages /\ (PAGE_SIZE <= length data)%nat.

(** A method in flight and the call it stands for; [s] is the stream's setup. *)
Definition job_rel (s : CompressionStream) (pages : Z) (j : Job) (q : SpecPhase) : Prop :=
  match j, q with
  | Compress i page, Pending (OpWrite i' data) => i = i' /\ in_device pages i data /\ page = take PAGE_SIZE data
  | Decompress data buffer, Responded (Ok _, out) => answers s (Compressed data) buffer out
  | _, _ => False
  end.

Definition access_rel (s : CompressionStream) (pages : Z) (a : Access) (q : SpecPhase) : Prop :=
  match a, q with
  | Get i buffer, Pending (OpRead i' buffer') => i = i' /\ buffer = buffer' /\ in_device pages 0 buffer /\ i < pages
  | Put i e _ _, Pending (OpWrite i' data) =>
      i = i' /\ in_device pages i data /\ represents s e (take PAGE_SIZE data)
  | Take i, Pending (OpDiscard i') | Clear i, Clearing i' => i = i' /\ i < pages
  | _, _ => False
  end.

Definition phase_rel (s : CompressionStream) (pages : Z) (p : Phase) (q : SpecPhase) : Prop :=
  match p with
  | StreamWait j | InStream j => job_rel s pages j q
  | TableWait a | InTable a => access_rel s pages a q
  | Invoked op => exists op', q = Pending op' /\ op = op' /\ wf_op op
  | Loaded e buffer => exists u out, q = Responded (Ok u, out) /\ answers s e buffer out
  | Counting _ out _ | Leaving out | Finished out => q = Responded out
  | Resetting i => q = Clearing i
  end.

Definition conc_rel (s : CompressionStream) (c : ZramConfig)
    (x : ZramDevice * gmap nat Phase) (y : Store * gmap nat SpecPhase) : Prop :=
  simulates x.1 y.1 /\ content (stream x.1) = s /\ config x.1 = c /\
  forall t, option_Forall2 (phase_rel s (max_pages c)) (x.2 !! t) (y.2 !! t).

#[local] Opaque PAGE_SIZE.

(** The device stays in the simulation with the setup it was built with. *)
Definition tracks (s : CompressionStream) (c : ZramConfig) (d : ZramDevice) (m : Store) : Prop :=
  simulates d m /\ content (stream d) = s /\ config d = c.

Lemma catches_up_effect pages m op o m' :
  op <> OpReset -> spec_step pages m op = (o, m') ->
  catches_up (atomic_step pages) m (Pending op) m' (Responded o).
Proof.
  intros Hop Hs. apply catches_up_step. intros t ph Ht.
  replace m' with (spec_step pages m op).2 by (by rewrite Hs).
  replace o with (spec_step pages m op).1 by (by rewrite Hs). by constructor.
Qed.

(** One action of a method in flight. *)
Definition advances (s : CompressionStream) (c : ZramConfig) (d : ZramDevice) (m : Store)
    (p : Phase) (q : SpecPhase) : Prop :=
  exists d' p' m' q', advance d p = Ret (d', p') /\ tracks s c d' m' /\
    phase_rel s (max_pages c) p' q' /\ catches_up (atomic_step (max_pages c)) m q m' q'.

(** An action the store does not see. *)
Lemma advances_unseen s c d m p q d' p' :
  advance d p = Ret (d', p') -> tracks s c d' m -> phase_rel s (max_pages c) p' q -> advances s c d m p q.
Proof. intros. exists d', p', m, q. split; [done |]. split; [done |]. split; [done | apply catches_up_stutter]. Qed.

(** An action with which the call takes effect, or is refused. *)
Lemma advances_effect s c d m p op d' p' out m' :
  advance d p = Ret (d', p') -> op <> OpReset -> spec_step (max_pages c) m op = (out, m') -> tracks s c d' m' ->
  phase_rel s (max_pages c) p' (Responded out) -> advances s c d m p (Pending op).
Proof.
  intros. exists d', p', m', (Responded out). split; [done |]. split; [done |]. split; [done |].
  by eapply catches_up_effect.
Qed.

Lemma advances_write s c d m i data :
  tracks s c d m -> 0 <= i -> advances s c d m (Invoked (OpWrite i data)) (Pending (OpWrite i data)).
Proof.
  intros Ht Hi. pose proof Ht as (Hsim & Hs & Hc).
  assert (Hbad : (length data <? PAGE_SIZE)%nat || (i >=? max_pages c) = true ->
    advance d (Invoked (OpWrite i data)) = Ret (d, Finished (Err InvalidArgument, [])) ->
    advances s c d m (Invoked (OpWrite i data)) (Pending (OpWrite i data))).
  { intros Hv Ha. eapply advances_effect; [exact Ha | done | cbn [spec_step]; by rewrite Hv | done | done]. }
  destruct (Nat.ltb_spec (length data) PAGE_SIZE) as [Hlt | Hlen].
  { apply Hbad; [done |]. cbn [advance]. by rewrite (proj2 (Nat.ltb_lt _ _) Hlt). }
  destruct (Z.geb_spec i (max_pages c)) as [Hge | Hlt].
  { apply Hbad; [done |]. cbn [advance]. rewrite Hc, (proj2 (Nat.ltb_ge _ _) Hlen).
    by replace (i >=? max_pages c) with true by lia. }
  clear Hbad. assert (Hpage : length (take PAGE_SIZE data) = PAGE_SIZE) by (rewrite length_take; lia).
  assert (Hdev : in_device (max_pages c) i data) by (split; lia).
  assert (Hadv : advance d (Invoked (OpWrite i data)) =
    if forallb (fun b => b =? 0) (take PAGE_SIZE data) then Ret (d, TableWait (Put i Zero record_zero_page false))
    else match check_same_filled (take PAGE_SIZE data) with
    | Some value => Ret (d, TableWait (Put i (Same value) record_same_page false))
    | None => Ret (d, StreamWait (Compress i (take PAGE_SIZE data)))
    end).
  { cbn [advance]. rewrite Hc, (proj2 (Nat.ltb_ge _ _) Hlen). replace (i >=? max_pages c) with false by lia.
    by rewrite slice_ok, bind_ret, Nat.sub_0_r, drop_0 by lia. }
  destruct (forallb _ _) eqn:Hz; [| destruct (check_same_filled _) as [v |] eqn:Hv];
    (eapply advances_unseen; [exact Hadv | done | split; [done |]; split; [done |]]); [.. | done].
  - split; [done |]. apply forallb_replicate in Hz. by rewrite Hz, Hpage.
  - split; [done |]. apply check_same_filled_spec in Hv. by rewrite Hv, Hpage at 1.
Qed.

Lemma advances_lock_stream s c d m j q :
  tracks s c d m -> job_rel s (max_pages c) j q -> advances s c d m (StreamWait j) q.
Proof.
  intros Ht Hq. pose proof Ht as (((_ & Hh) & _) & _).
  eapply advances_unseen; [cbn [advance]; by rewrite (lock_healthy _ Hh) | done | done].
Qed.

Lemma compressed_entry_represents s page comp :
  length page = PAGE_SIZE ->
  ((length comp < PAGE_SIZE)%nat -> represents s (Compressed comp) page) ->
  represents s (compressed_entry page comp).1 page.
Proof.
  intros Hlen Hrep. unfold compressed_entry.
  destruct (Nat.leb_spec (PAGE_SIZE - PAGE_SIZE / 8) (length comp)) as [| Hshort]; [done |].
  by apply Hrep, worthwhile_short.
Qed.

Lemma advances_compress s c d m i page q :
  tracks s c d m -> job_rel s (max_pages c) (Compress i page) q -> advances s c d m (InStream (Compress i page)) q.
Proof.
  intros Ht Hq. pose proof Ht as (_ & Hs & _). destruct q as [[i' data | | |] | |]; try done.
  destruct Hq as (<- & Hdev & ->).
  destruct (compress_page s (take PAGE_SIZE data)) as (comp & Hcomp & Hrep);
    [rewrite length_take; destruct Hdev; lia |].
  destruct (compressed_entry (take PAGE_SIZE data) comp) as [e record] eqn:He.
  eapply advances_unseen; [cbn [advance]; by rewrite Hs, Hcomp, bind_ret, He | done |].
  split; [done |]. split; [done |]. replace e with (compressed_entry (take PAGE_SIZE data) comp).1 by (by rewrite He).
  apply compressed_entry_represents; [rewrite length_take; destruct Hdev; lia | done].
Qed.

Lemma advances_lock_table s c d m a q :
  tracks s c d m -> access_rel s (max_pages c) a q -> advances s c d m (TableWait a) q.
Proof.
  intros Ht Hq. pose proof Ht as (((Hh & _) & _) & _).
  eapply advances_unseen; [cbn [advance]; by rewrite (lock_healthy _ Hh) | done | done].
Qed.

Lemma removed_tracks s c d m i :
  tracks s c d m -> tracks s c (set_page_table d (PageTable_remove (page_table d) i).2) (delete i m).
Proof.
  intros (Hsim & Hs & Hc). pose proof Hsim as ((Hp & _) & _ & _).
  unfold PageTable_remove. rewrite (lock_healthy _ Hp). cbn [snd]. split; [| done].
  eapply (simulates_shrink d _ m (fun j => negb (i =? j))); [done | done | |];
    intros j; destruct (Z.eqb_spec i j) as [-> |]; cbn;
    (apply lookup_delete_eq || by apply lookup_delete_ne).
Qed.

Lemma advances_access s c d m a q :
  tracks s c d m -> access_rel s (max_pages c) a q -> advances s c d m (InTable a) q.
Proof.
  intros Ht Hq. pose proof Ht as (Hsim & Hs & Hc). pose proof Hsim as ((Hp & _) & Hrel & _).
  destruct a as [i buffer | i e record in_stream | i | i]; destruct q as [[i' data | i' buffer' | i' |] | i' |]; try done.
  - destruct Hq as (<- & <- & [_ Hlen] & Hi). eapply (advances_effect _ _ _ _ _ (OpRead i buffer)); [done | done | | done |].
    + cbn [spec_step]. rewrite (proj2 (Nat.ltb_ge _ _) Hlen). by replace (i >=? max_pages c) with false by lia.
    + do 2 eexists. split; [done |]. split; [done |]. exists (default zero_page (m !! i)). split; [| done].
      specialize (Hrel i). rewrite Hs in Hrel.
      destruct (_ !! i) as [e |], (m !! i) as [page |]; cbn in *; [by left | done | done | by right].
  - destruct Hq as (<- & [Hi Hlen] & Hrep). eapply (advances_effect _ _ _ _ _ (OpWrite i data)); [done | done | | | done].
    + cbn [spec_step]. rewrite (proj2 (Nat.ltb_ge _ _) Hlen). by replace (i >=? max_pages c) with false by lia.
    + unfold PageTable_set. rewrite (lock_healthy _ Hp). split; [| done].
      eapply simulates_insert; [exact Hsim | done | done | by rewrite Hc | by rewrite Hs].
  - destruct Hq as [<- Hi]. eapply (advances_effect _ _ _ _ _ (OpDiscard i)); [done | done | | | done].
    + cbn [spec_step]. by replace (i >=? max_pages c) with false by lia.
    + by apply removed_tracks.
  - destruct Hq as [<- Hi].
    exists (set_page_table d (PageTable_remove (page_table d) i).2), (Resetting (i + 1)), (delete i m), (Clearing (i + 1)).
    split; [done |]. split; [by apply removed_tracks |]. split; [done |].
    apply catches_up_step. intros. by apply atomic_clear.
Qed.

Lemma read_entry_compressed d data buffer :
  poisoned (stream d) = false -> read_entry d (Compressed data) buffer = decode_page (content (stream d)) data buffer.
Proof. intros Hh. cbn [read_entry]. by rewrite (lock_healthy _ Hh). Qed.

Lemma answers_read s c d m e buffer out :
  tracks s c d m -> answers s e buffer out -> read_entry d e buffer = Ret (Ok tt, out).
Proof.
  intros ((Hh & _) & Hs & _) (Hlen & page & [He | [-> ->]] & ->); [| by apply read_entry_empty].
  apply read_entry_represents; [done | by rewrite Hs | done].
Qed.

Lemma advances_decode s c d m data buffer q :
  tracks s c d m -> job_rel s (max_pages c) (Decompress data buffer) q ->
  advances s c d m (InStream (Decompress data buffer)) q.
Proof.
  intros Ht Hq. pose proof Ht as (((_ & Hh) & _) & _). destruct q as [| | [[[] |] out]]; try done.
  eapply advances_unseen; [| exact Ht |].
  - cbn [advance]. rewrite <- read_entry_compressed by done.
    by rewrite (answers_read s c d m _ _ out Ht Hq), bind_ret.
  - done.
Qed.

Lemma advances_load s c d m e buffer u out :
  tracks s c d m -> answers s e buffer out -> advances s c d m (Loaded e buffer) (Responded (Ok u, out)).
Proof.
  intros Ht Hq. destruct u. pose proof (answers_read s c d m e buffer out Ht Hq) as Hr.
  destruct e; (eapply advances_unseen; [cbn [advance]; rewrite ?Hr, ?bind_ret; done | done | done]).
Qed.

(** Whatever the phase, the action happens and the store catches up. *)
Lemma advance_simulates s c d m p q :
  tracks s c d m -> phase_rel s (max_pages c) p q -> advances s c d m p q.
Proof.
  intros Ht Hr. pose proof Ht as (Hsim & Hs & Hc).
  destruct p as [op | j | [i page | data buffer] | a | a | e buffer | record out in_stream | out | i | out].
  - destruct Hr as (op' & -> & <- & Hwf). destruct op as [i data | i buffer | i |]; [by apply advances_write | ..].
    + destruct ((length buffer <? PAGE_SIZE)%nat || (i >=? max_pages c)) eqn:Hv.
      * assert (Ha : advance d (Invoked (OpRead i buffer)) = Ret (d, Finished (Err InvalidArgument, buffer))).
        { cbn [advance]. rewrite Hc. destruct (_ <? _)%nat; [done |]. cbn in Hv. by rewrite Hv. }
        eapply (advances_effect _ _ _ _ _ (OpRead i buffer)); [exact Ha | done | cbn [spec_step]; by rewrite Hv | done | done].
      * apply orb_false_iff in Hv as [Hl Hi].
        eapply advances_unseen; [cbn [advance]; by rewrite Hc, Hl, Hi | done |].
        -- apply Nat.ltb_ge in Hl. change (0 <= i) in Hwf.
           split; [done |]. split; [done |]. split; [split; [lia | done] | lia].
    + destruct (i >=? max_pages c) eqn:Hi.
      * eapply (advances_effect _ _ _ _ _ (OpDiscard i));
          [cbn [advance]; by rewrite Hc, Hi | done | cbn [spec_step]; by rewrite Hi | done | done].
      * eapply advances_unseen; [cbn [advance]; by rewrite Hc, Hi | done | split; [done | lia]].
    + exists d, (Resetting 0), m, (Clearing 0). split; [done |]. split; [done |]. split; [done |].
      apply catches_up_step. intros. by apply atomic_reset.
  - by apply advances_lock_stream.
  - by apply advances_compress.
  - by apply advances_decode.
  - by apply advances_lock_table.
  - by apply advances_access.
  - destruct Hr as (u & out & -> & Ha). by apply advances_load.
  - cbn in Hr; subst q. eapply advances_unseen; [done | done |]. by destruct in_stream.
  - cbn in Hr; subst q. by eapply advances_unseen.
  - cbn in Hr; subst q. destruct (Z.ltb_spec i (max_pages c)) as [Hi | Hi].
    + eapply advances_unseen; [cbn [advance]; by rewrite Hc, (proj2 (Z.ltb_lt _ _)) by lia | done | done].
    + exists d, (Finished (Ok tt, [])), m, (Responded (Ok tt, [])).
      split; [cbn [advance]; by rewrite Hc, (proj2 (Z.ltb_ge _ _)) by lia |]. split; [done |]. split; [done |].
      apply catches_up_step. intros. by apply (atomic_cleared _ _ _ _ i).
  - cbn in Hr; subst q. by eapply advances_unseen.
Qed.

Section sharing_theorems.
Context {policy : LockPolicy}.

(** Every step of the threads on the device is matched on the store, with the
    same label. *)
Lemma conc_step_simulates s c x l x' y :
  conc_rel s c x y -> Forall (calls wf_op) (option_list l) -> conc_step x l x' ->
  exists y', run (atomic_step (max_pages c)) y (option_list l) y' /\ conc_rel s c x' y'.
Proof.
  destruct y as [m qs]. intros (Hsim & Hs & Hc & Hph) Hok Hstep.
  destruct Hstep as [d ps t op Hnone | d ps t p d' p' Hp _ _ Hadv | d ps t p out Hp Hout];
    cbn [fst snd] in *; pose proof (Hph t) as Ht.
  - rewrite Hnone in Ht. inversion Ht as [| Hq]. exists (m, <[t := Pending op]> qs).
    split; [by apply run_one; constructor |].
    split; [done |]. split; [done |]. split; [done |]. apply phases_insert; [| done].
    exists op. split; [done |]. split; [done |]. by inversion Hok.
  - rewrite Hp in Ht. inversion Ht as [? q Hrel Hp0 Hq |].
    cbn [act zram_object] in Hadv.
    destruct (advance_simulates s c d m p q) as (d1 & p1 & m' & q' & Hadv1 & (Hs1 & Hst & Hc1) & Hrel' & Hcatch);
      [done | done |].
    rewrite Hadv in Hadv1. injection Hadv1 as <- <-.
    exists (m', <[t := q']> qs). split; [by apply Hcatch |].
    split; [done |]. split; [done |]. split; [done |]. by apply phases_insert.
  - rewrite Hp in Ht. inversion Ht as [? q Hrel Hp0 Hq |]. destruct p; try done. injection Hout as ->.
    cbn in Hrel; subst q. exists (m, delete t qs). split; [by apply run_one; constructor |].
    split; [done |]. split; [done |]. split; [done |]. by apply phases_delete.
Qed.

(** ** No deadlock, and every call returns *)

(** The holder of the table can move; if nobody holds it, the holder of the stream;
    if nobody holds that either, whoever waits. *)
Lemma zram_moves_on d ph :
  (forall t p, ph !! t = Some p -> exists x, advance d p = Ret x) -> ph <> ∅ ->
  exists x', moves (d, ph) x'.
Proof.
  intros Hret Hne.
  assert (Hact : forall t p, ph !! t = Some p -> may_advance ph p -> exists x', moves (d, ph) x').
  { intros t p Hp Hmay. destruct (outcome p) as [out |] eqn:Hout; [eexists; by eapply moves_return |].
    destruct (Hret t p Hp) as [[d' p'] Ha]. eexists. by eapply moves_act. }
  destruct (decide (nobody holds_table ph)) as [Htable | (t & p & Hp & Hh)%somebody];
    [| by eapply (Hact t p); destruct p].
  assert (Hread : nobody writes_table ph).
  { intros t p Hp. pose proof (Htable t p Hp) as H. by destruct p. }
  assert (Hwait : nobody waits_to_write ph -> forall a, may_advance ph (TableWait a)).
  { intros Hw a. cbn. destruct (exclusive a); [done |]. by split. }
  destruct (decide (nobody waits_to_write ph)) as [Hw | (t & p & Hp & Hh)%somebody].
  2:{ apply (Hact t p Hp). destruct p as [| | | a | | | | | |]; try done. cbn in *. by rewrite Hh. }
  destruct (decide (nobody holds_stream ph)) as [Hstream | (t & p & Hp & Hh)%somebody].
  2:{ apply (Hact t p Hp). destruct p; try done. by apply Hwait. }
  destruct (map_choose _ Hne) as (t & p & Hp). apply (Hact t p Hp). destruct p; try done. by apply Hwait.
Qed.

(** The actions a call has before it, its return included, on a device of [pages]
    pages. *)
Definition work (pages : Z) (p : Phase) : nat :=
  match p with
  | Invoked (OpWrite _ _) => 9
  | Invoked (OpRead _ _) => 10
  | Invoked (OpDiscard _) => 4
  | Invoked OpReset => 3 + 3 * Z.to_nat pages
  | StreamWait (Compress _ _) => 8
  | InStream (Compress _ _) => 7
  | StreamWait (Decompress _ _) => 6
  | InStream (Decompress _ _) => 5
  | TableWait (Put _ _ _ _) => 6
  | InTable (Put _ _ _ _) => 5
  | TableWait (Get _ _) => 9
  | InTable (Get _ _) => 8
  | TableWait (Take _) => 3
  | InTable (Take _) => 2
  | TableWait (Clear i) => 4 + 3 * Z.to_nat (pages - i - 1)
  | InTable (Clear i) => 3 + 3 * Z.to_nat (pages - i - 1)
  | Loaded _ _ => 7
  | Counting _ _ _ => 3
  | Leaving _ => 2
  | Resetting i => 2 + 3 * Z.to_nat (pages - i)
  | Finished _ => 1
  end.

Lemma zram_advance_work d p d' p' :
  outcome p = None -> advance d p = Ret (d', p') ->
  config d' = config d /\ (work (max_pages (config d)) p' < work (max_pages (config d)) p)%nat.
Proof.
  intros Hout Hadv.
  destruct p as [[] | [] | [] | [] | [] | [] | ? ? [] | | |]; try done; cbn [advance table_refused] in Hadv;
    repeat (case_match || apply bind_ret_inv in Hadv as (? & _ & Hadv)); simplify_eq;
    (split; [done |]); cbn [work]; repeat case_match; simplify_eq; cbn [work]; lia.
Qed.

Lemma zram_moves_work n x x' :
  nsteps moves n x x' ->
  (n + total (work (max_pages (config x.1))) x'.2 <= total (work (max_pages (config x.1))) x.2)%nat.
Proof.
  apply (moves_work (fun y => config y.1 = config x.1)); [| | | done].
  - intros y y' Hy (l & Hstep & _). rewrite <- Hy. destruct Hstep; cbn; [done | | done].
    by eapply zram_advance_work.
  - cbn. intros d ph t p d' p' <- _ Hout Hadv. by eapply zram_advance_work.
  - intros p out. destruct p; cbn; done || lia.
Qed.

Lemma zram_moves_config x x' : moves x x' -> config x'.1 = config x.1.
Proof. intros (l & Hstep & _). destruct Hstep; cbn; [done | | done]. by eapply zram_advance_work. Qed.

End sharing_theorems.

Section alone.
Context {policy : LockPolicy}.

Ltac act_on := erewrite act_alone; [| lia | done | reflexivity].
Ltac act_to p := erewrite (act_alone _ _ _ _ p); [| lia | done | cbn [act zram_object advance]].

Lemma finished_alone fuel d out : run_alone fuel d (Finished out) = Ret (out, d).
Proof. by apply run_alone_finished. Qed.

Lemma counting_alone fuel d record out b :
  (2 < fuel)%nat -> run_alone fuel d (Counting record out b) = Ret (out, set_stats d (record (stats_counters d))).
Proof.
  intros Hf. act_on. destruct b; [| apply finished_alone].
  act_on. apply finished_alone.
Qed.

Lemma put_alone fuel d i e record b :
  poisoned (entries (page_table d)) = false -> (5 < fuel)%nat ->
  run_alone fuel d (TableWait (Put i e record b)) =
  let '(r, d) := store_entry d i e record in Ret ((r, []), d).
Proof.
  intros Hh Hf. unfold store_entry, PageTable_set. rewrite (lock_healthy _ Hh).
  act_to (InTable (Put i e record b)); [| by rewrite (lock_healthy _ Hh)].
  act_on. rewrite counting_alone by lia.
  unfold PageTable_set. by rewrite (lock_healthy _ Hh).
Qed.

Lemma zram_write_alone d i data fuel :
  healthy d -> (9 <= fuel)%nat -> run_alone fuel d (Invoked (OpWrite i data)) = device_step d (OpWrite i data).
Proof.
  intros [Ht Hs] Hf. destruct fuel as [| fuel]; [lia |]. rewrite run_alone_step by done.
  cbn [act zram_object advance device_step]. unfold write_page.
  destruct (_ <? _)%nat; [by rewrite !bind_ret, finished_alone |].
  destruct (_ >=? _); [by rewrite !bind_ret, finished_alone |].
  destruct (slice data 0 PAGE_SIZE) as [page | |]; [| done..]. rewrite !bind_ret.
  destruct (forallb _ page); [by rewrite !bind_ret, put_alone by (done || lia) |].
  destruct (check_same_filled page); [by rewrite !bind_ret, put_alone by (done || lia) |].
  rewrite (lock_healthy _ Hs), bind_ret.
  act_to (InStream (Compress i page)); [| by rewrite (lock_healthy _ Hs)].
  destruct fuel as [| [| fuel]]; [lia.. |]. cbn [Nat.pred]. rewrite run_alone_step by done.
  cbn [act zram_object advance]. destruct (compress _ page) as [[c | e] | |]; [| | done..]; rewrite !bind_ret.
  - unfold compressed_entry. destruct (_ <=? _)%nat; rewrite !bind_ret, put_alone by (done || lia); done.
  - act_on. apply finished_alone.
Qed.

Lemma decoded_alone fuel d r buffer :
  (2 < fuel)%nat ->
  match r with
  | Ok _ => run_alone fuel d (Counting record_read (Ok tt, buffer) false)
  | Err e => run_alone fuel d (Finished (Err e, buffer))
  end = Ret ((r, buffer), match r with Ok _ => set_stats d (record_read (stats_counters d)) | Err _ => d end).
Proof. intros Hf. destruct r as [[] | e]; [by rewrite counting_alone | apply finished_alone]. Qed.

Lemma loaded_alone fuel d e buffer :
  healthy d -> (6 < fuel)%nat ->
  run_alone fuel d (Loaded e buffer) =
  ('(r, buffer) ← read_entry d e buffer;
   Ret ((r, buffer), match r with Ok _ => set_stats d (record_read (stats_counters d)) | Err _ => d end)).
Proof.
  intros [_ Hs] Hf. destruct fuel as [| fuel]; [lia |]. rewrite run_alone_step by done.
  destruct e as [| | v | data | data]; cbn [act zram_object advance].
  4:{ rewrite bind_ret. act_to (InStream (Decompress data buffer)); [| by rewrite (lock_healthy _ Hs)].
      destruct fuel as [| [| fuel]]; [lia.. |]. cbn [Nat.pred]. rewrite run_alone_step by done.
      cbn [act zram_object advance]. rewrite read_entry_compressed by done.
      destruct (decode_page _ data buffer) as [[r b] | |]; [| done..]. rewrite !bind_ret.
      rewrite <- (decoded_alone fuel) by lia. destruct r; by rewrite bind_ret. }
  all: destruct (read_entry _ _ buffer) as [[r b] | |]; [| done..]; rewrite !bind_ret;
    rewrite <- (decoded_alone fuel) by lia; destruct r; by rewrite bind_ret.
Qed.

Lemma zram_read_alone d i buffer fuel :
  healthy d -> (10 <= fuel)%nat -> run_alone fuel d (Invoked (OpRead i buffer)) = device_step d (OpRead i buffer).
Proof.
  intros Hh Hf. pose proof Hh as [Ht _]. destruct fuel as [| fuel]; [lia |]. rewrite run_alone_step by done.
  cbn [act zram_object advance device_step]. unfold read_page.
  destruct (_ <? _)%nat; [by rewrite !bind_ret, finished_alone |].
  destruct (_ >=? _); [by rewrite !bind_ret, finished_alone |].
  unfold PageTable_get. rewrite bind_ret.
  act_to (InTable (Get i buffer)); [| by rewrite (lock_healthy _ Ht)].
  act_on. rewrite loaded_alone by (done || lia).
  rewrite (lock_healthy _ Ht). cbn [ok_or mbind result_bind]. unfold table.
  destruct (read_entry d _ buffer) as [[[[] | e] b] | |]; done.
Qed.

Lemma removal_alone fuel d a i out :
  poisoned (entries (page_table d)) = false -> (1 < fuel)%nat ->
  a = Take i /\ out = Finished (Ok tt, []) \/ a = Clear i /\ out = Resetting (i + 1) ->
  run_alone fuel d (TableWait a) =
  run_alone (pred (pred fuel)) (set_page_table d (PageTable_remove (page_table d) i).2) out.
Proof.
  intros Hh Hf Hcase.
  act_to (InTable a); [| by rewrite (lock_healthy _ Hh)].
  by destruct Hcase as [[-> ->] | [-> ->]]; act_on.
Qed.

(** The deletions [reset] has left from page [i] on. *)
Lemma run_alone_reset n : forall fuel d i,
  poisoned (entries (page_table d)) = false ->
  max_pages (config d) - i <= Z.of_nat n -> (2 + 3 * n <= fuel)%nat ->
  run_alone fuel d (Resetting i) =
  Ret ((Ok tt, []), set_page_table d
    (fold_left (fun t i => (PageTable_remove t i).2) (seqZ i (max_pages (config d) - i))
       (page_table d))).
Proof.
  assert (Hend : forall fuel d i, (1 < fuel)%nat -> max_pages (config d) <= i ->
    run_alone fuel d (Resetting i) = Ret ((Ok tt, []), set_page_table d
      (fold_left (fun t i => (PageTable_remove t i).2) (seqZ i (max_pages (config d) - i)) (page_table d)))).
  { intros fuel d i Hf Hi. act_to (Finished (Ok tt, [])); [| by rewrite (proj2 (Z.ltb_ge _ _) Hi)].
    rewrite finished_alone, seqZ_nil by lia. by destruct d. }
  induction n as [| n IH]; intros fuel d i Hh Hn Hf; [apply Hend; lia |].
  destruct (Z.ltb_spec i (max_pages (config d))) as [Hi | Hi]; [| apply Hend; lia].
  act_to (TableWait (Clear i)); [| by rewrite (proj2 (Z.ltb_lt _ _) Hi)].
  rewrite (removal_alone _ _ _ i (Resetting (i + 1))) by (done || lia || by right).
  rewrite IH; [| | cbn; lia | lia].
  - rewrite (seqZ_cons i) by lia. cbn [fold_left]. cbn [config set_page_table page_table].
    by replace (Z.pred (max_pages (config d) - i)) with (max_pages (config d) - (i + 1)) by lia;
       rewrite Z.add_1_r.
  - cbn. unfold PageTable_remove. by rewrite (lock_healthy _ Hh).
Qed.

(** A call that runs with no other in flight is the method of Zram. *)
Lemma zram_alone d op fuel :
  healthy d -> (work (max_pages (config d)) (Invoked op) <= fuel)%nat ->
  run_alone fuel d (Invoked op) = device_step d op.
Proof.
  intros Hh Hf. destruct op as [i data | i buffer | i |]; cbn [work] in Hf.
  - by apply zram_write_alone.
  - by apply zram_read_alone.
  - cbn [device_step]. unfold discard_page. destruct (i >=? max_pages (config d)) eqn:Hi.
    + act_to (Finished (Err InvalidArgument, [])); [| by rewrite Hi]. apply finished_alone.
    + act_to (TableWait (Take i)); [| by rewrite Hi].
      rewrite (removal_alone _ _ _ i (Finished (Ok tt, []))) by (apply Hh || lia || by left).
      rewrite finished_alone. unfold PageTable_remove. by rewrite (lock_healthy _ (proj1 Hh)).
  - act_to (Resetting 0); [| done].
    rewrite (run_alone_reset (Z.to_nat (max_pages (config d)))) by (apply Hh || lia).
    cbn [device_step]. unfold reset. by rewrite Z.sub_0_r.
Qed.

Lemma zram_lone t p : may_act {[t := p]} p.
Proof.
  destruct p; cbn; try done.
  - by apply nobody_singleton.
  - destruct (exclusive a) eqn:He; [by apply nobody_singleton |].
    split; [by apply nobody_singleton |]. intros _. by apply nobody_singleton.
Qed.

Lemma conc_rel_new c d : ZramDevice_new c = Ok d -> conc_rel (content (stream d)) c (d, ∅) (∅, ∅).
Proof.
  intros Hnew. destruct (simulates_new c d Hnew) as [Hsim Hc].
  split; [done |]. split; [done |]. split; [done |]. intros t. cbn. rewrite !lookup_empty. constructor.
Qed.

(** C5. Threads that share a zram device see a page store, although their calls
    hold the stream's mutex and the page table's lock across several actions: for
    every interleaving of the actions of any number of concurrent writes, reads,
    discards and resets on a new device, the calls and returns observed are those of
    a store on which each write, read and discard takes effect at one instant between
    its call and its return; a reset is not one instant but deletes page after page,
    each at one.  No action of a call in flight panics.  The two locks never deadlock,
    whichever of readers and writers the table's lock prefers: while a call is in
    flight one of them can move, and without new calls all return within the sum of
    what each has before it, at most ten actions, or three per page for a reset.  A
    call made while no other is in flight runs to its return and returns what the
    sequential method returns.  (A call suspended for ever inside the stream does
    block the others that need it.) *)
Theorem zram_linearizable c d tr d' ph :
  ZramDevice_new c = Ok d -> run conc_step (d, ∅) tr (d', ph) -> Forall (calls wf_op) tr ->
  (exists y, run (atomic_step (max_pages c)) (∅, ∅) tr y)
  /\ (forall t p, ph !! t = Some p -> exists x, advance d' p = Ret x)
  /\ (ph <> ∅ -> exists x', moves (d', ph) x')
  /\ (forall n x', nsteps moves n (d', ph) x' ->
        (n + total (work (max_pages c)) x'.2 <= total (work (max_pages c)) ph)%nat)
  /\ (exists d2, rtc moves (d', ph) (d2, ∅))
  /\ (ph = ∅ -> forall t op, wf_op op -> exists out d2,
        device_step d' op = Ret (out, d2) /\ run conc_step (d', ∅) [Invoke t op; Return t out] (d2, ∅)).
Proof.
  intros Hnew Hrun Hok.
  set (R := conc_rel (content (stream d)) c).
  assert (Hsims : forall x l x' y, R x y -> Forall (calls wf_op) (option_list l) -> conc_step x l x' ->
    exists y', run (atomic_step (max_pages c)) y (option_list l) y' /\ R x' y')
    by (intros; by eapply conc_step_simulates).
  assert (Hacts : forall x, (exists y, R x y) -> forall t p, x.2 !! t = Some p -> exists z, advance x.1 p = Ret z).
  { intros [d1 ph1] ([m qs] & Hsim & Hs & Hc & Hph) t p Hp. cbn in *.
    pose proof (Hph t) as Ht. rewrite Hp in Ht. inversion Ht as [? q Hrel |].
    destruct (advance_simulates (content (stream d)) c d1 m p q) as (? & ? & ? & ? & Hadv & _); [done | done |]. eauto. }
  destruct (forward_simulation conc_step (atomic_step (max_pages c)) R (calls wf_op) Hsims
    (d, ∅ : gmap nat Phase) tr (d', ph) (∅ : Store, ∅ : gmap nat SpecPhase)) as (y & Hrun2 & HR);
    [by apply conc_rel_new | done | done |].
  pose proof HR as (Hsim & _ & Hc & _). cbn [fst snd] in *.
  split; [by eauto |]. split; [by apply (Hacts (d', ph)); eauto |].
  split; [apply zram_moves_on; apply (Hacts (d', ph)); eauto |].
  split; [intros n x' Hn; rewrite <- Hc; by apply (zram_moves_work n (d', ph)) |].
  split.
  - apply (moves_finish (fun x => exists y, R x y) (work (max_pages c))); [| | | | by eauto].
    + intros x x' [y1 H1] (l & Hstep & Hl).
      destruct (Hsims x l x' y1 H1) as (y' & _ & H'); [| done | by eauto].
      destruct l as [[t op | t out] |]; [by destruct (Hl t op) | ..]; by repeat constructor.
    + intros d1 ph1 t p d1' p' ([m1 qs1] & _ & _ & Hc1 & _) _ Hout Ha. cbn in Hc1. subst c.
      rewrite <- Hc1. by eapply zram_advance_work.
    + intros p out. destruct p; cbn; done || lia.
    + intros [d1 ph1] H1 Hne. by apply zram_moves_on; [apply (Hacts (d1, ph1)) |].
  - intros -> t op Hwf. destruct (device_step_simulates d' _ op Hsim Hwf) as (d2 & Hstep & _).
    eexists _, d2. split; [exact Hstep |]. eapply (call_alone_run (work (max_pages (config d')) (Invoked op))).
    + apply zram_lone.
    + cbn [enter zram_object]. rewrite zram_alone; [exact Hstep | apply Hsim | done].
Qed.

End alone.

(** ** Runs *)

#[local] Instance demo_policy : LockPolicy := false.

(** Thread 1 reads page 0 after thread 0 has prepared its write of it and before
    it stores it, and returns after thread 0 has stored it: the read gives zeros. *)
Definition act_n (t n : nat) : list (nat * option Op) := replicate n (t, None).
Definition interleaving : list (nat * option Op) :=
  [(0%nat, Some (OpWrite 0 (replicate 4096 7)))] ++ act_n 0 1 ++
  [(1%nat, Some (OpRead 0 demo_page))] ++ act_n 1 3 ++ act_n 0 2 ++ act_n 1 3 ++ act_n 0 2.

Definition interleaved : list (Event Op Output) :=
  [Invoke 0 (OpWrite 0 (replicate 4096 7)); Invoke 1 (OpRead 0 demo_page);
   Return 1 (Ok tt, zero_page); Return 0 (Ok tt, [])].

(** Thread 0 is suspended in a write that compresses, inside the stream: thread 1,
    whose page has to be compressed too, waits for it; thread 2, which reads, does not. *)
Definition suspended : list (nat * option Op) :=
  [(0%nat, Some (OpWrite 0 demo_page))] ++ act_n 0 2 ++ [(1%nat, Some (OpWrite 1 demo_page))] ++ act_n 1 1.

Example suspended_writer_blocks :
  option_map (fun _ => tt) (conc_exec (demo_device, ∅) suspended) = Some tt /\
  option_map (fun _ => tt) (conc_exec (demo_device, ∅) (suspended ++ act_n 1 1)) = None /\
  option_map fst (conc_exec (demo_device, ∅) (suspended ++ [(2%nat, Some (OpRead 0 demo_page))] ++ act_n 2 6)) =
    Some [Invoke 0 (OpWrite 0 demo_page); Invoke 1 (OpWrite 1 demo_page); Invoke 2 (OpRead 0 demo_page);
          Return 2 (Ok tt, zero_page)].
Proof. vm_compute. done. Qed.

Example read_before_store : option_map fst (conc_exec (demo_device, ∅) interleaving) = Some interleaved.
Proof. vm_compute. reflexivity. Qed.

(** From the state in which thread 0 is suspended inside the stream. *)
Lemma zram_linearizable_witness : exists x,
  run conc_step (demo_device, ∅) [Invoke 0 (OpWrite 0 demo_page); Invoke 1 (OpWrite 1 demo_page)] x /\
  x.2 !! 0%nat = Some (InStream (Compress 0 demo_page)) /\
  (exists y, run (atomic_step 4) (∅, ∅) [Invoke 0 (OpWrite 0 demo_page); Invoke 1 (OpWrite 1 demo_page)] y) /\
  (exists x', moves x x') /\ exists d2, rtc moves x (d2, ∅).
Proof.
  destruct (conc_exec (demo_device, ∅) suspended) as [[tr [d ph]] |] eqn:He;
    [| exfalso; revert He; vm_compute; discriminate].
  assert (Hx : option_map (fun '(tr, (_, ph)) => (tr, ph !! 0%nat)) (conc_exec (demo_device, ∅) suspended) =
    Some ([Invoke 0 (OpWrite 0 demo_page); Invoke 1 (OpWrite 1 demo_page)],
          Some (InStream (Compress 0 demo_page)))) by (vm_compute; reflexivity).
  rewrite He in Hx. cbn [option_map] in Hx. injection Hx as -> Hp. apply conc_exec_run in He.
  exists (d, ph). split; [exact He |]. split; [exact Hp |].
  destruct (zram_linearizable demo_config demo_device _ d ph ltac:(reflexivity) He
    ltac:(repeat constructor; vm_compute; discriminate)) as (Hy & _ & Hm & _ & Hf & _).
  split; [exact Hy |]. split; [| exact Hf]. apply Hm. intros ->. by rewrite lookup_empty in Hp.
Defined.
