(* ===== verification/Scheduler.v ===== *)
(** * Scheduler: the work-stealing scheduler (src/scheduler.rs)

    The per-worker deque [WorkStealingDeque], the worker state and the
    [Scheduler] with every method, each as a function on the scheduler's state
    (methods take [&self]; locks and atomics are the state's fields).  [usize]
    counters are [Z].  The last sections state the scheduler's promises: the
    deque invariant, what each operation returns, and an interleaving semantics
    in which concurrent submitters and thieves never lose or duplicate a task. *)

From S2P Require Import Prelude KernelError.

(** [WorkerId(u32)] and [TaskId(u64)]. *)
Record WorkerId : Set := mkWorkerId { worker_raw : Z }.
Record TaskId : Set := mkTaskId { task_raw : Z }.

#[export] Instance WorkerId_eq_dec : EqDecision WorkerId.
Proof. solve_decision. Defined.
#[export] Instance TaskId_eq_dec : EqDecision TaskId.
Proof. solve_decision. Defined.
#[export] Instance WorkerId_countable : Countable WorkerId.
Proof. apply (inj_countable' worker_raw mkWorkerId). by intros []. Defined.

Definition WorkerId_new (id : Z) : WorkerId := mkWorkerId id.
Definition WorkerId_as_u32 (w : WorkerId) : Z := worker_raw w.
Definition TaskId_new (id : Z) : TaskId := mkTaskId id.
Definition TaskId_as_u64 (t : TaskId) : Z := task_raw t.

(** [size_of::<T>()], the compiler's choice. *)
Class TaskLayout : Type := item_size : Z.

Section scheduler.
Context {T : Type}.

(** ** The deque *)

(** [deque] front first; [len] is the atomic mirror of its length. *)
Record WorkStealingDeque : Type := mkDeque {
  deque : Lock (list T);
  dq_len : Z;
  dq_capacity : Z }.

(** The deque [new] builds around its buffer; [WorkStealingDeque_new] is the
    whole method, which allocates the buffer first, for [capacity] items of
    [size] bytes.  Constructors come in these two parts here: the value, and
    the method that allocates and returns it. *)
Definition deque_new (capacity : Z) : WorkStealingDeque := mkDeque (lock_new []) 0 capacity.
Definition WorkStealingDeque_new (size capacity : Z) : comp WorkStealingDeque :=
  _ ← allocate_bytes (capacity * size); Ret (deque_new capacity).
Definition deque_default : WorkStealingDeque := deque_new 1024.
Definition WorkStealingDeque_default (size : Z) : comp WorkStealingDeque := WorkStealingDeque_new size 1024.

Definition deque_push (d : WorkStealingDeque) (item : T) : Result unit * WorkStealingDeque :=
  match lock (deque d) with
  | None => (Err WouldBlock, d)
  | Some q =>
      if Z.of_nat (length q) >=? dq_capacity d then (Err UblkQueueFull, d)
      else (Ok tt, mkDeque (lock_set (deque d) (q ++ [item])) (wrap 64 (dq_len d + 1))
                     (dq_capacity d))
  end.

(** [VecDeque::pop_back] and [VecDeque::pop_front]. *)
Definition pop_back (q : list T) : option (T * list T) :=
  match reverse q with [] => None | x :: r => Some (x, reverse r) end.
Definition pop_front (q : list T) : option (T * list T) :=
  match q with [] => None | x :: r => Some (x, r) end.

Definition deque_pop (d : WorkStealingDeque) : option T * WorkStealingDeque :=
  match lock (deque d) with
  | None => (None, d)
  | Some q =>
      match pop_back q with
      | None => (None, d)
      | Some (item, q') =>
          (Some item, mkDeque (lock_set (deque d) q') (wrap 64 (dq_len d - 1)) (dq_capacity d))
      end
  end.

Definition deque_steal (d : WorkStealingDeque) : option T * WorkStealingDeque :=
  match lock (deque d) with
  | None => (None, d)
  | Some q =>
      match pop_front q with
      | None => (None, d)
      | Some (item, q') =>
          (Some item, mkDeque (lock_set (deque d) q') (wrap 64 (dq_len d - 1)) (dq_capacity d))
      end
  end.

(** [for _ in 0..steal_count { if let Some(item) = deque.pop_front() { .. } }]. *)
Fixpoint pop_front_n (n : nat) (q stolen : list T) : list T * list T :=
  match n with
  | O => (stolen, q)
  | S n' =>
      match pop_front q with
      | Some (item, q') => pop_front_n n' q' (stolen ++ [item])
      | None => pop_front_n n' q stolen
      end
  end.

Definition deque_steal_half (d : WorkStealingDeque) : list T * WorkStealingDeque :=
  match lock (deque d) with
  | None => ([], d)
  | Some q =>
      let steal_count := (length q `div` 2)%nat in
      if (steal_count =? 0)%nat then ([], d)
      else
        let '(stolen, q') := pop_front_n steal_count q [] in
        (stolen, mkDeque (lock_set (deque d) q')
                   (wrap 64 (dq_len d - Z.of_nat (length stolen))) (dq_capacity d))
  end.

Definition deque_length (d : WorkStealingDeque) : Z := dq_len d.
Definition deque_is_empty (d : WorkStealingDeque) : bool := deque_length d =? 0.
Definition deque_capacity (d : WorkStealingDeque) : Z := dq_capacity d.

(** ** Workers and the scheduler *)

Record WorkerState : Type := mkWorkerState {
  ws_deque : WorkStealingDeque;
  ws_active : bool }.

Definition WorkerState_new (capacity : Z) : WorkerState :=
  mkWorkerState (deque_new capacity) true.

Definition set_deque (w : WorkerState) (d : WorkStealingDeque) : WorkerState :=
  mkWorkerState d (ws_active w).

Record Scheduler : Type := mkScheduler {
  workers : Lock (list WorkerState);
  sc_num_workers : Z;
  next_task_id : Z;
  queue_capacity : Z;
  submit_counter : Z;
  running : bool }.

Definition with_capacity (num : Z) (capacity : Z) : Scheduler :=
  mkScheduler (lock_new (replicate (Z.to_nat num) (WorkerState_new capacity)))
    num 0 capacity 0 true.
(** The vector of [Arc]s is allocated for all workers at once, then a buffer for each. *)
Definition Scheduler_with_capacity (size num capacity : Z) : comp Scheduler :=
  _ ← allocate_bytes (num * 8);
  _ ← (if num =? 0 then Ret tt else _ ← WorkStealingDeque_new size capacity; Ret tt);
  Ret (with_capacity num capacity).
Definition scheduler_new (num : Z) : Scheduler := with_capacity num 1024.
Definition scheduler_default : Scheduler := scheduler_new 4.
Definition Scheduler_new (size num : Z) : comp Scheduler := Scheduler_with_capacity size num 1024.
Definition Scheduler_default (size : Z) : comp Scheduler := Scheduler_new size 4.

Definition set_workers (s : Scheduler) (ws : list WorkerState) : Scheduler :=
  mkScheduler (lock_set (workers s) ws) (sc_num_workers s) (next_task_id s)
    (queue_capacity s) (submit_counter s) (running s).

(** The test of [submit]'s search: active, and the atomic length below capacity. *)
Definition has_space (w : WorkerState) : bool :=
  ws_active w && (deque_length (ws_deque w) <? deque_capacity (ws_deque w)).

(** [(0..n).map(|i| (start + i) % n).find(..)]. *)
Definition find_target (ws : list WorkerState) (start : nat) : option nat :=
  list_find (fun idx => from_option has_space false (ws !! idx))
    ((fun i => ((start + i) `mod` length ws)%nat) <$> seq 0 (length ws)) ≫= fun p => Some p.2.

Definition submit (s : Scheduler) (task : T) : option TaskId * Scheduler :=
  if negb (running s) then (None, s)
  else
    match lock (workers s) with
    | None => (None, s)
    | Some [] => (None, s)
    | Some ws =>
        let start := Z.to_nat (submit_counter s mod Z.of_nat (length ws)) in
        let s := mkScheduler (workers s) (sc_num_workers s) (next_task_id s) (queue_capacity s)
                   (wrap 64 (submit_counter s + 1)) (running s) in
        match find_target ws start with
        | None => (None, s)
        | Some target_idx =>
            match ws !! target_idx with
            | None => (None, s)
            | Some w =>
                match deque_push (ws_deque w) task with
                | (Ok _, d') =>
                    let s := set_workers s (<[target_idx := set_deque w d']> ws) in
                    (Some (mkTaskId (next_task_id s)),
                     mkScheduler (workers s) (sc_num_workers s) (wrap 64 (next_task_id s + 1))
                       (queue_capacity s) (submit_counter s) (running s))
                | (Err _, d') => (None, set_workers s (<[target_idx := set_deque w d']> ws))
                end
            end
        end
    end.

(** Runs a deque operation on worker [idx]. *)
Definition on_deque {A} (s : Scheduler) (ws : list WorkerState) (idx : nat) (none : A)
    (f : WorkStealingDeque -> A * WorkStealingDeque) : A * Scheduler :=
  match ws !! idx with
  | None => (none, s)
  | Some w =>
      let '(a, d') := f (ws_deque w) in (a, set_workers s (<[idx := set_deque w d']> ws))
  end.

Definition pop (s : Scheduler) (worker_id : WorkerId) : option T * Scheduler :=
  match lock (workers s) with
  | None => (None, s)
  | Some ws =>
      let idx := Z.to_nat (WorkerId_as_u32 worker_id) in
      if (length ws <=? idx)%nat then (None, s)
      else on_deque s ws idx None deque_pop
  end.

(** The search loop of [steal], from [offset] on. *)
Fixpoint steal_from (s : Scheduler) (ws : list WorkerState) (offsets : list nat)
    (thief_idx : nat) : option T * Scheduler :=
  match offsets with
  | [] => (None, s)
  | offset :: offsets' =>
      let victim_idx := ((thief_idx + offset) `mod` length ws)%nat in
      match ws !! victim_idx with
      | None => (None, s)
      | Some w =>
          if ws_active w then
            match deque_steal (ws_deque w) with
            | (Some task, d') =>
                (Some task, set_workers s (<[victim_idx := set_deque w d']> ws))
            | (None, _) => steal_from s ws offsets' thief_idx
            end
          else steal_from s ws offsets' thief_idx
      end
  end.

Definition steal (s : Scheduler) (thief_id : WorkerId) : option T * Scheduler :=
  match lock (workers s) with
  | None => (None, s)
  | Some ws =>
      let thief_idx := Z.to_nat (WorkerId_as_u32 thief_id) in
      if (length ws <=? 1)%nat || (length ws <=? thief_idx)%nat then (None, s)
      else steal_from s ws (seq 1 (length ws - 1)) thief_idx
  end.

(** The scan of [steal_batch]: (busiest index, its length). *)
Definition busiest (ws : list WorkerState) (thief_idx : nat) : option nat * Z :=
  fold_left (fun '(best, max_len) '(idx, w) =>
      if negb (idx =? thief_idx)%nat && ws_active w
      then if deque_length (ws_deque w) >? max_len
           then (Some idx, deque_length (ws_deque w)) else (best, max_len)
      else (best, max_len))
    (imap (fun idx w => (idx, w)) ws) (None, 0).

Definition steal_batch (s : Scheduler) (thief_id : WorkerId) : list T * Scheduler :=
  match lock (workers s) with
  | None => ([], s)
  | Some ws =>
      let thief_idx := Z.to_nat (WorkerId_as_u32 thief_id) in
      if (length ws <=? 1)%nat || (length ws <=? thief_idx)%nat then ([], s)
      else
        match (busiest ws thief_idx).1 with
        | Some idx => on_deque s ws idx [] deque_steal_half
        | None => ([], s)
        end
  end.

Definition num_workers (s : Scheduler) : Z := sc_num_workers s.

Definition worker_loads (s : Scheduler) : list Z :=
  match lock (workers s) with
  | None => []
  | Some ws => (fun w => deque_length (ws_deque w)) <$> ws
  end.

(** [iter().map(..).sum()]: a plain [+] on [usize]. *)
Definition pending_tasks {prof : Profile} (s : Scheduler) : comp Z :=
  match lock (workers s) with
  | None => Ret 0
  | Some ws => for_each ws (fun w acc => add_w 64 acc (deque_length (ws_deque w))) 0
  end.

Definition is_running (s : Scheduler) : bool := running s.

Definition stop (s : Scheduler) : Scheduler :=
  mkScheduler (workers s) (sc_num_workers s) (next_task_id s) (queue_capacity s)
    (submit_counter s) false.

Definition add_worker (s : Scheduler) : option WorkerId * Scheduler :=
  match lock (workers s) with
  | None => (None, s)
  | Some ws =>
      let id := wrap 32 (Z.of_nat (length ws)) in
      let s := set_workers s (ws ++ [WorkerState_new (queue_capacity s)]) in
      (Some (mkWorkerId id),
       mkScheduler (workers s) (wrap 64 (sc_num_workers s + 1)) (next_task_id s)
         (queue_capacity s) (submit_counter s) (running s))
  end.

(** With the buffer of the new deque. *)
Definition Scheduler_add_worker (size : Z) (s : Scheduler) : comp (option WorkerId * Scheduler) :=
  match lock (workers s) with
  | None => Ret (None, s)
  | Some _ => _ ← WorkStealingDeque_new size (queue_capacity s); Ret (add_worker s)
  end.

Definition deactivate_worker (s : Scheduler) (worker_id : WorkerId) : bool * Scheduler :=
  match lock (workers s) with
  | None => (false, s)
  | Some ws =>
      let idx := Z.to_nat (WorkerId_as_u32 worker_id) in
      match ws !! idx with
      | None => (false, s)
      | Some w => (true, set_workers s (<[idx := mkWorkerState (ws_deque w) false]> ws))
      end
  end.

Definition is_worker_active (s : Scheduler) (worker_id : WorkerId) : bool :=
  match lock (workers s) with
  | None => false
  | Some ws =>
      match ws !! Z.to_nat (WorkerId_as_u32 worker_id) with
      | None => false
      | Some w => ws_active w
      end
  end.

(** A scheduler is built exactly when its buffers may be; one built with a worker
    never fails to add another. *)
Lemma Scheduler_with_capacity_spec size num capacity :
  num * 8 < 2 ^ 63 -> num <> 0 ->
  Scheduler_with_capacity size num capacity =
    if capacity * size <? 2 ^ 63 then Ret (with_capacity num capacity) else Panic.
Proof.
  intros Hn H0. unfold Scheduler_with_capacity, WorkStealingDeque_new, allocate_bytes.
  rewrite (proj2 (Z.ltb_lt _ _) Hn), (proj2 (Z.eqb_neq _ _) H0), bind_ret. by destruct (_ <? _).
Qed.

Lemma Scheduler_with_capacity_inv size num capacity s :
  Scheduler_with_capacity size num capacity = Ret s ->
  s = with_capacity num capacity /\
  (num <> 0 -> forall s', queue_capacity s' = capacity -> Scheduler_add_worker size s' = Ret (add_worker s')).
Proof.
  unfold Scheduler_with_capacity. intros (_ & _ & ([] & Ha & [= <-])%bind_ret_inv)%bind_ret_inv.
  split; [done |]. intros H0 s' Hs'. rewrite (proj2 (Z.eqb_neq _ _) H0) in Ha.
  apply bind_ret_inv in Ha as (d & Ha & _). unfold Scheduler_add_worker.
  rewrite Hs', Ha, bind_ret. destruct (lock (workers s')) eqn:Hl; [done |]. unfold add_worker. by rewrite Hl.
Qed.

(** ** Views and invariants *)

(** What a worker holds, apart from the lock and the atomics. *)
Definition queue (w : WorkerState) : list T := content (deque (ws_deque w)).
Definition queues (s : Scheduler) : list (list T) := queue <$> content (workers s).
Definition actives (s : Scheduler) : list bool := ws_active <$> content (workers s).

(** The lock is not poisoned, the atomic mirrors the length, the bound holds. *)
Record deque_ok (capacity : Z) (d : WorkStealingDeque) : Prop := {
  deque_healthy : poisoned (deque d) = false;
  deque_mirror : dq_len d = Z.of_nat (length (content (deque d)));
  deque_cap : dq_capacity d = capacity;
  deque_bounded : Z.of_nat (length (content (deque d))) <= capacity }.

Record sched_inv (s : Scheduler) : Prop := {
  inv_healthy : poisoned (workers s) = false;
  inv_cap : uint 64 (queue_capacity s);
  inv_deques : Forall (fun w => deque_ok (queue_capacity s) (ws_deque w)) (content (workers s)) }.

(** Worker [idx] is active and its queue is below the capacity. *)
Definition roomy (s : Scheduler) (idx : nat) : Prop :=
  actives s !! idx = Some true /\
  exists q, queues s !! idx = Some q /\ Z.of_nat (length q) < queue_capacity s.

End scheduler.

Arguments WorkStealingDeque : clear implicits.
Arguments WorkerState : clear implicits.
Arguments Scheduler : clear implicits.
#[global] Arguments queues : simpl never.
#[global] Arguments find_target : simpl never.
#[global] Arguments actives : simpl never.

(** Concrete runs. *)
Example submit_round_robin :
  let s := with_capacity 2 4 in
  let '(r1, s) := submit s 10 in
  let '(r2, s) := submit s 20 in
  let '(r3, s) := submit s 30 in
  let '(t, s) := steal s (mkWorkerId 1) in
  (r1, r2, r3, t, worker_loads s) =
  (Some (mkTaskId 0), Some (mkTaskId 1), Some (mkTaskId 2), Some 10, [1; 1]).
Proof. vm_compute. reflexivity. Qed.

(** ** The deque's operations *)

Section deque_lemmas.
Context {T : Type}.
Implicit Types (d : WorkStealingDeque T) (q : list T).

Lemma pop_back_snoc q x : pop_back (q ++ [x]) = Some (x, q).
Proof. unfold pop_back. by rewrite reverse_snoc, reverse_involutive. Qed.

Lemma pop_back_spec q :
  match pop_back q with
  | None => q = []
  | Some (x, q') => q = q' ++ [x]
  end.
Proof. induction q as [|x q _] using rev_ind; [done | by rewrite pop_back_snoc]. Qed.

Lemma pop_front_spec q :
  match pop_front q with
  | None => q = []
  | Some (x, q') => q = x :: q'
  end.
Proof. by destruct q. Qed.

Lemma pop_front_n_take n q stolen :
  pop_front_n n q stolen = (stolen ++ take n q, drop n q).
Proof.
  revert q stolen; induction n as [|n IH]; intros q stolen; cbn.
  - by rewrite app_nil_r.
  - destruct q as [|x q]; cbn; rewrite IH.
    + by rewrite take_nil, drop_nil.
    + by rewrite <- app_assoc.
Qed.

Section with_ok.
Context (c : Z) (Hc : uint 64 c).

(** [d'] is well formed and holds [q']. *)
Definition holds (q' : list T) d' : Prop :=
  content (deque d') = q' /\ deque_ok c d'.

Lemma deque_lock d : deque_ok c d -> lock (deque d) = Some (content (deque d)).
Proof. intros [H _ _ _]. by apply lock_healthy. Qed.

Lemma deque_push_spec d x :
  deque_ok c d ->
  let q := content (deque d) in
  (Z.of_nat (length q) = c /\ deque_push d x = (Err UblkQueueFull, d)) \/
  (Z.of_nat (length q) < c /\ exists d', deque_push d x = (Ok tt, d') /\ holds (q ++ [x]) d').
Proof using Hc.
  intros Hd q; destruct Hd as [Hp Hm Hcap Hb]. unfold deque_push.
  rewrite lock_healthy, Hcap by done. fold q in Hm, Hb |- *.
  destruct (Z.geb_spec (Z.of_nat (length q)) c).
  - left; split; [lia | done].
  - right; split; [lia |]. eexists; split; [done |]. split; [done |].
    split; cbn; [done | | done | rewrite length_app; cbn; lia].
    rewrite length_app, Hm, wrap_id by width; cbn; lia.
Qed.

Lemma deque_pop_spec d :
  deque_ok c d ->
  let q := content (deque d) in
  (q = [] /\ deque_pop d = (None, d)) \/
  (exists q' x d', q = q' ++ [x] /\ deque_pop d = (Some x, d') /\ holds q' d').
Proof using Hc.
  intros Hd q. unfold deque_pop. rewrite deque_lock by done. fold q.
  pose proof (pop_back_spec q) as Hq. destruct (pop_back q) as [[x q'] |]; [right | by left].
  destruct Hd as [Hp Hm Hcap Hb]. exists q', x; eexists; split; [done |]; split; [done |].
  fold q in Hm, Hb; rewrite Hq, length_app in Hm, Hb; cbn in Hm, Hb.
  split; [done |]. split; cbn; [done | | done | lia].
  rewrite wrap_id by width; lia.
Qed.

Lemma deque_steal_spec d :
  deque_ok c d ->
  let q := content (deque d) in
  (q = [] /\ deque_steal d = (None, d)) \/
  (exists x q' d', q = x :: q' /\ deque_steal d = (Some x, d') /\ holds q' d').
Proof using Hc.
  intros Hd q. unfold deque_steal. rewrite deque_lock by done. fold q.
  pose proof (pop_front_spec q) as Hq. destruct (pop_front q) as [[x q'] |]; [right | by left].
  destruct Hd as [Hp Hm Hcap Hb]. exists x, q'; eexists; split; [done |]; split; [done |].
  fold q in Hm, Hb; rewrite Hq in Hm, Hb; cbn [length] in Hm, Hb.
  split; [done |]. split; cbn; [done | | done | lia].
  rewrite wrap_id by width; lia.
Qed.

Lemma deque_steal_half_spec d :
  deque_ok c d ->
  let q := content (deque d) in
  let n := (length q `div` 2)%nat in
  exists d', deque_steal_half d = (take n q, d') /\ holds (drop n q) d'.
Proof using Hc.
  intros Hd q n. unfold deque_steal_half. rewrite deque_lock by done. fold q n.
  assert (n <= length q)%nat by (apply Nat.Div0.div_le_upper_bound; lia).
  clearbody n. destruct (Nat.eqb_spec n 0) as [-> | Hn].
  - exists d; rewrite take_0, drop_0. split; [done | by split].
  - rewrite pop_front_n_take; cbn. eexists; split; [done |].
    destruct Hd as [Hp Hm Hcap Hb]. fold q in Hm, Hb.
    split; [done |]. split; cbn; [done | | done | rewrite length_drop; lia].
    rewrite length_drop, length_take, Hm, Nat.min_l by lia.
    rewrite wrap_id by (unfold uint in *; lia); lia.
Qed.

End with_ok.
End deque_lemmas.

(** ** The scheduler's operations *)

Section scheduler_lemmas.
Context {T : Type}.
Implicit Types (s : Scheduler T) (w : WorkerState T).

(** What no operation on the queues changes. *)
Definition same_config s s' : Prop :=
  actives s' = actives s /\ queue_capacity s' = queue_capacity s /\
  running s' = running s /\ sc_num_workers s' = sc_num_workers s.

Lemma workers_lock s : sched_inv s -> lock (workers s) = Some (content (workers s)).
Proof. intros [H _ _]. by apply lock_healthy. Qed.

Lemma worker_ok s idx w :
  sched_inv s -> content (workers s) !! idx = Some w ->
  deque_ok (queue_capacity s) (ws_deque w).
Proof. intros [_ _ H] Hw. by apply (Forall_lookup_1 _ _ _ _ H Hw). Qed.

Lemma queues_lookup s idx w :
  content (workers s) !! idx = Some w -> queues s !! idx = Some (queue w).
Proof. intros H. unfold queues. by rewrite list_lookup_fmap, H. Qed.

Lemma actives_lookup s idx w :
  content (workers s) !! idx = Some w -> actives s !! idx = Some (ws_active w).
Proof. intros H. unfold actives. by rewrite list_lookup_fmap, H. Qed.

(** Storing a worker's new deque. *)
Lemma set_deque_spec s idx w d' q' :
  sched_inv s -> content (workers s) !! idx = Some w ->
  holds (queue_capacity s) q' d' ->
  let s' := set_workers s (<[idx := set_deque w d']> (content (workers s))) in
  sched_inv s' /\ queues s' = <[idx := q']> (queues s) /\ same_config s s'.
Proof.
  intros [Hp Hu Hf] Hw [Hq Hd] s'. split; [| split].
  - split; [done | done |]. cbn. apply Forall_insert; done.
  - unfold queues; cbn. rewrite list_fmap_insert. unfold queue; cbn. by rewrite Hq.
  - unfold same_config, actives; cbn. rewrite list_fmap_insert; cbn.
    rewrite list_insert_id; [done |]. by rewrite list_lookup_fmap, Hw.
Qed.

Lemma has_space_roomy s idx w :
  sched_inv s -> content (workers s) !! idx = Some w ->
  has_space w = true <-> roomy s idx.
Proof.
  intros Hs Hw. destruct (worker_ok _ _ _ Hs Hw) as [_ Hm Hc _].
  unfold has_space, roomy, deque_length, deque_capacity. rewrite Hm, Hc.
  rewrite (actives_lookup _ _ _ Hw), (queues_lookup _ _ _ Hw).
  rewrite andb_true_iff, Z.ltb_lt. split.
  - intros [-> ?]. split; [done |]. eexists; split; [done | done].
  - intros ([= ->] & q & [= <-] & ?). done.
Qed.

Lemma roomy_lt s idx : roomy s idx -> (idx < length (content (workers s)))%nat.
Proof.
  intros (_ & q & H%lookup_lt_Some & _). unfold queues in H. by rewrite length_fmap in H.
Qed.

(** Every index is on the round-robin tour. *)
Lemma tour_covers (n start idx : nat) :
  (start < n)%nat -> (idx < n)%nat ->
  exists i, (i < n)%nat /\ ((start + i) `mod` n = idx)%nat.
Proof.
  intros. destruct (decide (start <= idx)%nat).
  - exists (idx - start)%nat; split; [lia |]. rewrite Nat.mod_small; lia.
  - exists (idx + n - start)%nat; split; [lia |].
    replace (start + (idx + n - start))%nat with (idx + 1 * n)%nat by lia.
    rewrite Nat.Div0.mod_add, Nat.mod_small; lia.
Qed.

Lemma tour_index (n start i idx : nat) :
  ((fun i => ((start + i) `mod` n)%nat) <$> seq 0 n) !! i = Some idx <->
  (i < n)%nat /\ idx = ((start + i) `mod` n)%nat.
Proof.
  rewrite list_lookup_fmap, fmap_Some. setoid_rewrite lookup_seq. split.
  - intros (? & (-> & ?) & ->). done.
  - intros (? & ->). exists i. split; [split; lia | done].
Qed.

Lemma space_at_roomy s idx :
  sched_inv s ->
  from_option has_space false (content (workers s) !! idx) = true <-> roomy s idx.
Proof.
  intros Hs. destruct (content (workers s) !! idx) as [w |] eqn:Hw; cbn.
  - by apply has_space_roomy.
  - split; [done |]. intros H%roomy_lt. apply lookup_ge_None in Hw. lia.
Qed.

(** The search of [submit]: the first roomy worker of the tour. *)
Lemma find_target_spec s start :
  sched_inv s ->
  let n := length (content (workers s)) in
  (start < n)%nat ->
  match find_target (content (workers s)) start with
  | Some idx => exists i, (i < n)%nat /\ idx = ((start + i) `mod` n)%nat /\ roomy s idx /\
      forall j, (j < i)%nat -> ~ roomy s ((start + j) `mod` n)%nat
  | None => forall idx, ~ roomy s idx
  end.
Proof.
  intros Hs n Hstart. unfold find_target.
  match goal with |- context [list_find ?P ?l] => destruct (list_find P l) as [[i idx] |] eqn:Hf end;
    cbn.
  - apply list_find_Some in Hf as ([Hi ->]%tour_index & Hp & Hmin).
    exists i; split; [done |]; split; [done |]. split.
    { apply space_at_roomy; [done |]. by apply Is_true_true. }
    intros j Hj Hr. apply (Hmin j ((start + j) `mod` n)%nat); [apply tour_index; split; [lia | done] | lia |].
    apply Is_true_true, space_at_roomy; done.
  - intros idx Hr. pose proof (roomy_lt _ _ Hr) as Hlt.
    destruct (tour_covers n start idx Hstart Hlt) as (i & Hi & He).
    apply list_find_None in Hf. rewrite Forall_lookup in Hf.
    apply (Hf i idx); [by apply tour_index |].
    apply Is_true_true, space_at_roomy; done.
Qed.

(** The first worker the tour of [submit] looks at. *)
Definition tour_start s : nat :=
  Z.to_nat (submit_counter s mod Z.of_nat (length (content (workers s)))).

(** Total length over the queues. *)
Definition total (l : list Z) : Z := fold_right Z.add 0 l.

Lemma for_each_sum (prof : Profile) (ws : list (WorkerState T)) acc :
  let lens := (fun w => deque_length (ws_deque w)) <$> ws in
  0 <= acc -> Forall (fun z => 0 <= z) lens -> acc + total lens < 2 ^ 64 ->
  for_each ws (fun w acc => add_w 64 acc (deque_length (ws_deque w))) acc =
  Ret (acc + total lens).
Proof.
  cbn. revert acc; induction ws as [|w ws IH]; intros acc Hacc Hf Hs; cbn in *.
  - f_equal; lia.
  - apply Forall_cons in Hf as [Hw Hf].
    assert (0 <= total ((fun w => deque_length (ws_deque w)) <$> ws)).
    { clear -Hf. induction Hf; cbn; [lia |]. unfold total in *; lia. }
    unfold total in *.
    unfold add_w; rewrite checked_in by (split; lia). rewrite bind_ret, IH by (try lia; done).
    f_equal; lia.
Qed.

End scheduler_lemmas.

Section scheduler_theorems.
Context {T : Type}.
Implicit Types (s : Scheduler T).

Lemma with_capacity_inv num cap :
  uint 64 cap -> sched_inv (with_capacity (T := T) num cap).
Proof.
  intros H. split; [done | done |]. cbn.
  apply Forall_replicate. unfold WorkerState_new; cbn. split; cbn; try done; unfold uint in H; lia.
Qed.

Lemma submit_outcome s task :
  sched_inv s ->
  let n := length (content (workers s)) in
  let '(r, s') := submit s task in
  sched_inv s' /\ same_config s s' /\
  match r with
  | Some id =>
      running s = true /\ id = mkTaskId (next_task_id s) /\
      next_task_id s' = wrap 64 (next_task_id s + 1) /\
      submit_counter s' = wrap 64 (submit_counter s + 1) /\
      exists i idx, (i < n)%nat /\ idx = ((tour_start s + i) `mod` n)%nat /\ roomy s idx /\
        (forall j, (j < i)%nat -> ~ roomy s ((tour_start s + j) `mod` n)%nat) /\
        queues s' = alter (fun q => q ++ [task]) idx (queues s)
  | None =>
      (running s = false \/ forall idx, ~ roomy s idx) /\
      queues s' = queues s /\ next_task_id s' = next_task_id s
  end.
Proof.
  intros Hs n. assert (Hn : n = length (content (workers s))) by done. clearbody n.
  unfold submit. destruct (running s) eqn:Hrun; cbn [negb]; cycle 1.
  { split; [done |]; split; [by repeat split | by auto]. }
  rewrite workers_lock by done. destruct (content (workers s)) as [|w0 ws0] eqn:Hws.
  { split; [done |]; split; [by repeat split |]. split; [| done]. right; intros idx H%roomy_lt.
    rewrite Hws in H; cbn in H; lia. }
  assert (Hn0 : (0 < n)%nat) by (rewrite Hn; cbn; lia).
  rewrite <- Hws in *; clear w0 ws0 Hws. fold (tour_start s).
  set (s1 := mkScheduler (workers s) _ _ _ _ _).
  assert (Hs1 : sched_inv s1) by (by destruct Hs).
  assert (Hst : (tour_start s < n)%nat).
  { unfold tour_start. rewrite <- Hn.
    pose proof (Z.mod_pos_bound (submit_counter s) (Z.of_nat n)). lia. }
  rewrite Hn in Hst.
  pose proof (find_target_spec s (tour_start s) Hs Hst) as Hfind. rewrite <- Hn in Hfind.
  destruct (find_target _ _) as [idx |]; cycle 1.
  { split; [done |]; split; [by repeat split |]. by auto. }
  destruct Hfind as (i & Hi & He & Hr & Hmin).
  destruct (content (workers s) !! idx) as [w |] eqn:Hw; cycle 1.
  { apply lookup_ge_None in Hw. pose proof (roomy_lt _ _ Hr). lia. }
  assert (Hsp : Z.of_nat (length (queue w)) < queue_capacity s).
  { destruct Hr as (_ & q & Hq & Hlt). rewrite (queues_lookup _ _ _ Hw) in Hq. by injection Hq as ->. }
  destruct (deque_push_spec (queue_capacity s) (inv_cap _ Hs) _ task (worker_ok _ _ _ Hs Hw))
    as [[Hfull _] | (_ & d' & -> & Hd')]; [unfold queue in Hsp; lia |].
  destruct (set_deque_spec s1 idx w d' _ Hs1 Hw Hd') as (Hinv & Hq & Hcfg).
  split; [by destruct Hinv; split |]. split; [by unfold same_config; rewrite Hrun |].
  split; [done |]. split; [done |]. split; [done |]. split; [done |].
  exists i, idx. split; [done |]; split; [done |]; split; [done |]; split; [done |].
  etransitivity; [exact Hq |]. symmetry.
  apply list_eq; intros k. destruct (decide (k = idx)) as [-> | Hk].
  - change (queues s1) with (queues s). rewrite list_lookup_alter.
    rewrite list_lookup_insert_eq by (apply roomy_lt in Hr; unfold queues; by rewrite length_fmap).
    by rewrite decide_True, (queues_lookup _ _ _ Hw).
  - rewrite list_lookup_alter, decide_False by done. by rewrite list_lookup_insert_ne by done.
Qed.

(** C28. [submit] on every branch, from any well-formed scheduler: it returns an
    id exactly when the scheduler runs and the round-robin tour that starts at
    the submission counter meets an active worker below capacity; the task then
    goes to the back of the first such worker's queue, every other queue is as
    it was, the id is the next of the sequence, and the invariant holds.  When
    it returns [None] the scheduler is stopped or no worker has room, and no
    queue has changed. *)
Theorem submit_spec s task :
  sched_inv s ->
  let n := length (content (workers s)) in
  let '(r, s') := submit s task in
  sched_inv s' /\ same_config s s' /\
  match r with
  | Some id =>
      running s = true /\ id = mkTaskId (next_task_id s) /\
      next_task_id s' = wrap 64 (next_task_id s + 1) /\
      submit_counter s' = wrap 64 (submit_counter s + 1) /\
      exists i idx, (i < n)%nat /\ idx = ((tour_start s + i) `mod` n)%nat /\ roomy s idx /\
        (forall j, (j < i)%nat -> ~ roomy s ((tour_start s + j) `mod` n)%nat) /\
        queues s' = alter (fun q => q ++ [task]) idx (queues s)
  | None =>
      (running s = false \/ forall idx, ~ roomy s idx) /\
      queues s' = queues s /\ next_task_id s' = next_task_id s
  end.
Proof. apply submit_outcome. Qed.

(** The worker the [k]-th offset of a thief's scan designates. *)
Definition victim s (thief offset : nat) : nat :=
  ((thief + offset) `mod` length (content (workers s)))%nat.

(** [steal]'s verdict on a worker it passes over. *)
Definition nothing_to_steal s (idx : nat) : Prop :=
  actives s !! idx = Some false \/ queues s !! idx = Some [].

Lemma steal_from_spec s thief k m :
  sched_inv s ->
  (0 < length (content (workers s)))%nat ->
  let '(r, s') := steal_from s (content (workers s)) (seq k m) thief in
  match r with
  | Some t => exists offset q',
      (k <= offset < k + m)%nat /\
      actives s !! victim s thief offset = Some true /\
      queues s !! victim s thief offset = Some (t :: q') /\
      (forall o, (k <= o < offset)%nat -> nothing_to_steal s (victim s thief o)) /\
      queues s' = <[victim s thief offset := q']> (queues s) /\
      sched_inv s' /\ same_config s s' /\ next_task_id s' = next_task_id s
  | None => s' = s /\ forall o, (k <= o < k + m)%nat -> nothing_to_steal s (victim s thief o)
  end.
Proof.
  intros Hs Hn. revert k; induction m as [|m IH]; intros k; cbn.
  { split; [done | lia]. }
  fold (victim s thief k).
  destruct (content (workers s) !! victim s thief k) as [w |] eqn:Hw; cycle 1.
  { apply lookup_ge_None in Hw. unfold victim in Hw.
    pose proof (Nat.mod_upper_bound (thief + k) (length (content (workers s)))). lia. }
  assert (Hskip : nothing_to_steal s (victim s thief k) ->
    let '(r, s') := steal_from s (content (workers s)) (seq (S k) m) thief in
    match r with
    | Some t => exists offset q',
        (k <= offset < k + S m)%nat /\
        actives s !! victim s thief offset = Some true /\
        queues s !! victim s thief offset = Some (t :: q') /\
        (forall o, (k <= o < offset)%nat -> nothing_to_steal s (victim s thief o)) /\
        queues s' = <[victim s thief offset := q']> (queues s) /\
        sched_inv s' /\ same_config s s' /\ next_task_id s' = next_task_id s
    | None => s' = s /\ forall o, (k <= o < k + S m)%nat -> nothing_to_steal s (victim s thief o)
    end).
  { intros Hk. specialize (IH (S k)). destruct (steal_from _ _ _ _) as [[t |] s'].
    - destruct IH as (off & q' & Hoff & Ha & Hq & Hmin & Hrest).
      exists off, q'. split; [lia |]. split; [done |]. split; [done |]. split; [| done].
      intros o Ho. destruct (decide (o = k)) as [-> | ?]; [done | apply Hmin; lia].
    - destruct IH as [-> Hall]. split; [done |]. intros o Ho.
      destruct (decide (o = k)) as [-> | ?]; [done | apply Hall; lia]. }
  pose proof (queues_lookup _ _ _ Hw) as Hq. pose proof (actives_lookup _ _ _ Hw) as Ha.
  destruct (ws_active w); [| apply Hskip; by left].
  destruct (deque_steal_spec _ (inv_cap _ Hs) _ (worker_ok _ _ _ Hs Hw))
    as [[He ->] | (t & q' & d' & He & -> & Hd')].
  - apply Hskip; right. unfold queue in Hq. by rewrite Hq, He.
  - destruct (set_deque_spec s _ w d' _ Hs Hw Hd') as (Hinv & Hq' & Hcfg).
    exists k, q'. split; [lia |]. split; [done |].
    unfold queue in Hq. split; [by rewrite Hq, He |]. split; [lia |]. done.
Qed.

(** [steal] on every branch: it takes the oldest task of the first worker after
    the thief, in cyclic order, that is active and has one; every worker it
    passes over is inactive or empty.  When it returns [None] nothing changes,
    and there is a single worker, the thief is not a worker, or every other
    worker is inactive or empty. *)
Definition steals_oldest s thief '(r, s') : Prop :=
  let n := length (content (workers s)) in
  let me := Z.to_nat (worker_raw thief) in
  match r with
  | Some t => exists offset q', let v := victim s me offset in
      (1 <= offset < n)%nat /\ (me < n)%nat /\ v <> me /\
      actives s !! v = Some true /\ queues s !! v = Some (t :: q') /\
      (forall o, (1 <= o < offset)%nat -> nothing_to_steal s (victim s me o)) /\
      queues s' = <[v := q']> (queues s) /\
      sched_inv s' /\ same_config s s'
  | None => s' = s /\
      ((n <= 1)%nat \/ (n <= me)%nat \/
       forall idx, (idx < n)%nat -> idx <> me -> nothing_to_steal s idx)
  end.

Lemma steal_spec s thief : sched_inv s -> steals_oldest s thief (steal s thief).
Proof.
  intros Hs. unfold steals_oldest. set (n := length (content (workers s))).
  set (me := Z.to_nat (worker_raw thief)). unfold steal. rewrite workers_lock by done.
  unfold WorkerId_as_u32. fold n me.
  destruct (Nat.leb_spec n 1); [cbn; by auto |].
  destruct (Nat.leb_spec n me); [cbn; by auto |]. cbn [orb].
  pose proof (steal_from_spec s me 1 (n - 1) Hs ltac:(unfold n in *; lia)) as Hspec.
  replace (1 + (n - 1))%nat with n in Hspec by lia.
  destruct (steal_from _ _ _ _) as [[t |] s'].
  - destruct Hspec as (off & q' & Hoff & Ha & Hq & Hmin & Hq' & Hi & Hc & _).
    exists off, q'. split; [done |]. split; [done |]. split; [| done].
    unfold victim; fold n. intros He.
    destruct (decide (me + off < n)%nat).
    + rewrite Nat.mod_small in He; lia.
    + replace (me + off)%nat with (me + off - n + 1 * n)%nat in He by lia.
      rewrite Nat.Div0.mod_add, Nat.mod_small in He; lia.
  - destruct Hspec as [-> Hall]. split; [done |]. right; right. intros idx Hidx Hne.
    destruct (tour_covers n me idx) as (i & Hi & He); [lia | lia |].
    rewrite <- He. apply Hall. assert (i <> 0)%nat; [| lia].
    intros ->. rewrite Nat.add_0_r, Nat.mod_small in He; lia.
Qed.

(** [pop] takes the newest task of the worker's own queue. *)
Lemma pop_spec s worker :
  sched_inv s ->
  let me := Z.to_nat (worker_raw worker) in
  let '(r, s') := pop s worker in
  match r with
  | Some t => exists q', queues s !! me = Some (q' ++ [t]) /\
      queues s' = <[me := q']> (queues s) /\ sched_inv s' /\ same_config s s' /\
      next_task_id s' = next_task_id s
  | None => queues s' = queues s /\ sched_inv s' /\ same_config s s' /\
      next_task_id s' = next_task_id s /\
      (queues s !! me = None \/ queues s !! me = Some [])
  end.
Proof.
  intros Hs me. unfold pop. rewrite workers_lock by done. unfold WorkerId_as_u32; fold me.
  destruct (Nat.leb_spec (length (content (workers s))) me) as [Hle | Hlt].
  { split; [done |]; split; [done |]; split; [by repeat split |]. split; [done |]. left.
    apply lookup_ge_None. unfold queues; by rewrite length_fmap. }
  unfold on_deque. destruct (lookup_lt_is_Some_2 _ _ Hlt) as [w Hw]. rewrite Hw.
  pose proof (queues_lookup _ _ _ Hw) as Hq. unfold queue in Hq.
  destruct (deque_pop_spec _ (inv_cap _ Hs) _ (worker_ok _ _ _ Hs Hw))
    as [[He ->] | (q' & t & d' & He & -> & Hd')].
  - assert (Hd : holds (queue_capacity s) (content (deque (ws_deque w))) (ws_deque w))
      by (split; [done | by eapply worker_ok]).
    destruct (set_deque_spec s me w _ _ Hs Hw Hd) as (Hinv & Hq' & Hcfg).
    rewrite Hq', list_insert_id by done. rewrite He in Hq.
    do 4 (split; [done |]). by right.
  - destruct (set_deque_spec s me w _ _ Hs Hw Hd') as (Hinv & Hq' & Hcfg).
    exists q'. rewrite He in Hq. auto.
Qed.

(** The scan of [steal_batch] finds a longest queue. *)
Lemma busiest_fold (thief : nat) (l : list (nat * WorkerState T)) :
  let '(best, m) := fold_left (fun '(best, max_len) '(idx, w) =>
      if negb (idx =? thief)%nat && ws_active w
      then if deque_length (ws_deque w) >? max_len
           then (Some idx, deque_length (ws_deque w)) else (best, max_len)
      else (best, max_len)) l (None, 0) in
  0 <= m /\
  (forall idx w, (idx, w) ∈ l -> idx <> thief -> ws_active w = true ->
     deque_length (ws_deque w) <= m) /\
  match best with
  | Some i => exists w, (i, w) ∈ l /\ i <> thief /\ ws_active w = true /\
      deque_length (ws_deque w) = m /\ 0 < m
  | None => m = 0
  end.
Proof.
  induction l as [|[k w] l IH] using rev_ind.
  { cbn. split; [lia |]. split; [| done]. intros idx w H. by apply elem_of_nil in H. }
  rewrite fold_left_app. cbn [fold_left].
  destruct (fold_left _ l _) as [best m]. destruct IH as (Hm & Hall & Hb).
  assert (Hold : match best with
    | Some i => exists w', (i, w') ∈ l ++ [(k, w)] /\ i <> thief /\ ws_active w' = true /\
        deque_length (ws_deque w') = m /\ 0 < m
    | None => m = 0 end).
  { destruct best as [i |]; [| done]. destruct Hb as (w' & Hw' & ?).
    exists w'. split; [| done]. apply elem_of_app; by left. }
  destruct (negb (k =? thief)%nat && ws_active w) eqn:Hk; to_prop.
  - destruct (Z.gtb_spec (deque_length (ws_deque w)) m).
    + split; [lia |]. split.
      * intros idx w' Hin Hne Hact. apply elem_of_app in Hin as [Hin | Hin].
        -- specialize (Hall _ _ Hin Hne Hact). lia.
        -- apply list_elem_of_singleton in Hin as [= -> ->]. lia.
      * exists w. split; [apply elem_of_app; right; by apply list_elem_of_singleton |].
        split; [by apply Nat.eqb_neq |]. split; [done | lia].
    + split; [done |]. split; [| done].
      intros idx w' Hin Hne Hact. apply elem_of_app in Hin as [Hin | Hin]; [by eapply Hall |].
      apply list_elem_of_singleton in Hin as [= -> ->]. lia.
  - split; [done |]. split; [| done].
    intros idx w' Hin Hne Hact. apply elem_of_app in Hin as [Hin | Hin]; [by eapply Hall |].
    apply list_elem_of_singleton in Hin as [= -> ->].
    apply andb_false_iff in Hk as [Hk | Hk]; [| congruence].
    apply negb_false_iff, Nat.eqb_eq in Hk. congruence.
Qed.

(** [steal_batch]: it takes the older half, rounded down, of a longest queue
    among the other active workers, in order and from the front, leaves the
    newer half in place and changes nothing else; when no other active worker
    has a task, or the thief is not a worker, it takes nothing. *)
Definition steals_half s thief '(stolen, s') : Prop :=
  let n := length (content (workers s)) in
  let me := Z.to_nat (worker_raw thief) in
  sched_inv s' /\ same_config s s' /\ next_task_id s' = next_task_id s /\
  ((stolen = [] /\ queues s' = queues s /\
    ((n <= 1)%nat \/ (n <= me)%nat \/
     forall idx, (idx < n)%nat -> idx <> me -> nothing_to_steal s idx)) \/
   (exists v q, v <> me /\ actives s !! v = Some true /\ queues s !! v = Some q /\
      (forall idx q', idx <> me -> actives s !! idx = Some true -> queues s !! idx = Some q' ->
         (length q' <= length q)%nat) /\
      stolen = take (length q `div` 2) q /\
      queues s' = <[v := drop (length q `div` 2) q]> (queues s))).

Lemma steal_batch_spec s thief : sched_inv s -> steals_half s thief (steal_batch s thief).
Proof.
  intros Hs. unfold steals_half. set (n := length (content (workers s))).
  set (me := Z.to_nat (worker_raw thief)). unfold steal_batch. rewrite workers_lock by done.
  unfold WorkerId_as_u32. fold n me.
  assert (Hrefl : same_config s s) by (by repeat split).
  destruct (Nat.leb_spec n 1); [cbn; do 3 (split; [done |]); by auto |].
  destruct (Nat.leb_spec n me); [cbn; do 3 (split; [done |]); by auto 10 |]. cbn [orb].
  unfold busiest.
  pose proof (busiest_fold me (imap (fun idx w => (idx, w)) (content (workers s)))) as Hb.
  destruct (fold_left _ _ _) as [best m]. destruct Hb as (Hm & Hall & Hb). cbn [fst].
  assert (Hlen : forall idx w, content (workers s) !! idx = Some w -> idx <> me ->
    ws_active w = true -> Z.of_nat (length (queue w)) <= m).
  { intros idx w Hw Hne Ha. destruct (worker_ok _ _ _ Hs Hw) as [_ Hmir _ _].
    unfold queue. rewrite <- Hmir. apply (Hall idx w); [| done | done].
    apply elem_of_lookup_imap. by exists idx, w. }
  destruct best as [v |].
  - destruct Hb as (w & (? & ? & [= <- <-] & Hw)%elem_of_lookup_imap & Hne & Ha & He & Hpos).
    unfold on_deque. rewrite Hw.
    destruct (deque_steal_half_spec _ (inv_cap _ Hs) _ (worker_ok _ _ _ Hs Hw))
      as (d' & -> & Hd').
    destruct (set_deque_spec s v w _ _ Hs Hw Hd') as (Hinv & Hq' & Hcfg).
    do 3 (split; [done |]). right. exists v, (queue w).
    split; [done |]. rewrite (actives_lookup _ _ _ Hw), (queues_lookup _ _ _ Hw), Ha.
    split; [done |]. split; [done |]. split; [| done].
    intros idx q' Hidx Hai Hqi.
    destruct (content (workers s) !! idx) as [w' |] eqn:Hw'.
    + rewrite (queues_lookup _ _ _ Hw') in Hqi. injection Hqi as <-.
      rewrite (actives_lookup _ _ _ Hw') in Hai. injection Hai as Hai.
      specialize (Hlen _ _ Hw' Hidx Hai). destruct (worker_ok _ _ _ Hs Hw) as [_ Hmir _ _].
      unfold deque_length in He. unfold queue in *. lia.
    + unfold queues in Hqi. rewrite list_lookup_fmap, Hw' in Hqi. done.
  - do 3 (split; [done |]). left. split; [done |]. split; [done |]. right; right.
    intros idx Hidx Hne. destruct (lookup_lt_is_Some_2 _ _ Hidx) as [w Hw].
    unfold nothing_to_steal. rewrite (actives_lookup _ _ _ Hw), (queues_lookup _ _ _ Hw).
    destruct (ws_active w) eqn:Ha; [right | by left].
    specialize (Hlen _ _ Hw Hne Ha). destruct (queue w); [done | cbn in Hlen; lia].
Qed.

(** C33. Stealing, on every branch: [steal] takes the oldest task of the first
    worker after the thief, in cyclic order, that is active and has one, never
    the thief's own; [steal_batch] takes, in order, the older half (rounded
    down) of a longest queue among the other active workers; nothing else
    changes, and nothing at all when no other active worker has a task. *)
Theorem stealing_spec s thief :
  sched_inv s ->
  steals_oldest s thief (steal s thief) /\ steals_half s thief (steal_batch s thief).
Proof. intros Hs. split; [by apply steal_spec | by apply steal_batch_spec]. Qed.

(** The counters: one entry per worker, and their sum. *)
Lemma loads_spec (prof : Profile) s :
  sched_inv s ->
  worker_loads s = (fun q => Z.of_nat (length q)) <$> queues s /\
  (total (worker_loads s) < 2 ^ 64 -> pending_tasks s = Ret (total (worker_loads s))).
Proof.
  intros Hs. unfold worker_loads, pending_tasks. rewrite workers_lock by done. split.
  - unfold queues. rewrite <- list_fmap_compose. apply list_fmap_ext; intros i w Hw; cbn.
    unfold deque_length, queue. by destruct (worker_ok _ _ _ Hs Hw) as [_ -> _ _].
  - intros Ht. rewrite for_each_sum; [done | lia | | lia].
    apply Forall_fmap, Forall_lookup. intros i w Hw; cbn.
    unfold deque_length. destruct (worker_ok _ _ _ Hs Hw) as [_ -> _ _]. lia.
Qed.

End scheduler_theorems.

Section scheduler_control.
Context {T : Type}.
Implicit Types (s : Scheduler T).

(** Deactivation, shutdown and growth leave every queue as it is. *)
Lemma deactivate_spec s worker :
  sched_inv s ->
  let s' := (deactivate_worker s worker).2 in
  sched_inv s' /\ queues s' = queues s /\ next_task_id s' = next_task_id s /\
  actives s' = <[Z.to_nat (worker_raw worker) := false]> (actives s) /\
  (deactivate_worker s worker).1 = bool_decide (Z.to_nat (worker_raw worker) < length (actives s))%nat.
Proof.
  intros Hs s'. unfold s', deactivate_worker. rewrite workers_lock by done.
  unfold WorkerId_as_u32. set (idx := Z.to_nat _).
  destruct (content (workers s) !! idx) as [w |] eqn:Hw; cbn [fst snd].
  - pose proof (lookup_lt_Some _ _ _ Hw) as Hlt. split; [| split; [| split; [done | split]]].
    + pose proof (worker_ok _ _ _ Hs Hw). destruct Hs as [Hp Hu Hf].
      split; [done | done |]. cbn. by apply Forall_insert.
    + unfold queues; cbn. rewrite list_fmap_insert. apply list_insert_id.
      by rewrite list_lookup_fmap, Hw.
    + unfold actives; cbn. by rewrite list_fmap_insert.
    + symmetry; apply bool_decide_eq_true. unfold actives. by rewrite length_fmap.
  - apply lookup_ge_None in Hw. do 3 (split; [done |]). split.
    + symmetry. apply list_insert_ge. unfold actives. by rewrite length_fmap.
    + symmetry; apply bool_decide_eq_false. unfold actives. rewrite length_fmap. lia.
Qed.

Lemma stop_inv s : sched_inv s -> sched_inv (stop s).
Proof. by intros []; split. Qed.

Lemma add_worker_spec s :
  sched_inv s ->
  let s' := (add_worker s).2 in
  sched_inv s' /\ queues s' = queues s ++ [[]] /\ next_task_id s' = next_task_id s /\
  actives s' = actives s ++ [true] /\
  (add_worker s).1 = Some (mkWorkerId (wrap 32 (Z.of_nat (length (queues s))))).
Proof.
  intros Hs s'. unfold s', add_worker. rewrite workers_lock by done. cbn [fst snd].
  split; [| split; [| split; [done | split]]].
  - destruct Hs as [Hp Hu Hf]. split; [done | done |]. cbn. apply Forall_app; split; [done |].
    apply Forall_singleton. unfold uint in Hu. split; cbn; try done; lia.
  - unfold queues; cbn. by rewrite fmap_app.
  - unfold actives; cbn. by rewrite fmap_app.
  - unfold queues. by rewrite length_fmap.
Qed.

End scheduler_control.
