(* ===== verification/SchedulerSteps.v ===== *)
(** * SchedulerSteps: concurrent submitters and thieves (src/scheduler.rs)

    Every method of [Scheduler] takes [&self], so that threads run them at the
    same time.  The atomic events are the ones the code has: a load of
    [running], the acquisition of the read guard with the round-robin
    [fetch_add], for each worker of the tour the load of its active flag and then
    of its queue's atomic length, the push under the deque's mutex, the
    [fetch_add] of the task id, each pop and steal under a mutex.  A submission is
    in one of four phases between them; [add_worker] needs the write lock, hence
    no submission between its read guard and its return.

    The length a submission read may be out of date when it pushes, so the
    second bounds test of [deque_push] is what keeps the capacity; the invariant
    below does not depend on any scheduling of the threads.  That a call waits for
    a lock is left out, so these are statements of safety; [SchedulerLocks] has the
    locks and what they leave of progress. *)

From S2P Require Import Prelude KernelError Scheduler.

Section steps.
Context {T : Type}.
Implicit Types (s : Scheduler T) (w : WorkerState T) (E A R D : list T).

(** The system: the shared scheduler; submissions that saw [running]
    ([entering]), hold the read guard and have workers left to look at, the first
    of which they may have seen active ([searching]), have chosen a worker
    ([chosen]), have pushed and not yet an id ([unnumbered]); and the history: ids
    handed out, tasks enqueued, tasks refused, tasks handed to workers. *)
Record Sys : Type := mkSys {
  sched : Scheduler T;
  entering : list T;
  searching : list (T * list nat * bool);
  chosen : list (T * nat);
  unnumbered : nat;
  issued : list Z;
  accepted : list T;
  refused : list T;
  delivered : list T }.

(** The workers in the order a submission looks at them. *)
Definition tour s (ws : list (WorkerState T)) : list nat :=
  let start := Z.to_nat (submit_counter s mod Z.of_nat (length ws)) in
  (fun i => ((start + i) `mod` length ws)%nat) <$> seq 0 (length ws).

Definition bump_counter s : Scheduler T :=
  mkScheduler (workers s) (sc_num_workers s) (next_task_id s) (queue_capacity s)
    (wrap 64 (submit_counter s + 1)) (running s).
Definition bump_id s : Scheduler T :=
  mkScheduler (workers s) (sc_num_workers s) (wrap 64 (next_task_id s + 1)) (queue_capacity s)
    (submit_counter s) (running s).
(** Worker [idx] gets the deque [d]. *)
Definition put_deque s (ws : list (WorkerState T)) (idx : nat) w d : Scheduler T :=
  set_workers s (<[idx := set_deque w d]> ws).

Inductive sys_step : Sys -> Sys -> Prop :=
| step_refuse s E F C u I A R D t :
    running s = false ->
    sys_step (mkSys s E F C u I A R D) (mkSys s E F C u I A (R ++ [t]) D)
| step_enter s E F C u I A R D t :
    running s = true ->
    sys_step (mkSys s E F C u I A R D) (mkSys s (t :: E) F C u I A R D)
| step_read s E1 E2 F C u I A R D t ws :
    lock (workers s) = Some ws -> ws <> [] ->
    sys_step (mkSys s (E1 ++ t :: E2) F C u I A R D)
             (mkSys (bump_counter s) (E1 ++ E2) ((t, tour s ws, false) :: F) C u I A R D)
| step_read_none s E1 E2 F C u I A R D t :
    lock (workers s) = None \/ lock (workers s) = Some [] ->
    sys_step (mkSys s (E1 ++ t :: E2) F C u I A R D)
             (mkSys s (E1 ++ E2) F C u I A (R ++ [t]) D)
| step_active s E F1 F2 C u I A R D t ws idx l w :
    lock (workers s) = Some ws -> ws !! idx = Some w -> ws_active w = true ->
    sys_step (mkSys s E (F1 ++ (t, idx :: l, false) :: F2) C u I A R D)
             (mkSys s E (F1 ++ (t, idx :: l, true) :: F2) C u I A R D)
| step_inactive s E F1 F2 C u I A R D t ws idx l w :
    lock (workers s) = Some ws -> ws !! idx = Some w -> ws_active w = false ->
    sys_step (mkSys s E (F1 ++ (t, idx :: l, false) :: F2) C u I A R D)
             (mkSys s E (F1 ++ (t, l, false) :: F2) C u I A R D)
| step_find s E F1 F2 C u I A R D t ws idx l w :
    lock (workers s) = Some ws -> ws !! idx = Some w ->
    deque_length (ws_deque w) < deque_capacity (ws_deque w) ->
    sys_step (mkSys s E (F1 ++ (t, idx :: l, true) :: F2) C u I A R D)
             (mkSys s E (F1 ++ F2) ((t, idx) :: C) u I A R D)
| step_full s E F1 F2 C u I A R D t ws idx l w :
    lock (workers s) = Some ws -> ws !! idx = Some w ->
    deque_capacity (ws_deque w) <= deque_length (ws_deque w) ->
    sys_step (mkSys s E (F1 ++ (t, idx :: l, true) :: F2) C u I A R D)
             (mkSys s E (F1 ++ (t, l, false) :: F2) C u I A R D)
| step_find_none s E F1 F2 C u I A R D t seen :
    sys_step (mkSys s E (F1 ++ (t, [], seen) :: F2) C u I A R D)
             (mkSys s E (F1 ++ F2) C u I A (R ++ [t]) D)
| step_push s E F C1 C2 u I A R D t idx ws w d' :
    lock (workers s) = Some ws -> ws !! idx = Some w ->
    deque_push (ws_deque w) t = (Ok tt, d') ->
    sys_step (mkSys s E F (C1 ++ (t, idx) :: C2) u I A R D)
             (mkSys (put_deque s ws idx w d') E F (C1 ++ C2) (S u) I (A ++ [t]) R D)
| step_push_full s E F C1 C2 u I A R D t idx ws w e d' :
    lock (workers s) = Some ws -> ws !! idx = Some w ->
    deque_push (ws_deque w) t = (Err e, d') ->
    sys_step (mkSys s E F (C1 ++ (t, idx) :: C2) u I A R D)
             (mkSys (put_deque s ws idx w d') E F (C1 ++ C2) u I A (R ++ [t]) D)
| step_number s E F C u I A R D :
    sys_step (mkSys s E F C (S u) I A R D)
             (mkSys (bump_id s) E F C u (I ++ [next_task_id s]) A R D)
| step_pop s E F C u I A R D worker r s' :
    pop s worker = (r, s') ->
    sys_step (mkSys s E F C u I A R D) (mkSys s' E F C u I A R (D ++ option_list r))
| step_steal s E F C u I A R D ws idx w t d' :
    lock (workers s) = Some ws -> ws !! idx = Some w ->
    deque_steal (ws_deque w) = (Some t, d') ->
    sys_step (mkSys s E F C u I A R D)
             (mkSys (put_deque s ws idx w d') E F C u I A R (D ++ [t]))
| step_steal_half s E F C u I A R D ws idx w ts d' :
    lock (workers s) = Some ws -> ws !! idx = Some w ->
    deque_steal_half (ws_deque w) = (ts, d') ->
    sys_step (mkSys s E F C u I A R D)
             (mkSys (put_deque s ws idx w d') E F C u I A R (D ++ ts))
| step_deactivate s E F C u I A R D worker :
    sys_step (mkSys s E F C u I A R D)
             (mkSys (deactivate_worker s worker).2 E F C u I A R D)
| step_stop s E F C u I A R D :
    sys_step (mkSys s E F C u I A R D) (mkSys (stop s) E F C u I A R D)
| step_add_worker s E I A R D :
    sys_step (mkSys s E [] [] 0 I A R D) (mkSys (add_worker s).2 E [] [] 0 I A R D).

(** The submissions between their read of [running] and their end. *)
Definition in_scheduler (y : Sys) : nat :=
  (length (entering y) + length (searching y) + length (chosen y) + unnumbered y)%nat.

(** No submission in progress. *)
Definition quiet s I A R D : Sys := mkSys s [] [] [] 0 I A R D.

(** The tasks ever submitted, whatever has become of them. *)
Definition submissions (y : Sys) : nat :=
  (length (accepted y) + length (refused y) + length (entering y) + length (searching y) +
   length (chosen y))%nat.

(** ** The invariant *)

Record sys_inv (y : Sys) : Prop := {
  sys_sched : sched_inv (sched y);
  sys_conserved : accepted y ≡ₚ concat (queues (sched y)) ++ delivered y;
  sys_ids : issued y = (fun k => wrap 64 (Z.of_nat k)) <$> seq 0 (length (issued y));
  sys_next : next_task_id (sched y) = wrap 64 (Z.of_nat (length (issued y)));
  sys_count : (length (issued y) + unnumbered y)%nat = length (accepted y) }.

Lemma concat_insert (l : list (list T)) idx q :
  l !! idx = Some q ->
  exists rest, concat l ≡ₚ q ++ rest /\ forall q', concat (<[idx := q']> l) ≡ₚ q' ++ rest.
Proof.
  intros H. pose proof (lookup_lt_Some _ _ _ H) as Hlt.
  exists (concat (take idx l) ++ concat (drop (S idx) l)).
  assert (Hc : forall x, concat (take idx l ++ x :: drop (S idx) l) ≡ₚ
    x ++ concat (take idx l) ++ concat (drop (S idx) l)).
  { intros x. rewrite concat_app, concat_cons. apply Permutation_app_swap_app. }
  split.
  - rewrite <- (take_drop_middle _ _ _ H) at 1. apply Hc.
  - intros q'. rewrite insert_take_drop by done. apply Hc.
Qed.

(** Conservation across a change of one queue. *)
Lemma conserve_add s s' idx q t A D :
  A ≡ₚ concat (queues s) ++ D -> queues s !! idx = Some q ->
  queues s' = <[idx := q ++ [t]]> (queues s) ->
  A ++ [t] ≡ₚ concat (queues s') ++ D.
Proof.
  intros HA Hq Hq'. destruct (concat_insert _ _ _ Hq) as (rest & H1 & H2).
  rewrite Hq', H2, HA, H1. solve_Permutation.
Qed.

Lemma conserve_take s s' idx q q' ts A D :
  A ≡ₚ concat (queues s) ++ D -> queues s !! idx = Some q -> q ≡ₚ ts ++ q' ->
  queues s' = <[idx := q']> (queues s) ->
  A ≡ₚ concat (queues s') ++ D ++ ts.
Proof.
  intros HA Hq Hts Hq'. destruct (concat_insert _ _ _ Hq) as (rest & H1 & H2).
  rewrite Hq', H2, HA, H1, Hts. solve_Permutation.
Qed.

Lemma with_capacity_sys num cap :
  uint 64 cap -> sys_inv (quiet (with_capacity num cap) [] [] [] []).
Proof.
  intros H. split; cbn; [by apply with_capacity_inv | | done | done | done].
  unfold queues; cbn. induction (Z.to_nat num); cbn; [done |]. done.
Qed.

Lemma wrap_succ (k : nat) : wrap 64 (wrap 64 (Z.of_nat k) + 1) = wrap 64 (Z.of_nat (S k)).
Proof. unfold wrap. rewrite Zplus_mod_idemp_l. f_equal; lia. Qed.

(** Worker [idx] under the read guard, and what storing its new deque does. *)
Lemma guarded_worker s ws idx w :
  sched_inv s -> lock (workers s) = Some ws -> ws !! idx = Some w ->
  deque_ok (queue_capacity s) (ws_deque w) /\ queues s !! idx = Some (queue w) /\
  forall d' q', holds (queue_capacity s) q' d' ->
    sched_inv (put_deque s ws idx w d') /\ queues (put_deque s ws idx w d') = <[idx := q']> (queues s).
Proof.
  intros Hs Hl Hw. rewrite workers_lock in Hl by done. injection Hl as <-.
  split; [by apply (worker_ok _ idx) |]. split; [by apply queues_lookup |]. intros d' q' Hd.
  by destruct (set_deque_spec s idx w d' q' Hs Hw Hd) as (? & ? & _).
Qed.

(** A step that leaves the ids alone and takes [ts] out of the queues. *)
Lemma deliver_inv s s' E F C u I A R D ts :
  sys_inv (mkSys s E F C u I A R D) -> sched_inv s' -> next_task_id s' = next_task_id s ->
  A ≡ₚ concat (queues s') ++ D ++ ts ->
  sys_inv (mkSys s' E F C u I A R (D ++ ts)).
Proof. intros [] Hs' Hn HA. split; cbn in *; [done | done | done | congruence | done]. Qed.

Lemma pop_inv s E F C u I A R D worker r s' :
  sys_inv (mkSys s E F C u I A R D) -> pop s worker = (r, s') ->
  sys_inv (mkSys s' E F C u I A R (D ++ option_list r)).
Proof.
  intros Hy H. pose proof Hy as [Hs Hcons _ _ _]. cbn in *.
  pose proof (pop_spec s worker Hs) as Hpop. rewrite H in Hpop. destruct r as [t |]; cbn.
  - destruct Hpop as (q' & Hq & Hq' & Hinv & _ & Hnx). apply (deliver_inv s); [done | done | done |].
    by eapply conserve_take; [| | apply Permutation_app_comm |].
  - destruct Hpop as (Hq & Hinv & _ & Hnx & _). apply (deliver_inv s); [done | done | done |].
    by rewrite Hq, app_nil_r.
Qed.

Lemma sys_step_inv y y' : sys_inv y -> sys_step y y' -> sys_inv y'.
Proof.
  intros Hy Hstep.
  destruct Hstep; pose proof Hy as [Hs Hcons Hids Hnext Hcount]; cbn in *;
    try (split; cbn; [by destruct Hs; split | done | done | done | lia || done]).
  - (* push *)
    destruct (guarded_worker s ws idx w Hs H H0) as (Hd & Hq & Hput).
    destruct (deque_push_spec _ (inv_cap _ Hs) _ t Hd) as [[_ Heq] | (_ & d'' & Heq & Hd')];
      rewrite Heq in H1; [done |]. injection H1 as <-. destruct (Hput _ _ Hd') as [Hinv Hq'].
    split; cbn; [done | by eapply conserve_add | done | done | rewrite length_app; cbn; lia].
  - (* push_full *)
    destruct (guarded_worker s ws idx w Hs H H0) as (Hd & Hq & Hput).
    destruct (deque_push_spec _ (inv_cap _ Hs) _ t Hd) as [[_ Heq] | (_ & d'' & Heq & _)];
      rewrite Heq in H1; [| done]. injection H1 as <- <-.
    destruct (Hput (ws_deque w) (queue w)) as [Hinv Hq']; [by split |].
    rewrite list_insert_id in Hq' by done.
    split; cbn; [done | by rewrite Hq' | done | done | done].
  - (* number *)
    split; cbn; [by destruct Hs; split | done | | | rewrite length_app; cbn; lia].
    + rewrite length_app, Nat.add_1_r, seq_S, fmap_app, <- Hids, Hnext. done.
    + by rewrite Hnext, length_app, Nat.add_1_r, wrap_succ.
  - (* pop *) by eapply pop_inv.
  - (* steal *)
    destruct (guarded_worker s ws idx w Hs H H0) as (Hd & Hq & Hput).
    destruct (deque_steal_spec _ (inv_cap _ Hs) _ Hd) as [[_ Heq] | (t' & q' & d'' & He & Heq & Hd')];
      rewrite Heq in H1; [done |]. injection H1 as <- <-. destruct (Hput _ _ Hd') as [Hinv Hq'].
    apply (deliver_inv s); [done | done | done |].
    eapply (conserve_take s _ idx (t' :: q') q' [t']); [done | by rewrite <- He | done | done].
  - (* steal half *)
    destruct (guarded_worker s ws idx w Hs H H0) as (Hd & Hq & Hput).
    destruct (deque_steal_half_spec _ (inv_cap _ Hs) _ Hd) as (d'' & Heq & Hd'); rewrite Heq in H1.
    injection H1 as <- <-. destruct (Hput _ _ Hd') as [Hinv Hq'].
    apply (deliver_inv s); [done | done | done |].
    eapply conserve_take; [done | done | by rewrite take_drop | done].
  - (* deactivate *)
    destruct (deactivate_spec s worker Hs) as (Hinv & Hq & Hnx & _).
    split; cbn; [done | by rewrite Hq | done | congruence | done].
  - (* add_worker *)
    destruct (add_worker_spec s Hs) as (Hinv & Hq & Hnx & _).
    split; cbn; [done | by rewrite Hq, concat_app, app_nil_r | done | congruence | done].
Qed.

Lemma sys_reach_inv num cap y :
  uint 64 cap -> rtc sys_step (quiet (with_capacity num cap) [] [] [] []) y -> sys_inv y.
Proof.
  intros Hc H. remember (quiet _ _ _ _ _) as y0.
  assert (Hy0 : sys_inv y0) by (subst; by apply with_capacity_sys). clear Heqy0.
  induction H as [y | y y' y'' Hstep _ IH]; [done |]. by eapply IH, sys_step_inv.
Qed.

Lemma wrap_seq_NoDup (n : nat) :
  Z.of_nat n <= 2 ^ 64 -> NoDup ((fun k => wrap 64 (Z.of_nat k)) <$> seq 0 n).
Proof.
  intros Hn. apply NoDup_fmap_2_strong; [| apply NoDup_seq].
  intros x y Hx%elem_of_seq Hy%elem_of_seq. rewrite !wrap_id by (unfold uint; lia). lia.
Qed.

(** ** What a step leaves of the configuration *)

(** Capacities never change, workers stay and are never reactivated, and the
    scheduler is never restarted. *)
Definition evolves s s' : Prop :=
  queue_capacity s' = queue_capacity s /\ (length (actives s) <= length (actives s'))%nat /\
  (Forall (eq true) (actives s') -> Forall (eq true) (actives s)) /\
  (running s' = true -> running s = true).

Lemma same_config_evolves s s' : same_config s s' -> evolves s s'.
Proof. intros (Ha & Hq & Hr & _). unfold evolves. by rewrite Ha, Hq, Hr. Qed.

Lemma put_deque_config s ws idx w d' :
  lock (workers s) = Some ws -> ws !! idx = Some w -> same_config s (put_deque s ws idx w d').
Proof.
  intros Hl Hw. split; [| done]. unfold actives, put_deque; cbn. rewrite list_fmap_insert. cbn.
  assert (content (workers s) = ws) as -> by (revert Hl; unfold lock; by destruct (poisoned _); intros [= <-]).
  apply list_insert_id. by rewrite list_lookup_fmap, Hw.
Qed.

Lemma deactivate_evolves s worker : sched_inv s -> evolves s (deactivate_worker s worker).2.
Proof.
  intros Hs. destruct (deactivate_spec s worker Hs) as (_ & _ & _ & Ha & _).
  assert (Hc : queue_capacity (deactivate_worker s worker).2 = queue_capacity s /\
    running (deactivate_worker s worker).2 = running s)
    by (unfold deactivate_worker; by repeat case_match).
  destruct Hc as [Hc Hr]. unfold evolves. rewrite Ha, Hc, Hr, length_insert.
  split; [done |]. split; [done |]. split; [| done]. set (i := Z.to_nat _). intros H.
  destruct (decide (i < length (actives s))%nat) as [Hi | Hi].
  - by pose proof (Forall_lookup_1 _ _ _ _ H (list_lookup_insert_eq _ _ _ Hi)).
  - by rewrite list_insert_ge in H by lia.
Qed.

Lemma add_worker_evolves s : sched_inv s -> evolves s (add_worker s).2.
Proof.
  intros Hs. destruct (add_worker_spec s Hs) as (_ & _ & _ & Ha & _).
  assert (Hc : queue_capacity (add_worker s).2 = queue_capacity s /\
    running (add_worker s).2 = running s) by (unfold add_worker; by repeat case_match).
  destruct Hc as [Hc Hr]. unfold evolves. rewrite Ha, Hc, Hr, length_app.
  split; [done |]. split; [lia |]. split; [| done]. by intros [? _]%Forall_app.
Qed.

Lemma pop_evolves s worker : sched_inv s -> evolves s (pop s worker).2.
Proof.
  intros Hs. pose proof (pop_spec s worker Hs) as H. destruct (pop s worker) as [[t |] s'];
    apply same_config_evolves; [by destruct H as (q' & _ & _ & _ & ? & _) |].
  by destruct H as (_ & _ & ? & _).
Qed.

Lemma sys_step_evolves y y' :
  sys_inv y -> sys_step y y' ->
  evolves (sched y) (sched y') /\ (submissions y <= submissions y')%nat.
Proof.
  intros Hy Hstep. pose proof (sys_sched _ Hy) as Hs. unfold submissions.
  destruct Hstep; cbn in *; rewrite ?length_app; cbn [length];
    (split; [| lia]); try (split; [done |]; split; [done |]; by split);
    try (by apply same_config_evolves, put_deque_config).
  - pose proof (pop_evolves s worker Hs) as Hp. by rewrite H in Hp.
  - by apply deactivate_evolves.
  - by apply add_worker_evolves.
Qed.

(** A new scheduler's capacity and number of workers at least stay. *)
Lemma sys_reach_config num cap y :
  uint 64 cap -> rtc sys_step (quiet (with_capacity num cap) [] [] [] []) y ->
  queue_capacity (sched y) = cap /\ (Z.to_nat num <= length (actives (sched y)))%nat.
Proof.
  intros Hc. apply (rtc_ind_r (fun y => queue_capacity (sched y) = cap /\
    (Z.to_nat num <= length (actives (sched y)))%nat)).
  - split; [done |]. unfold actives; cbn. by rewrite length_fmap, length_replicate.
  - intros y1 y2 Hr Hstep [H1 H2]. pose proof (sys_reach_inv _ _ _ Hc Hr) as Hy.
    destruct (sys_step_evolves _ _ Hy Hstep) as [(H3 & H4 & _) _]. split; [congruence | lia].
Qed.

(** ** Refusals *)

(** The scheduler runs, no worker was deactivated, and every task ever submitted
    fits in one queue. *)
Definition ample (cap : Z) (y : Sys) : Prop :=
  running (sched y) = true /\ Forall (eq true) (actives (sched y)) /\
  Z.of_nat (submissions y) <= cap.

Definition looking (x : T * list nat * bool) : Prop := x.1.2 <> [].

Definition unrefused (cap : Z) (y : Sys) : Prop :=
  ample cap y -> refused y = [] /\ Forall looking (searching y).

Lemma queue_below y ws idx w :
  sys_inv y -> lock (workers (sched y)) = Some ws -> ws !! idx = Some w ->
  deque_ok (queue_capacity (sched y)) (ws_deque w) /\
  (length (queue w) <= length (accepted y))%nat /\
  actives (sched y) !! idx = Some (ws_active w).
Proof.
  intros Hy Hl Hw. rewrite (workers_lock _ (sys_sched _ Hy)) in Hl. injection Hl as <-.
  split; [by apply (worker_ok _ idx); [apply Hy |] |]. split; [| by apply actives_lookup].
  destruct (concat_insert _ _ _ (queues_lookup _ _ _ Hw)) as (rest & Hrest & _).
  rewrite (sys_conserved _ Hy), length_app, Hrest, length_app. lia.
Qed.

Lemma unrefused_step cap y y' :
  sys_inv y -> queue_capacity (sched y) = cap -> (0 < length (actives (sched y)))%nat ->
  sys_step y y' -> unrefused cap y -> unrefused cap y'.
Proof.
  intros Hy Hcap Hpos Hstep HI (Hr' & Ha' & Hn').
  destruct (sys_step_evolves _ _ Hy Hstep) as [(_ & _ & Ha & Hr) Hn].
  specialize (Ha Ha'). specialize (Hr Hr'). clear Ha' Hr'.
  destruct (HI ltac:(split; [done | split; [done | lia]])) as [Href Hlook]. clear HI.
  unfold submissions in *.
  destruct Hstep; cbn in *; rewrite ?length_app in *; cbn in *;
    try (rewrite !Forall_app, ?Forall_cons in * ); try (split; tauto).
  - congruence.
  - split; [done |]. constructor; [| done]. unfold looking, tour; cbn. by destruct ws.
  - exfalso. destruct H as [H | H]; rewrite (workers_lock s) in H by apply Hy; [done |].
    injection H as H. unfold actives in Hpos. rewrite H in Hpos. cbn in Hpos. lia.
  - destruct (queue_below _ _ _ _ Hy H H0) as (_ & _ & Hl). cbn in Hl.
    pose proof (Forall_lookup_1 _ _ _ _ Ha Hl). congruence.
  - destruct (queue_below _ _ _ _ Hy H H0) as ([_ Hm Hc _] & Hl & _). cbn in *.
    unfold deque_length, deque_capacity, queue in *. lia.
  - by destruct Hlook as (_ & Hlook & _).
  - destruct (queue_below _ _ _ _ Hy H H0) as (Hd & Hl & _). cbn in *.
    destruct (deque_push_spec _ (inv_cap _ (sys_sched _ Hy)) _ t Hd) as [[Hf _] | (_ & d'' & Heq & _)];
      [unfold queue in Hl; cbn in Hf; lia | congruence].
Qed.

Lemma sys_reach_unrefused num cap y :
  uint 64 cap -> 0 < num -> rtc sys_step (quiet (with_capacity num cap) [] [] [] []) y ->
  unrefused cap y.
Proof.
  intros Hc Hnum. apply (rtc_ind_r (fun y => unrefused cap y)); [by intros _ |].
  intros y1 y2 Hr Hstep. destruct (sys_reach_config _ _ _ Hc Hr) as [Hcap Hlen].
  apply unrefused_step; [by eapply sys_reach_inv | done | lia | done].
Qed.

(** C1. No interleaving of submissions, pops, steals, batch steals,
    deactivations, shutdowns and added workers loses, duplicates or invents a
    task, exceeds a queue's capacity or hands out an id twice: in every state
    reachable from a new scheduler the tasks enqueued so far are, as a
    multiset, those still queued with those handed to workers; the ids issued
    are 0, 1, 2, ... in order, pairwise distinct for the first 2^64; and when no
    submission is under way each task submitted has got an id or been refused.
    None is refused unless the scheduler was stopped, a worker deactivated, or
    more tasks submitted than one queue holds. *)
Theorem interleaving_conserves_tasks num cap y :
  uint 64 cap ->
  rtc sys_step (quiet (with_capacity num cap) [] [] [] []) y ->
  accepted y ≡ₚ concat (queues (sched y)) ++ delivered y /\
  Forall (fun q => Z.of_nat (length q) <= cap) (queues (sched y)) /\
  (Z.of_nat (length (issued y)) <= 2 ^ 64 -> NoDup (issued y)) /\
  length (accepted y) = (length (issued y) + unnumbered y)%nat /\
  (in_scheduler y = 0%nat -> submissions y = (length (issued y) + length (refused y))%nat) /\
  (0 < num -> ample cap y -> refused y = []).
Proof.
  intros Hc Hr. pose proof (sys_reach_inv _ _ _ Hc Hr) as [Hs Hcons Hids _ Hcount].
  destruct (sys_reach_config _ _ _ Hc Hr) as [Hcap _].
  split; [done |]. split; [| split; [| split; [done | split]]].
  - destruct Hs as [_ _ Hf]. rewrite Hcap in Hf. unfold queues. apply Forall_fmap.
    eapply Forall_impl; [exact Hf |]. intros w [_ _ _ Hb]. exact Hb.
  - intros Hlen. rewrite Hids. by apply wrap_seq_NoDup.
  - unfold in_scheduler, submissions. lia.
  - intros Hnum Ha. by destruct (sys_reach_unrefused _ _ _ Hc Hnum Hr Ha).
Qed.

(** ** The methods, run one at a time, are runs of the system *)

Inductive op : Type :=
| OSubmit (t : T)
| OPop (worker : WorkerId)
| OSteal (worker : WorkerId)
| OStealBatch (worker : WorkerId)
| ODeactivate (worker : WorkerId)
| OStop
| OAddWorker.

(** What a call adds to the history: ids, and tasks enqueued, refused, delivered. *)
Record events : Type :=
  mkEvents { ev_ids : list Z; ev_in : list T; ev_refused : list T; ev_out : list T }.

Definition run_op s (o : op) : events * Scheduler T :=
  match o with
  | OSubmit t =>
      match submit s t with
      | (Some id, s') => (mkEvents [task_raw id] [t] [] [], s')
      | (None, s') => (mkEvents [] [] [t] [], s')
      end
  | OPop worker => let '(r, s') := pop s worker in (mkEvents [] [] [] (option_list r), s')
  | OSteal worker => let '(r, s') := steal s worker in (mkEvents [] [] [] (option_list r), s')
  | OStealBatch worker => let '(r, s') := steal_batch s worker in (mkEvents [] [] [] r, s')
  | ODeactivate worker => (mkEvents [] [] [] [], (deactivate_worker s worker).2)
  | OStop => (mkEvents [] [] [] [], stop s)
  | OAddWorker => (mkEvents [] [] [] [], (add_worker s).2)
  end.

Fixpoint run_ops s (os : list op) : events * Scheduler T :=
  match os with
  | [] => (mkEvents [] [] [] [], s)
  | o :: os' =>
      let '(e, s') := run_op s o in
      let '(e', s'') := run_ops s' os' in
      (mkEvents (ev_ids e ++ ev_ids e') (ev_in e ++ ev_in e') (ev_refused e ++ ev_refused e')
         (ev_out e ++ ev_out e'), s'')
  end.

(** A step that neither begins nor ends a submission, nor hands out anything. *)
Definition inner_step (y y' : Sys) : Prop :=
  sys_step y y' /\ delivered y' = delivered y /\ issued y' = issued y /\
  refused y' = refused y /\ in_scheduler y' = in_scheduler y.

(** The step that ends a submission without an id refuses its task, the one that
    hands out an id refuses none. *)
Lemma step_ends_refused y y' :
  sys_step y y' -> in_scheduler y = S (in_scheduler y') -> issued y' = issued y ->
  length (refused y') = S (length (refused y)).
Proof.
  unfold in_scheduler. destruct 1; cbn in *; rewrite ?length_app; cbn; try lia.
  intros _ H. apply (f_equal length) in H. rewrite length_app in H. cbn in H. lia.
Qed.

Lemma step_numbers y y' id :
  sys_step y y' -> issued y' = issued y ++ [id] -> refused y' = refused y.
Proof.
  destruct 1; cbn in *; try done; intros H'; apply (f_equal length) in H';
    rewrite length_app in H'; cbn in H'; lia.
Qed.

(** The search of a submission that nothing disturbs finds what [list_find] does. *)
Lemma search_run s t ws l I A R D :
  lock (workers s) = Some ws -> Forall (fun idx => is_Some (ws !! idx)) l ->
  rtc inner_step (mkSys s [] [(t, l, false)] [] 0 I A R D)
    match list_find (fun idx => from_option has_space false (ws !! idx)) l with
    | Some (_, idx) => mkSys s [] [] [(t, idx)] 0 I A R D
    | None => mkSys s [] [(t, [], false)] [] 0 I A R D
    end.
Proof.
  intros Hl. induction 1 as [| idx l [w Hw] _ IH]; [apply rtc_refl |]. cbn [list_find].
  assert (Hpass : rtc inner_step (mkSys s [] [(t, l, false)] [] 0 I A R D)
    match prod_map S id <$> list_find (fun idx => from_option has_space false (ws !! idx)) l with
    | Some (_, idx) => mkSys s [] [] [(t, idx)] 0 I A R D
    | None => mkSys s [] [(t, [], false)] [] 0 I A R D
    end) by (revert IH; by destruct (list_find _ l) as [[]|]).
  destruct (ws_active w) eqn:Hact; cycle 1.
  { rewrite decide_False by (rewrite Hw; cbn; unfold has_space; rewrite Hact; cbn; tauto).
    eapply rtc_l; [| exact Hpass]. split; [| done].
    by apply (step_inactive s [] [] [] [] 0 I A R D t ws idx l w). }
  assert (Hseen : inner_step (mkSys s [] [(t, idx :: l, false)] [] 0 I A R D)
    (mkSys s [] [(t, idx :: l, true)] [] 0 I A R D))
    by (split; [by apply (step_active s [] [] [] [] 0 I A R D t ws idx l w) | done]).
  eapply rtc_l; [exact Hseen |].
  destruct (Z.ltb_spec (deque_length (ws_deque w)) (deque_capacity (ws_deque w))) as [Hlt | Hge].
  - rewrite decide_True by (apply Is_true_true; rewrite Hw; cbn; unfold has_space; rewrite Hact; lia).
    apply rtc_once. split; [| done].
    by apply (step_find s [] [] [] [] 0 I A R D t ws idx l w).
  - rewrite decide_False by (rewrite Is_true_true, Hw; cbn; unfold has_space; rewrite Hact; lia).
    eapply rtc_l; [| exact Hpass]. split; [| done].
    by apply (step_full s [] [] [] [] 0 I A R D t ws idx l w).
Qed.

Lemma tour_in_range s ws : Forall (fun idx => is_Some (ws !! idx)) (tour s ws).
Proof.
  unfold tour. apply Forall_fmap, Forall_forall. intros i Hi%elem_of_seq. cbn.
  apply lookup_lt_is_Some, Nat.mod_upper_bound. lia.
Qed.

(** The task of a submission that returns [None]. *)
Definition refusal (t : T) (r : option TaskId) : list T :=
  match r with Some _ => [] | None => [t] end.

(** A submission after its first read: inner steps, then the one that ends it. *)
Lemma submit_path s t I A R D :
  running s = true ->
  let '(r, s') := submit s t in
  exists y, rtc inner_step (mkSys s [t] [] [] 0 I A R D) y /\ delivered y = D /\ issued y = I /\
    in_scheduler y = 1%nat /\
    sys_step y (quiet s' (I ++ option_list (task_raw <$> r))
      (A ++ option_list ((fun _ => t) <$> r)) (R ++ refusal t r) D).
Proof.
  intros Hrun. unfold submit. rewrite Hrun. cbn [negb].
  destruct (lock (workers s)) as [[|w0 ws0] |] eqn:Hlock; cbn [fmap option_fmap option_map option_list].
  - rewrite !app_nil_r. eexists; split; [apply rtc_refl |]. do 3 (split; [done |]).
    apply (step_read_none s [] [] [] [] 0 I A R D t). by right.
  - set (ws := w0 :: ws0) in *. rewrite <- Hrun. fold (bump_counter s).
    assert (Hread : inner_step (mkSys s [t] [] [] 0 I A R D)
      (mkSys (bump_counter s) [] [(t, tour s ws, false)] [] 0 I A R D)).
    { split; [| done]. by apply (step_read s [] [] [] [] 0 I A R D t ws). }
    pose proof (search_run (bump_counter s) t ws (tour s ws) I A R D Hlock (tour_in_range s ws)) as Hsearch.
    unfold find_target. fold (tour s ws).
    destruct (list_find _ (tour s ws)) as [[k idx] |] eqn:Hf; cbn [mbind option_bind snd]; cycle 1.
    { rewrite !app_nil_r. eexists; split; [eapply rtc_l; [exact Hread | exact Hsearch] |].
      do 3 (split; [done |]). apply (step_find_none _ [] [] [] [] 0 I A R D t). }
    assert (is_Some (ws !! idx)) as [w Hw].
    { apply list_find_Some in Hf as (Hk & _). pose proof (tour_in_range s ws) as Hr.
      by apply (Forall_lookup_1 _ _ _ _ Hr Hk). }
    rewrite Hw.
    destruct (deque_push (ws_deque w) t) as [[[] | e] d'] eqn:Hp; cbn.
    + exists (mkSys (put_deque (bump_counter s) ws idx w d') [] [] [] 1 I (A ++ [t]) R D).
      rewrite app_nil_r. split; [| do 3 (split; [done |]); apply step_number].
      eapply rtc_l; [exact Hread |]. eapply rtc_r; [exact Hsearch |]. split; [| done].
      apply (step_push _ [] [] [] [] 0 I A R D t idx ws w d'); done.
    + rewrite !app_nil_r. eexists; split; [eapply rtc_l; [exact Hread | exact Hsearch] |].
      do 3 (split; [done |]). apply (step_push_full _ [] [] [] [] 0 I A R D t idx ws w e d'); done.
  - rewrite !app_nil_r. eexists; split; [apply rtc_refl |]. do 3 (split; [done |]).
    apply (step_read_none s [] [] [] [] 0 I A R D t). by left.
Qed.

(** The history after the events of a call. *)
Definition after s I A R D (e : events) : Sys :=
  quiet s (I ++ ev_ids e) (A ++ ev_in e) (R ++ ev_refused e) (D ++ ev_out e).

Lemma submit_run s t I A R D :
  let '(e, s') := run_op s (OSubmit t) in
  rtc sys_step (quiet s I A R D) (after s' I A R D e).
Proof.
  cbn. destruct (running s) eqn:Hrun; cycle 1.
  { unfold submit. rewrite Hrun. unfold after; cbn. rewrite !app_nil_r.
    by apply rtc_once, step_refuse. }
  pose proof (submit_path s t I A R D Hrun) as H. destruct (submit s t) as [r s'].
  destruct H as (y & Hy & _ & _ & _ & Hend).
  assert (Hall : rtc sys_step (quiet s I A R D) (quiet s' (I ++ option_list (task_raw <$> r))
    (A ++ option_list ((fun _ => t) <$> r)) (R ++ refusal t r) D)).
  { eapply rtc_l; [by apply (step_enter s [] [] [] 0 I A R D t) |]. eapply rtc_r; [| exact Hend].
    eapply (rtc_congruence id); [| exact Hy]. by intros ? ? []. }
  unfold after. destruct r; cbn in *; rewrite ?app_nil_r in *; exact Hall.
Qed.

Lemma steal_from_run s ws offsets thief I A R D :
  lock (workers s) = Some ws ->
  let '(r, s') := steal_from s ws offsets thief in
  rtc sys_step (quiet s I A R D) (quiet s' I A R (D ++ option_list r)).
Proof.
  intros Hl. induction offsets as [|o offsets IH]; cbn; [by rewrite app_nil_r |].
  destruct (ws !! _) as [w |] eqn:Hw; cbn; [| by rewrite app_nil_r].
  destruct (ws_active w); [| done].
  destruct (deque_steal (ws_deque w)) as [[t |] d'] eqn:Hd; [| done].
  by eapply rtc_once, step_steal.
Qed.

Lemma op_run s o I A R D :
  let '(e, s') := run_op s o in rtc sys_step (quiet s I A R D) (after s' I A R D e).
Proof.
  destruct o as [t | worker | worker | worker | worker | |]; [apply submit_run | ..];
    cbn; unfold after; cbn.
  - destruct (pop s worker) as [r s'] eqn:Hr. cbn. rewrite !app_nil_r.
    by eapply rtc_once, step_pop.
  - destruct (steal s worker) as [r s'] eqn:Hr. cbn. rewrite !app_nil_r. revert Hr. unfold steal.
    destruct (lock (workers s)) as [ws |] eqn:Hl; cycle 1.
    { intros [= <- <-]. by rewrite app_nil_r. }
    destruct (_ || _); [intros [= <- <-]; by rewrite app_nil_r |]. intros Hr.
    pose proof (steal_from_run s ws (seq 1 (length ws - 1)) (Z.to_nat (WorkerId_as_u32 worker)) I A R D Hl) as H.
    by rewrite Hr in H.
  - destruct (steal_batch s worker) as [r s'] eqn:Hr. cbn. rewrite !app_nil_r. revert Hr.
    unfold steal_batch. destruct (lock (workers s)) as [ws |] eqn:Hl; cycle 1.
    { intros [= <- <-]. by rewrite app_nil_r. }
    destruct (_ || _); [intros [= <- <-]; by rewrite app_nil_r |].
    destruct (busiest _ _).1 as [idx |]; [| intros [= <- <-]; by rewrite app_nil_r].
    unfold on_deque. destruct (ws !! idx) as [w |] eqn:Hw; cycle 1.
    { intros [= <- <-]. by rewrite app_nil_r. }
    destruct (deque_steal_half _) as [ts d'] eqn:Hd. intros [= <- <-].
    by eapply rtc_once, step_steal_half.
  - rewrite !app_nil_r. apply rtc_once, step_deactivate.
  - rewrite !app_nil_r. apply rtc_once, step_stop.
  - rewrite !app_nil_r. apply rtc_once, step_add_worker.
Qed.

(** C2. Refinement: any sequence of calls of the methods, made one after the
    other, is a run of the concurrent system with the same ids, the same tasks
    enqueued and refused and the same deliveries, so that what every interleaving
    satisfies holds of the methods. *)
Theorem methods_refine_system s os I A R D :
  let '(e, s') := run_ops s os in rtc sys_step (quiet s I A R D) (after s' I A R D e).
Proof.
  revert s I A R D; induction os as [|o os IH]; intros s I A R D; cbn;
    [unfold after; cbn; by rewrite !app_nil_r |].
  pose proof (op_run s o I A R D) as Ho. destruct (run_op s o) as [e s'].
  specialize (IH s' (I ++ ev_ids e) (A ++ ev_in e) (R ++ ev_refused e) (D ++ ev_out e)).
  destruct (run_ops s' os) as [e' s'']; unfold after in *; cbn.
  rewrite !app_assoc. by etransitivity.
Qed.

End steps.

Arguments Sys : clear implicits.
Arguments op : clear implicits.

(** ** Witnesses *)

Definition demo_ops : list (op Z) :=
  [OSubmit 10; OSubmit 20; OSubmit 30; OAddWorker; OSteal (mkWorkerId 1); OPop (mkWorkerId 1);
   OSubmit 40; OStop; OSubmit 50].

(** Four workers' worth of calls: what went in, what came out, what is left. *)
Example demo_run :
  let '(e, s) := run_ops (with_capacity 2 4) demo_ops in
  (ev_ids e, ev_in e, ev_refused e, ev_out e, queues s) =
  ([0; 1; 2; 3], [10; 20; 30; 40], [50], [10; 20], [[30; 40]; []; []]).
Proof. vm_compute. reflexivity. Qed.

Lemma four_is_usize : uint 64 4.
Proof. split; [discriminate | reflexivity]. Qed.

Lemma submit_spec_witness :
  running (with_capacity (T := Z) 2 4) = true /\
  next_task_id (submit (with_capacity 2 4) 7).2 = 1 /\
  queues (submit (with_capacity 2 4) 7).2 = [[7]; []].
Proof.
  pose proof (submit_spec (with_capacity 2 4) 7 (with_capacity_inv 2 4 four_is_usize)) as H.
  destruct H as (_ & _ & Hr & _ & Hn & _).
  split; [exact Hr | split; [exact Hn | vm_compute; reflexivity]].
Defined.

Definition demo_sched : Scheduler Z :=
  (run_ops (with_capacity 2 4) [OSubmit 10; OSubmit 20; OSubmit 30]).2.

Lemma demo_sched_inv : sched_inv demo_sched.
Proof.
  split; [reflexivity | exact four_is_usize |].
  repeat constructor; vm_compute; congruence.
Qed.

Lemma stealing_spec_witness :
  (exists offset q', queues demo_sched !! victim demo_sched 1 offset = Some (10 :: q')) /\
  (steal_batch demo_sched (mkWorkerId 1)).1 = [10] /\
  sched_inv (steal_batch demo_sched (mkWorkerId 1)).2.
Proof.
  destruct (stealing_spec demo_sched (mkWorkerId 1) demo_sched_inv) as [H Hb]. split.
  - destruct (steal demo_sched (mkWorkerId 1)) as [r s'] eqn:E.
    apply (f_equal fst) in E; vm_compute in E. cbn in E; subst r.
    destruct H as (o & q' & _ & _ & _ & _ & H & _).
    exists o, q'. exact H.
  - split; [vm_compute; reflexivity |].
    destruct (steal_batch demo_sched (mkWorkerId 1)) as [r s']. exact (proj1 Hb).
Defined.

(** A submission that has chosen a worker, while the worker is drained. *)
Definition demo_initial : Sys Z := quiet (with_capacity 2 4) [] [] [] [].

Lemma interleaving_witness : exists y,
  rtc sys_step demo_initial y /\ entering y = [7] /\
  accepted y ≡ₚ concat (queues (sched y)) ++ delivered y.
Proof.
  assert (H : rtc sys_step demo_initial (mkSys (with_capacity 2 4) [7] [] [] 0 [] [] [] [])).
  { apply rtc_once, (step_enter (with_capacity 2 4) [] [] [] 0 [] [] [] [] 7). reflexivity. }
  eexists; split; [exact H |]. split; [reflexivity |].
  exact (proj1 (interleaving_conserves_tasks 2 4 _ four_is_usize H)).
Defined.

(** The bound of the last claim is what the code gives: a third submission chooses
    the queue the first is about to fill, and is refused although the other
    worker's queue is empty. *)
Example refused_with_room : exists y,
  rtc sys_step (quiet (with_capacity 2 1) [] [] [] []) y /\ refused y = [30] /\
  queues (sched y) = [[10]; []] /\ running (sched y) = true /\ actives (sched y) = [true; true].
Proof.
  eexists. split.
  - eapply rtc_l; [by apply (step_enter _ [] [] [] 0 [] [] [] [] 10) |].
    eapply rtc_l; [by eapply (step_read _ [] [] [] [] 0 [] [] [] [] 10) |].
    eapply rtc_l; [by eapply (step_active _ [] [] [] [] 0 [] [] [] [] 10) |].
    eapply rtc_l; [by eapply (step_find _ [] [] [] [] 0 [] [] [] [] 10) |].
    eapply rtc_l; [by apply (step_enter _ [] [] [(10, 0%nat)] 0 [] [] [] [] 20) |].
    eapply rtc_l; [by eapply (step_read _ [] [] [] [(10, 0%nat)] 0 [] [] [] [] 20) |].
    eapply rtc_l; [by apply (step_enter _ [] [(20, [1; 0]%nat, false)] [(10, 0%nat)] 0 [] [] [] [] 30) |].
    eapply rtc_l; [by eapply (step_read _ [] [] [(20, [1; 0]%nat, false)] [(10, 0%nat)] 0 [] [] [] [] 30) |].
    eapply rtc_l; [by eapply (step_active _ [] [] [(20, [1; 0]%nat, false)] [(10, 0%nat)] 0 [] [] [] [] 30) |].
    eapply rtc_l; [by eapply (step_find _ [] [] [(20, [1; 0]%nat, false)] [(10, 0%nat)] 0 [] [] [] [] 30) |].
    eapply rtc_l; [by eapply (step_push _ [] [(20, [1; 0]%nat, false)] [(30, 0%nat)] [] 0 [] [] [] [] 10) |].
    eapply rtc_l; [by eapply (step_push_full _ [] [(20, [1; 0]%nat, false)] [] [] 1 [] [10] [] [] 30) |].
    apply rtc_refl.
  - vm_compute. done.
Qed.
