(* ===== verification/SchedulerLocks.v ===== *)
(** * SchedulerLocks: the scheduler's locks (src/scheduler.rs)

    [SchedulerSteps] takes each critical section as one event that is always
    possible, which is enough for what the tasks become and says nothing about
    waiting.  Here the locks are taken, held and dropped.  [workers] is a
    reader-writer lock: every method but [add_worker] and [stop] holds its read guard
    from its start to its return, and [add_worker] its write guard.  Inside the read
    guard a method takes the mutex of one deque, runs one operation of
    [WorkStealingDeque] and drops it again before it looks at another.  A call can be
    suspended between any two actions, with the locks it holds.

    Erasing the locks gives back a run of the system of [SchedulerSteps]; progress is
    what locks allow: no deadlock, and calls that all return if none is suspended for
    ever.  A submission is not wait-free: [suspended_push] is a run in which it waits
    for a suspended one. *)

From S2P Require Import Prelude KernelError Scheduler SchedulerSteps Lts.

Section locks.
Context {T : Type}.
Implicit Types (s : Scheduler T) (w : WorkerState T).

Inductive Out : Type :=
| Submitted (r : option TaskId)
| Delivered (ts : list T)
| Added (r : option WorkerId)
| Deactivated (known : bool)
| Stopped.

(** What a deque's mutex is taken for: a push, a pop, one attempt of [steal] with the
    victims it has left, and the half of the busiest. *)
Inductive DequeOp : Type :=
| DPush (task : T)
| DPop (worker : WorkerId)
| DSteal (victims : list nat)
| DStealHalf.

(** A call in flight.  From [Guarded] to [Leaving] it holds the guard of [workers],
    in [Locked] also the mutex of deque [idx].  [seen] is an active flag just read. *)
Inductive Phase : Type :=
| Called (o : op T)
| Reading (o : op T)
| Guarded (o : op T)
| Searching (task : T) (l : list nat) (seen : bool)
| Stealing (victims : list nat)
| Scanning (thief : nat) (l : list nat) (seen : bool) (best : option nat) (max_len : Z)
| Waiting (idx : nat) (k : DequeOp)
| Locked (idx : nat) (k : DequeOp)
| Numbering
| Writing
| Adding
| Leaving (write : bool) (out : Out)
| Finished (out : Out).

Definition holds_write (p : Phase) : bool :=
  match p with Adding | Leaving true _ => true | _ => false end.
Definition holds_read (p : Phase) : bool :=
  match p with
  | Guarded _ | Searching _ _ _ | Stealing _ | Scanning _ _ _ _ _ | Waiting _ _ | Locked _ _ | Numbering
  | Leaving false _ => true
  | _ => false
  end.
Definition holds_guard (p : Phase) : bool := holds_read p || holds_write p.
Definition waits_to_write (p : Phase) : bool := match p with Writing => true | _ => false end.
Definition holds_deque (idx : nat) (p : Phase) : bool :=
  match p with Locked i _ => (i =? idx)%nat | _ => false end.

(** What a call answers when its lock is poisoned. *)
Definition unavailable (o : op T) : Out :=
  match o with
  | OSubmit _ => Submitted None
  | OPop _ | OSteal _ | OStealBatch _ => Delivered []
  | ODeactivate _ => Deactivated false
  | OStop => Stopped
  | OAddWorker => Added None
  end.

(** What an operation on a deque leads to, and how it goes on when the mutex is
    poisoned. *)
Definition poisoned_deque (k : DequeOp) : Phase :=
  match k with
  | DPush _ => Leaving false (Submitted None)
  | DPop _ | DStealHalf => Leaving false (Delivered [])
  | DSteal victims => Stealing victims
  end.
Definition run_deque (d : WorkStealingDeque T) (k : DequeOp) : Phase * WorkStealingDeque T :=
  match k with
  | DPush task =>
      let '(r, d) := deque_push d task in
      (match r with Ok _ => Numbering | Err _ => Leaving false (Submitted None) end, d)
  | DPop _ => let '(r, d) := deque_pop d in (Leaving false (Delivered (option_list r)), d)
  | DSteal victims =>
      let '(r, d) := deque_steal d in
      (match r with Some t => Leaving false (Delivered [t]) | None => Stealing victims end, d)
  | DStealHalf => let '(ts, d) := deque_steal_half d in (Leaving false (Delivered ts), d)
  end.

(** The workers a thief tries, in order. *)
Definition victims_of (n thief : nat) : list nat :=
  (fun offset => ((thief + offset) `mod` n)%nat) <$> seq 1 (n - 1).

(** A call that has the read guard, with [ws] behind it. *)
Definition begin_guarded s (ws : list (WorkerState T)) (o : op T) : Scheduler T * Phase :=
  match o with
  | OSubmit task =>
      match ws with
      | [] => (s, Leaving false (Submitted None))
      | _ => (bump_counter s, Searching task (tour s ws) false)
      end
  | OPop worker =>
      let idx := Z.to_nat (WorkerId_as_u32 worker) in
      if (length ws <=? idx)%nat then (s, Leaving false (Delivered [])) else (s, Waiting idx (DPop worker))
  | OSteal worker =>
      let thief := Z.to_nat (WorkerId_as_u32 worker) in
      if (length ws <=? 1)%nat || (length ws <=? thief)%nat then (s, Leaving false (Delivered []))
      else (s, Stealing (victims_of (length ws) thief))
  | OStealBatch worker =>
      let thief := Z.to_nat (WorkerId_as_u32 worker) in
      if (length ws <=? 1)%nat || (length ws <=? thief)%nat then (s, Leaving false (Delivered []))
      else (s, Scanning thief (seq 0 (length ws)) false None 0)
  | ODeactivate worker =>
      let '(known, s) := deactivate_worker s worker in (s, Leaving false (Deactivated known))
  | OStop | OAddWorker => (s, Leaving false (unavailable o))
  end.

(** The next atomic action of a call in flight; [ws[idx]] panics out of range. *)
Definition advance (size : Z) s (p : Phase) : comp (Scheduler T * Phase) :=
  let ws := content (workers s) in
  match p with
  | Called OStop => Ret (stop s, Finished Stopped)
  | Called OAddWorker => Ret (s, Writing)
  | Called (OSubmit task) => if running s then Ret (s, Reading (OSubmit task)) else Ret (s, Finished (Submitted None))
  | Called o => Ret (s, Reading o)
  | Reading o =>
      match lock (workers s) with None => Ret (s, Finished (unavailable o)) | Some _ => Ret (s, Guarded o) end
  | Guarded o => Ret (begin_guarded s ws o)
  | Searching task [] _ => Ret (s, Leaving false (Submitted None))
  | Searching task (idx :: l) false =>
      w ← index ws idx; Ret (s, Searching task (if ws_active w then idx :: l else l) (ws_active w))
  | Searching task (idx :: l) true =>
      w ← index ws idx;
      if deque_length (ws_deque w) <? deque_capacity (ws_deque w)
      then Ret (s, Waiting idx (DPush task)) else Ret (s, Searching task l false)
  | Stealing [] => Ret (s, Leaving false (Delivered []))
  | Stealing (idx :: l) =>
      w ← index ws idx; Ret (s, if ws_active w then Waiting idx (DSteal l) else Stealing l)
  | Scanning _ [] _ None _ => Ret (s, Leaving false (Delivered []))
  | Scanning _ [] _ (Some idx) _ => Ret (s, Waiting idx DStealHalf)
  | Scanning thief (idx :: l) false best max_len =>
      w ← index ws idx;
      if negb (idx =? thief)%nat && ws_active w then Ret (s, Scanning thief (idx :: l) true best max_len)
      else Ret (s, Scanning thief l false best max_len)
  | Scanning thief (idx :: l) true best max_len =>
      w ← index ws idx;
      let len := deque_length (ws_deque w) in
      if len >? max_len then Ret (s, Scanning thief l false (Some idx) len)
      else Ret (s, Scanning thief l false best max_len)
  | Waiting idx k =>
      w ← index ws idx;
      match lock (deque (ws_deque w)) with None => Ret (s, poisoned_deque k) | Some _ => Ret (s, Locked idx k) end
  | Locked idx k =>
      w ← index ws idx;
      let '(p, d) := run_deque (ws_deque w) k in Ret (put_deque s ws idx w d, p)
  | Numbering => Ret (bump_id s, Leaving false (Submitted (Some (mkTaskId (next_task_id s)))))
  | Writing =>
      match lock (workers s) with None => Ret (s, Finished (Added None)) | Some _ => Ret (s, Adding) end
  | Adding => '(r, s) ← Scheduler_add_worker size s; Ret (s, Leaving true (Added r))
  | Leaving _ out => Ret (s, Finished out)
  | Finished out => Ret (s, Finished out)
  end.

(** The methods of [Scheduler]. *)
Definition method (size : Z) s (o : op T) : comp (Out * Scheduler T) :=
  match o with
  | OSubmit task => let '(r, s) := submit s task in Ret (Submitted r, s)
  | OPop worker => let '(r, s) := pop s worker in Ret (Delivered (option_list r), s)
  | OSteal worker => let '(r, s) := steal s worker in Ret (Delivered (option_list r), s)
  | OStealBatch worker => let '(ts, s) := steal_batch s worker in Ret (Delivered ts, s)
  | ODeactivate worker => let '(known, s) := deactivate_worker s worker in Ret (Deactivated known, s)
  | OStop => Ret (Stopped, stop s)
  | OAddWorker => '(r, s) ← Scheduler_add_worker size s; Ret (Added r, s)
  end.

Section sharing.
Context {policy : LockPolicy} {layout : TaskLayout}.

Definition may_advance (ph : gmap nat Phase) (p : Phase) : Prop :=
  match p with
  | Reading _ => may_read holds_write waits_to_write ph
  | Writing => nobody holds_guard ph
  | Waiting idx _ => nobody (holds_deque idx) ph
  | _ => True
  end.
#[export] Instance may_advance_dec ph p : Decision (may_advance ph p).
Proof. destruct p; cbn; apply _. Defined.

#[export] Instance scheduler_object : SharedObject (Scheduler T) Phase (op T) Out := {|
  enter := Called;
  act := advance item_size;
  outcome p := match p with Finished out => Some out | _ => None end;
  may_act := may_advance;
  may_act_dec := may_advance_dec |}.

End sharing.

(** ** Erasing the locks *)

(** What a call stands for in the system of [SchedulerSteps], and what it has in its
    hands. *)
Definition entering_of (p : Phase) : list T :=
  match p with Reading (OSubmit t) | Guarded (OSubmit t) => [t] | _ => [] end.
Definition searching_of (p : Phase) : list (T * list nat * bool) :=
  match p with Searching t l seen => [(t, l, seen)] | _ => [] end.
Definition chosen_of (p : Phase) : list (T * nat) :=
  match p with Waiting idx (DPush t) | Locked idx (DPush t) => [(t, idx)] | _ => [] end.
Definition unnumbered_of (p : Phase) : list unit := match p with Numbering => [()] | _ => [] end.
Definition ids_in (out : Out) : list Z :=
  match out with Submitted (Some id) => [task_raw id] | _ => [] end.
Definition tasks_in (out : Out) : list T := match out with Delivered ts => ts | _ => [] end.
Definition ids_of (p : Phase) : list Z :=
  match p with Leaving _ out | Finished out => ids_in out | _ => [] end.
Definition tasks_of (p : Phase) : list T :=
  match p with Leaving _ out | Finished out => tasks_in out | _ => [] end.

(** The ids and the tasks that calls have returned. *)
Definition returned {B} (f : Out -> list B) (tr : list (Event (op T) Out)) : list B :=
  tr ≫= fun e => match e with Return _ out => f out | _ => [] end.

(** [y] is the system with one call in phase [p] and the others as given. *)
Record framed E F C (u : list unit) I D s (p : Phase) (y : Sys T) : Prop := {
  fr_sched : sched y = s;
  fr_entering : entering y ≡ₚ entering_of p ++ E;
  fr_searching : searching y ≡ₚ searching_of p ++ F;
  fr_chosen : chosen y ≡ₚ chosen_of p ++ C;
  fr_unnumbered : unnumbered y = length (unnumbered_of p ++ u);
  fr_issued : issued y ≡ₚ ids_of p ++ I;
  fr_delivered : delivered y ≡ₚ tasks_of p ++ D }.

Definition mirrors (tr : list (Event (op T) Out)) s (ph : gmap nat Phase) (y : Sys T) : Prop :=
  framed (view entering_of ph) (view searching_of ph) (view chosen_of ph) (view unnumbered_of ph)
    (view ids_of ph ++ returned ids_in tr) (view tasks_of ph ++ returned tasks_in tr) s (Finished Stopped) y.

(** The workers a call in flight will look at exist. *)
Definition deque_range (n idx : nat) (k : DequeOp) : Prop :=
  (idx < n)%nat /\
  match k with
  | DPop worker => idx = Z.to_nat (WorkerId_as_u32 worker)
  | DSteal l => Forall (fun i => i < n)%nat l /\ (length l < n)%nat
  | _ => True
  end.
Definition in_range (n : nat) (p : Phase) : Prop :=
  match p with
  | Searching _ l _ | Stealing l => Forall (fun i => i < n)%nat l /\ (length l <= n)%nat
  | Scanning _ l _ best _ =>
      Forall (fun i => i < n)%nat l /\ (length l <= n)%nat /\ from_option (fun i => i < n)%nat True best
  | Waiting idx k | Locked idx k => deque_range n idx k
  | _ => True
  end.

Lemma in_range_mono n n' p : (n <= n')%nat -> in_range n p -> in_range n' p.
Proof.
  intros Hn. assert (Hf : forall l, Forall (fun i => i < n)%nat l -> Forall (fun i => i < n')%nat l).
  { intros l Hl. eapply Forall_impl; [exact Hl |]. cbn; lia. }
  destruct p as [| | | ? l ? | l | ? l ? best ? | idx k | idx k | | | | |]; cbn; try done.
  - intros [? ?]. split; [auto | lia].
  - intros [? ?]. split; [auto | lia].
  - intros (? & ? & ?). split; [auto |]. split; [lia |]. destruct best; cbn in *; [lia | done].
  - intros [? Hk]. split; [lia |]. destruct k; try done. destruct Hk. split; [auto | lia].
  - intros [? Hk]. split; [lia |]. destruct k; try done. destruct Hk. split; [auto | lia].
Qed.

Definition num_queues s : nat := length (content (workers s)).

(** The action happens; it is matched by a run of the system, and leaves the call in
    range. *)
Definition simulated size E F C u I D s p y : Prop :=
  exists s' p' y', advance size s p = Ret (s', p') /\ rtc sys_step y y' /\
    framed E F C u I D s' p' y' /\ (num_queues s <= num_queues s')%nat /\ in_range (num_queues s') p'.

Lemma perm_split {A} (l l' : list A) x :
  l ≡ₚ x :: l' -> exists l1 l2, l = l1 ++ x :: l2 /\ l1 ++ l2 ≡ₚ l'.
Proof.
  intros H. assert (Hx : x ∈ l) by (rewrite H; by left).
  apply list_elem_of_split in Hx as (l1 & l2 & ->). exists l1, l2. split; [done |].
  apply (Permutation_cons_inv (a := x)). by rewrite Permutation_middle.
Qed.

(** An action the system does not see. *)
Lemma simulated_unseen size E F C u I D s p y p' :
  framed E F C u I D s p y -> advance size s p = Ret (s, p') ->
  entering_of p' = entering_of p -> searching_of p' = searching_of p -> chosen_of p' = chosen_of p ->
  unnumbered_of p' = unnumbered_of p -> ids_of p' = ids_of p -> tasks_of p' = tasks_of p ->
  in_range (num_queues s) p' -> simulated size E F C u I D s p y.
Proof.
  intros [] Ha H1 H2 H3 H4 H5 H6 Hr. exists s, p', y. split; [done |]. split; [apply rtc_refl |].
  split; [split; congruence |]. done.
Qed.

(** One that is a single event. *)
Lemma simulated_event size E F C u I D s p y s' p' y' :
  advance size s p = Ret (s', p') -> sys_step y y' -> framed E F C u I D s' p' y' ->
  (num_queues s <= num_queues s')%nat -> in_range (num_queues s') p' -> simulated size E F C u I D s p y.
Proof. intros. exists s', p', y'. split; [done |]. split; [by apply rtc_once | done]. Qed.

Lemma num_queues_put s idx w d :
  num_queues (put_deque s (content (workers s)) idx w d) = num_queues s.
Proof. unfold num_queues. cbn. by rewrite length_insert. Qed.

Lemma tour_length s (ws : list (WorkerState T)) : length (tour s ws) = length ws.
Proof. unfold tour. by rewrite length_fmap, length_seq. Qed.

Lemma tour_below s : let n := num_queues s in
  Forall (fun i => i < n)%nat (tour s (content (workers s))) /\ length (tour s (content (workers s))) = n.
Proof.
  cbv zeta. split; [| apply tour_length].
  eapply Forall_impl; [apply tour_in_range |]. cbn. intros i Hi. by apply lookup_lt_is_Some in Hi.
Qed.

Lemma victims_below n thief :
  Forall (fun i => i < n)%nat (victims_of n thief) /\ length (victims_of n thief) = (n - 1)%nat.
Proof.
  unfold victims_of. rewrite length_fmap, length_seq. split; [| done].
  apply Forall_fmap, Forall_forall. intros i Hi%elem_of_seq. cbn. apply Nat.mod_upper_bound. lia.
Qed.

Lemma ids_after I0 I (y : list Z) id : y ≡ₚ I0 ++ I -> I0 = [] -> y ++ [id] ≡ₚ [id] ++ I.
Proof. intros -> ->. cbn. by rewrite Permutation_app_comm. Qed.

Lemma tasks_after D (y ts : list T) : y ≡ₚ D -> y ++ ts ≡ₚ ts ++ D.
Proof. intros ->. by rewrite Permutation_app_comm. Qed.

Section simulation.
Context {layout : TaskLayout}.

Lemma simulate_searching E F C u I D s y task l seen :
  sched_inv s -> in_range (num_queues s) (Searching task l seen) ->
  framed E F C u I D s (Searching task l seen) y -> simulated item_size E F C u I D s (Searching task l seen) y.
Proof.
  intros Hs [Hl Hlen] Hf. pose proof (workers_lock s Hs) as Hlock.
  destruct y as [s0 E0 F0 C0 u0 I0 A0 R0 D0], Hf as [H1 H2 H3 H4 H5 H6 H7]; cbn in *; subst s0.
  apply perm_split in H3 as (F1 & F2 & -> & HF).
  destruct l as [| idx l].
  { eapply simulated_event; [by destruct seen | by apply step_find_none | by split | done | done]. }
  apply Forall_cons in Hl as [Hidx Hl]. destruct (lookup_lt_is_Some_2 _ _ Hidx) as [w Hw].
  cbn [length] in Hlen.
  assert (Hi : index (content (workers s)) idx = Ret w) by (unfold index; by rewrite Hw).
  destruct seen.
  - destruct (Z.ltb_spec (deque_length (ws_deque w)) (deque_capacity (ws_deque w))) as [Hlt | Hge].
    + eapply simulated_event; [cbn [advance]; by rewrite Hi, bind_ret, (proj2 (Z.ltb_lt _ _) Hlt)
        | by eapply step_find | split; cbn; try done; by rewrite H4 | done | done].
    + eapply simulated_event; [cbn [advance]; by rewrite Hi, bind_ret, (proj2 (Z.ltb_ge _ _) Hge)
        | by eapply step_full | split; cbn; try done | done | split; [done | lia]].
      by rewrite <- HF, Permutation_middle.
  - destruct (ws_active w) eqn:Hact.
    + eapply simulated_event; [cbn [advance]; by rewrite Hi, bind_ret, Hact
        | by eapply step_active | split; cbn; try done | done | split; [by constructor | cbn; lia]].
      by rewrite <- HF, Permutation_middle.
    + eapply simulated_event; [cbn [advance]; by rewrite Hi, bind_ret, Hact
        | by eapply step_inactive | split; cbn; try done | done | split; [done | lia]].
      by rewrite <- HF, Permutation_middle.
Qed.

Lemma simulate_push E F C u I D s y idx task :
  sched_inv s -> in_range (num_queues s) (Locked idx (DPush task)) ->
  framed E F C u I D s (Locked idx (DPush task)) y -> simulated item_size E F C u I D s (Locked idx (DPush task)) y.
Proof.
  intros Hs [Hidx _] Hf. pose proof (workers_lock s Hs) as Hlock.
  destruct y as [s0 E0 F0 C0 u0 I0 A0 R0 D0], Hf as [H1 H2 H3 H4 H5 H6 H7]; cbn in *; subst s0.
  apply perm_split in H4 as (C1 & C2 & -> & HC). destruct (lookup_lt_is_Some_2 _ _ Hidx) as [w Hw].
  assert (Hi : index (content (workers s)) idx = Ret w) by (unfold index; by rewrite Hw).
  destruct (deque_push (ws_deque w) task) as [[[] | e] d] eqn:Hp.
  - eapply simulated_event; [cbn [advance run_deque]; by rewrite Hi, bind_ret, Hp | by eapply step_push
      | by split; cbn; try done; rewrite H5 | by rewrite num_queues_put | done].
  - eapply simulated_event; [cbn [advance run_deque]; by rewrite Hi, bind_ret, Hp | by eapply step_push_full
      | by split | by rewrite num_queues_put | done].
Qed.

Lemma pop_locked s worker w :
  sched_inv s -> content (workers s) !! Z.to_nat (WorkerId_as_u32 worker) = Some w ->
  pop s worker = let '(r, d) := deque_pop (ws_deque w) in
    (r, put_deque s (content (workers s)) (Z.to_nat (WorkerId_as_u32 worker)) w d).
Proof.
  intros Hs Hw. unfold pop. rewrite (workers_lock s Hs). pose proof (lookup_lt_Some _ _ _ Hw) as Hlt.
  rewrite (proj2 (Nat.leb_gt _ _) Hlt). unfold on_deque. by rewrite Hw.
Qed.

Lemma unstolen s idx w d :
  content (workers s) !! idx = Some w -> deque_steal (ws_deque w) = (None, d) ->
  put_deque s (content (workers s)) idx w d = s.
Proof.
  intros Hw Hd. assert (d = ws_deque w) as -> by (revert Hd; unfold deque_steal; repeat case_match; by intros [= <-]).
  unfold put_deque, set_workers, lock_set. replace (set_deque w (ws_deque w)) with w by (by destruct w).
  rewrite list_insert_id by done. by destruct s as [[? ?] ? ? ? ? ?].
Qed.

(** An operation that hands out tasks. *)
Lemma simulate_taking E F C u I D s y idx k :
  sched_inv s -> in_range (num_queues s) (Locked idx k) -> (forall task, k <> DPush task) ->
  framed E F C u I D s (Locked idx k) y -> simulated item_size E F C u I D s (Locked idx k) y.
Proof.
  intros Hs [Hidx Hk] Hnp Hf. pose proof (workers_lock s Hs) as Hlock.
  destruct (lookup_lt_is_Some_2 _ _ Hidx) as [w Hw].
  assert (Hi : index (content (workers s)) idx = Ret w) by (unfold index; by rewrite Hw).
  destruct y as [s0 E0 F0 C0 u0 I0 A0 R0 D0], k as [task | worker | l |]; [by destruct (Hnp task) | ..];
    destruct Hf as [H1 H2 H3 H4 H5 H6 H7]; cbn in *; subst s0.
  - subst idx. pose proof (pop_locked s worker w Hs Hw) as Hp.
    destruct (deque_pop (ws_deque w)) as [r d] eqn:Hd.
    eapply simulated_event; [cbn [advance run_deque]; by rewrite Hi, bind_ret, Hd | by eapply step_pop
      | | by rewrite num_queues_put | done].
    split; cbn; try done. by apply tasks_after.
  - destruct (deque_steal (ws_deque w)) as [[t |] d] eqn:Hd.
    + eapply simulated_event; [cbn [advance run_deque]; by rewrite Hi, bind_ret, Hd | by eapply step_steal
        | | by rewrite num_queues_put | done].
      split; cbn; try done. by apply (tasks_after D D0 [t]).
    + pose proof (unstolen s idx w d Hw Hd) as Hsame.
      exists s, (Stealing l), (mkSys s E0 F0 C0 u0 I0 A0 R0 D0).
      split; [cbn [advance run_deque]; by rewrite Hi, bind_ret, Hd, Hsame |].
      split; [apply rtc_refl |]. split; [by split |]. split; [done |]. split; [tauto | lia].
  - destruct (deque_steal_half (ws_deque w)) as [ts d] eqn:Hd.
    eapply simulated_event; [cbn [advance run_deque]; by rewrite Hi, bind_ret, Hd | by eapply step_steal_half
      | | by rewrite num_queues_put | done].
    split; cbn; try done. by apply tasks_after.
Qed.

Lemma simulate_guarded E F C u I D s y o :
  sched_inv s -> framed E F C u I D s (Guarded o) y -> simulated item_size E F C u I D s (Guarded o) y.
Proof.
  intros Hs Hf. pose proof (workers_lock s Hs) as Hlock. pose proof (tour_below s) as [Ht Htl].
  unfold num_queues in Ht, Htl.
  destruct o as [task | worker | worker | worker | worker | |];
    try (eapply simulated_unseen; [exact Hf | reflexivity | done..]).
  - destruct y as [s0 E0 F0 C0 u0 I0 A0 R0 D0], Hf as [H1 H2 H3 H4 H5 H6 H7]; cbn in *; subst s0.
    apply perm_split in H2 as (E1 & E2 & -> & HE).
    destruct (content (workers s)) as [| w ws] eqn:Hws.
    + eapply simulated_event; [cbn [advance begin_guarded]; by rewrite Hws | by apply step_read_none; right
        | by split | done | done].
    + rewrite <- Hws in Ht, Htl, Hlock.
      eapply simulated_event; [cbn [advance begin_guarded]; rewrite Hws; by rewrite <- Hws
        | apply step_read; [exact Hlock | by rewrite Hws] | by split; cbn; try done; rewrite H3 | done |].
      split; [exact Ht | unfold num_queues; cbn [workers bump_counter]; lia].
  - assert (Hg : advance item_size s (Guarded (OPop worker)) =
      Ret (if (num_queues s <=? Z.to_nat (WorkerId_as_u32 worker))%nat then (s, Leaving false (Delivered []))
           else (s, Waiting (Z.to_nat (WorkerId_as_u32 worker)) (DPop worker)))) by done.
    destruct (Nat.leb_spec (num_queues s) (Z.to_nat (WorkerId_as_u32 worker))) as [| Hlt];
      (eapply simulated_unseen; [exact Hf | exact Hg | done..]).
  - cbn [advance begin_guarded] in *.
    destruct ((length (content (workers s)) <=? 1)%nat || (length (content (workers s)) <=? Z.to_nat (WorkerId_as_u32 worker))%nat) eqn:Hb;
      (eapply simulated_unseen; [exact Hf | cbn [advance begin_guarded]; by rewrite Hb | try done..]).
    destruct (victims_below (num_queues s) (Z.to_nat (WorkerId_as_u32 worker))) as [Hv Hvl].
    split; [exact Hv | unfold num_queues in *; lia].
  - destruct ((length (content (workers s)) <=? 1)%nat || (length (content (workers s)) <=? Z.to_nat (WorkerId_as_u32 worker))%nat) eqn:Hb;
      (eapply simulated_unseen; [exact Hf | cbn [advance begin_guarded]; by rewrite Hb | try done..]).
    split; [| split; [by rewrite length_seq | done]]. apply Forall_forall. intros i Hi%elem_of_seq.
    unfold num_queues. lia.
  - destruct y as [s0 E0 F0 C0 u0 I0 A0 R0 D0], Hf as [H1 H2 H3 H4 H5 H6 H7]; cbn in *; subst s0.
    destruct (deactivate_worker s worker) as [known s'] eqn:Hd.
    eapply simulated_event; [cbn [advance begin_guarded]; by rewrite Hd | apply step_deactivate
      | by split; cbn; try done; rewrite Hd | | done].
    destruct (deactivate_evolves s worker Hs) as (_ & Hl & _). rewrite Hd in Hl.
    unfold actives in Hl. by rewrite !length_fmap in Hl.
Qed.

(** Adding a worker, when no other call has the guard. *)
Lemma simulate_adding E I D s y :
  sched_inv s -> queue_capacity s * item_size < 2 ^ 63 ->
  framed E [] [] [] I D s Adding y -> simulated item_size E [] [] [] I D s Adding y.
Proof.
  intros Hs Hcap Hf.
  assert (Ha : Scheduler_add_worker item_size s = Ret (add_worker s)).
  { unfold Scheduler_add_worker, WorkStealingDeque_new, allocate_bytes.
    by rewrite (workers_lock s Hs), (proj2 (Z.ltb_lt _ _) Hcap), !bind_ret. }
  destruct y as [s0 E0 F0 C0 u0 I0 A0 R0 D0], Hf as [H1 H2 H3 H4 H5 H6 H7]; cbn in *; subst s0 u0.
  apply Permutation_nil_r in H3. apply Permutation_nil_r in H4. subst F0 C0.
  destruct (add_worker_evolves s Hs) as (_ & Hl & _). destruct (add_worker s) as [r s'] eqn:Hadd.
  unfold actives in Hl. rewrite !length_fmap in Hl.
  eapply simulated_event; [cbn [advance]; by rewrite Ha, bind_ret | apply step_add_worker
    | split; cbn; try done; by rewrite Hadd | exact Hl | done].
Qed.

(** Whatever the phase, the action happens, and the system has it too. *)
Lemma scheduler_simulated E F C u I D s p y :
  sched_inv s -> queue_capacity s * item_size < 2 ^ 63 -> in_range (num_queues s) p ->
  framed E F C u I D s p y -> (p = Adding -> F = [] /\ C = [] /\ u = []) ->
  simulated item_size E F C u I D s p y.
Proof.
  intros Hs Hcap Hr Hf Hadd. pose proof (workers_lock s Hs) as Hlock.
  assert (Hindex : forall idx, (idx < num_queues s)%nat ->
    exists w, index (content (workers s)) idx = Ret w /\ content (workers s) !! idx = Some w).
  { intros idx [w Hw]%lookup_lt_is_Some_2. exists w. unfold index. by rewrite Hw. }
  destruct p as [o | o | o | task l seen | [| idx l] | thief [| idx l] seen best max_len | idx k | idx k
    | | | | write out | out].
  - destruct o as [task | worker | worker | worker | worker | |];
      try (eapply simulated_unseen; [exact Hf | reflexivity | done..]).
    + destruct y as [s0 E0 F0 C0 u0 I0 A0 R0 D0], Hf as [H1 H2 H3 H4 H5 H6 H7]; cbn in *; subst s0.
      destruct (running s) eqn:Hrun.
      * eapply simulated_event; [cbn [advance]; by rewrite Hrun | by apply (step_enter s E0 F0 C0 u0 I0 A0 R0 D0 task)
          | by split; cbn; try done; rewrite H2 | done | done].
      * eapply simulated_event; [cbn [advance]; by rewrite Hrun | by apply (step_refuse s E0 F0 C0 u0 I0 A0 R0 D0 task) | by split | done | done].
    + destruct y as [s0 E0 F0 C0 u0 I0 A0 R0 D0], Hf as [H1 H2 H3 H4 H5 H6 H7]; cbn in *; subst s0.
      eapply simulated_event; [done | by apply step_stop | by split | done | done].
  - eapply simulated_unseen; [exact Hf | cbn [advance]; by rewrite Hlock | by destruct o..].
  - by apply simulate_guarded.
  - by apply simulate_searching.
  - by eapply simulated_unseen.
  - destruct Hr as [[Hidx Hl]%Forall_cons Hlen]. cbn [length] in Hlen.
    destruct (Hindex idx Hidx) as (w & Hi & Hw). destruct (ws_active w) eqn:Hact;
      (eapply simulated_unseen; [exact Hf | cbn [advance]; by rewrite Hi, bind_ret, Hact | try done..]).
    split; [done | lia].
  - destruct Hr as (_ & _ & Hb). destruct best, seen; by eapply simulated_unseen.
  - destruct Hr as ([Hidx Hl]%Forall_cons & Hlen & Hb). cbn [length] in Hlen.
    destruct (Hindex idx Hidx) as (w & Hi & Hw). destruct seen.
    + destruct (deque_length (ws_deque w) >? max_len) eqn:Hc;
        (eapply simulated_unseen; [exact Hf | cbn [advance]; by rewrite Hi, bind_ret, Hc | try done..]);
        (split; [done | split; [lia | done]]).
    + destruct (negb (idx =? thief)%nat && ws_active w) eqn:Hc;
        (eapply simulated_unseen; [exact Hf | cbn [advance]; by rewrite Hi, bind_ret, Hc | try done..]).
      * split; [by constructor | done].
      * split; [done | split; [lia | done]].
  - destruct (Hindex idx (proj1 Hr)) as (w & Hi & Hw).
    destruct (worker_ok s idx w Hs Hw) as [Hh _ _ _].
    eapply simulated_unseen; [exact Hf | cbn [advance]; by rewrite Hi, bind_ret, lock_healthy | done..].
  - destruct k as [task | worker | l |]; [by apply simulate_push | by apply simulate_taking..].
  - destruct y as [s0 E0 F0 C0 u0 I0 A0 R0 D0], Hf as [H1 H2 H3 H4 H5 H6 H7]; cbn in *; subst s0 u0.
    eapply simulated_event; [done | by apply step_number | split; cbn; try done | done | done].
    by rewrite H6, Permutation_app_comm.
  - eapply simulated_unseen; [exact Hf | cbn [advance]; by rewrite Hlock | done..].
  - destruct (Hadd eq_refl) as (-> & -> & ->). by apply simulate_adding.
  - by eapply simulated_unseen.
  - by eapply simulated_unseen.
Qed.

End simulation.
(** ** Every interleaving *)

Lemma view_nil {B} (f : Phase -> list B) ph : (forall t p, ph !! t = Some p -> f p = []) -> view f ph = [].
Proof.
  intros H. unfold view. assert (Hall : Forall (fun p => f p = []) (map_to_list ph).*2).
  { apply Forall_fmap, Forall_forall. intros [t p] Hp%elem_of_map_to_list. by apply (H t p). }
  induction Hall as [| p l Hp _ IH]; [done |]. cbn. by rewrite Hp.
Qed.

Lemma mirrors_at tr s ph y t p :
  ph !! t = Some p -> mirrors tr s ph y ->
  framed (view entering_of (delete t ph)) (view searching_of (delete t ph)) (view chosen_of (delete t ph))
    (view unnumbered_of (delete t ph)) (view ids_of (delete t ph) ++ returned ids_in tr)
    (view tasks_of (delete t ph) ++ returned tasks_in tr) s p y.
Proof.
  intros Hp [H1 H2 H3 H4 H5 H6 H7]. cbn in *.
  rewrite (view_lookup _ _ _ _ Hp) in H2. rewrite (view_lookup _ _ _ _ Hp) in H3.
  rewrite (view_lookup _ _ _ _ Hp) in H4. rewrite (view_lookup _ _ _ _ Hp) in H5.
  rewrite (view_lookup _ _ _ _ Hp) in H6. rewrite (view_lookup _ _ _ _ Hp) in H7.
  split; try done; by rewrite app_assoc.
Qed.

Lemma mirrors_put tr s ph y t p :
  framed (view entering_of (delete t ph)) (view searching_of (delete t ph)) (view chosen_of (delete t ph))
    (view unnumbered_of (delete t ph)) (view ids_of (delete t ph) ++ returned ids_in tr)
    (view tasks_of (delete t ph) ++ returned tasks_in tr) s p y ->
  mirrors tr s (<[t := p]> ph) y.
Proof.
  intros [H1 H2 H3 H4 H5 H6 H7]. unfold mirrors. split; cbn; rewrite ?view_insert; try done; by rewrite <- app_assoc.
Qed.

Lemma mirrors_invoke tr s ph y t o :
  ph !! t = None -> mirrors tr s ph y -> mirrors (tr ++ [Invoke t o]) s (<[t := Called o]> ph) y.
Proof.
  intros Hnone [H1 H2 H3 H4 H5 H6 H7]. apply mirrors_put. rewrite delete_id by done.
  unfold returned. rewrite !bind_app. cbn. rewrite !app_nil_r. by split.
Qed.

Lemma mirrors_return tr s ph y t out :
  ph !! t = Some (Finished out) -> mirrors tr s ph y -> mirrors (tr ++ [Return t out]) s (delete t ph) y.
Proof.
  intros Hp H. apply (mirrors_at _ _ _ _ _ _ Hp) in H. destruct H as [H1 H2 H3 H4 H5 H6 H7]. cbn in *.
  split; cbn; try done; unfold returned in *; rewrite bind_app; cbn; rewrite app_nil_r, app_assoc;
    [rewrite H6 | rewrite H7]; apply Permutation_app_comm.
Qed.

Section interleavings.
Context {policy : LockPolicy} {layout : TaskLayout} (num cap : Z).
Hypothesis cap_usize : uint 64 cap.
Hypothesis cap_fits : cap * item_size < 2 ^ 63.
#[local] Abbreviation system := (quiet (with_capacity num cap) [] [] [] []).

Record locked_inv (tr : list (Event (op T) Out)) (x : Scheduler T * gmap nat Phase) : Prop := {
  li_system : exists y, rtc sys_step system y /\ mirrors tr x.1 x.2 y;
  li_range : forall t p, x.2 !! t = Some p -> in_range (num_queues x.1) p;
  li_exclusive : forall t p t' p', x.2 !! t = Some p -> x.2 !! t' = Some p' -> t <> t' ->
    holds_write p = true -> holds_guard p' = false }.

Lemma locked_inv_new : locked_inv [] (with_capacity num cap, ∅).
Proof.
  split; cbn.
  - exists system. split; [apply rtc_refl |]. by split; cbn; rewrite ?view_empty.
  - intros t p. by rewrite lookup_empty.
  - intros t p. by rewrite lookup_empty.
Qed.

(** Who gets a guard. *)
Lemma advance_guard s p s' p' :
  advance item_size s p = Ret (s', p') ->
  (holds_write p' = true -> holds_write p = true \/ p = Writing) /\
  (holds_guard p' = true -> holds_guard p = true \/ p = Writing \/ exists o, p = Reading o).
Proof.
  destruct p as [[] | o | [] | ? [] [] | [] | ? [] [] [] | ? [] | ? [] | | | | [] |]; cbn [advance begin_guarded run_deque poisoned_deque];
    intros Ha; repeat (case_match || apply bind_ret_inv in Ha as (? & _ & Ha)); simplify_eq; cbn; eauto 7.
Qed.

Lemma locked_inv_system tr s ph :
  locked_inv tr (s, ph) -> sched_inv s /\ queue_capacity s = cap.
Proof using cap_usize.
  intros [(y & Hr & Hm) _ _]. pose proof (fr_sched _ _ _ _ _ _ _ _ _ Hm) as Hs. cbn in Hs. subst s.
  pose proof (sys_reach_inv _ _ _ cap_usize Hr) as Hy.
  destruct (sys_reach_config _ _ _ cap_usize Hr) as [Hc _]. by split; [apply Hy |].
Qed.

Lemma locked_act tr s ph t p :
  locked_inv tr (s, ph) -> ph !! t = Some p ->
  exists s' p' y', advance item_size s p = Ret (s', p') /\ rtc sys_step system y' /\
    mirrors tr s' (<[t := p']> ph) y' /\ (num_queues s <= num_queues s')%nat /\ in_range (num_queues s') p'.
Proof using cap_usize cap_fits.
  intros Hinv Hp. destruct (locked_inv_system _ _ _ Hinv) as [Hs Hc]. destruct Hinv as [(y & Hr & Hm) Hrange Hex].
  cbn [fst snd] in *. apply (mirrors_at _ _ _ _ _ _ Hp) in Hm.
  destruct (scheduler_simulated _ _ _ _ _ _ s p y Hs ltac:(by rewrite Hc) (Hrange _ _ Hp) Hm)
    as (s' & p' & y' & Ha & Hr' & Hm' & Hn & Hp').
  { intros ->.
    assert (Hnone : forall t' p', delete t ph !! t' = Some p' -> holds_guard p' = false).
    { intros t' p' [Hne Hp']%lookup_delete_Some. by apply (Hex t Adding t' p'). }
    split_and!; apply view_nil; intros t' p' Hp'; pose proof (Hnone t' p' Hp') as Hg; destruct p' as [| | | | | | ? [] | ? [] | | | | |]; done. }
  exists s', p', y'. split; [done |]. split; [by etrans |]. split; [by apply mirrors_put | done].
Qed.

Lemma locked_step tr x l x' :
  locked_inv tr x -> conc_step x l x' -> locked_inv (tr ++ option_list l) x'.
Proof using cap_usize cap_fits.
  intros Hinv Hstep. destruct Hstep as [s ph t o Hnone | s ph t p s' p' Hp Ho Hmay Ha | s ph t p out Hp Hout].
  - destruct Hinv as [(y & Hr & Hm) Hrange Hex]. cbn [fst snd option_list] in *. split; cbn [fst snd].
    + exists y. split; [done | by apply mirrors_invoke].
    + intros t' p' [[<- <-] | [_ Hp']]%lookup_insert_Some; [done | by eapply Hrange].
    + intros t1 p1 t2 p2 [[<- <-] | [_ H1]]%lookup_insert_Some [[<- <-] | [_ H2]]%lookup_insert_Some; try done.
      by eapply Hex.
  - destruct (locked_act _ _ _ _ _ Hinv Hp) as (s1 & p1 & y' & Ha1 & Hr' & Hm' & Hn & Hp1).
    cbn [act scheduler_object] in Ha. rewrite Ha in Ha1. injection Ha1 as <- <-. rewrite app_nil_r.
    destruct Hinv as [_ Hrange Hex]. cbn [fst snd] in *. destruct (advance_guard _ _ _ _ Ha) as [Hw Hg].
    split; cbn [fst snd].
    + by exists y'.
    + intros t' q [[<- <-] | [_ Hq]]%lookup_insert_Some; [done | eapply in_range_mono; eauto].
    + intros t1 p1 t2 p2 [[<- <-] | [Hn1 H1]]%lookup_insert_Some [[<- <-] | [Hn2 H2]]%lookup_insert_Some Hne Hh1; try done.
      * destruct (Hw Hh1) as [Hh | ->]; [by eapply (Hex t p) | by apply (Hmay t2)].
      * apply not_true_is_false. intros Hh2. destruct (Hg Hh2) as [Hh | [-> | [o ->]]].
        -- by rewrite (Hex t1 p1 t p H1 Hp) in Hh.
        -- pose proof (Hmay t1 p1 H1) as Hfree. cbn in Hfree. unfold holds_guard in Hfree.
           rewrite Hh1, orb_true_r in Hfree. done.
        -- destruct Hmay as [Hmay _]. by rewrite (Hmay t1 p1 H1) in Hh1.
      * by apply (Hex t1 p1 t2 p2).
  - destruct p as [| | | | | | | | | | | | out']; try done. injection Hout as ->.
    destruct Hinv as [(y & Hr & Hm) Hrange Hex]. cbn [fst snd option_list] in *. split; cbn [fst snd].
    + exists y. split; [done | by apply mirrors_return].
    + intros t' p' [_ Hp']%lookup_delete_Some. by eapply Hrange.
    + intros t1 p1 t2 p2 [_ H1]%lookup_delete_Some [_ H2]%lookup_delete_Some. by eapply Hex.
Qed.

(** ** No deadlock, and every call returns *)

(** Whoever holds a mutex can move; if nobody does, whoever has the guard; if nobody
    has it, a writer that waits for it, and then anybody. *)
Lemma locked_moves_on tr s ph : locked_inv tr (s, ph) -> ph <> ∅ -> exists x', moves (s, ph) x'.
Proof using cap_usize cap_fits.
  intros Hinv Hne.
  assert (Hact : forall t p, ph !! t = Some p -> may_advance ph p -> exists x', moves (s, ph) x').
  { intros t p Hp Hmay. destruct (outcome p) as [out |] eqn:Hout; [eexists; by eapply moves_return |].
    destruct (locked_act _ _ _ _ _ Hinv Hp) as (s' & p' & _ & Ha & _). eexists. by eapply moves_act. }
  set (locked := fun p : Phase => match p with Locked _ _ => true | _ => false end).
  destruct (decide (nobody locked ph)) as [Hmutex | (t & p & Hp & Hh)%somebody];
    [| by eapply (Hact t p); destruct p].
  assert (Hfree : forall idx, nobody (holds_deque idx) ph).
  { intros idx t p Hp. pose proof (Hmutex t p Hp) as H. by destruct p. }
  destruct (decide (nobody holds_guard ph)) as [Hguard | (t & p & Hp & Hh)%somebody].
  2:{ apply (Hact t p Hp). destruct p; try done. apply Hfree. }
  destruct (decide (nobody waits_to_write ph)) as [Hwait | (t & p & Hp & Hh)%somebody].
  2:{ apply (Hact t p Hp). by destruct p. }
  destruct (map_choose _ Hne) as (t & p & Hp). apply (Hact t p Hp). destruct p; try done; [| apply Hfree].
  split; [| done]. intros t' p' Hp'. pose proof (Hguard t' p' Hp') as H. by apply orb_false_iff in H as [_ H].
Qed.

(** The workers there can be when the calls of [add_worker] in flight are through. *)
Definition adds (p : Phase) : nat :=
  match p with Called OAddWorker | Writing | Adding => 1 | _ => 0 end.
Definition workers_to_come s (ph : gmap nat Phase) : nat := (num_queues s + total adds ph)%nat.

Lemma advance_adds s p s' p' :
  advance item_size s p = Ret (s', p') -> (num_queues s' + adds p' <= num_queues s + adds p)%nat.
Proof.
  assert (Hdeact : forall worker, num_queues (deactivate_worker s worker).2 = num_queues s).
  { intros worker. unfold deactivate_worker, num_queues. destruct (lock (workers s)) eqn:Hl; [| done].
    case_match; [| done]. cbn. rewrite length_insert. revert Hl. unfold lock. by destruct (poisoned _); intros [= <-]. }
  assert (Hadd : (num_queues (add_worker s).2 <= S (num_queues s))%nat).
  { unfold add_worker, num_queues. destruct (lock (workers s)) eqn:Hl; cbn; [| lia]. rewrite length_app; cbn.
    revert Hl. unfold lock. destruct (poisoned _); intros [= <-]. lia. }
  destruct p as [[] | o | [t | | | | worker | |] | ? [] [] | [] | ? [] [] [] | ? k | idx k | | | | [] |];
    cbn [advance begin_guarded]; intros Ha.
  13:{ specialize (Hdeact worker). destruct (deactivate_worker s worker). simplify_eq/=. lia. }
  all: try (repeat (case_match || apply bind_ret_inv in Ha as (? & _ & Ha)); simplify_eq;
    unfold num_queues; cbn; lia).
  - apply bind_ret_inv in Ha as (w & _ & Ha). repeat case_match; simplify_eq; destruct k; cbn; lia.
  - apply bind_ret_inv in Ha as (w & _ & Ha). destruct (run_deque _ k) as [q d] eqn:Hk. simplify_eq.
    rewrite num_queues_put. destruct k; cbn in Hk; repeat case_match; simplify_eq; cbn; lia.
  - apply bind_ret_inv in Ha as ([r s1] & Hr & [= <- <-]). unfold Scheduler_add_worker in Hr.
    destruct (lock (workers s)); [| simplify_eq; cbn; lia].
    apply bind_ret_inv in Hr as (_ & _ & [= Hr]). rewrite Hr in Hadd. cbn in *. lia.
Qed.

(** The actions a call has before it, its return included, with at most [m] workers. *)
Definition work (m : nat) (p : Phase) : nat :=
  match p with
  | Called _ => 9 + 3 * m
  | Reading _ | Writing => 8 + 3 * m
  | Guarded _ | Adding => 7 + 3 * m
  | Searching _ l seen => 2 * length l + if seen then 4 else 5
  | Stealing l => 3 + 3 * length l
  | Scanning _ l seen _ _ => 2 * length l + if seen then 5 else 6
  | Waiting _ (DPush _) => 5
  | Locked _ (DPush _) => 4
  | Waiting _ (DSteal l) => 5 + 3 * length l
  | Locked _ (DSteal l) => 4 + 3 * length l
  | Waiting _ _ => 4
  | Locked _ _ => 3
  | Numbering => 3
  | Leaving _ _ => 2
  | Finished _ => 1
  end.

Lemma locked_advance_work m s p s' p' :
  (num_queues s <= m)%nat -> outcome p = None -> advance item_size s p = Ret (s', p') ->
  (work m p' < work m p)%nat.
Proof.
  intros Hm Hout. unfold num_queues in Hm.
  destruct p as [[] | o | o | ? [] [] | [] | ? [] [] [] | idx k | idx k | | | | [] |]; try done;
    cbn [advance]; intros Ha.
  9:{ destruct o; cbn [begin_guarded] in Ha; repeat case_match; simplify_eq; cbn [work];
         rewrite ?tour_length, ?(proj2 (victims_below _ _)), ?length_seq; lia. }
  all: try (repeat (case_match || apply bind_ret_inv in Ha as (? & _ & Ha)); simplify_eq; cbn [work length] in *; lia).
  - apply bind_ret_inv in Ha as (w & _ & Ha). repeat case_match; simplify_eq; destruct k; cbn [work poisoned_deque]; lia.
  - apply bind_ret_inv in Ha as (w & _ & Ha). destruct (run_deque _ k) as [q d] eqn:Hk. simplify_eq.
    destruct k; cbn in Hk; repeat case_match; simplify_eq; cbn [work]; lia.
Qed.

(** ** One call at a time *)

(** A few actions in a row. *)
Ltac alone_act := eapply rtc_l; [split; [reflexivity | cbn [act scheduler_object fst snd advance]] |].

Lemma search_alone s task l :
  Forall (fun idx => is_Some (content (workers s) !! idx)) l ->
  rtc alone_step (s, Searching task l false)
    match list_find (fun idx => from_option has_space false (content (workers s) !! idx)) l with
    | Some (_, idx) => (s, Waiting idx (DPush task))
    | None => (s, Leaving false (Submitted None))
    end.
Proof.
  induction 1 as [| idx l [w Hw] _ IH]; [alone_act; [done | apply rtc_refl] |]. cbn [list_find].
  assert (Hi : index (content (workers s)) idx = Ret w) by (unfold index; by rewrite Hw).
  assert (Hpass : rtc alone_step (s, Searching task l false)
    match prod_map S id <$> list_find (fun idx => from_option has_space false (content (workers s) !! idx)) l with
    | Some (_, idx) => (s, Waiting idx (DPush task))
    | None => (s, Leaving false (Submitted None))
    end) by (revert IH; by destruct (list_find _ l) as [[]|]).
  alone_act; [by rewrite Hi, bind_ret |]. destruct (ws_active w) eqn:Hact; cycle 1.
  { by rewrite decide_False by (rewrite Hw; cbn; unfold has_space; rewrite Hact; cbn; tauto). }
  destruct (deque_length (ws_deque w) <? deque_capacity (ws_deque w)) eqn:Hc;
    (alone_act; [by rewrite Hi, bind_ret, Hc |]).
  - rewrite decide_True by (apply Is_true_true; rewrite Hw; cbn; unfold has_space; rewrite Hact; lia). apply rtc_refl.
  - by rewrite decide_False by (rewrite Is_true_true, Hw; cbn; unfold has_space; rewrite Hact; lia).
Qed.

Lemma leaving_alone s write out : rtc alone_step (s, Leaving write out) (s, Finished out).
Proof. by apply rtc_once. Qed.

Lemma deque_alone s idx w k :
  sched_inv s -> content (workers s) !! idx = Some w ->
  rtc alone_step (s, Waiting idx k)
    (put_deque s (content (workers s)) idx w (run_deque (ws_deque w) k).2, (run_deque (ws_deque w) k).1).
Proof.
  intros Hs Hw. assert (Hi : index (content (workers s)) idx = Ret w) by (unfold index; by rewrite Hw).
  destruct (worker_ok s idx w Hs Hw) as [Hh _ _ _].
  alone_act; [by rewrite Hi, bind_ret, lock_healthy |]. apply rtc_once. split; [done |].
  cbn [act scheduler_object fst snd advance]. rewrite Hi, bind_ret. by destruct (run_deque (ws_deque w) k).
Qed.

(** The guard. *)
Lemma guarded_alone s o :
  sched_inv s -> (forall t, o = OSubmit t -> running s = true) -> o <> OStop -> o <> OAddWorker ->
  rtc alone_step (s, Called o) (begin_guarded s (content (workers s)) o).
Proof.
  intros Hs Hrun H1 H2. assert (Hr : rtc alone_step (s, Reading o) (begin_guarded s (content (workers s)) o)).
  { alone_act; [by rewrite (workers_lock s Hs) |]. by apply rtc_once. }
  destruct o as [t | | | | | |]; try done; (alone_act; [| exact Hr]); [by rewrite (Hrun t) | done..].
Qed.

Lemma submit_alone s task : sched_inv s ->
  rtc alone_step (s, Called (OSubmit task)) ((submit s task).2, Finished (Submitted (submit s task).1)).
Proof.
  intros Hs. unfold submit. destruct (running s) eqn:Hrun; cbn [negb].
  2:{ apply rtc_once. split; [done |]. cbn [act scheduler_object fst snd advance]. by rewrite Hrun. }
  etrans; [by apply guarded_alone |]. cbn [begin_guarded]. rewrite (workers_lock s Hs).
  destruct (content (workers s)) as [| w0 ws0] eqn:Hws; [apply leaving_alone |]. rewrite <- !Hws, <- Hrun.
  fold (bump_counter s). etrans; [apply (search_alone (bump_counter s)), tour_in_range |].
  unfold find_target. fold (tour s (content (workers s))). cbn [workers bump_counter].
  destruct (list_find _ (tour s (content (workers s)))) as [[k idx] |] eqn:Hf; cbn [mbind option_bind snd];
    [| apply leaving_alone].
  assert (is_Some (content (workers s) !! idx)) as [w Hw].
  { apply list_find_Some in Hf as (Hk & _). by apply (Forall_lookup_1 _ _ _ _ (tour_in_range _ _) Hk). }
  rewrite Hw. etrans; [apply (deque_alone (bump_counter s) idx w); [by destruct Hs; split | done] |].
  cbn [run_deque]. destruct (deque_push (ws_deque w) task) as [[[] | e] d]; cbn [fst snd];
    [| apply leaving_alone].
  alone_act; [done |]. apply leaving_alone.
Qed.

Lemma pop_alone s worker : sched_inv s ->
  rtc alone_step (s, Called (OPop worker)) ((pop s worker).2, Finished (Delivered (option_list (pop s worker).1))).
Proof.
  intros Hs. etrans; [by apply guarded_alone |]. cbn [begin_guarded].
  destruct (Nat.leb_spec (length (content (workers s))) (Z.to_nat (WorkerId_as_u32 worker))) as [Hle | Hlt].
  { unfold pop. rewrite (workers_lock s Hs), (proj2 (Nat.leb_le _ _) Hle). apply leaving_alone. }
  destruct (lookup_lt_is_Some_2 _ _ Hlt) as [w Hw]. rewrite (pop_locked s worker w Hs Hw).
  etrans; [by apply (deque_alone _ _ w) |]. cbn [run_deque].
  destruct (deque_pop (ws_deque w)) as [r d]. apply leaving_alone.
Qed.

Lemma steal_from_alone s thief offsets :
  sched_inv s -> content (workers s) <> [] ->
  rtc alone_step (s, Stealing ((fun o => ((thief + o) `mod` length (content (workers s)))%nat) <$> offsets))
    ((steal_from s (content (workers s)) offsets thief).2,
     Finished (Delivered (option_list (steal_from s (content (workers s)) offsets thief).1))).
Proof.
  intros Hs Hne. induction offsets as [| o offsets IH]; cbn [fmap list_fmap steal_from].
  { alone_act; [done | apply leaving_alone]. }
  set (idx := ((thief + o) `mod` length (content (workers s)))%nat).
  assert (Hidx : (idx < length (content (workers s)))%nat).
  { apply Nat.mod_upper_bound. by destruct (content (workers s)). }
  destruct (lookup_lt_is_Some_2 _ _ Hidx) as [w Hw]. rewrite Hw.
  assert (Hi : index (content (workers s)) idx = Ret w) by (unfold index; by rewrite Hw).
  alone_act; [by rewrite Hi, bind_ret |]. destruct (ws_active w); [| exact IH].
  etrans; [by apply (deque_alone _ _ w) |]. cbn [run_deque].
  destruct (deque_steal (ws_deque w)) as [[t |] d] eqn:Hd; cbn [fst snd]; [apply leaving_alone |].
  rewrite (unstolen s idx w d Hw Hd). exact IH.
Qed.

Lemma steal_alone s worker : sched_inv s ->
  rtc alone_step (s, Called (OSteal worker))
    ((steal s worker).2, Finished (Delivered (option_list (steal s worker).1))).
Proof.
  intros Hs. etrans; [by apply guarded_alone |]. cbn [begin_guarded]. unfold steal. rewrite (workers_lock s Hs).
  destruct (_ || _) eqn:Hb; [apply leaving_alone |]. apply steal_from_alone; [done |].
  intros Hn. by rewrite Hn in Hb.
Qed.

(** The scan from worker [length pre] on. *)
Lemma scan_alone s thief rest : forall pre best max_len,
  content (workers s) = pre ++ rest -> from_option (fun i => i < num_queues s)%nat True best ->
  exists best', (fold_left (fun '(best, max_len) '(idx, w) =>
      if negb (idx =? thief)%nat && ws_active w
      then if deque_length (ws_deque w) >? max_len
           then (Some idx, deque_length (ws_deque w)) else (best, max_len)
      else (best, max_len))
    (imap (fun i w => ((length pre + i)%nat, w)) rest) (best, max_len)).1 = best' /\
    from_option (fun i => i < num_queues s)%nat True best' /\
    rtc alone_step (s, Scanning thief (seq (length pre) (length rest)) false best max_len)
      (s, match best' with Some idx => Waiting idx DStealHalf | None => Leaving false (Delivered []) end).
Proof.
  induction rest as [| w rest IH]; intros pre best max_len Hws Hb.
  { exists best. split; [done |]. split; [done |]. apply rtc_once. by destruct best. }
  assert (Hw : content (workers s) !! length pre = Some w) by (rewrite Hws; by apply list_lookup_middle).
  assert (Hi : index (content (workers s)) (length pre) = Ret w) by (unfold index; by rewrite Hw).
  assert (Hlt : (length pre < num_queues s)%nat) by (by apply lookup_lt_Some in Hw).
  assert (Hws' : content (workers s) = (pre ++ [w]) ++ rest) by (by rewrite <- app_assoc).
  assert (Heq : imap (fun i v => ((length (pre ++ [w]) + i)%nat, v)) rest = imap (fun i v => ((length pre + S i)%nat, v)) rest).
  { apply imap_ext. intros i w' _. rewrite length_app. cbn. f_equal. lia. }
  specialize (IH (pre ++ [w])). rewrite length_app, Nat.add_1_r in IH. rewrite length_app, Nat.add_1_r in Heq.
  cbn [length seq imap]. rewrite Nat.add_0_r. cbn [fold_left].
  destruct (negb (length pre =? thief)%nat && ws_active w) eqn:Hc.
  - destruct (deque_length (ws_deque w) >? max_len) eqn:Hm.
    + destruct (IH (Some (length pre)) (deque_length (ws_deque w)) Hws' Hlt) as (best' & Hf & Hb' & Hr).
      exists best'. split; [by rewrite Heq in Hf |]. split; [done |].
      alone_act; [by rewrite Hi, bind_ret, Hc |]. alone_act; [by rewrite Hi, bind_ret, Hm | exact Hr].
    + destruct (IH best max_len Hws' Hb) as (best' & Hf & Hb' & Hr).
      exists best'. split; [by rewrite Heq in Hf |]. split; [done |].
      alone_act; [by rewrite Hi, bind_ret, Hc |]. alone_act; [by rewrite Hi, bind_ret, Hm | exact Hr].
  - destruct (IH best max_len Hws' Hb) as (best' & Hf & Hb' & Hr).
    exists best'. split; [by rewrite Heq in Hf |]. split; [done |].
    alone_act; [by rewrite Hi, bind_ret, Hc | exact Hr].
Qed.

Lemma steal_batch_alone s worker : sched_inv s ->
  rtc alone_step (s, Called (OStealBatch worker)) ((steal_batch s worker).2, Finished (Delivered (steal_batch s worker).1)).
Proof.
  intros Hs. etrans; [by apply guarded_alone |]. cbn [begin_guarded]. unfold steal_batch. rewrite (workers_lock s Hs).
  destruct (_ || _); [apply leaving_alone |].
  destruct (scan_alone s (Z.to_nat (WorkerId_as_u32 worker)) (content (workers s)) [] None 0) as (best & Hf & Hb & Hr);
    [done | done |].
  etrans; [exact Hr |]. unfold busiest. cbn [length Nat.add] in Hf. rewrite Hf.
  destruct best as [idx |]; [| apply leaving_alone].
  destruct (lookup_lt_is_Some_2 _ _ Hb) as [w Hw]. unfold on_deque. rewrite Hw.
  etrans; [by apply (deque_alone _ _ w) |]. cbn [run_deque].
  destruct (deque_steal_half (ws_deque w)) as [ts d]. apply leaving_alone.
Qed.

(** A call with no other in flight is the method of [Scheduler]. *)
Lemma scheduler_alone s o :
  sched_inv s -> queue_capacity s * item_size < 2 ^ 63 ->
  exists out s', method item_size s o = Ret (out, s') /\ rtc alone_step (s, Called o) (s', Finished out).
Proof.
  intros Hs Hcap. destruct o as [task | worker | worker | worker | worker | |]; cbn [method].
  - pose proof (submit_alone s task Hs). destruct (submit s task). by eexists _, _.
  - pose proof (pop_alone s worker Hs). destruct (pop s worker). by eexists _, _.
  - pose proof (steal_alone s worker Hs). destruct (steal s worker). by eexists _, _.
  - pose proof (steal_batch_alone s worker Hs). destruct (steal_batch s worker). by eexists _, _.
  - destruct (deactivate_worker s worker) as [known s'] eqn:Hd. eexists _, _. split; [done |].
    etrans; [by apply guarded_alone |]. cbn [begin_guarded]. rewrite Hd. apply leaving_alone.
  - eexists _, _. split; [done |]. by apply rtc_once.
  - unfold Scheduler_add_worker, WorkStealingDeque_new, allocate_bytes.
    rewrite (workers_lock s Hs), (proj2 (Z.ltb_lt _ _) Hcap), !bind_ret.
    destruct (add_worker s) as [r s'] eqn:Hadd. eexists _, _. split; [done |].
    alone_act; [done |]. alone_act; [by rewrite (workers_lock s Hs) |]. alone_act.
    + unfold Scheduler_add_worker, WorkStealingDeque_new, allocate_bytes.
      by rewrite (workers_lock s Hs), (proj2 (Z.ltb_lt _ _) Hcap), !bind_ret, Hadd.
    + apply leaving_alone.
Qed.

Lemma scheduler_lone t (p : Phase) : may_act {[t := p]} p.
Proof. destruct p; try done; [split; [| intros _] |..]; by apply nobody_singleton. Qed.

(** What the progress lemmas need holds of every state reached. *)
Lemma locked_inv_moves m x x' :
  (exists tr, locked_inv tr x) /\ (workers_to_come x.1 x.2 <= m)%nat -> moves x x' ->
  (exists tr, locked_inv tr x') /\ (workers_to_come x'.1 x'.2 <= m)%nat.
Proof using cap_usize cap_fits.
  intros [[tr Hinv] Hm] (l & Hstep & Hl). split; [exists (tr ++ option_list l); by eapply locked_step |].
  unfold workers_to_come in *.
  destruct Hstep as [s ph t o Hnone | s ph t p s' p' Hp Ho Hmay Ha | s ph t p out Hp Hout]; cbn [fst snd] in *.
  - by destruct (Hl t o).
  - pose proof (total_insert adds ph t p p' Hp). pose proof (advance_adds _ _ _ _ Ha). lia.
  - pose proof (total_delete adds ph t p Hp). lia.
Qed.

Lemma locked_act_work m tr s ph t p s' p' :
  locked_inv tr (s, ph) -> (workers_to_come s ph <= m)%nat -> ph !! t = Some p -> outcome p = None ->
  advance item_size s p = Ret (s', p') -> (work m p' < work m p)%nat.
Proof. intros Hinv Hm Hp. apply locked_advance_work. unfold workers_to_come in Hm. lia. Qed.

Lemma in_range_work m n p : in_range n p -> (n <= m)%nat -> (work m p <= 9 + 3 * m)%nat.
Proof.
  destruct p as [| | | ? ? [] | | ? ? [] | ? [] | ? [] | | | | |]; cbn; unfold deque_range; intros Hr Hn; try lia;
    repeat match goal with H : _ /\ _ |- _ => destruct H end; lia.
Qed.


End interleavings.
End locks.

(** ** Runs *)

#[local] Instance demo_policy : LockPolicy := true.
#[local] Instance demo_layout : TaskLayout := 8.
Definition demo_scheduler : Scheduler Z := with_capacity 1 4.
Definition act_n (t n : nat) : list (nat * option (op Z)) := replicate n (t, None).

(** Thread 0 is suspended in its push, with the mutex of the only deque; thread 1 has
    chosen the same deque and waits; thread 2, which pops there, and thread 3, which
    adds a worker, wait too.  When thread 0 goes on they all return. *)
Definition suspended_push : list (nat * option (op Z)) :=
  [(0%nat, Some (OSubmit 7))] ++ act_n 0 6 ++ [(1%nat, Some (OSubmit 8))] ++ act_n 1 5 ++
  [(2%nat, Some (OPop (mkWorkerId 0)))] ++ act_n 2 3 ++ [(3%nat, Some (OAddWorker))] ++ act_n 3 1.

Definition waits_at (t : nat) : option unit :=
  option_map (fun _ => ()) (conc_exec (demo_scheduler, ∅) (suspended_push ++ act_n t 1)).

Example push_blocks_others :
  waits_at 0 = Some () /\ waits_at 1 = None /\ waits_at 2 = None /\ waits_at 3 = None /\
  option_map fst (conc_exec (demo_scheduler, ∅)
    (suspended_push ++ act_n 0 4 ++ act_n 1 5 ++ act_n 2 4 ++ act_n 3 4)) =
  Some [Invoke 0 (OSubmit 7); Invoke 1 (OSubmit 8); Invoke 2 (OPop (mkWorkerId 0)); Invoke 3 (OAddWorker);
        Return 0 (Submitted (Some (mkTaskId 0))); Return 1 (Submitted (Some (mkTaskId 1)));
        Return 2 (Delivered [8]); Return 3 (Added (Some (mkWorkerId 1)))].
Proof. vm_compute. done. Qed.

