(* ===== verification/Demo.v ===== *)
(** * Demo: the scheduler demonstration (examples/scheduler_demo.rs)

    The whole program over the methods of [Scheduler]: its state is the scheduler
    and the lines printed so far, one per [println!]. *)

From stdpp Require Import pretty.
From S2P Require Import Prelude KernelError Scheduler.

Section demo.
Context {prof : Profile}.

Definition say (line : string) (out : list string) : list string := out ++ [line].
Definition newline : string := String (Ascii.ascii_of_nat 10) EmptyString.

(** [{:?}] of a [Vec] of integers. *)
Definition show_vec (l : list Z) : string :=
  ("[" +:+ match l with
   | [] => ""
   | x :: l => foldl (fun s x => s +:+ ", " +:+ pretty x) (pretty x) l
   end +:+ "]")%string.

Abbreviation State := (Scheduler Z * list string)%type.

(** [for i in 0..10 { if let Some(task_id) = scheduler.submit(i * 100) { println!(..) } }]. *)
Definition submit_and_report (i : Z) '((scheduler, out) : State) : comp State :=
  value ← mul_w 64 i 100;
  let '(r, scheduler) := submit scheduler value in
  match r with
  | Some task_id =>
      shown ← mul_w 64 i 100;
      Ret (scheduler, say ("  Submitted workload " +:+ pretty shown +:+ " -> TaskId(" +:+
        pretty (TaskId_as_u64 task_id) +:+ ")")%string out)
  | None => Ret (scheduler, out)
  end.

(** [while let Some(value) = scheduler.pop(WorkerId::new(0))]. *)
Definition pop_and_report '((scheduler, out) : State) : comp (State + State) :=
  let '(r, scheduler) := pop scheduler (WorkerId_new 0) in
  match r with
  | Some value => Ret (inl (scheduler, say ("  Worker 0 got: " +:+ pretty value)%string out))
  | None => Ret (inr (scheduler, out))
  end.

Definition submit_more (i : Z) '((scheduler, out) : State) : comp State :=
  value ← mul_w 64 i 100;
  Ret ((submit scheduler value).2, out).

Definition steal_and_report (_ : Z) '((scheduler, out) : State) : comp State :=
  let '(r, scheduler) := steal scheduler (WorkerId_new 3) in
  match r with
  | Some value => Ret (scheduler, say ("  Worker 3 stole: " +:+ pretty value)%string out)
  | None => Ret (scheduler, out)
  end.

Definition scheduler_demo (fuel : nat) : comp (list string) :=
  let out := say ("=== Pepita Work-Stealing Scheduler Demo ===" +:+ newline)%string [] in
  let scheduler := with_capacity 4 64 in
  let out := say ("Created scheduler with 4 workers (queue capacity: 64)" +:+ newline)%string out in
  let out := say "Submitting 10 tasks..."%string out in
  s ← for_each (seqZ 0 10) submit_and_report (scheduler, out);
  s ← loop fuel pop_and_report (s.1, say (newline +:+ "Worker 0 popping local tasks:")%string s.2);
  s ← for_each (seqZ 10 8) submit_more (s.1, say (newline +:+ "Submitting 8 more tasks...")%string s.2);
  s ← for_each (seqZ 0 4) steal_and_report
    (s.1, say (newline +:+ "Worker 3 stealing from other workers:")%string s.2);
  let '(stolen, scheduler) := steal_batch s.1 (WorkerId_new 2) in
  let out := say (newline +:+ "Worker 2 batch-stole " +:+ pretty (Z.of_nat (length stolen)) +:+
    " tasks: " +:+ show_vec stolen)%string s.2 in
  let out := say (newline +:+ "--- Scheduler State ---")%string out in
  let out := say ("  Workers:        " +:+ pretty (num_workers scheduler))%string out in
  pending ← pending_tasks scheduler;
  let out := say ("  Pending tasks:  " +:+ pretty pending)%string out in
  let out := say ("  Worker loads:   " +:+ show_vec (worker_loads scheduler))%string out in
  let out := say ("  Running:        " +:+ if is_running scheduler then "true" else "false")%string out in
  Ret (say (newline +:+ "Done.")%string out).

Lemma pop_and_report_eq s out :
  pop_and_report (s, out) =
  match pop s (WorkerId_new 0) with
  | (Some value, s') => Ret (inl (s', say ("  Worker 0 got: " +:+ pretty value)%string out))
  | (None, s') => Ret (inr (s', out))
  end.
Proof. done. Qed.

(** What the pop loop is about to print. *)
Definition popped (q : list Z) : list string :=
  (fun v => "  Worker 0 got: " +:+ pretty v)%string <$> reverse q.

(** The pop loop empties worker 0's queue, newest task first, and comes back: a
    queue never holds more than its capacity of 64, so that 65 turns are enough. *)
Lemma pop_loop_returns s out q fuel :
  sched_inv s -> queues s !! 0%nat = Some q -> (length q < fuel)%nat ->
  returns (loop fuel pop_and_report (s, out)) (fun s' =>
    sched_inv s'.1 /\ queues s'.1 !! 0%nat = Some [] /\ s'.2 = out ++ popped q).
Proof.
  intros Hs Hq Hfuel.
  apply loop_total with (m := fun st => length (default [] (queues st.1 !! 0%nat)))
    (I := fun st => sched_inv st.1 /\ exists q', queues st.1 !! 0%nat = Some q' /\
      st.2 ++ popped q' = out ++ popped q);
    [| by eauto | cbn; by rewrite Hq].
  clear s Hs Hq. intros [s o] (Hs & q' & Hq' & Ho). cbn [fst snd] in *. rewrite pop_and_report_eq.
  pose proof (pop_spec s (WorkerId_new 0) Hs) as Hp. cbv zeta in Hp.
  change (Z.to_nat (worker_raw (WorkerId_new 0))) with 0%nat in Hp. rewrite Hq' in *.
  destruct (pop s (WorkerId_new 0)) as [[t |] s']; apply returns_ret; cbn [fst snd].
  - destruct Hp as (q'' & [= ->] & Hq'' & Hs' & _). rewrite Hq''.
    rewrite list_lookup_insert_eq by (by apply lookup_lt_Some in Hq').
    cbn [from_option]. unfold id. rewrite length_app. cbn [length]. split; [| lia].
    split; [done |]. exists q''. split; [done |]. rewrite <- Ho. unfold say, popped.
    by rewrite reverse_snoc, <- app_assoc.
  - destruct Hp as (Hq'' & Hs' & _ & _ & [| [= ->]]); [done |]. split; [done |].
    rewrite Hq'', Hq'. unfold popped in Ho at 1. cbn in Ho. by rewrite app_nil_r in Ho.
Qed.

(** What the program prints. *)
Example scheduler_demo_prints : scheduler_demo 65 = Ret [
  ("=== Pepita Work-Stealing Scheduler Demo ===" +:+ newline);
  ("Created scheduler with 4 workers (queue capacity: 64)" +:+ newline);
  "Submitting 10 tasks...";
  "  Submitted workload 0 -> TaskId(0)"; "  Submitted workload 100 -> TaskId(1)";
  "  Submitted workload 200 -> TaskId(2)"; "  Submitted workload 300 -> TaskId(3)";
  "  Submitted workload 400 -> TaskId(4)"; "  Submitted workload 500 -> TaskId(5)";
  "  Submitted workload 600 -> TaskId(6)"; "  Submitted workload 700 -> TaskId(7)";
  "  Submitted workload 800 -> TaskId(8)"; "  Submitted workload 900 -> TaskId(9)";
  (newline +:+ "Worker 0 popping local tasks:");
  "  Worker 0 got: 800"; "  Worker 0 got: 400"; "  Worker 0 got: 0";
  (newline +:+ "Submitting 8 more tasks...");
  (newline +:+ "Worker 3 stealing from other workers:");
  "  Worker 3 stole: 1200"; "  Worker 3 stole: 1600"; "  Worker 3 stole: 100";
  "  Worker 3 stole: 500";
  (newline +:+ "Worker 2 batch-stole 2 tasks: [300, 700]");
  (newline +:+ "--- Scheduler State ---");
  "  Workers:        4"; "  Pending tasks:  9"; "  Worker loads:   [0, 3, 4, 2]";
  "  Running:        true"; (newline +:+ "Done.")]%string.
Proof. vm_compute. reflexivity. Qed.

End demo.
