(* ===== verification/Task.v ===== *)
(** * Task: units of work (src/task.rs)

    Priorities, affinities, states, backends, the three kinds of task, [Task]
    with its builder, and [ExecutionResult].  Paths and strings are [string]s,
    hash maps with string keys are [gmap]s, a [Duration] is its number of
    nanoseconds.  The [Debug] implementations are not modelled. *)

From S2P Require Import Prelude Bytes Scheduler.

(** ** Enumerations *)

Inductive TaskPriority : Set := Low | Normal | High | Critical.
Inductive CpuAffinity : Set :=
| AnyCore
| Core (c : Z)
| Cores (cores : list Z)
| NumaNode (node : Z).
Inductive TaskState : Set :=
| Pending | Queued | Running | Completed | Failed | Cancelled | TimedOut.
Inductive Backend : Set := Cpu | Gpu | Remote | AnyBackend.

#[export] Instance TaskPriority_eq_dec : EqDecision TaskPriority.
Proof. solve_decision. Defined.
#[export] Instance CpuAffinity_eq_dec : EqDecision CpuAffinity.
Proof. solve_decision. Defined.
#[export] Instance TaskState_eq_dec : EqDecision TaskState.
Proof. solve_decision. Defined.
#[export] Instance Backend_eq_dec : EqDecision Backend.
Proof. solve_decision. Defined.

Definition TaskPriority_default : TaskPriority := Normal.
Definition TaskPriority_as_u8 (p : TaskPriority) : Z :=
  match p with Low => 0 | Normal => 1 | High => 2 | Critical => 3 end.
Definition TaskPriority_from_u8 (value : Z) : option TaskPriority :=
  match value with
  | 0 => Some Low | 1 => Some Normal | 2 => Some High | 3 => Some Critical
  | _ => None
  end.
(** The derived [Ord]: declaration order. *)
Definition TaskPriority_lt (p q : TaskPriority) : bool :=
  match p, q with
  | Low, (Normal | High | Critical) | Normal, (High | Critical) | High, Critical => true
  | _, _ => false
  end.

Definition CpuAffinity_default : CpuAffinity := AnyCore.
Definition allows_core (a : CpuAffinity) (core : Z) : bool :=
  match a with
  | AnyCore => true
  | Core c => c =? core
  | Cores cores => existsb (Z.eqb core) cores
  | NumaNode _ => true
  end.

Definition TaskState_default : TaskState := Pending.
Definition is_terminal (s : TaskState) : bool :=
  match s with Completed | Failed | Cancelled | TimedOut => true | _ => false end.
Definition is_active (s : TaskState) : bool :=
  match s with Pending | Queued | Running => true | _ => false end.

Definition Backend_default : Backend := Cpu.
Definition is_local (b : Backend) : bool :=
  match b with Cpu | Gpu => true | _ => false end.

(** ** Kinds of task *)

Record BinaryTask : Type := mkBinaryTask {
  bt_path : string;
  bt_args : list string;
  bt_env : gmap string string;
  bt_working_dir : option string;
  bt_stdin : option bytes }.

Definition BinaryTask_new (path : string) : BinaryTask := mkBinaryTask path [] ∅ None None.
Definition with_args (t : BinaryTask) (args : list string) : BinaryTask :=
  mkBinaryTask (bt_path t) args (bt_env t) (bt_working_dir t) (bt_stdin t).
Definition with_env (t : BinaryTask) (env : gmap string string) : BinaryTask :=
  mkBinaryTask (bt_path t) (bt_args t) env (bt_working_dir t) (bt_stdin t).
Definition with_working_dir (t : BinaryTask) (dir : string) : BinaryTask :=
  mkBinaryTask (bt_path t) (bt_args t) (bt_env t) (Some dir) (bt_stdin t).
Definition with_stdin (t : BinaryTask) (stdin : bytes) : BinaryTask :=
  mkBinaryTask (bt_path t) (bt_args t) (bt_env t) (bt_working_dir t) (Some stdin).

Record ShaderTask : Type := mkShaderTask {
  shader_binary : bytes;
  input_sizes : list Z;
  output_sizes : list Z;
  workgroups : Z * Z * Z;
  push_constants : option bytes }.

Definition ShaderTask_new (binary : bytes) : ShaderTask :=
  mkShaderTask binary [] [] (1, 1, 1) None.
Definition with_inputs (t : ShaderTask) (sizes : list Z) : ShaderTask :=
  mkShaderTask (shader_binary t) sizes (output_sizes t) (workgroups t) (push_constants t).
Definition with_outputs (t : ShaderTask) (sizes : list Z) : ShaderTask :=
  mkShaderTask (shader_binary t) (input_sizes t) sizes (workgroups t) (push_constants t).
Definition with_workgroups (t : ShaderTask) (x y z : Z) : ShaderTask :=
  mkShaderTask (shader_binary t) (input_sizes t) (output_sizes t) (x, y, z) (push_constants t).
Definition with_push_constants (t : ShaderTask) (constants : bytes) : ShaderTask :=
  mkShaderTask (shader_binary t) (input_sizes t) (output_sizes t) (workgroups t) (Some constants).

Definition total_workgroups {prof : Profile} (t : ShaderTask) : comp Z :=
  let '(x, y, z) := workgroups t in
  xy ← mul_w 64 x y; mul_w 64 xy z.

Record PipelineTask : Type := mkPipelineTask {
  stages : list BinaryTask;
  pipe_output : bool }.

Definition PipelineTask_new : PipelineTask := mkPipelineTask [] true.
Definition PipelineTask_add_stage (t : PipelineTask) (task : BinaryTask) : PipelineTask :=
  mkPipelineTask (stages t ++ [task]) (pipe_output t).
Definition with_pipe_output (t : PipelineTask) (pipe : bool) : PipelineTask :=
  mkPipelineTask (stages t) pipe.
Definition num_stages (t : PipelineTask) : Z := Z.of_nat (length (stages t)).
Definition PipelineTask_is_empty (t : PipelineTask) : bool :=
  match stages t with [] => true | _ => false end.
Definition PipelineTask_default : PipelineTask := PipelineTask_new.

Inductive TaskKind : Type :=
| Binary (t : BinaryTask)
| Shader (t : ShaderTask)
| Pipeline (t : PipelineTask).

(** ** Tasks *)

Record Task : Type := mkTask {
  id : option TaskId;
  kind : TaskKind;
  backend : Backend;
  priority : TaskPriority;
  affinity : CpuAffinity;
  state : TaskState;
  timeout : option Z;
  max_retries : Z;
  retry_count : Z;
  metadata : gmap string string }.

Definition is_binary (t : Task) : bool :=
  match kind t with Binary _ => true | _ => false end.
Definition is_shader (t : Task) : bool :=
  match kind t with Shader _ => true | _ => false end.
Definition is_pipeline (t : Task) : bool :=
  match kind t with Pipeline _ => true | _ => false end.
Definition as_binary (t : Task) : option BinaryTask :=
  match kind t with Binary b => Some b | _ => None end.
Definition as_shader (t : Task) : option ShaderTask :=
  match kind t with Shader b => Some b | _ => None end.
Definition as_pipeline (t : Task) : option PipelineTask :=
  match kind t with Pipeline b => Some b | _ => None end.

Definition can_retry (t : Task) : bool := retry_count t <? max_retries t.

Definition set_retry_count (t : Task) (n : Z) : Task :=
  mkTask (id t) (kind t) (backend t) (priority t) (affinity t) (state t) (timeout t)
    (max_retries t) n (metadata t).
Definition set_id (t : Task) (i : option TaskId) : Task :=
  mkTask i (kind t) (backend t) (priority t) (affinity t) (state t) (timeout t)
    (max_retries t) (retry_count t) (metadata t).

(** [self.retry_count += 1]. *)
Definition increment_retry {prof : Profile} (t : Task) : comp Task :=
  n ← add_w 32 (retry_count t) 1; Ret (set_retry_count t n).

(** ** The builder *)

Record TaskBuilder : Type := mkTaskBuilder {
  b_kind : TaskKind;
  b_backend : Backend;
  b_priority : TaskPriority;
  b_affinity : CpuAffinity;
  b_timeout : option Z;
  b_max_retries : Z;
  b_metadata : gmap string string }.

Definition TaskBuilder_new (k : TaskKind) : TaskBuilder :=
  mkTaskBuilder k Backend_default TaskPriority_default CpuAffinity_default None 3 ∅.
Definition Task_binary (path : string) : TaskBuilder :=
  TaskBuilder_new (Binary (BinaryTask_new path)).
Definition Task_shader (binary : bytes) : TaskBuilder :=
  TaskBuilder_new (Shader (ShaderTask_new binary)).
Definition Task_pipeline : TaskBuilder := TaskBuilder_new (Pipeline PipelineTask_new).

Definition set_kind (b : TaskBuilder) (k : TaskKind) : TaskBuilder :=
  mkTaskBuilder k (b_backend b) (b_priority b) (b_affinity b) (b_timeout b) (b_max_retries b)
    (b_metadata b).

Definition builder_args (b : TaskBuilder) (args : list string) : TaskBuilder :=
  match b_kind b with
  | Binary task => set_kind b (Binary (with_args task args))
  | _ => b
  end.
Definition builder_env (b : TaskBuilder) (env : gmap string string) : TaskBuilder :=
  match b_kind b with
  | Binary task => set_kind b (Binary (with_env task env))
  | _ => b
  end.
Definition builder_add_stage (b : TaskBuilder) (stage : BinaryTask) : TaskBuilder :=
  match b_kind b with
  | Pipeline task => set_kind b (Pipeline (PipelineTask_add_stage task stage))
  | _ => b
  end.
Definition builder_backend (b : TaskBuilder) (x : Backend) : TaskBuilder :=
  mkTaskBuilder (b_kind b) x (b_priority b) (b_affinity b) (b_timeout b) (b_max_retries b)
    (b_metadata b).
Definition builder_priority (b : TaskBuilder) (x : TaskPriority) : TaskBuilder :=
  mkTaskBuilder (b_kind b) (b_backend b) x (b_affinity b) (b_timeout b) (b_max_retries b)
    (b_metadata b).
Definition builder_affinity (b : TaskBuilder) (x : CpuAffinity) : TaskBuilder :=
  mkTaskBuilder (b_kind b) (b_backend b) (b_priority b) x (b_timeout b) (b_max_retries b)
    (b_metadata b).
Definition builder_timeout (b : TaskBuilder) (x : Z) : TaskBuilder :=
  mkTaskBuilder (b_kind b) (b_backend b) (b_priority b) (b_affinity b) (Some x) (b_max_retries b)
    (b_metadata b).
Definition builder_max_retries (b : TaskBuilder) (x : Z) : TaskBuilder :=
  mkTaskBuilder (b_kind b) (b_backend b) (b_priority b) (b_affinity b) (b_timeout b) x
    (b_metadata b).
Definition builder_metadata (b : TaskBuilder) (key value : string) : TaskBuilder :=
  mkTaskBuilder (b_kind b) (b_backend b) (b_priority b) (b_affinity b) (b_timeout b)
    (b_max_retries b) (<[key := value]> (b_metadata b)).

Definition build (b : TaskBuilder) : Task :=
  mkTask None (b_kind b) (b_backend b) (b_priority b) (b_affinity b) Pending (b_timeout b)
    (b_max_retries b) 0 (b_metadata b).

(** ** Results *)

Record ExecutionResult : Type := mkExecutionResult {
  er_task_id : TaskId;
  er_exit_code : option Z;
  er_stdout : bytes;
  er_stderr : bytes;
  er_output_buffers : list bytes;
  er_duration : Z;
  er_state : TaskState;
  er_error : option string }.

Definition ExecutionResult_success (task_id : TaskId) (duration : Z) : ExecutionResult :=
  mkExecutionResult task_id (Some 0) [] [] [] duration Completed None.
Definition ExecutionResult_failure (task_id : TaskId) (error : string) (duration : Z) :
  ExecutionResult := mkExecutionResult task_id None [] [] [] duration Failed (Some error).
Definition is_success (r : ExecutionResult) : bool :=
  match er_state r with Completed => true | _ => false end.
Definition is_failure (r : ExecutionResult) : bool :=
  match er_state r with Failed => true | _ => false end.

(** [stdout_string] and [stderr_string]. *)
Definition stdout_string (r : ExecutionResult) : string :=
  string_of_bytes (utf8_lossy (er_stdout r)).
Definition stderr_string (r : ExecutionResult) : string :=
  string_of_bytes (utf8_lossy (er_stderr r)).

(** The text of an output is a Rust string, and the output itself where that is
    well formed. *)
Lemma output_text (r : ExecutionResult) :
  (is_bytes (er_stdout r) -> is_utf8 (stdout_string r)) /\
  (utf8_valid (er_stdout r) = true -> stdout_string r = string_of_bytes (er_stdout r)).
Proof.
  destruct (utf8_lossy_spec (er_stdout r)) as [Hv He]. unfold stdout_string, is_utf8. split.
  - intros Hb. rewrite as_bytes_of_string; [done |]. by apply utf8_lossy_bytes.
  - intros H. by rewrite He.
Qed.

(** ** Theorems *)

(** The numeric codes of the priorities are a bijection onto 0..3 that
    reflects their order, and every task state is either terminal or active,
    never both. *)
Theorem priority_codes_and_states (v : Z) (p q : TaskPriority) (s : TaskState) :
  (TaskPriority_from_u8 v = Some p <-> v = TaskPriority_as_u8 p) /\
  (TaskPriority_from_u8 v = None <-> ~ (0 <= v <= 3)) /\
  (TaskPriority_lt p q = true <-> TaskPriority_as_u8 p < TaskPriority_as_u8 q) /\
  is_active s = negb (is_terminal s).
Proof.
  assert (Hv : v = 0 \/ v = 1 \/ v = 2 \/ v = 3 \/
    (~ 0 <= v <= 3 /\ TaskPriority_from_u8 v = None)).
  { destruct (decide (0 <= v <= 3)) as [? | Hout]; [lia |].
    do 4 right. split; [done |]. destruct v as [| r |]; [lia | | done].
    do 2 (destruct r as [r | r |]; cbn; try done; try lia). }
  split; [| split; [| split]].
  - destruct Hv as [-> | [-> | [-> | [-> | [H ->]]]]]; destruct p; cbn; split; (done || lia).
  - destruct Hv as [-> | [-> | [-> | [-> | [H ->]]]]]; cbn; split; (done || lia).
  - destruct p, q; cbn; split; (done || lia).
  - by destruct s.
Qed.

(** [total_workgroups] is the product of the three dimensions when it fits
    64 bits, which any two 32-bit dimensions do; a larger product panics in a
    build with overflow checks and is reduced modulo 2^64 in one without. *)
Theorem total_workgroups_spec (prof : Profile) t x y z :
  workgroups t = (x, y, z) -> u32 x -> u32 y -> u32 z ->
  total_workgroups t =
    (if decide (x * y * z < 2 ^ 64) then Ret (x * y * z)
     else if overflow_checks then Panic else Ret (wrap 64 (x * y * z))) /\
  (z = 1 -> total_workgroups t = Ret (x * y)).
Proof.
  intros Ht Hx Hy Hz. unfold total_workgroups. rewrite Ht. unfold mul_w.
  rewrite checked_in by (width_simpl; nia). rewrite bind_ret. split.
  - unfold checked. assert (0 <= x * y * z) by (width_simpl; nia).
    destruct (decide (x * y * z < 2 ^ 64)).
    + rewrite decide_True; [done |]. by split.
    + rewrite decide_False; [done |]. intros [_ ?]; done.
  - intros ->. rewrite Z.mul_1_r. apply checked_in. width_simpl; nia.
Qed.

(** The setters as data. *)
Inductive BuilderOp : Type :=
| SetArgs (args : list string)
| SetEnv (env : gmap string string)
| AddStage (stage : BinaryTask)
| SetBackend (x : Backend)
| SetPriority (x : TaskPriority)
| SetAffinity (x : CpuAffinity)
| SetTimeout (x : Z)
| SetMaxRetries (x : Z)
| SetMetadata (key value : string).

Definition builder_step (b : TaskBuilder) (o : BuilderOp) : TaskBuilder :=
  match o with
  | SetArgs x => builder_args b x
  | SetEnv x => builder_env b x
  | AddStage x => builder_add_stage b x
  | SetBackend x => builder_backend b x
  | SetPriority x => builder_priority b x
  | SetAffinity x => builder_affinity b x
  | SetTimeout x => builder_timeout b x
  | SetMaxRetries x => builder_max_retries b x
  | SetMetadata k v => builder_metadata b k v
  end.
Definition builder_run (b : TaskBuilder) (ops : list BuilderOp) : TaskBuilder :=
  fold_left builder_step ops b.

Definition the_args o := match o with SetArgs x => Some x | _ => None end.
Definition the_env o := match o with SetEnv x => Some x | _ => None end.
Definition the_stage o := match o with AddStage x => Some x | _ => None end.
Definition the_backend o := match o with SetBackend x => Some x | _ => None end.
Definition the_priority o := match o with SetPriority x => Some x | _ => None end.
Definition the_affinity o := match o with SetAffinity x => Some x | _ => None end.
Definition the_timeout o := match o with SetTimeout x => Some (Some x) | _ => None end.
Definition the_max_retries o := match o with SetMaxRetries x => Some x | _ => None end.
Definition the_metadata (key : string) o :=
  match o with
  | SetMetadata k v => if decide (k = key) then Some (Some v) else None
  | _ => None
  end.

(** What the setters make of a kind: [args] and [env] reach binary tasks only,
    [add_stage] pipelines only, and shaders are not changed. *)
Definition built_kind (k : TaskKind) (ops : list BuilderOp) : TaskKind :=
  match k with
  | Binary t => Binary (mkBinaryTask (bt_path t) (latest (bt_args t) the_args ops)
      (latest (bt_env t) the_env ops) (bt_working_dir t) (bt_stdin t))
  | Shader t => Shader t
  | Pipeline t => Pipeline (mkPipelineTask (stages t ++ omap the_stage ops) (pipe_output t))
  end.

Lemma built_kind_snoc k ops o :
  built_kind k (ops ++ [o]) = b_kind (builder_step (TaskBuilder_new (built_kind k ops)) o).
Proof.
  destruct k; cbn; rewrite ?latest_snoc, ?omap_app; destruct o; cbn; rewrite ?app_nil_r; try done.
  by rewrite app_assoc.
Qed.

Lemma builder_step_kind b o :
  b_kind (builder_step b o) = b_kind (builder_step (TaskBuilder_new (b_kind b)) o).
Proof.
  destruct o; cbn; unfold builder_args, builder_env, builder_add_stage; cbn; try done;
    destruct (b_kind b) eqn:E; cbn; by rewrite ?E.
Qed.

(** C34. The builder, for any sequence of setter calls in any order: the built
    task is pending, has no id and no retries, and each attribute is the value
    of the last call that set it, or its default (CPU, normal priority, any
    core, no timeout, three retries, no metadata); pipeline stages come in the
    order of the calls and setters of another kind of task have no effect. *)
Theorem build_last_setter_wins k ops :
  let t := build (builder_run (TaskBuilder_new k) ops) in
  id t = None /\ state t = Pending /\ retry_count t = 0 /\
  kind t = built_kind k ops /\
  backend t = latest Cpu the_backend ops /\
  priority t = latest Normal the_priority ops /\
  affinity t = latest AnyCore the_affinity ops /\
  timeout t = latest None the_timeout ops /\
  max_retries t = latest 3 the_max_retries ops /\
  forall key, metadata t !! key = latest None (the_metadata key) ops.
Proof.
  cbn. do 3 (split; [done |]).
  induction ops as [|o ops IH] using rev_ind.
  { cbn. unfold latest; cbn. split; [| by repeat split].
    destruct k as [[] | | []]; cbn; rewrite ?app_nil_r; done. }
  unfold builder_run in *. rewrite fold_left_app. cbn [fold_left].
  set (b := fold_left builder_step ops _) in *.
  destruct IH as (Hk & Hb & Hp & Ha & Ht & Hr & Hm).
  rewrite built_kind_snoc, builder_step_kind, Hk, !latest_snoc, <- Hb, <- Hp, <- Ha, <- Ht, <- Hr.
  split; [done |].
  assert (Hmeta : forall key, latest None (the_metadata key) (ops ++ [o]) =
    match the_metadata key o with Some a => a | None => b_metadata b !! key end).
  { intros key. by rewrite latest_snoc, Hm. }
  setoid_rewrite Hmeta. clearbody b.
  destruct o; cbn; unfold builder_args, builder_env, builder_add_stage;
    try (by destruct (b_kind b)); try by repeat split.
  do 5 (split; [done |]). intros key'. destruct (decide (key = key')) as [-> |].
  - by rewrite lookup_insert_eq.
  - by rewrite lookup_insert_ne.
Qed.

Lemma total_workgroups_witness :
  @total_workgroups dev (with_workgroups (ShaderTask_new []) 4294967295 4294967295 4294967295) = Panic.
Proof.
  destruct (total_workgroups_spec dev
    (with_workgroups (ShaderTask_new []) 4294967295 4294967295 4294967295)
    4294967295 4294967295 4294967295 eq_refl) as [H _];
    [split; [discriminate | reflexivity] .. |].
  exact H.
Defined.
