(* ===== verification/Transport.v ===== *)
(** * Transport: the wire format (src/transport.rs)

    Message types, the heartbeat, task-result and register payloads, and the
    length-prefixed [Message] frame, with every encoder and decoder.  A decoder
    is a [comp (Result _)]: the code indexes its input byte by byte, so an index
    out of range is a panic, which the theorems locate exactly. *)

From S2P Require Import Prelude Bytes KernelError Scheduler Task.

(** ** Message types *)

Inductive MessageType : Set :=
| MTaskSubmit | MTaskResult | MHeartbeat | MTaskCancel | MAck
| MError | MShutdown | MRegister | MDeregister | MStatus.

#[export] Instance MessageType_eq_dec : EqDecision MessageType.
Proof. solve_decision. Defined.

Definition MessageType_as_u8 (t : MessageType) : Z :=
  match t with
  | MTaskSubmit => 0 | MTaskResult => 1 | MHeartbeat => 2 | MTaskCancel => 3 | MAck => 4
  | MError => 5 | MShutdown => 6 | MRegister => 7 | MDeregister => 8 | MStatus => 9
  end.
Definition MessageType_from_u8 (value : Z) : option MessageType :=
  match value with
  | 0 => Some MTaskSubmit | 1 => Some MTaskResult | 2 => Some MHeartbeat
  | 3 => Some MTaskCancel | 4 => Some MAck | 5 => Some MError | 6 => Some MShutdown
  | 7 => Some MRegister | 8 => Some MDeregister | 9 => Some MStatus
  | _ => None
  end.

(** ** Heartbeats *)

Record HeartbeatPayload : Type := mkHeartbeat {
  hb_worker_id : Z;
  hb_timestamp : Z;
  hb_pending_tasks : Z;
  hb_cpu_load : Z;
  hb_memory_usage : Z }.

(** [now]: milliseconds since the epoch; a clock before it counts as the epoch. *)
Definition HeartbeatPayload_new (now : Z) (worker_id : Z) : HeartbeatPayload :=
  mkHeartbeat worker_id (wrap 64 (Z.max now 0)) 0 0 0.
Definition with_pending_tasks (p : HeartbeatPayload) (count : Z) : HeartbeatPayload :=
  mkHeartbeat (hb_worker_id p) (hb_timestamp p) count (hb_cpu_load p) (hb_memory_usage p).
Definition with_cpu_load (p : HeartbeatPayload) (load : Z) : HeartbeatPayload :=
  mkHeartbeat (hb_worker_id p) (hb_timestamp p) (hb_pending_tasks p)
    (if load >? 100 then 100 else load) (hb_memory_usage p).
Definition with_memory_usage (p : HeartbeatPayload) (usage : Z) : HeartbeatPayload :=
  mkHeartbeat (hb_worker_id p) (hb_timestamp p) (hb_pending_tasks p) (hb_cpu_load p)
    (if usage >? 100 then 100 else usage).

Definition HeartbeatPayload_to_bytes (p : HeartbeatPayload) : bytes :=
  be_bytes 4 (hb_worker_id p) ++ be_bytes 8 (hb_timestamp p) ++
  be_bytes 4 (hb_pending_tasks p) ++ [hb_cpu_load p] ++ [hb_memory_usage p].

Definition HeartbeatPayload_from_bytes (l : bytes) : comp (Result HeartbeatPayload) :=
  if (length l <? 18)%nat then Ret (Err InvalidRequest)
  else
    worker_id ← index_n l 0 4;
    timestamp ← index_n l 4 8;
    pending_tasks ← index_n l 12 4;
    cpu_load ← index l 16;
    memory_usage ← index l 17;
    Ret (Ok (mkHeartbeat (be_value worker_id) (be_value timestamp) (be_value pending_tasks)
      cpu_load memory_usage)).

(** ** Task results *)

Record TaskResultPayload : Type := mkTaskResult {
  tr_task_id : Z;
  tr_state : TaskState;
  tr_exit_code : option Z;
  tr_duration_ms : Z;
  tr_error : option string }.

Definition TaskResultPayload_new (task_id : TaskId) (state : TaskState) (duration : Z) :
  TaskResultPayload :=
  mkTaskResult (TaskId_as_u64 task_id) state None (wrap 64 (duration / 1000000)) None.
Definition with_exit_code (p : TaskResultPayload) (code : Z) : TaskResultPayload :=
  mkTaskResult (tr_task_id p) (tr_state p) (Some code) (tr_duration_ms p) (tr_error p).
Definition with_error (p : TaskResultPayload) (error : string) : TaskResultPayload :=
  mkTaskResult (tr_task_id p) (tr_state p) (tr_exit_code p) (tr_duration_ms p) (Some error).

Definition state_code (s : TaskState) : Z :=
  match s with
  | Pending => 0 | Queued => 1 | Running => 2 | Completed => 3
  | Failed => 4 | Cancelled => 5 | TimedOut => 6
  end.
Definition state_of_code (b : Z) : option TaskState :=
  match b with
  | 0 => Some Pending | 1 => Some Queued | 2 => Some Running | 3 => Some Completed
  | 4 => Some Failed | 5 => Some Cancelled | 6 => Some TimedOut
  | _ => None
  end.

Definition TaskResultPayload_to_bytes (p : TaskResultPayload) : bytes :=
  be_bytes 8 (tr_task_id p) ++ [state_code (tr_state p)] ++
  match tr_exit_code p with
  | Some code => [1] ++ i32_to_be_bytes code
  | None => [0] ++ [0; 0; 0; 0]
  end ++
  be_bytes 8 (tr_duration_ms p) ++
  match tr_error p with
  | Some err =>
      let err_bytes := as_bytes err in
      be_bytes 4 (wrap 32 (Z.of_nat (length err_bytes))) ++ err_bytes
  | None => be_bytes 4 0
  end.

(** The variable part: a length at [22..26], then the text. *)
Definition decode_error (l : bytes) : comp (Result (option string)) :=
  if (22 <? length l)%nat then
    len ← index_n l 22 4;
    let err_len := be_value len in
    if (err_len >? 0) && (Z.of_nat (length l) >=? 26 + err_len) then
      text ← slice l 26 (26 + Z.to_nat err_len);
      match from_utf8 text with
      | Some s => Ret (Ok (Some s))
      | None => Ret (Err InvalidRequest)
      end
    else Ret (Ok None)
  else Ret (Ok None).

Definition TaskResultPayload_from_bytes (l : bytes) : comp (Result TaskResultPayload) :=
  if (length l <? 22)%nat then Ret (Err InvalidRequest)
  else
    task_id ← index_n l 0 8;
    code ← index l 8;
    match state_of_code code with
    | None => Ret (Err InvalidRequest)
    | Some state =>
        flag ← index l 9;
        exit_code ← (if flag =? 1 then b ← index_n l 10 4; Ret (Some (i32_from_be_bytes b))
                     else Ret None);
        duration_ms ← index_n l 14 8;
        error ←? decode_error l;
        Ret (Ok (mkTaskResult (be_value task_id) state exit_code (be_value duration_ms) error))
    end.

(** ** Registrations *)

Record RegisterPayload : Type := mkRegister {
  rg_worker_id : Z;
  rg_backend : Backend;
  rg_num_workers : Z;
  rg_name : string }.

Definition RegisterPayload_new (worker_id : Z) (backend : Backend) (num : Z) : RegisterPayload :=
  mkRegister worker_id backend num "".
Definition with_name (p : RegisterPayload) (name : string) : RegisterPayload :=
  mkRegister (rg_worker_id p) (rg_backend p) (rg_num_workers p) name.

Definition backend_code (b : Backend) : Z :=
  match b with Cpu => 0 | Gpu => 1 | Remote => 2 | AnyBackend => 3 end.
Definition backend_of_code (b : Z) : option Backend :=
  match b with
  | 0 => Some Cpu | 1 => Some Gpu | 2 => Some Remote | 3 => Some AnyBackend
  | _ => None
  end.

Definition RegisterPayload_to_bytes (p : RegisterPayload) : bytes :=
  let name_bytes := as_bytes (rg_name p) in
  be_bytes 4 (rg_worker_id p) ++ [backend_code (rg_backend p)] ++
  be_bytes 2 (rg_num_workers p) ++
  be_bytes 2 (wrap 16 (Z.of_nat (length name_bytes))) ++ name_bytes.

Definition RegisterPayload_from_bytes (l : bytes) : comp (Result RegisterPayload) :=
  if (length l <? 9)%nat then Ret (Err InvalidRequest)
  else
    worker_id ← index_n l 0 4;
    code ← index l 4;
    match backend_of_code code with
    | None => Ret (Err InvalidRequest)
    | Some backend =>
        num ← index_n l 5 2;
        len ← index_n l 7 2;
        let name_len := be_value len in
        name ←? (if (name_len >? 0) && (Z.of_nat (length l) >=? 9 + name_len) then
                   text ← slice l 9 (9 + Z.to_nat name_len);
                   match from_utf8 text with
                   | Some s => Ret (Ok s)
                   | None => Ret (Err InvalidRequest)
                   end
                 else Ret (Ok ""));
        Ret (Ok (mkRegister (be_value worker_id) backend (be_value num) name))
    end.

(** ** Messages *)

Record Message : Type := mkMessage { msg_type : MessageType; msg_payload : bytes }.

Definition Message_new (t : MessageType) (payload : bytes) : Message := mkMessage t payload.
Definition heartbeat (now : Z) (worker_id : Z) : Message :=
  Message_new MHeartbeat (HeartbeatPayload_to_bytes (HeartbeatPayload_new now worker_id)).
Definition heartbeat_full (p : HeartbeatPayload) : Message :=
  Message_new MHeartbeat (HeartbeatPayload_to_bytes p).
Definition task_result (p : TaskResultPayload) : Message :=
  Message_new MTaskResult (TaskResultPayload_to_bytes p).
Definition register (p : RegisterPayload) : Message :=
  Message_new MRegister (RegisterPayload_to_bytes p).
Definition ack : Message := Message_new MAck [].
Definition error (message : string) : Message := Message_new MError (as_bytes message).
Definition shutdown : Message := Message_new MShutdown [].
Definition task_cancel (task_id : TaskId) : Message :=
  Message_new MTaskCancel (be_bytes 8 (TaskId_as_u64 task_id)).
Definition message_type (m : Message) : MessageType := msg_type m.
Definition payload (m : Message) : bytes := msg_payload m.

Definition as_heartbeat (m : Message) : comp (Result HeartbeatPayload) :=
  if decide (msg_type m <> MHeartbeat) then Ret (Err InvalidRequest)
  else HeartbeatPayload_from_bytes (msg_payload m).
Definition as_task_result (m : Message) : comp (Result TaskResultPayload) :=
  if decide (msg_type m <> MTaskResult) then Ret (Err InvalidRequest)
  else TaskResultPayload_from_bytes (msg_payload m).
Definition as_register (m : Message) : comp (Result RegisterPayload) :=
  if decide (msg_type m <> MRegister) then Ret (Err InvalidRequest)
  else RegisterPayload_from_bytes (msg_payload m).
Definition as_error (m : Message) : option string :=
  if decide (msg_type m <> MError) then None else from_utf8 (msg_payload m).

(** [1 + payload_len] is a plain [u32] addition. *)
Definition Message_to_bytes {prof : Profile} (m : Message) : comp bytes :=
  let payload_len := wrap 32 (Z.of_nat (length (msg_payload m))) in
  total_len ← add_w 32 1 payload_len;
  Ret (be_bytes 4 total_len ++ [MessageType_as_u8 (msg_type m)] ++ msg_payload m).

Definition Message_from_bytes (l : bytes) : comp (Result Message) :=
  if (length l <? 5)%nat then Ret (Err InvalidRequest)
  else
    len ← index_n l 0 4;
    let total_len := be_value len in
    if Z.of_nat (length l) <? 4 + total_len then Ret (Err InvalidRequest)
    else
      code ← index l 4;
      match MessageType_from_u8 code with
      | None => Ret (Err InvalidRequest)
      | Some t =>
          body ← slice l 5 (4 + Z.to_nat total_len);
          Ret (Ok (mkMessage t body))
      end.

Definition size (m : Message) : Z := 4 + 1 + Z.of_nat (length (msg_payload m)).

(** ** Reading fields *)

#[local] Arguments be_bytes : simpl never.
#[local] Arguments be_value : simpl never.
#[local] Arguments i32_to_be_bytes : simpl never.
#[local] Arguments index_n : simpl never.

Lemma index_n_head (a r : bytes) n : length a = n -> index_n (a ++ r) 0 n = Ret a.
Proof. intros H. apply (index_n_mid [] a r n 0); done. Qed.

Lemma index_n_all (a : bytes) n : length a = n -> index_n a 0 n = Ret a.
Proof. intros H. rewrite <- (app_nil_r a) at 1. by apply index_n_head. Qed.

Lemma index_n_skip (a r : bytes) i k n :
  length a = k -> (k <= i)%nat -> index_n (a ++ r) i n = index_n r (i - k) n.
Proof.
  intros <- Hi. unfold index_n.
  replace i with (length a + (i - length a))%nat at 1 by lia. generalize (i - length a)%nat as j.
  clear. revert r. induction n as [|n IH]; intros r j; [done |]. cbn.
  assert (H : index (a ++ r) (length a + j) = index r j).
  { unfold index. by rewrite lookup_app_r, (Nat.add_comm (length a)), Nat.add_sub by lia. }
  rewrite H. destruct (index r j); cbn; [| done | done].
  replace (S (length a + j)) with (length a + S j)%nat by lia. by rewrite IH.
Qed.

Lemma index_skip (a r : bytes) i k :
  length a = k -> (k <= i)%nat -> index (a ++ r) i = index r (i - k).
Proof. intros <- Hi. unfold index. by rewrite lookup_app_r. Qed.

Lemma slice_mid (a b r : bytes) i j :
  length a = i -> j = (i + length b)%nat -> slice (a ++ b ++ r) i j = Ret b.
Proof.
  intros <- ->. rewrite slice_ok by (rewrite ?length_app; lia).
  rewrite drop_app_length. replace (_ - _)%nat with (length b) by lia.
  by rewrite take_app_length.
Qed.

(** Reads the fields of a concatenation of encoded fields, one after the other. *)
Ltac len := rewrite ?length_app, ?length_be_bytes; cbn [length Nat.add]; try reflexivity; try lia.
Ltac skip_field :=
  first
    [ rewrite (index_n_skip _ _ _ 1) by len | rewrite (index_n_skip _ _ _ 2) by len
    | rewrite (index_n_skip _ _ _ 4) by len | rewrite (index_n_skip _ _ _ 8) by len
    | rewrite (index_skip _ _ _ 1) by len | rewrite (index_skip _ _ _ 2) by len
    | rewrite (index_skip _ _ _ 4) by len | rewrite (index_skip _ _ _ 8) by len ];
  cbn [Nat.sub].
Ltac read_byte :=
  match goal with |- context [index ([?b] ++ ?r) 0] => change (index ([b] ++ r) 0) with (Ret b) end.
Ltac reads :=
  repeat first
    [ skip_field | rewrite index_n_head by len | rewrite index_n_all by len | read_byte
    | progress rewrite ?bind_ret ].

(** ** Heartbeats *)

Definition wf_heartbeat (p : HeartbeatPayload) : Prop :=
  u32 (hb_worker_id p) /\ u64 (hb_timestamp p) /\ u32 (hb_pending_tasks p) /\
  u8 (hb_cpu_load p) /\ u8 (hb_memory_usage p).

Lemma heartbeat_roundtrip p rest :
  wf_heartbeat p ->
  HeartbeatPayload_from_bytes (HeartbeatPayload_to_bytes p ++ rest) = Ret (Ok p).
Proof.
  intros (Hw & Ht & Hp & _). unfold HeartbeatPayload_from_bytes, HeartbeatPayload_to_bytes.
  rewrite <- !app_assoc.
  match goal with |- context [(?a <? ?b)%nat] => destruct (Nat.ltb_spec a b) as [H | _] end.
  { revert H; len. }
  reads. rewrite !be_roundtrip by done. by destruct p.
Qed.

Lemma index_byte (l : bytes) i :
  is_bytes l -> (i < length l)%nat -> exists b, index l i = Ret b /\ u8 b /\ l !! i = Some b.
Proof.
  intros Hl Hi. destruct (index_lt l i Hi) as (b & Hb & He). exists b. split; [done |].
  split; [by apply (Forall_lookup_1 _ _ _ _ Hl Hb) | done].
Qed.

Lemma field_bytes (l : bytes) i n :
  is_bytes l -> (i + n <= length l)%nat ->
  exists a, index_n l i n = Ret a /\ is_bytes a /\ length a = n /\ a = take n (drop i l).
Proof.
  intros Hl Hi. eexists; split; [by apply mapM_index_ok |].
  split; [by apply Forall_take, Forall_drop |]. split; [| done].
  rewrite length_take, length_drop. lia.
Qed.

Lemma take1_drop {A} (l : list A) i a : l !! i = Some a -> [a] = take 1 (drop i l).
Proof. intros H. by rewrite (drop_S _ _ _ H). Qed.

(** Heartbeats on the wire: decoding an encoded heartbeat, whatever follows
    it, restores it; and on arbitrary bytes the decoder never panics, rejects
    inputs shorter than 18 bytes, and otherwise returns the heartbeat whose
    encoding is the first 18 bytes. *)
Theorem heartbeat_codec :
  (forall p rest, wf_heartbeat p ->
     HeartbeatPayload_from_bytes (HeartbeatPayload_to_bytes p ++ rest) = Ret (Ok p)) /\
  (forall l, is_bytes l ->
     if (length l <? 18)%nat then HeartbeatPayload_from_bytes l = Ret (Err InvalidRequest)
     else exists p, wf_heartbeat p /\ HeartbeatPayload_from_bytes l = Ret (Ok p) /\
            HeartbeatPayload_to_bytes p = take 18 l).
Proof.
  split; [apply heartbeat_roundtrip |]. intros l Hl.
  destruct (Nat.ltb_spec (length l) 18) as [Hlt | Hge].
  { unfold HeartbeatPayload_from_bytes. by rewrite (proj2 (Nat.ltb_lt _ _) Hlt). }
  destruct (field_bytes l 0 4 Hl ltac:(lia)) as (a & Ha & Ba & La & Ea).
  destruct (field_bytes l 4 8 Hl ltac:(lia)) as (b & Hb & Bb & Lb & Eb).
  destruct (field_bytes l 12 4 Hl ltac:(lia)) as (c & Hc & Bc & Lc & Ec).
  destruct (index_byte l 16 Hl ltac:(lia)) as (d & Hd & Bd & Ed).
  destruct (index_byte l 17 Hl ltac:(lia)) as (e & He & Be & Ee).
  exists (mkHeartbeat (be_value a) (be_value b) (be_value c) d e). split; [| split].
  - pose proof (be_value_bound a Ba) as Pa. pose proof (be_value_bound b Bb) as Pb.
    pose proof (be_value_bound c Bc) as Pc. rewrite La in Pa; rewrite Lb in Pb; rewrite Lc in Pc.
    repeat split; cbn; (apply Pa || apply Pb || apply Pc || apply Bd || apply Be).
  - unfold HeartbeatPayload_from_bytes. rewrite (proj2 (Nat.ltb_ge _ _) Hge).
    by rewrite Ha, bind_ret, Hb, bind_ret, Hc, bind_ret, Hd, bind_ret, He, bind_ret.
  - unfold HeartbeatPayload_to_bytes; cbn [hb_worker_id hb_timestamp hb_pending_tasks hb_cpu_load
      hb_memory_usage].
    rewrite !be_value_roundtrip by done.
    rewrite Ea, Eb, Ec, drop_0, (take1_drop _ _ _ Ed), (take1_drop _ _ _ Ee).
    by rewrite !app_assoc, !take_take_drop.
Qed.

(** ** Task results *)

Definition wf_task_result (p : TaskResultPayload) : Prop :=
  u64 (tr_task_id p) /\ u64 (tr_duration_ms p) /\
  (forall code, tr_exit_code p = Some code -> i32 code) /\
  (forall err, tr_error p = Some err -> is_utf8 err /\ Z.of_nat (length (as_bytes err)) < 2 ^ 32).

(** An empty error text has the encoding of no error. *)
Definition normal_error (e : option string) : option string :=
  match e with Some EmptyString => None | _ => e end.

Lemma normal_error_spec e : normal_error e = if decide (e = Some ""%string) then None else e.
Proof. destruct e as [[|]|]; by case_decide. Qed.

Lemma decode_error_spec (pre rest : bytes) e :
  length pre = 22%nat ->
  (forall err, e = Some err -> is_utf8 err /\ Z.of_nat (length (as_bytes err)) < 2 ^ 32) ->
  decode_error (pre ++ match e with
    | Some err => be_bytes 4 (wrap 32 (Z.of_nat (length (as_bytes err)))) ++ as_bytes err
    | None => be_bytes 4 0 end ++ rest) = Ret (Ok (normal_error e)).
Proof.
  intros Hpre He. unfold decode_error.
  destruct (Nat.ltb_spec 22 (length (pre ++ match e with
    | Some err => be_bytes 4 (wrap 32 (Z.of_nat (length (as_bytes err)))) ++ as_bytes err
    | None => be_bytes 4 0 end ++ rest))) as [_ | Hlen].
  2: { exfalso; revert Hlen; rewrite !length_app, Hpre. destruct e; len. }
  destruct e as [err |].
  - destruct (He err eq_refl) as [Hu Hl]. rewrite wrap_id by (unfold uint; lia).
    rewrite <- !app_assoc.
    rewrite (index_n_skip _ _ _ 22), Nat.sub_diag by (done || lia).
    rewrite index_n_head by len. rewrite bind_ret, be_roundtrip by (unfold uint; cbn; lia).
    destruct (Z.gtb_spec (Z.of_nat (length (as_bytes err))) 0) as [Hpos | Hz].
    + rewrite (proj2 (Z.geb_le _ _)) by (rewrite !length_app, length_be_bytes; lia). cbn [andb].
      rewrite app_assoc. rewrite slice_mid by (rewrite ?length_app, ?length_be_bytes; lia).
      rewrite bind_ret, from_utf8_as_bytes by done.
      destruct err; [cbn in Hpos; lia | done].
    + cbn [andb]. destruct (as_bytes err) eqn:Hn; [| cbn in Hz; lia].
      apply as_bytes_nil in Hn as ->. done.
  - rewrite (index_n_skip _ _ _ 22), Nat.sub_diag by (done || lia).
    rewrite index_n_head by len. rewrite bind_ret, be_roundtrip by (split; done). done.
Qed.

Lemma task_result_decode p rest :
  wf_task_result p ->
  TaskResultPayload_from_bytes (TaskResultPayload_to_bytes p ++ rest) =
  Ret (Ok (mkTaskResult (tr_task_id p) (tr_state p) (tr_exit_code p) (tr_duration_ms p)
    (normal_error (tr_error p)))).
Proof.
  intros (Hid & Hdur & Hcode & Herr). unfold TaskResultPayload_to_bytes.
  set (ec := match tr_exit_code p with
    | Some code => [1] ++ i32_to_be_bytes code | None => [0] ++ [0; 0; 0; 0] end).
  set (et := match tr_error p with Some _ => _ | None => _ end).
  assert (Lec : length ec = 5%nat).
  { unfold ec. destruct (tr_exit_code p); [| done]. unfold i32_to_be_bytes; len. }
  rewrite <- !app_assoc.
  assert (Hde : decode_error (be_bytes 8 (tr_task_id p) ++ [state_code (tr_state p)] ++ ec ++
    be_bytes 8 (tr_duration_ms p) ++ et ++ rest) = Ret (Ok (normal_error (tr_error p)))).
  { pose proof (decode_error_spec (be_bytes 8 (tr_task_id p) ++ [state_code (tr_state p)] ++ ec ++
      be_bytes 8 (tr_duration_ms p)) rest (tr_error p)) as Hde.
    rewrite <- !app_assoc in Hde. apply Hde; [len; rewrite Lec; lia | exact Herr]. }
  unfold TaskResultPayload_from_bytes. rewrite Hde. clear Hde.
  match goal with |- context [(?a <? ?b)%nat] => destruct (Nat.ltb_spec a b) as [H | _] end.
  { revert H; len; rewrite Lec; lia. }
  rewrite index_n_head by len. rewrite bind_ret. rewrite (index_skip _ _ 8 8) by len. cbn [Nat.sub].
  read_byte. rewrite bind_ret.
  replace (state_of_code (state_code (tr_state p))) with (Some (tr_state p)) by by destruct (tr_state p).
  rewrite (index_skip _ _ 9 8), (index_skip _ _ _ 1) by len. cbn [Nat.sub].
  rewrite (index_n_skip _ _ 10 8), (index_n_skip _ _ 14 8) by len. cbn [Nat.sub].
  rewrite (index_n_skip _ _ 2 1), (index_n_skip _ _ 6 1) by len. cbn [Nat.sub].
  rewrite (index_n_skip _ _ 5 5) by (done || lia). cbn [Nat.sub]. rewrite index_n_head by len.
  unfold ec. destruct (tr_exit_code p) as [code |] eqn:Hc.
  - rewrite <- !app_assoc. read_byte. rewrite bind_ret, Z.eqb_refl.
    rewrite (index_n_skip _ _ _ 1) by len. cbn [Nat.sub].
    rewrite index_n_head by (unfold i32_to_be_bytes; len). rewrite !bind_ret.
    rewrite i32_be_roundtrip, !be_roundtrip by auto. done.
  - rewrite <- !app_assoc. read_byte. rewrite !bind_ret. cbn [Z.eqb]. rewrite !bind_ret.
    rewrite !be_roundtrip by done. done.
Qed.

(** A task result on the wire: decoding an encoded result, whatever bytes
    follow, restores the task id, the state, the exit code, the duration and
    the error text; the one exception is an empty error text, which decodes as
    no error. *)
Theorem task_result_roundtrip p rest :
  wf_task_result p ->
  TaskResultPayload_from_bytes (TaskResultPayload_to_bytes p ++ rest) =
  Ret (Ok (mkTaskResult (tr_task_id p) (tr_state p) (tr_exit_code p) (tr_duration_ms p)
    (normal_error (tr_error p)))).
Proof. apply task_result_decode. Qed.

Lemma state_of_code_range c st : state_of_code c = Some st -> 0 <= c <= 6.
Proof. destruct c as [| r |]; cbn; [lia | | done]. do 3 (destruct r as [r | r |]; cbn; try done; try lia). Qed.

Lemma state_of_code_some c : 0 <= c <= 6 -> exists st, state_of_code c = Some st.
Proof.
  intros H. assert (c = 0 \/ c = 1 \/ c = 2 \/ c = 3 \/ c = 4 \/ c = 5 \/ c = 6) by lia.
  destruct_or!; subst; cbn; eauto.
Qed.

Lemma swrap_sint w z : 0 < w -> sint w (swrap w z).
Proof.
  intros Hw. unfold swrap, sint.
  assert (2 ^ w = 2 * 2 ^ (w - 1)) by (rewrite <- Z.pow_succ_r by lia; f_equal; lia).
  pose proof (Z.mod_pos_bound (z + 2 ^ (w - 1)) (2 ^ w)). lia.
Qed.

Lemma decode_error_outcome l :
  is_bytes l -> (22 <= length l)%nat -> ~ (23 <= length l <= 25)%nat ->
  exists r, decode_error l = Ret r /\
    match r with
    | Ok e => forall err, e = Some err -> is_utf8 err /\ Z.of_nat (length (as_bytes err)) < 2 ^ 32
    | Err e => e = InvalidRequest
    end.
Proof.
  intros Hl H22 Hno. unfold decode_error.
  destruct (Nat.ltb_spec 22 (length l)); [| by eexists; split].
  destruct (field_bytes l 22 4 Hl ltac:(lia)) as (a & -> & Ba & La & _). rewrite bind_ret.
  pose proof (be_value_bound a Ba) as Hb. rewrite La in Hb. cbn in Hb.
  destruct (Z.gtb_spec (be_value a) 0); cbn [andb]; [| by eexists; split].
  destruct (Z.geb_spec (Z.of_nat (length l)) (26 + be_value a)); [| by eexists; split].
  rewrite slice_ok by lia. rewrite bind_ret.
  destruct (from_utf8 _) as [s |] eqn:Hs; [| by eexists; split].
  apply from_utf8_inv in Hs as [Hu Hs]; [| by apply Forall_take, Forall_drop].
  eexists; split; [done |]. intros err [= <-]. split; [done |].
  rewrite Hs, length_take, length_drop. lia.
Qed.

(** [TaskResultPayload::from_bytes] on arbitrary bytes: it returns a well-formed
    result, or the error [InvalidRequest], except that exactly on the inputs of
    23, 24 or 25 bytes with a valid state byte, too long for the fixed part and
    too short for the length of the error text, it indexes out of range and
    panics; an input with no valid state byte is always rejected. *)
Definition valid_state (l : bytes) : Prop := exists c, l !! 8%nat = Some c /\ 0 <= c <= 6.

Definition task_result_decoded (l : bytes) : Prop :=
  match TaskResultPayload_from_bytes l with
  | Ret (Ok p) => wf_task_result p /\ (22 <= length l)%nat /\ valid_state l
  | Ret (Err e) => e = InvalidRequest
  | Panic => True
  | OutOfFuel => False
  end /\
  (TaskResultPayload_from_bytes l = Panic <-> (23 <= length l <= 25)%nat /\ valid_state l) /\
  ((length l < 22)%nat \/ ~ valid_state l ->
   TaskResultPayload_from_bytes l = Ret (Err InvalidRequest)).

Lemma valid_state_code l c :
  l !! 8%nat = Some c -> valid_state l <-> is_Some (state_of_code c).
Proof.
  intros Hc. split.
  - intros (c' & Hc' & Hr). rewrite Hc in Hc'. injection Hc' as <-.
    by destruct (state_of_code_some c Hr) as [st ->].
  - intros [st Hst]. exists c. split; [done | by eapply state_of_code_range].
Qed.

Lemma task_result_outcome l : is_bytes l -> task_result_decoded l.
Proof.
  intros Hl. unfold task_result_decoded, TaskResultPayload_from_bytes.
  destruct (Nat.ltb_spec (length l) 22) as [Hlt | Hge].
  { split; [done |]. split; [| done]. split; [done | intros [? _]; lia]. }
  destruct (field_bytes l 0 8 Hl ltac:(lia)) as (a & -> & Ba & La & _). rewrite bind_ret.
  destruct (index_byte l 8 Hl ltac:(lia)) as (c & -> & Bc & Ec). rewrite bind_ret.
  pose proof (valid_state_code l c Ec) as Hv.
  destruct (state_of_code c) as [st |] eqn:Hst; cycle 1.
  { split; [done |]. split; [| done]. split; [done |]. intros [_ [st H]%Hv]. congruence. }
  assert (Hvalid : valid_state l) by (apply Hv; eauto). clear Hv.
  destruct (index_byte l 9 Hl ltac:(lia)) as (flag & -> & _ & _). rewrite bind_ret.
  destruct (field_bytes l 10 4 Hl ltac:(lia)) as (b & -> & _ & _ & _).
  destruct (field_bytes l 14 8 Hl ltac:(lia)) as (d & -> & Bd & Ld & _).
  set (ec := if flag =? 1 then Some (i32_from_be_bytes b) else None).
  replace (if flag =? 1 then _ else _) with (Ret ec) by (unfold ec; by destruct (flag =? 1)).
  rewrite !bind_ret.
  destruct (decide (23 <= length l <= 25)%nat) as [Hbad | Hok].
  - assert (Hp : decode_error l = Panic).
    { unfold decode_error. rewrite (proj2 (Nat.ltb_lt _ _)) by lia.
      by rewrite index_n_panic by lia. }
    rewrite Hp. cbn. split; [done |]. split; [done |]. intros [? | ?]; [lia | done].
  - destruct (decode_error_outcome l Hl Hge Hok) as ([e | e] & -> & He); cbn.
    2: { rewrite He. split; [done |]. split; [| done]. split; [done | by intros [? _]]. }
    split; [| split; [split; [done | by intros [? _]] | intros [? | ?]; [lia | done]]].
    split; [| done]. pose proof (be_value_bound a Ba) as Pa. pose proof (be_value_bound d Bd) as Pd.
    rewrite La in Pa. rewrite Ld in Pd. split; [exact Pa | split; [exact Pd | split; [| done]]].
    cbn. unfold ec. intros code. destruct (flag =? 1); [| done]. intros [= <-].
    by apply swrap_sint.
Qed.

(** ** Registrations *)

Definition wf_register (p : RegisterPayload) : Prop :=
  u32 (rg_worker_id p) /\ u16 (rg_num_workers p) /\ is_utf8 (rg_name p) /\
  Z.of_nat (length (as_bytes (rg_name p))) < 2 ^ 16.

Lemma register_roundtrip p rest :
  wf_register p ->
  RegisterPayload_from_bytes (RegisterPayload_to_bytes p ++ rest) = Ret (Ok p).
Proof.
  intros (Hw & Hn & Hu & Hl). unfold RegisterPayload_from_bytes, RegisterPayload_to_bytes.
  rewrite wrap_id by (unfold uint; lia). rewrite <- !app_assoc.
  match goal with |- context [(?a <? ?b)%nat] => destruct (Nat.ltb_spec a b) as [H | _] end.
  { revert H; len. }
  reads. replace (backend_of_code (backend_code (rg_backend p))) with (Some (rg_backend p))
    by by destruct (rg_backend p).
  rewrite !bind_ret, !be_roundtrip by (done || (unfold uint; cbn; lia)).
  set (nm := as_bytes (rg_name p)) in *.
  destruct (Z.gtb_spec (Z.of_nat (length nm)) 0) as [Hpos | Hz].
- rewrite (proj2 (Z.geb_le _ _)) by (rewrite !length_app, !length_be_bytes; cbn [length]; lia).
    cbn [andb].
    match goal with |- context [slice ?l _ _] =>
      replace l with ((be_bytes 4 (rg_worker_id p) ++ [backend_code (rg_backend p)] ++
        be_bytes 2 (rg_num_workers p) ++ be_bytes 2 (Z.of_nat (length nm))) ++ nm ++ rest)
        by by rewrite <- !app_assoc end.
    rewrite slice_mid by (rewrite ?length_app, ?length_be_bytes; cbn [length]; lia).
    rewrite bind_ret. unfold nm. rewrite from_utf8_as_bytes by done. by destruct p.
  - cbn [andb comp_try]. assert (Hnil : rg_name p = "").
    { apply as_bytes_nil. fold nm. destruct nm; [done | cbn in Hz; lia]. }
    cbn. rewrite <- Hnil. by destruct p.
Qed.

(** Registrations on the wire: decoding an encoded registration, whatever
    follows it, restores it, provided the name has fewer than 65536 bytes (its
    length is encoded in 16 bits); and on arbitrary bytes the decoder never
    panics and rejects with [InvalidRequest] only. *)
Theorem register_codec :
  (forall p rest, wf_register p ->
     RegisterPayload_from_bytes (RegisterPayload_to_bytes p ++ rest) = Ret (Ok p)) /\
  (forall l, is_bytes l ->
     (exists p, RegisterPayload_from_bytes l = Ret (Ok p) /\ wf_register p) \/
     RegisterPayload_from_bytes l = Ret (Err InvalidRequest)).
Proof.
  split; [apply register_roundtrip |]. intros l Hl. unfold RegisterPayload_from_bytes.
  destruct (Nat.ltb_spec (length l) 9) as [Hlt | Hge]; [by right |].
  destruct (field_bytes l 0 4 Hl ltac:(lia)) as (a & -> & Ba & La & _). rewrite bind_ret.
  destruct (index_byte l 4 Hl ltac:(lia)) as (c & -> & Bc & Ec). rewrite bind_ret.
  destruct (backend_of_code c) as [b |]; [| by right].
  destruct (field_bytes l 5 2 Hl ltac:(lia)) as (d & -> & Bd & Ld & _). rewrite bind_ret.
  destruct (field_bytes l 7 2 Hl ltac:(lia)) as (e & -> & Be & Le & _). rewrite bind_ret.
  pose proof (be_value_bound a Ba) as Pa. pose proof (be_value_bound d Bd) as Pd.
  pose proof (be_value_bound e Be) as Pe. rewrite La in Pa. rewrite Ld in Pd. rewrite Le in Pe.
  assert (Hnone : wf_register (mkRegister (be_value a) b (be_value d) ""))
    by (split; [exact Pa | by split; [exact Pd |]]).
  destruct (Z.gtb_spec (be_value e) 0); cbn [andb]; [| left; by eexists].
  destruct (Z.geb_spec (Z.of_nat (length l)) (9 + be_value e)); [| left; by eexists].
  rewrite slice_ok by lia. rewrite bind_ret.
  destruct (from_utf8 _) as [s |] eqn:Hs; [| by right].
  apply from_utf8_inv in Hs as [Hu Hs]; [| by apply Forall_take, Forall_drop].
  left; eexists; split; [done |]. split; [exact Pa | split; [exact Pd | split; [done |]]].
  cbn [rg_name]. rewrite Hs, length_take, length_drop. change (256 ^ Z.of_nat 2) with (2 ^ 16) in Pe. lia.
Qed.

(** ** Messages *)

Lemma MessageType_code_inv c t : MessageType_from_u8 c = Some t -> c = MessageType_as_u8 t.
Proof.
  destruct c as [| r |]; cbn; [by intros [= <-] | | done].
  do 4 (destruct r as [r | r |]; cbn; try done; try by intros [= <-]).
Qed.

Lemma MessageType_code t : MessageType_from_u8 (MessageType_as_u8 t) = Some t.
Proof. by destruct t. Qed.

Lemma message_encode (prof : Profile) m :
  Z.of_nat (length (msg_payload m)) < 2 ^ 32 - 1 ->
  Message_to_bytes m = Ret (be_bytes 4 (1 + Z.of_nat (length (msg_payload m))) ++
    [MessageType_as_u8 (msg_type m)] ++ msg_payload m).
Proof.
  intros H. unfold Message_to_bytes. rewrite wrap_id by (unfold uint; lia).
  unfold add_w. by rewrite checked_in by (unfold uint; lia).
Qed.

Lemma message_decode (prof : Profile) m rest :
  Z.of_nat (length (msg_payload m)) < 2 ^ 32 - 1 ->
  exists b, Message_to_bytes m = Ret b /\ Message_from_bytes (b ++ rest) = Ret (Ok m).
Proof.
  intros Hlen. eexists; split; [by apply message_encode |].
  set (n := Z.of_nat (length (msg_payload m))) in *. rewrite <- !app_assoc.
  unfold Message_from_bytes.
  match goal with |- context [(?a <? ?b)%nat] => destruct (Nat.ltb_spec a b) as [H | _] end.
  { revert H; len. }
  rewrite index_n_head by len. rewrite bind_ret, be_roundtrip by (unfold uint; cbn; lia).
  rewrite (proj2 (Z.ltb_ge _ _)) by (rewrite !length_app, length_be_bytes; cbn [length]; lia).
  rewrite (index_skip _ _ 4 4) by len. cbn [Nat.sub]. read_byte.
  rewrite bind_ret, MessageType_code, app_assoc.
  rewrite slice_mid by (rewrite ?length_app, ?length_be_bytes; cbn [length]; lia).
  rewrite bind_ret. by destruct m.
Qed.

(** C17. The frame: a message whose payload is shorter than 2^32 - 1 bytes is
    encoded without a panic, in [size] bytes, in every build; and decoding the
    encoding, whatever bytes follow it on the stream, returns the message, so
    that a reader that advances by [size] reads a stream of messages. *)
Theorem message_roundtrip (prof : Profile) m rest :
  Z.of_nat (length (msg_payload m)) < 2 ^ 32 - 1 ->
  exists b, Message_to_bytes m = Ret b /\ Z.of_nat (length b) = size m /\
    Message_from_bytes (b ++ rest) = Ret (Ok m).
Proof.
  intros Hlen. destruct (message_decode prof m rest Hlen) as (b & Hb & Hd).
  exists b. split; [done |]. split; [| done].
  rewrite message_encode in Hb by done. injection Hb as <-. unfold size. len.
Qed.

(** [Message::from_bytes] on arbitrary bytes: what it accepts starts with the
    encoding of the message it returns, what it rejects it rejects with
    [InvalidRequest], and it panics exactly on the inputs whose length prefix is
    zero and whose fifth byte is a message type (the payload slice is then
    [5..4]). *)
Definition frame_decoded (prof : Profile) (l : bytes) : Prop :=
  match Message_from_bytes l with
  | Ret (Ok m) => exists b rest, Message_to_bytes m = Ret b /\ l = b ++ rest
  | Ret (Err e) => e = InvalidRequest
  | OutOfFuel => False
  | Panic => True
  end /\
  (Message_from_bytes l = Panic <->
   (5 <= length l)%nat /\ be_value (take 4 l) = 0 /\
   exists c t, l !! 4%nat = Some c /\ MessageType_from_u8 c = Some t).

Lemma message_outcome (prof : Profile) l : is_bytes l -> frame_decoded prof l.
Proof.
  intros Hl. unfold frame_decoded, Message_from_bytes.
  destruct (Nat.ltb_spec (length l) 5) as [Hlt | Hge].
  { split; [done |]. split; [done | lia]. }
  destruct (field_bytes l 0 4 Hl ltac:(lia)) as (a & -> & Ba & La & Ea). rewrite bind_ret.
  rewrite drop_0 in Ea. rewrite <- Ea.
  pose proof (be_value_bound a Ba) as Pa. rewrite La in Pa. change (256 ^ Z.of_nat 4) with (2 ^ 32) in Pa.
  set (n := be_value a) in *.
  destruct (Z.ltb_spec (Z.of_nat (length l)) (4 + n)) as [Hshort | Hlong].
  { split; [done |]. split; [done | lia]. }
  destruct (index_byte l 4 Hl ltac:(lia)) as (c & -> & Bc & Ec). rewrite bind_ret, Ec.
  destruct (MessageType_from_u8 c) as [t |] eqn:Ht; cycle 1.
  { split; [done |]. split; [done |]. intros (_ & _ & c' & t & [= <-] & ?). congruence. }
  destruct (decide (n = 0)) as [Hz | Hnz].
  - rewrite Hz. unfold slice. rewrite decide_False by lia. split; [done |]. split; [| done].
    intros _. split; [done |]. split; [done |]. eauto.
  - rewrite slice_ok by lia. rewrite bind_ret. split; [| split; [done | lia]].
    set (body := take _ _).
    assert (Lb : Z.of_nat (length body) = n - 1).
    { unfold body. rewrite length_take, length_drop. lia. }
    eexists _, (drop (4 + Z.to_nat n) l). split; [apply message_encode; cbn [msg_payload]; lia |].
    cbn [msg_payload msg_type]. rewrite Lb. replace (1 + (n - 1)) with n by lia. unfold n at 1.
    rewrite be_value_roundtrip by done. rewrite Ea.
    rewrite <- (MessageType_code_inv _ _ Ht), (take1_drop _ _ _ Ec).
    unfold body. rewrite !app_assoc, take_take_drop, take_take_drop.
    replace (5 + (4 + Z.to_nat n - 5))%nat with (4 + Z.to_nat n)%nat by lia.
    symmetry; apply take_drop.
Qed.

(** C32. The decoders on arbitrary bytes, hostile ones included: both answer with
    a value or [InvalidRequest]; a frame that is accepted is the encoding of the
    message returned; a task result that is accepted is well-formed, and one
    that is too short or has no valid state byte is rejected.  The frame decoder
    panics exactly on frames whose length prefix is zero before a valid type,
    the result decoder exactly on results of 23 to 25 bytes with a valid state,
    too short for the length of the error text. *)
Theorem decoders_answer (prof : Profile) l :
  is_bytes l -> frame_decoded prof l /\ task_result_decoded l.
Proof. intros Hl. split; [by apply message_outcome | by apply task_result_outcome]. Qed.

(** The readers of typed payloads answer for messages of their own type only. *)
Definition only_own_type (m : Message) : Prop :=
  (msg_type m <> MHeartbeat -> as_heartbeat m = Ret (Err InvalidRequest)) /\
  (msg_type m <> MTaskResult -> as_task_result m = Ret (Err InvalidRequest)) /\
  (msg_type m <> MRegister -> as_register m = Ret (Err InvalidRequest)) /\
  (msg_type m <> MError -> as_error m = None).

Lemma typed_only m : only_own_type m.
Proof.
  unfold only_own_type, as_heartbeat, as_task_result, as_register, as_error.
  split_and!; intros H; by case_decide.
Qed.


(** ** Witnesses *)

Definition demo_heartbeat : HeartbeatPayload := with_cpu_load (HeartbeatPayload_new 1700000000000 7) 250.
Definition demo_result : TaskResultPayload :=
  with_error (with_exit_code (TaskResultPayload_new (mkTaskId 5) Failed 2500000) (-9)) "killed".
Definition demo_register : RegisterPayload := with_name (RegisterPayload_new 3 Gpu 16) "node-a".
(** 23 bytes whose state byte is [Completed]. *)
Definition demo_truncated : bytes := replicate 23 3.

Ltac bounds := vm_compute; first [done | split; done].

Lemma demo_heartbeat_wf : wf_heartbeat demo_heartbeat.
Proof. repeat split; bounds. Qed.

Lemma demo_result_wf : wf_task_result demo_result.
Proof.
  split; [by bounds |]. split; [by bounds |].
  split; cbn; intros ? [= <-]; [by bounds | split; reflexivity].
Qed.

Lemma demo_register_wf : wf_register demo_register.
Proof. split; [by bounds |]. split; [by bounds |]. split; reflexivity. Qed.

Lemma heartbeat_codec_witness :
  hb_cpu_load demo_heartbeat = 100 /\
  HeartbeatPayload_from_bytes (HeartbeatPayload_to_bytes demo_heartbeat ++ [1; 2]) =
  Ret (Ok demo_heartbeat).
Proof. split; [reflexivity | exact (proj1 heartbeat_codec _ [1; 2] demo_heartbeat_wf)]. Defined.

Lemma task_result_roundtrip_witness :
  TaskResultPayload_from_bytes (TaskResultPayload_to_bytes demo_result ++ [9]) = Ret (Ok demo_result).
Proof. exact (task_result_roundtrip demo_result [9] demo_result_wf). Defined.

Lemma register_codec_witness :
  RegisterPayload_from_bytes (RegisterPayload_to_bytes demo_register) = Ret (Ok demo_register).
Proof.
  rewrite <- (app_nil_r (RegisterPayload_to_bytes demo_register)).
  exact (proj1 register_codec _ [] demo_register_wf).
Defined.

Lemma message_roundtrip_witness : exists b,
  @Message_to_bytes dev ack = Ret b /\ Message_from_bytes (b ++ [7; 7]) = Ret (Ok ack).
Proof.
  destruct (message_roundtrip dev ack [7; 7] eq_refl) as (b & H1 & _ & H2).
  exists b. split; [exact H1 | exact H2].
Defined.

Lemma decoders_answer_witness :
  Message_from_bytes [0; 0; 0; 0; 2] = Panic /\ TaskResultPayload_from_bytes demo_truncated = Panic.
Proof.
  split.
  - assert (H : is_bytes [0; 0; 0; 0; 2]) by (repeat constructor; done).
    apply (proj2 (proj1 (decoders_answer dev [0; 0; 0; 0; 2] H))).
    split; [cbn; lia |]. split; [reflexivity |]. exists 2, MHeartbeat. split; reflexivity.
  - assert (H : is_bytes demo_truncated) by (repeat constructor; done).
    apply (proj1 (proj2 (proj2 (decoders_answer dev demo_truncated H)))).
    split; [vm_compute; lia |]. exists 3. split; [reflexivity | lia].
Defined.

