(* ===== verification/Fault.v ===== *)
(** * Fault: retries, failure detection, circuit breaking (src/fault.rs)

    [RetryPolicy] and [RetryState], [WorkerHealth] and the heartbeat
    [FailureDetector], and the [CircuitBreaker] state machine.  A [Duration] and
    an [Instant] are numbers of nanoseconds; the clock is the argument [now] of
    the operations that read it, and [elapsed] saturates at zero as the
    library's does.  A method of a shared object maps its state to its result
    and its new state, in [comp] because the locks are taken with [expect] and
    counters are incremented with plain additions. *)

From S2P Require Import Prelude Float Scheduler.

Definition nanos_per_ms : Z := 1000000.
Definition nanos_per_sec : Z := 1000000000.
(** [Duration::from_millis], [Duration::from_secs], [as_millis() as u64]. *)
Definition from_millis (ms : Z) : Z := ms * nanos_per_ms.
Definition from_secs (s : Z) : Z := s * nanos_per_sec.
Definition as_millis_u64 (d : Z) : Z := wrap 64 (d / nanos_per_ms).
Definition elapsed (now since : Z) : Z := Z.max 0 (now - since).

(** The durations of the library: below 2^64 seconds. *)
Definition duration (d : Z) : Prop := 0 <= d < 2 ^ 64 * nanos_per_sec.
#[export] Instance duration_dec d : Decision (duration d).
Proof. unfold duration; apply _. Defined.

(** [Duration * u32] panics when the product is out of range, in every build. *)
Definition duration_mul (d k : Z) : comp Z :=
  if decide (duration (d * k)) then Ret (d * k) else Panic.

(** ** Retry policies *)

Record RetryPolicy : Type := mkRetryPolicy {
  rp_max_retries : Z;
  initial_delay : Z;
  max_delay : Z;
  backoff_factor : Z;
  use_jitter : bool }.

Definition RetryPolicy_default : RetryPolicy :=
  mkRetryPolicy 3 (from_millis 100) (from_secs 30) 2 true.
Definition RetryPolicy_new : RetryPolicy := RetryPolicy_default.
Definition no_retry : RetryPolicy :=
  mkRetryPolicy 0 (initial_delay RetryPolicy_default) (max_delay RetryPolicy_default)
    (backoff_factor RetryPolicy_default) (use_jitter RetryPolicy_default).
Definition critical : RetryPolicy := mkRetryPolicy 10 (from_millis 500) (from_secs 60) 2 true.
Definition with_max_retries (p : RetryPolicy) (retries : Z) : RetryPolicy :=
  mkRetryPolicy retries (initial_delay p) (max_delay p) (backoff_factor p) (use_jitter p).
Definition with_initial_delay (p : RetryPolicy) (delay : Z) : RetryPolicy :=
  mkRetryPolicy (rp_max_retries p) delay (max_delay p) (backoff_factor p) (use_jitter p).
Definition with_max_delay (p : RetryPolicy) (delay : Z) : RetryPolicy :=
  mkRetryPolicy (rp_max_retries p) (initial_delay p) delay (backoff_factor p) (use_jitter p).

Section fault.
Context {prof : Profile}.

(** [u32::pow]: exponentiation by squaring multiplies only powers that divide
    the result, so it overflows exactly when the result does, and the wrapping
    products are congruent to it. *)
Definition pow_w (w a e : Z) : comp Z := checked w (a ^ e).

Definition delay_for_attempt (p : RetryPolicy) (attempt : Z) : comp Z :=
  if attempt =? 0 then Ret 0
  else
    let base_delay := as_millis_u64 (initial_delay p) in
    factor ← pow_w 32 (backoff_factor p) (saturating_sub attempt 1);
    let delay_ms := saturating_mul 64 base_delay factor in
    let capped_ms := Z.min delay_ms (as_millis_u64 (max_delay p)) in
    Ret (from_millis capped_ms).

Definition policy_should_retry (p : RetryPolicy) (current_attempts : Z) : bool :=
  current_attempts <? rp_max_retries p.

(** ** Retry state *)

Record RetryState : Type := mkRetryState {
  attempts : Z;
  last_failure : option Z;
  last_error : option string }.

Definition RetryState_new : RetryState := mkRetryState 0 None None.
Definition retry_record_failure (now : Z) (s : RetryState) (error : string) : comp RetryState :=
  n ← add_w 32 (attempts s) 1; Ret (mkRetryState n (Some now) (Some error)).
Definition retry_reset (s : RetryState) : RetryState := mkRetryState 0 None None.
Definition should_retry (s : RetryState) (p : RetryPolicy) : bool :=
  policy_should_retry p (attempts s).
Definition next_delay (s : RetryState) (p : RetryPolicy) : comp Z :=
  delay_for_attempt p (attempts s).
Definition in_backoff (now : Z) (s : RetryState) (p : RetryPolicy) : comp bool :=
  match last_failure s with
  | Some last => delay ← next_delay s p; Ret (elapsed now last <? delay)
  | None => Ret false
  end.

(** ** Worker health *)

Inductive HealthStatus : Set := Healthy | Suspected | HFailed | Unknown.

Definition status_is_available (s : HealthStatus) : bool :=
  match s with Healthy | Unknown => true | _ => false end.

Record WorkerHealth : Type := mkWorkerHealth {
  wh_worker_id : WorkerId;
  status : HealthStatus;
  last_heartbeat : option Z;
  consecutive_failures : Z;
  tasks_completed : Z;
  tasks_failed : Z }.

Definition WorkerHealth_new (w : WorkerId) : WorkerHealth := mkWorkerHealth w Unknown None 0 0 0.

Definition health_record_heartbeat (now : Z) (h : WorkerHealth) : WorkerHealth :=
  mkWorkerHealth (wh_worker_id h) Healthy (Some now) 0 (tasks_completed h) (tasks_failed h).

Definition record_task_completion (h : WorkerHealth) (success : bool) : comp WorkerHealth :=
  if success then
    n ← add_w 64 (tasks_completed h) 1;
    Ret (mkWorkerHealth (wh_worker_id h) (status h) (last_heartbeat h) 0 n (tasks_failed h))
  else
    n ← add_w 64 (tasks_failed h) 1;
    c ← add_w 32 (consecutive_failures h) 1;
    Ret (mkWorkerHealth (wh_worker_id h) (status h) (last_heartbeat h) c (tasks_completed h) n).

Definition success_rate (h : WorkerHealth) : comp SpecFloat.spec_float :=
  success_share (tasks_completed h) (tasks_failed h).

Definition set_status (h : WorkerHealth) (s : HealthStatus) : WorkerHealth :=
  mkWorkerHealth (wh_worker_id h) s (last_heartbeat h) (consecutive_failures h)
    (tasks_completed h) (tasks_failed h).

Definition update_status (now : Z) (h : WorkerHealth) (heartbeat_timeout failure_threshold : Z) :
  comp WorkerHealth :=
  h ← match last_heartbeat h with
      | Some last =>
          let e := elapsed now last in
          limit ← duration_mul heartbeat_timeout 3;
          Ret (if e >? limit then set_status h HFailed
               else if e >? heartbeat_timeout then set_status h Suspected
               else h)
      | None => Ret h
      end;
  Ret (if consecutive_failures h >=? failure_threshold then set_status h HFailed else h).

(** ** The failure detector *)

Record FailureDetector : Type := mkDetector {
  fd_workers : Lock (gmap WorkerId WorkerHealth);
  fd_heartbeat_interval : Z;
  fd_heartbeat_timeout : Z;
  fd_failure_threshold : Z;
  fd_running : bool }.

Definition detector_with_config (interval timeout threshold : Z) : FailureDetector :=
  mkDetector (lock_new ∅) interval timeout threshold true.
Definition detector_new : FailureDetector :=
  detector_with_config (from_secs 1) (from_secs 3) 3.
Definition detector_default : FailureDetector := detector_new.

Definition fd_set (d : FailureDetector) (m : gmap WorkerId WorkerHealth) : FailureDetector :=
  mkDetector (lock_set (fd_workers d) m) (fd_heartbeat_interval d) (fd_heartbeat_timeout d)
    (fd_failure_threshold d) (fd_running d).

Definition register_worker (d : FailureDetector) (w : WorkerId) : comp FailureDetector :=
  m ← expect (lock (fd_workers d)); Ret (fd_set d (<[w := WorkerHealth_new w]> m)).
Definition deregister_worker (d : FailureDetector) (w : WorkerId) : comp FailureDetector :=
  m ← expect (lock (fd_workers d)); Ret (fd_set d (delete w m)).
Definition record_heartbeat (now : Z) (d : FailureDetector) (w : WorkerId) : comp FailureDetector :=
  m ← expect (lock (fd_workers d));
  match m !! w with
  | Some health => Ret (fd_set d (<[w := health_record_heartbeat now health]> m))
  | None => Ret (fd_set d (<[w := health_record_heartbeat now (WorkerHealth_new w)]> m))
  end.
Definition record_task_result (d : FailureDetector) (w : WorkerId) (success : bool) :
  comp FailureDetector :=
  m ← expect (lock (fd_workers d));
  match m !! w with
  | Some health => h ← record_task_completion health success; Ret (fd_set d (<[w := h]> m))
  | None => Ret d
  end.
Definition get_status (d : FailureDetector) (w : WorkerId) : comp HealthStatus :=
  m ← expect (lock (fd_workers d)); Ret (from_option status Unknown (m !! w)).
Definition get_health (d : FailureDetector) (w : WorkerId) : comp (option WorkerHealth) :=
  m ← expect (lock (fd_workers d)); Ret (m !! w).

(** The iterations over the map, in its (unspecified) order. *)
Definition workers_with (p : HealthStatus -> bool) (m : gmap WorkerId WorkerHealth) : list WorkerId :=
  fst <$> List.filter (fun kv => p (status kv.2)) (map_to_list m).
Definition healthy_workers (d : FailureDetector) : comp (list WorkerId) :=
  m ← expect (lock (fd_workers d));
  Ret (workers_with (fun s => match s with Healthy => true | _ => false end) m).
Definition failed_workers (d : FailureDetector) : comp (list WorkerId) :=
  m ← expect (lock (fd_workers d));
  Ret (workers_with (fun s => match s with HFailed => true | _ => false end) m).

(** [for health in workers.values_mut()]. *)
Definition update_all_statuses (now : Z) (d : FailureDetector) : comp FailureDetector :=
  m ← expect (lock (fd_workers d));
  m ← for_each (map_to_list m) (fun '(w, health) m =>
        h ← update_status now health (fd_heartbeat_timeout d) (fd_failure_threshold d);
        Ret (<[w := h]> m)) m;
  Ret (fd_set d m).

Definition fd_is_available (d : FailureDetector) (w : WorkerId) : comp bool :=
  s ← get_status d w; Ret (status_is_available s).
Definition heartbeat_interval (d : FailureDetector) : Z := fd_heartbeat_interval d.
Definition detector_stop (d : FailureDetector) : FailureDetector :=
  mkDetector (fd_workers d) (fd_heartbeat_interval d) (fd_heartbeat_timeout d)
    (fd_failure_threshold d) false.
Definition detector_is_running (d : FailureDetector) : bool := fd_running d.

(** ** The circuit breaker *)

Inductive CircuitState : Set := Closed | Open | HalfOpen.

Record CircuitBreaker : Type := mkBreaker {
  cb_state : Lock CircuitState;
  failure_count : Z;
  success_count : Z;
  failure_threshold : Z;
  success_threshold : Z;
  reset_timeout : Z;
  opened_at : Lock (option Z) }.

Definition breaker_new (failure_thr success_thr timeout : Z) : CircuitBreaker :=
  mkBreaker (lock_new Closed) 0 0 failure_thr success_thr timeout (lock_new None).
Definition breaker_default : CircuitBreaker := breaker_new 5 3 (from_secs 30).

Definition breaker_state (b : CircuitBreaker) : comp CircuitState := expect (lock (cb_state b)).

Definition set_counts (b : CircuitBreaker) (failures successes : Z) : CircuitBreaker :=
  mkBreaker (cb_state b) failures successes (failure_threshold b) (success_threshold b)
    (reset_timeout b) (opened_at b).

Definition transition_to_open (now : Z) (b : CircuitBreaker) : comp CircuitBreaker :=
  _ ← expect (lock (cb_state b));
  _ ← expect (lock (opened_at b));
  Ret (mkBreaker (lock_set (cb_state b) Open) (failure_count b) 0 (failure_threshold b)
    (success_threshold b) (reset_timeout b) (lock_set (opened_at b) (Some now))).

Definition transition_to_half_open (b : CircuitBreaker) : comp CircuitBreaker :=
  _ ← expect (lock (cb_state b));
  Ret (mkBreaker (lock_set (cb_state b) HalfOpen) 0 0 (failure_threshold b)
    (success_threshold b) (reset_timeout b) (opened_at b)).

Definition transition_to_closed (b : CircuitBreaker) : comp CircuitBreaker :=
  _ ← expect (lock (cb_state b));
  _ ← expect (lock (opened_at b));
  Ret (mkBreaker (lock_set (cb_state b) Closed) 0 0 (failure_threshold b)
    (success_threshold b) (reset_timeout b) (lock_set (opened_at b) None)).

Definition allows_execution (now : Z) (b : CircuitBreaker) : comp (bool * CircuitBreaker) :=
  state ← breaker_state b;
  match state with
  | Closed => Ret (true, b)
  | HalfOpen => Ret (true, b)
  | Open =>
      opened ← expect (lock (opened_at b));
      match opened with
      | Some opened =>
          if elapsed now opened >=? reset_timeout b then
            b ← transition_to_half_open b; Ret (true, b)
          else Ret (false, b)
      | None => Ret (false, b)
      end
  end.

(** [fetch_add(1) + 1]: the atomic wraps, the plain addition is checked. *)
Definition record_success (b : CircuitBreaker) : comp CircuitBreaker :=
  state ← breaker_state b;
  match state with
  | Closed => Ret (set_counts b 0 (success_count b))
  | HalfOpen =>
      count ← add_w 64 (success_count b) 1;
      let b := set_counts b (failure_count b) (wrap 64 (success_count b + 1)) in
      if count >=? success_threshold b then transition_to_closed b else Ret b
  | Open => Ret b
  end.

Definition record_failure (now : Z) (b : CircuitBreaker) : comp CircuitBreaker :=
  state ← breaker_state b;
  match state with
  | Closed =>
      count ← add_w 64 (failure_count b) 1;
      let b := set_counts b (wrap 64 (failure_count b + 1)) (success_count b) in
      if count >=? failure_threshold b then transition_to_open now b else Ret b
  | HalfOpen => transition_to_open now b
  | Open => Ret b
  end.

Definition breaker_reset (b : CircuitBreaker) : comp CircuitBreaker := transition_to_closed b.

End fault.

(** ** The circuit breaker implements an abstract automaton *)

(** The specification: consecutive failures while closed, the opening time
    while open, successes while half-open. *)
Inductive Circuit : Set :=
| CClosed (failures : Z)
| COpen (since : Z)
| CHalfOpen (successes : Z).

Inductive BreakerEvent : Set :=
| EvAllows (now : Z)
| EvSuccess
| EvFailure (now : Z)
| EvReset.

Section breaker.
Context {prof : Profile} (fthr sthr timeout : Z).

Definition circuit_step (c : Circuit) (e : BreakerEvent) : option bool * Circuit :=
  match c, e with
  | CClosed n, EvAllows _ => (Some true, CClosed n)
  | CClosed _, EvSuccess => (None, CClosed 0)
  | CClosed n, EvFailure now =>
      (None, if n + 1 >=? fthr then COpen now else CClosed (n + 1))
  | COpen t, EvAllows now =>
      if elapsed now t >=? timeout then (Some true, CHalfOpen 0) else (Some false, COpen t)
  | COpen t, (EvSuccess | EvFailure _) => (None, COpen t)
  | CHalfOpen n, EvAllows _ => (Some true, CHalfOpen n)
  | CHalfOpen n, EvSuccess =>
      (None, if n + 1 >=? sthr then CClosed 0 else CHalfOpen (n + 1))
  | CHalfOpen _, EvFailure now => (None, COpen now)
  | _, EvReset => (None, CClosed 0)
  end.

Fixpoint circuit_run (c : Circuit) (es : list BreakerEvent) : list (option bool) * Circuit :=
  match es with
  | [] => ([], c)
  | e :: es' =>
      let '(o, c') := circuit_step c e in
      let '(os, c'') := circuit_run c' es' in (o :: os, c'')
  end.

Definition breaker_step (b : CircuitBreaker) (e : BreakerEvent) :
  comp (option bool * CircuitBreaker) :=
  match e with
  | EvAllows now => '(r, b') ← allows_execution now b; Ret (Some r, b')
  | EvSuccess => b' ← record_success b; Ret (None, b')
  | EvFailure now => b' ← record_failure now b; Ret (None, b')
  | EvReset => b' ← breaker_reset b; Ret (None, b')
  end.

Fixpoint breaker_run (b : CircuitBreaker) (es : list BreakerEvent) :
  comp (list (option bool) * CircuitBreaker) :=
  match es with
  | [] => Ret ([], b)
  | e :: es' =>
      '(o, b') ← breaker_step b e;
      '(os, b'') ← breaker_run b' es';
      Ret (o :: os, b'')
  end.

Definition circuit_state (c : Circuit) : CircuitState :=
  match c with CClosed _ => Closed | COpen _ => Open | CHalfOpen _ => HalfOpen end.

(** What the fields hold in each state of the automaton. *)
Definition implements (c : Circuit) (b : CircuitBreaker) : Prop :=
  failure_threshold b = fthr /\ success_threshold b = sthr /\ reset_timeout b = timeout /\
  cb_state b = mkLock (circuit_state c) false /\ poisoned (opened_at b) = false /\
  match c with
  | CClosed n => failure_count b = n /\ 0 <= n < Z.max 1 fthr /\ content (opened_at b) = None
  | COpen t => content (opened_at b) = Some t
  | CHalfOpen n => success_count b = n /\ 0 <= n < Z.max 1 sthr
  end.

Lemma breaker_new_implements : implements (CClosed 0) (breaker_new fthr sthr timeout).
Proof. repeat split; cbn; lia. Qed.

Context (Hf : u64 fthr) (Hs : u64 sthr).

Lemma breaker_step_implements c b e :
  implements c b ->
  let '(o, c') := circuit_step c e in
  exists b', breaker_step b e = Ret (o, b') /\ implements c' b'.
Proof using Hf Hs.
  destruct b as [st fc sc ft st' rt [oa p]].
  intros (E1 & E2 & E3 & E4 & E5 & E6); cbn in E1, E2, E3, E4, E5, E6.
  subst ft st' rt st p.
  destruct c as [n | t | n], e as [now | | now |]; cbn.
  - destruct E6 as (-> & ? & ->). eexists; split; [done |]. repeat split; cbn; (done || lia).
  - destruct E6 as (-> & ? & ->). eexists; split; [done |]. repeat split; cbn; (done || lia).
  - destruct E6 as (-> & Hn & ->).
    unfold record_failure; cbn. unfold add_w. rewrite checked_in by width. cbn.
    rewrite wrap_id by width.
    destruct (Z.geb_spec (n + 1) fthr); cbn; (eexists; split; [done |]); repeat split; cbn; (done || lia).
  - eexists; split; [done |]. repeat split; cbn; (done || lia).
  - subst oa. unfold allows_execution; cbn.
    destruct (elapsed now t >=? timeout); cbn; (eexists; split; [done |]); repeat split; cbn; (done || lia).
  - eexists; split; [done |]. repeat split; cbn; (done || lia).
  - eexists; split; [done |]. repeat split; cbn; (done || lia).
  - eexists; split; [done |]. repeat split; cbn; (done || lia).
  - eexists; split; [done |]. repeat split; cbn; (done || lia).
  - destruct E6 as (-> & Hn).
    unfold record_success; cbn. unfold add_w. rewrite checked_in by width. cbn.
    rewrite wrap_id by width.
    destruct (Z.geb_spec (n + 1) sthr); cbn; (eexists; split; [done |]); repeat split; cbn; (done || lia).
  - eexists; split; [done |]. repeat split; cbn; (done || lia).
  - eexists; split; [done |]. repeat split; cbn; (done || lia).
Qed.

Lemma breaker_run_implements es c b :
  implements c b ->
  let '(os, c') := circuit_run c es in
  exists b', breaker_run b es = Ret (os, b') /\ implements c' b'.
Proof using Hf Hs.
  revert c b; induction es as [|e es IH]; intros c b Hb; cbn; [by exists b |].
  pose proof (breaker_step_implements c b e Hb) as He.
  destruct (circuit_step c e) as [o c']. destruct He as (b' & -> & Hb').
  specialize (IH c' b' Hb'). destruct (circuit_run c' es) as [os c''].
  destruct IH as (b'' & Hr & Hb''). cbn. rewrite Hr. cbn. by exists b''.
Qed.

(** The automaton stays open, and refuses, until the timeout. *)
Lemma circuit_open_blocks t es :
  Forall (fun e => match e with
    | EvAllows now => elapsed now t < timeout | EvReset => False | _ => True end) es ->
  circuit_run (COpen t) es =
  ((fun e => match e with EvAllows _ => Some false | _ => None end) <$> es, COpen t).
Proof.
  induction 1 as [|e es He _ IH]; cbn; [done |].
  destruct e as [now | | now |]; cbn; try done; try by rewrite IH.
  destruct (Z.geb_spec (elapsed now t) timeout); [lia |]. by rewrite IH.
Qed.

Lemma circuit_run_app c es1 es2 :
  circuit_run c (es1 ++ es2) =
  (let '(os1, c1) := circuit_run c es1 in
   let '(os2, c2) := circuit_run c1 es2 in (os1 ++ os2, c2)).
Proof.
  revert c; induction es1 as [|e es1 IH]; intros c; cbn.
  - by destruct (circuit_run c es2).
  - destruct (circuit_step c e) as [o c']. rewrite IH.
    destruct (circuit_run c' es1) as [os1 c1]. by destruct (circuit_run c1 es2).
Qed.

(** Failures in a row, from a closed circuit. *)
Lemma circuit_trips n now k :
  0 <= n -> n + Z.of_nat k < fthr ->
  circuit_run (CClosed n) (replicate k (EvFailure now)) =
  (replicate k None, CClosed (n + Z.of_nat k)).
Proof.
  revert n; induction k as [|k IH]; intros n Hn Hk; cbn [replicate circuit_run circuit_step].
  - by rewrite Z.add_0_r.
  - destruct (Z.geb_spec (n + 1) fthr); [lia |]. rewrite IH by lia. do 2 f_equal; lia.
Qed.

End breaker.

(** C7. Refinement: for any 64-bit thresholds and any sequence of calls of
    [allows_execution], [record_success], [record_failure] and [reset], a new
    breaker never panics, answers what the three-state automaton answers and is
    in the automaton's state after every sequence. *)
Theorem breaker_refines_circuit (prof : Profile) fthr sthr timeout es :
  u64 fthr -> u64 sthr ->
  let '(os, c) := circuit_run fthr sthr timeout (CClosed 0) es in
  exists b, breaker_run (breaker_new fthr sthr timeout) es = Ret (os, b) /\
    breaker_state b = Ret (circuit_state c).
Proof.
  intros Hf Hs.
  pose proof (breaker_run_implements fthr sthr timeout Hf Hs es _ _
    (breaker_new_implements fthr sthr timeout)) as H.
  destruct (circuit_run _ _ _ _ _) as [os c]. destruct H as (b & Hr & _ & _ & _ & Hst & _).
  exists b. split; [exact Hr |]. unfold breaker_state. by rewrite Hst.
Qed.

(** Tripping and blocking: a new breaker accepts executions during fewer
    consecutive failures than its threshold and is open at the threshold; from
    then on, as long as it is not reset and less than the timeout has passed,
    every request is refused, whatever successes and failures are reported, and
    it is still open. *)
Theorem breaker_trips_and_blocks (prof : Profile) fthr sthr timeout t es :
  u64 fthr -> u64 sthr -> 0 < fthr ->
  Forall (fun e => match e with
    | EvAllows now => elapsed now t < timeout | EvReset => False | _ => True end) es ->
  let fails := replicate (Z.to_nat fthr - 1) (EvFailure t) in
  (exists b, breaker_run (breaker_new fthr sthr timeout) fails = Ret (replicate (Z.to_nat fthr - 1) None, b) /\
     breaker_state b = Ret Closed) /\
  exists b, breaker_run (breaker_new fthr sthr timeout) ((fails ++ [EvFailure t]) ++ es) =
      Ret (replicate (Z.to_nat fthr) None ++
           ((fun e => match e with EvAllows _ => Some false | _ => None end) <$> es), b) /\
    breaker_state b = Ret Open.
Proof.
  intros Hf Hs Hpos Hes fails.
  assert (Hrun : circuit_run fthr sthr timeout (CClosed 0) fails =
    (replicate (Z.to_nat fthr - 1) None, CClosed (fthr - 1))).
  { unfold fails. rewrite circuit_trips by lia. do 2 f_equal; lia. }
  split.
  - pose proof (breaker_run_implements fthr sthr timeout Hf Hs fails _ _
      (breaker_new_implements fthr sthr timeout)) as H.
    rewrite Hrun in H. destruct H as (b & Hr & _ & _ & _ & Hst & _).
    exists b. split; [exact Hr |]. unfold breaker_state. by rewrite Hst.
  - pose proof (breaker_run_implements fthr sthr timeout Hf Hs ((fails ++ [EvFailure t]) ++ es) _ _
      (breaker_new_implements fthr sthr timeout)) as H.
    rewrite !circuit_run_app, Hrun in H. cbn [circuit_run circuit_step] in H.
    rewrite (proj2 (Z.geb_le _ _)) in H by lia.
    rewrite circuit_open_blocks in H by done.
    destruct H as (b & Hr & _ & _ & _ & Hst & _). exists b. split.
    + rewrite Hr. do 3 f_equal.
      replace (Z.to_nat fthr) with (S (Z.to_nat fthr - 1)) at 2 by lia.
      by rewrite replicate_S_end.
    + unfold breaker_state. by rewrite Hst.
Qed.

(** ** Retry delays *)

Section delays.
Context {prof : Profile}.

Lemma from_millis_floor d : 0 <= d -> 0 <= from_millis (as_millis_u64 d) <= d.
Proof.
  intros Hd. unfold from_millis, as_millis_u64, wrap, nanos_per_ms.
  pose proof (Z.div_pos d 1000000 Hd ltac:(lia)).
  pose proof (Z.mod_pos_bound (d / 1000000) (2 ^ 64) ltac:(lia)).
  pose proof (Z.mod_le (d / 1000000) (2 ^ 64) ltac:(lia) ltac:(lia)).
  pose proof (Z.mul_div_le d 1000000 ltac:(lia)). lia.
Qed.

Definition policy_ok (p : RetryPolicy) : Prop :=
  0 <= initial_delay p /\ 0 <= max_delay p /\ u32 (backoff_factor p).

(** The cap hides the saturation. *)
Lemma min_saturating base factor cap :
  cap <= umax 64 -> Z.min (saturating_mul 64 base factor) cap = Z.min (base * factor) cap.
Proof. intros. unfold saturating_mul. lia. Qed.

Lemma delay_value p attempt :
  policy_ok p -> 0 < attempt -> backoff_factor p ^ (attempt - 1) < 2 ^ 32 ->
  delay_for_attempt p attempt =
  Ret (from_millis (Z.min (as_millis_u64 (initial_delay p) * backoff_factor p ^ (attempt - 1))
                          (as_millis_u64 (max_delay p)))).
Proof.
  intros (Hi & Hm & Hb) Ha Hpow. unfold delay_for_attempt.
  destruct (Z.eqb_spec attempt 0); [lia |].
  replace (saturating_sub attempt 1) with (attempt - 1) by (unfold saturating_sub; lia).
  unfold pow_w. rewrite checked_in, bind_ret, min_saturating; [done | |].
  - pose proof (wrap_uint 64 (max_delay p / nanos_per_ms) ltac:(lia)).
    unfold as_millis_u64, uint, umax in *. lia.
  - split; [apply Z.pow_nonneg; apply Hb | done].
Qed.

End delays.


(** The default policy: the delays of attempts 1 to 32 are 100 ms doubled
    each time up to 30 s; from attempt 33 on the 32-bit power of two overflows,
    so that a build with overflow checks panics and a build without waits not
    at all, instead of waiting the maximum. *)
Theorem default_policy_delays attempt :
  u32 attempt -> 0 < attempt ->
  if decide (attempt <= 32) then
    forall prof : Profile, delay_for_attempt RetryPolicy_default attempt =
      Ret (from_millis (Z.min (100 * 2 ^ (attempt - 1)) 30000))
  else
    @delay_for_attempt dev RetryPolicy_default attempt = Panic /\
    @delay_for_attempt release RetryPolicy_default attempt = Ret 0.
Proof.
  intros Hu Ha. destruct (decide (attempt <= 32)).
  - intros prof. rewrite delay_value; [reflexivity | by repeat split | done |]. cbn [backoff_factor RetryPolicy_default].
    apply Z.pow_lt_mono_r; lia.
  - assert (Hbig : 2 ^ 32 <= 2 ^ (attempt - 1)) by (apply Z.pow_le_mono_r; lia).
    unfold delay_for_attempt. destruct (Z.eqb_spec attempt 0); [lia |].
    replace (saturating_sub attempt 1) with (attempt - 1) by (unfold saturating_sub; lia).
    unfold pow_w, checked; cbn [backoff_factor RetryPolicy_default].
    assert (Hno : ~ uint 32 (2 ^ (attempt - 1))) by (unfold uint; lia).
    split.
    + by destruct (decide _).
    + destruct (decide _); [done |]. cbn [overflow_checks release].
      assert (Hw : wrap 32 (2 ^ (attempt - 1)) = 0).
      { unfold wrap. replace (attempt - 1) with ((attempt - 33) + 32) by lia.
        rewrite Z.pow_add_r by lia. apply Z.mod_mul; lia. }
      change (if release then Panic else Ret (wrap 32 (2 ^ (attempt - 1))))
        with (Ret (wrap 32 (2 ^ (attempt - 1)))).
      by rewrite Hw.
Qed.

(** ** The failure detector, worker by worker *)

Inductive DetectorEvent : Set :=
| Register (w : WorkerId)
| Deregister (w : WorkerId)
| Heartbeat (now : Z) (w : WorkerId)
| TaskDone (w : WorkerId) (success : bool)
| UpdateAll (now : Z).

Section detector.
Context {prof : Profile}.

Definition detector_step (d : FailureDetector) (e : DetectorEvent) : comp FailureDetector :=
  match e with
  | Register w => register_worker d w
  | Deregister w => deregister_worker d w
  | Heartbeat now w => record_heartbeat now d w
  | TaskDone w success => record_task_result d w success
  | UpdateAll now => update_all_statuses now d
  end.

Fixpoint detector_run (d : FailureDetector) (es : list DetectorEvent) : comp FailureDetector :=
  match es with
  | [] => Ret d
  | e :: es' => d' ← detector_step d e; detector_run d' es'
  end.

(** The specification of one worker's record, with unbounded counters: it
    depends on that worker's events and on the updates only. *)
Context (timeout threshold : Z).

Definition judge (now : Z) (h : WorkerHealth) : WorkerHealth :=
  let h := match last_heartbeat h with
    | Some last =>
        if elapsed now last >? timeout * 3 then set_status h HFailed
        else if elapsed now last >? timeout then set_status h Suspected
        else h
    | None => h
    end in
  if consecutive_failures h >=? threshold then set_status h HFailed else h.

Definition complete (success : bool) (h : WorkerHealth) : WorkerHealth :=
  if success
  then mkWorkerHealth (wh_worker_id h) (status h) (last_heartbeat h) 0
         (tasks_completed h + 1) (tasks_failed h)
  else mkWorkerHealth (wh_worker_id h) (status h) (last_heartbeat h)
         (consecutive_failures h + 1) (tasks_completed h) (tasks_failed h + 1).

Definition worker_step (w : WorkerId) (o : option WorkerHealth) (e : DetectorEvent) :
  option WorkerHealth :=
  match e with
  | Register w' => if decide (w' = w) then Some (WorkerHealth_new w) else o
  | Deregister w' => if decide (w' = w) then None else o
  | Heartbeat now w' =>
      if decide (w' = w)
      then Some (health_record_heartbeat now (default (WorkerHealth_new w) o)) else o
  | TaskDone w' success => if decide (w' = w) then complete success <$> o else o
  | UpdateAll now => judge now <$> o
  end.

Definition worker_run (w : WorkerId) (o : option WorkerHealth) (es : list DetectorEvent) :
  option WorkerHealth := fold_left (worker_step w) es o.

(** No counter exceeds the number of events so far. *)
Definition counters_le (n : Z) (h : WorkerHealth) : Prop :=
  0 <= consecutive_failures h <= n /\ 0 <= tasks_completed h <= n /\ 0 <= tasks_failed h <= n.

Context (Ht : duration (timeout * 3)).

Lemma update_status_judge now h : update_status now h timeout threshold = Ret (judge now h).
Proof using Ht.
  unfold update_status, judge, duration_mul. rewrite decide_True by done.
  by destruct (last_heartbeat h).
Qed.

Lemma completion_spec h success n :
  counters_le n h -> n < 2 ^ 32 - 1 -> record_task_completion h success = Ret (complete success h).
Proof.
  intros (Hc & Hd & He) Hn. unfold record_task_completion, complete, add_w.
  destruct success; rewrite !checked_in by (unfold uint; lia); done.
Qed.

Lemma judge_counters n now h : counters_le n h -> counters_le n (judge now h).
Proof.
  unfold judge. intros H. repeat case_match; done.
Qed.

Lemma update_all_spec now (l : list (WorkerId * WorkerHealth)) (m : gmap WorkerId WorkerHealth) :
  NoDup l.*1 ->
  (forall w h, (w, h) ∈ l -> m !! w = Some h) ->
  exists m', for_each l (fun '(w, health) m =>
      h ← update_status now health timeout threshold; Ret (<[w := h]> m)) m = Ret m' /\
    forall w, m' !! w = if decide (w ∈ l.*1) then judge now <$> m !! w else m !! w.
Proof using Ht.
  revert m; induction l as [|[w0 h0] l IH]; intros m Hnd Hin.
  { exists m. by split. }
  cbn in Hnd. apply NoDup_cons in Hnd as [Hw0 Hnd]. cbn [for_each].
  rewrite update_status_judge, !bind_ret.
  destruct (IH (<[w0 := judge now h0]> m) Hnd) as (m' & -> & Hm').
  { intros w h Hwh. rewrite lookup_insert_ne.
    - apply Hin. by right.
    - intros ->. apply Hw0. apply list_elem_of_fmap. by exists (w, h). }
  exists m'. split; [done |]. intros w. rewrite Hm'. cbn.
  destruct (decide (w = w0)) as [-> | Hne].
  - rewrite decide_False by done. rewrite decide_True by left.
    rewrite lookup_insert_eq, (Hin w0 h0) by left. done.
  - rewrite lookup_insert_ne by done. destruct (decide (w ∈ l.*1)) as [Hw | Hw].
    + rewrite decide_True; [done |]. by right.
    + rewrite decide_False; [done |]. intros [? | ?]%elem_of_cons; done.
Qed.

(** The detector holds [m], is not poisoned and has the configuration. *)
Definition detects (n : Z) (d : FailureDetector) : Prop :=
  poisoned (fd_workers d) = false /\ fd_heartbeat_timeout d = timeout /\
  fd_failure_threshold d = threshold /\
  forall w h, content (fd_workers d) !! w = Some h -> counters_le n h.

(** The detector after a change of its table. *)
Lemma detects_set n d m :
  detects n d -> (forall w h, m !! w = Some h -> counters_le (n + 1) h) -> detects (n + 1) (fd_set d m).
Proof. intros (Hp & HT & Hth & _) Hm. by do 3 (split; [done |]). Qed.

Lemma detects_table n d w h :
  detects n d -> content (fd_workers d) !! w = Some h -> counters_le (n + 1) h.
Proof. intros (_ & _ & _ & Hc) Hw. specialize (Hc w h Hw). unfold counters_le in *. lia. Qed.

Lemma detects_kept n d : detects n d -> detects (n + 1) d.
Proof.
  intros Hd. pose proof Hd as (Hp & HT & Hth & _). do 3 (split; [done |]).
  intros w h. by apply detects_table.
Qed.

Lemma detects_insert n d w h :
  detects n d -> counters_le (n + 1) h -> detects (n + 1) (fd_set d (<[w := h]> (content (fd_workers d)))).
Proof.
  intros Hd Hh. apply detects_set; [done |]. intros w' h'. destruct (decide (w = w')) as [-> |].
  - rewrite lookup_insert_eq. by intros [= <-].
  - rewrite lookup_insert_ne by done. by apply detects_table.
Qed.

Lemma update_all_table now d :
  detects 0 (fd_set d ∅) ->
  exists m', update_all_statuses now d = Ret (fd_set d m') /\
    forall w, m' !! w = judge now <$> content (fd_workers d) !! w.
Proof using Ht.
  intros (Hp & HT & Hth & _). unfold update_all_statuses. rewrite lock_healthy by done.
  cbn in HT, Hth |- *. rewrite HT, Hth. set (m := content (fd_workers d)).
  destruct (update_all_spec now (map_to_list m) m) as (m' & -> & Hm');
    [apply NoDup_fst_map_to_list | intros w h; apply elem_of_map_to_list |].
  exists m'. split; [done |]. intros w. rewrite Hm'. case_decide as Hd; [done |].
  destruct (m !! w) as [h |] eqn:Hw; [| done].
  exfalso; apply Hd. apply list_elem_of_fmap. exists (w, h). split; [done |].
  by apply elem_of_map_to_list.
Qed.

Lemma detector_step_spec d e n :
  detects n d -> 0 <= n < 2 ^ 32 - 1 ->
  exists d', detector_step d e = Ret d' /\ detects (n + 1) d' /\
    forall w, content (fd_workers d') !! w = worker_step w (content (fd_workers d) !! w) e.
Proof using Ht.
  intros Hd Hn. pose proof Hd as (Hp & HT & Hth & Hc).
  destruct e as [w | w | now w | w ok | now]; cbn [detector_step].
  - unfold register_worker. rewrite lock_healthy by done. eexists; split; [reflexivity |].
    split; [apply detects_insert; [done |]; unfold counters_le; cbn; lia |].
    intros w'; cbn. case_decide; [subst; apply lookup_insert_eq | by apply lookup_insert_ne].
  - unfold deregister_worker. rewrite lock_healthy by done. eexists; split; [reflexivity |]. split.
    + apply detects_set; [done |]. intros w' h [_ Hh]%lookup_delete_Some.
      by apply (detects_table n d w').
    + intros w'; cbn. case_decide; [subst; apply lookup_delete_eq | by apply lookup_delete_ne].
  - unfold record_heartbeat. rewrite lock_healthy by done. cbn.
    set (h' := health_record_heartbeat now (default (WorkerHealth_new w) (content (fd_workers d) !! w))).
    exists (fd_set d (<[w := h']> (content (fd_workers d)))).
    split; [unfold h'; by destruct (content (fd_workers d) !! w) |]. split.
    + apply detects_insert; [done |]. unfold h', counters_le.
      destruct (content (fd_workers d) !! w) as [h1 |] eqn:Hw; cbn; [| lia].
      specialize (Hc _ _ Hw). unfold counters_le in Hc. lia.
    + intros w'; cbn. case_decide; [subst; by rewrite lookup_insert_eq | by apply lookup_insert_ne].
  - unfold record_task_result. rewrite lock_healthy by done. cbn.
    destruct (content (fd_workers d) !! w) as [h |] eqn:Hw.
    + rewrite (completion_spec h ok n) by (eauto || lia). eexists; split; [reflexivity |]. split.
      * apply detects_insert; [done |]. specialize (Hc _ _ Hw). unfold counters_le in *.
        destruct ok; cbn; lia.
      * intros w'; cbn. case_decide; [subst; by rewrite lookup_insert_eq, Hw | by apply lookup_insert_ne].
    + exists d; split; [done |]. split; [by apply detects_kept |].
      intros w'; cbn. case_decide; [subst; by rewrite Hw | done].
  - destruct (update_all_table now d) as (m' & -> & Hj); [by split |].
    eexists; split; [done |]. split; [| exact Hj]. apply detects_set; [done |]. intros w h.
    rewrite Hj. intros (h0 & Hh0 & ->)%fmap_Some. apply judge_counters. by apply (detects_table n d w).
Qed.

Lemma detector_run_spec es d n :
  detects n d -> 0 <= n -> n + Z.of_nat (length es) < 2 ^ 32 ->
  exists d', detector_run d es = Ret d' /\ detects (n + Z.of_nat (length es)) d' /\
    forall w, content (fd_workers d') !! w = worker_run w (content (fd_workers d) !! w) es.
Proof using Ht.
  revert d n; induction es as [|e es IH]; intros d n Hd Hn Hlen; cbn [detector_run length] in *.
  { exists d. rewrite Z.add_0_r. by split. }
  destruct (detector_step_spec d e n Hd) as (d1 & -> & Hd1 & Hw1); [lia |].
  destruct (IH d1 (n + 1) Hd1) as (d2 & Hr & Hd2 & Hw2); [lia | lia |].
  exists d2. rewrite bind_ret. split; [done |].
  split; [by replace (n + Z.of_nat (S (length es))) with (n + 1 + Z.of_nat (length es)) by lia |].
  intros w. by rewrite Hw2, Hw1.
Qed.

Lemma detector_new_run es interval :
  Z.of_nat (length es) < 2 ^ 32 ->
  exists d, detector_run (detector_with_config interval timeout threshold) es = Ret d /\
    poisoned (fd_workers d) = false /\
    (forall w, content (fd_workers d) !! w = worker_run w None es) /\
    (forall w h, worker_run w None es = Some h -> counters_le (Z.of_nat (length es)) h).
Proof using Ht.
  intros Hlen.
  destruct (detector_run_spec es (detector_with_config interval timeout threshold) 0)
    as (d & Hr & (Hp & _ & _ & Hc) & Hw); [| lia | lia |].
  - by do 3 (split; [done |]).
  - exists d. split; [done |]. split; [done |].
    assert (Hw' : forall w, content (fd_workers d) !! w = worker_run w None es)
      by (intros w; rewrite Hw; done).
    split; [done |]. intros w h Hh. apply (Hc w). by rewrite Hw'.
Qed.

(** ** What the detector decides about a worker *)

(** No heartbeat, registration or failure of [w], and updates not later than [now]. *)
Definition undisturbed (w : WorkerId) (now : Z) (e : DetectorEvent) : Prop :=
  match e with
  | Register w' | Deregister w' | Heartbeat _ w' | TaskDone w' false => w' <> w
  | TaskDone _ true => True
  | UpdateAll now' => now' <= now
  end.

Lemma judge_elapsed now t h :
  last_heartbeat h = Some t -> consecutive_failures h = 0 -> 0 < threshold ->
  judge now h = set_status h
    (if elapsed now t >? timeout * 3 then HFailed
     else if elapsed now t >? timeout then Suspected else status h).
Proof.
  intros Hl Hc Hth. unfold judge. rewrite Hl.
  destruct (elapsed now t >? timeout * 3); [| destruct (elapsed now t >? timeout)]; cbn; rewrite Hc;
    (destruct (Z.geb_spec 0 threshold); [lia |]); by destruct h.
Qed.

Lemma undisturbed_run w t now es h :
  0 < threshold -> 0 <= timeout ->
  Forall (undisturbed w now) es ->
  last_heartbeat h = Some t -> consecutive_failures h = 0 ->
  (elapsed now t <= timeout -> status h = Healthy) ->
  exists h', worker_run w (Some h) es = Some h' /\
    last_heartbeat h' = Some t /\ consecutive_failures h' = 0 /\
    (elapsed now t <= timeout -> status h' = Healthy).
Proof.
  intros Hth HT Hes. revert h. induction Hes as [|e es He _ IH]; intros h Hl Hc Hst.
  { by exists h. }
  cbn. destruct e as [w' | w' | ? w' | w' [] | now']; cbn in He |- *;
    try (rewrite decide_False by done; by apply IH).
  - case_decide; apply IH; done.
  - rewrite (judge_elapsed now' t) by done. apply IH; [done | done |].
    intros Hle. cbn. assert (elapsed now' t <= elapsed now t) by (unfold elapsed; lia).
    destruct (Z.gtb_spec (elapsed now' t) (timeout * 3)); [lia |].
    destruct (Z.gtb_spec (elapsed now' t) timeout); [lia |]. auto.
Qed.

(** Failed after three timeouts of silence, suspected after one. *)
Definition judged (now t : Z) : HealthStatus :=
  if elapsed now t >? timeout * 3 then HFailed
  else if elapsed now t >? timeout then Suspected else Healthy.

Lemma worker_run_judged w t now es1 es2 :
  0 <= timeout -> 0 < threshold -> Forall (undisturbed w now) es2 ->
  from_option status Unknown
    (worker_run w None (es1 ++ Heartbeat t w :: es2 ++ [UpdateAll now])) =
  judged now t.
Proof.
  intros HT Hth Hes. unfold worker_run.
  rewrite fold_left_app. cbn [fold_left worker_step]. rewrite decide_True by done.
  rewrite fold_left_app.
  match goal with |- context [fold_left (worker_step w) es2 (Some ?h)] =>
    destruct (undisturbed_run w t now es2 h) as (h' & Hrun & Hl & Hc & Hst); [done .. |] end.
  unfold worker_run in Hrun. rewrite Hrun. cbn. rewrite (judge_elapsed now t) by done. unfold judged.
  destruct (Z.gtb_spec (elapsed now t) (timeout * 3)); [done |].
  destruct (Z.gtb_spec (elapsed now t) timeout); [done |]. by rewrite Hst by lia.
Qed.

Lemma judged_available now t :
  0 <= timeout -> status_is_available (judged now t) = (elapsed now t <=? timeout).
Proof using Type.
  intros HT. unfold judged. assert (0 <= elapsed now t) by (unfold elapsed; lia).
  destruct (Z.gtb_spec (elapsed now t) (timeout * 3)), (Z.leb_spec (elapsed now t) timeout);
    try lia; try done;
    destruct (Z.gtb_spec (elapsed now t) timeout); (done || lia).
Qed.

End detector.


(** A worker that registers and never sends a heartbeat nor fails a task is
    never suspected, however long it is silent. *)
Lemma silent_worker_stays_available (prof : Profile) timeout threshold w es :
  0 < threshold ->
  Forall (fun e => match e with
    | Heartbeat _ w' | TaskDone w' false => w' <> w | _ => True end) es ->
  match worker_run timeout threshold w None es with
  | None => True
  | Some h => status h = Unknown
  end.
Proof.
  intros Hth Hes.
  assert (H : match worker_run timeout threshold w None es with
    | None => True
    | Some h => status h = Unknown /\ last_heartbeat h = None /\ consecutive_failures h = 0 end).
  { induction es as [|e es IH] using rev_ind; [done |].
    apply Forall_app in Hes as [Hes He]. rewrite Forall_singleton in He. specialize (IH Hes).
    unfold worker_run in *. rewrite fold_left_app. cbn.
    destruct (fold_left _ es None) as [h |]; destruct e as [w' | w' | ? w' | w' [] | now']; cbn in *;
      try (by rewrite decide_False); try (case_decide; cbn; (done || by destruct IH as (? & ? & ?))).
    2: done.
    destruct IH as (Hs & Hl & Hc). unfold judge. rewrite Hl, Hc.
      destruct (Z.geb_spec 0 threshold); [lia | done]. }
  destruct (worker_run _ _ _ _ _); [by destruct H | done].
Qed.

(** ** Witnesses *)

Definition demo_breaker_events : list BreakerEvent :=
  [EvFailure 1; EvSuccess; EvFailure 2; EvFailure 3; EvAllows 4; EvAllows 40; EvSuccess;
   EvAllows 41; EvFailure 42; EvAllows 43].

Lemma breaker_refines_witness : exists b,
  @breaker_run dev (breaker_new 2 3 30) demo_breaker_events =
    Ret ([None; None; None; None; Some false; Some true; None; Some true; None; Some false], b) /\
  breaker_state b = Ret Open.
Proof.
  assert (H2 : u64 2) by (split; [discriminate | reflexivity]).
  assert (H3 : u64 3) by (split; [discriminate | reflexivity]).
  exact (breaker_refines_circuit dev 2 3 30 demo_breaker_events H2 H3).
Defined.

Lemma breaker_trips_witness : exists b,
  @breaker_run release (breaker_new 2 3 30)
    [EvFailure 5; EvFailure 5; EvAllows 6; EvSuccess; EvAllows 34] =
    Ret ([None; None; Some false; None; Some false], b) /\ breaker_state b = Ret Open.
Proof.
  assert (H2 : u64 2) by (split; [discriminate | reflexivity]).
  assert (H3 : u64 3) by (split; [discriminate | reflexivity]).
  apply (breaker_trips_and_blocks release 2 3 30 5 [EvAllows 6; EvSuccess; EvAllows 34] H2 H3
    eq_refl).
  repeat constructor.
Defined.


Lemma default_policy_witness :
  @delay_for_attempt dev RetryPolicy_default 33 = Panic /\
  @delay_for_attempt release RetryPolicy_default 33 = Ret 0.
Proof.
  assert (H : u32 33) by (split; [discriminate | reflexivity]).
  exact (default_policy_delays 33 H eq_refl).
Defined.

Definition demo_worker : WorkerId := mkWorkerId 4.

