(* ===== verification/BreakerSteps.v ===== *)
(** * BreakerSteps: threads that share a circuit breaker (src/fault.rs)

    Every method of [CircuitBreaker] takes [&self]; its state and its opening
    time are behind two [RwLock]s, its counters are atomics.  [advance] is the
    next atomic action of a call: the copy of a locked value, an atomic
    operation, the acquisition of a write lock with its assignment, which the
    call then holds to the end of the transition.  A call that needs a lock
    somebody holds has no action.

    Whatever the interleaving, no lock is poisoned, no call is blocked for ever
    and an open breaker has its opening time; [Fault]'s methods are the calls
    run alone; concurrent failures are all counted.  The transitions do not look
    at the state again once they have the lock, so a call that has decided on
    one may carry it out on a state that has changed: [stale_transition]. *)

From S2P Require Import Prelude Lts Fault.

(** A call and how far it is.  From [BHalf1] on it holds the state's lock, from
    [BClosed2] and [BOpen2] on also the opening time's. *)
Inductive BCall : Type :=
| BAllows | BCheck | BSuccess | BClear | BCountSuccess | BFailure | BCountFailure
| BToHalf | BHalf1 | BHalf2
| BToClosed | BClosed1 | BClosed2 | BClosed3
| BToOpen | BOpen1 | BOpen2
| BDone (answer : option bool)
| BPanicked.

Record Shared : Type := mkShared {
  br : CircuitBreaker;
  state_held : bool;
  opened_held : bool }.

Definition set_state (b : CircuitBreaker) (s : CircuitState) : CircuitBreaker :=
  mkBreaker (lock_set (cb_state b) s) (failure_count b) (success_count b) (failure_threshold b)
    (success_threshold b) (reset_timeout b) (opened_at b).
Definition set_opened (b : CircuitBreaker) (o : option Z) : CircuitBreaker :=
  mkBreaker (cb_state b) (failure_count b) (success_count b) (failure_threshold b)
    (success_threshold b) (reset_timeout b) (lock_set (opened_at b) o).
Definition set_failures (b : CircuitBreaker) (n : Z) : CircuitBreaker := set_counts b n (success_count b).
Definition set_successes (b : CircuitBreaker) (n : Z) : CircuitBreaker := set_counts b (failure_count b) n.

Section breaker_steps.
Context {prof : Profile}.
Implicit Types (x : Shared) (cs : list BCall).

(** Taking a lock: nothing happens while it is held, a poisoned one panics. *)
Definition taking {A} (held : bool) (l : Lock A) x (k : A -> Shared * BCall) :
  option (Shared * BCall) :=
  if held then None
  else Some (match lock l with Some a => k a | None => (x, BPanicked) end).

Definition after_count x (count : comp Z) (threshold : Z) (next : BCall) : option (Shared * BCall) :=
  Some (x, match count with
           | Ret count => if count >=? threshold then next else BDone None
           | _ => BPanicked
           end).

Definition advance (now : Z) x (c : BCall) : option (Shared * BCall) :=
  let b := br x in
  let on b := mkShared b (state_held x) (opened_held x) in
  match c with
  | BAllows => taking (state_held x) (cb_state b) x (fun s =>
      match s with Open => (x, BCheck) | _ => (x, BDone (Some true)) end)
  | BCheck => taking (opened_held x) (opened_at b) x (fun o =>
      match o with
      | Some opened =>
          if elapsed now opened >=? reset_timeout b then (x, BToHalf) else (x, BDone (Some false))
      | None => (x, BDone (Some false))
      end)
  | BSuccess => taking (state_held x) (cb_state b) x (fun s =>
      match s with
      | Closed => (x, BClear) | HalfOpen => (x, BCountSuccess) | Open => (x, BDone None)
      end)
  | BClear => Some (on (set_failures b 0), BDone None)
  | BCountSuccess =>
      after_count (on (set_successes b (wrap 64 (success_count b + 1))))
        (add_w 64 (success_count b) 1) (success_threshold b) BToClosed
  | BFailure => taking (state_held x) (cb_state b) x (fun s =>
      match s with
      | Closed => (x, BCountFailure) | HalfOpen => (x, BToOpen) | Open => (x, BDone None)
      end)
  | BCountFailure =>
      after_count (on (set_failures b (wrap 64 (failure_count b + 1))))
        (add_w 64 (failure_count b) 1) (failure_threshold b) BToOpen
  | BToHalf => taking (state_held x) (cb_state b) x (fun _ =>
      (mkShared (set_state b HalfOpen) true (opened_held x), BHalf1))
  | BHalf1 => Some (on (set_successes b 0), BHalf2)
  | BHalf2 => Some (mkShared (set_failures b 0) false (opened_held x), BDone (Some true))
  | BToClosed => taking (state_held x) (cb_state b) x (fun _ =>
      (mkShared (set_state b Closed) true (opened_held x), BClosed1))
  | BClosed1 => taking (opened_held x) (opened_at b) x (fun _ =>
      (mkShared (set_opened b None) (state_held x) true, BClosed2))
  | BClosed2 => Some (on (set_failures b 0), BClosed3)
  | BClosed3 => Some (mkShared (set_successes b 0) false false, BDone None)
  | BToOpen => taking (state_held x) (cb_state b) x (fun _ =>
      (mkShared (set_state b Open) true (opened_held x), BOpen1))
  | BOpen1 => taking (opened_held x) (opened_at b) x (fun _ =>
      (mkShared (set_opened b (Some now)) (state_held x) true, BOpen2))
  | BOpen2 => Some (mkShared (set_successes b 0) false false, BDone None)
  | BDone _ | BPanicked => None
  end.

(** The methods' calls; [reset] is the transition to closed. *)
Definition entry (c : BCall) : bool :=
  match c with BAllows | BSuccess | BFailure | BToClosed => true | _ => false end.

(** A call of a method among those [used], or an action of a call. *)
Inductive breaker_move (used : BCall -> bool) :
  Shared * list BCall -> Shared * list BCall -> Prop :=
| move_call x cs c : entry c && used c = true -> breaker_move used (x, cs) (x, cs ++ [c])
| move_advance x cs i c now x' c' :
    cs !! i = Some c -> advance now x c = Some (x', c') ->
    breaker_move used (x, cs) (x', <[i := c']> cs).

Definition any_method (c : BCall) : bool := true.

Definition idle (b : CircuitBreaker) : Shared := mkShared b false false.

(** ** The invariant *)

Definition holds_state (c : BCall) : Z :=
  match c with BHalf1 | BHalf2 | BClosed1 | BClosed2 | BClosed3 | BOpen1 | BOpen2 => 1 | _ => 0 end.
Definition holds_opened (c : BCall) : Z :=
  match c with BClosed2 | BClosed3 | BOpen2 => 1 | _ => 0 end.

(** With no transition under way: open with an opening time, closed without. *)
Definition settled (b : CircuitBreaker) : Prop :=
  match content (cb_state b) with
  | Open => is_Some (content (opened_at b))
  | Closed => content (opened_at b) = None
  | HalfOpen => True
  end.

(** What a transition under way has done. *)
Definition under_way (b : CircuitBreaker) (c : BCall) : Prop :=
  match c with
  | BHalf1 | BHalf2 => content (cb_state b) = HalfOpen
  | BClosed1 => content (cb_state b) = Closed
  | BClosed2 | BClosed3 => content (cb_state b) = Closed /\ content (opened_at b) = None
  | BOpen1 => content (cb_state b) = Open
  | BOpen2 => content (cb_state b) = Open /\ is_Some (content (opened_at b))
  | _ => True
  end.

Record breaker_inv (y : Shared * list BCall) : Prop := {
  bi_state : over holds_state y.2 = Z.b2z (state_held y.1);
  bi_opened : over holds_opened y.2 = Z.b2z (opened_held y.1);
  bi_healthy : poisoned (cb_state (br y.1)) = false /\ poisoned (opened_at (br y.1)) = false;
  bi_calls : Forall (under_way (br y.1)) y.2;
  bi_settled : state_held y.1 = false -> settled (br y.1) }.

Lemma holds_state_bounds c : 0 <= holds_state c.
Proof. by destruct c. Qed.
Lemma holds_opened_bounds c : 0 <= holds_opened c.
Proof. by destruct c. Qed.

(** The one call that holds the state's lock, or takes it. *)
Lemma under_way_alone b cs i c c' :
  cs !! i = Some c -> over holds_state cs = holds_state c -> under_way b c' ->
  Forall (under_way b) (<[i := c']> cs).
Proof.
  intros Hi Hn Hc'. rewrite <- (list_insert_insert_eq cs i c' BPanicked).
  apply Forall_insert; [| done].
  assert (H0 : over holds_state (<[i := BPanicked]> cs) = 0)
    by (rewrite (over_insert _ _ _ _ _ Hi); cbn; lia).
  eapply Forall_impl; [exact (over_zero _ _ holds_state_bounds H0) |]. by intros [].
Qed.

(** The other actions leave what the transitions see. *)
Lemma under_way_kept b b' cs i c' :
  Forall (under_way b) cs ->
  content (cb_state b') = content (cb_state b) -> content (opened_at b') = content (opened_at b) ->
  holds_state c' = 0 -> Forall (under_way b') (<[i := c']> cs).
Proof.
  intros Hcs Hs Ho Hc'. apply Forall_insert; [| by destruct c'].
  eapply Forall_impl; [exact Hcs |]. intros c. unfold under_way. by rewrite Hs, Ho.
Qed.

Lemma breaker_advance_inv x cs i c now x' c' :
  breaker_inv (x, cs) -> cs !! i = Some c -> advance now x c = Some (x', c') ->
  breaker_inv (x', <[i := c']> cs).
Proof.
  intros [Hst Hop [Hp1 Hp2] Hcs Hset] Hi Hadv. cbn [fst snd] in *.
  pose proof (Forall_lookup_1 _ _ _ _ Hcs Hi) as Hc.
  pose proof (over_member _ _ _ _ holds_state_bounds Hi) as Hs1.
  pose proof (over_member _ _ _ _ holds_opened_bounds Hi) as Ho1.
  destruct x as [[[st ps] fc sc ft stt rt [op po]] sh oh]. cbn in *. subst ps po.
  destruct c; cbn in Hadv, Hs1, Ho1, Hc; unfold taking, after_count in Hadv; cbn in Hadv;
    repeat case_match; simplify_eq; try (exfalso; destruct sh, oh; cbn in *; lia);
    split; cbn [fst snd br state_held opened_held];
    rewrite ?(over_insert _ _ _ _ _ Hi); cbn; try done; try lia;
    try (eapply under_way_kept; done);
    try (eapply under_way_alone; [exact Hi | cbn in *; lia | cbn; naive_solver]).
  all: destruct Hc as [-> Hc]; intros _; exact Hc.
Qed.

Lemma breaker_move_inv used y y' : breaker_inv y -> breaker_move used y y' -> breaker_inv y'.
Proof.
  intros Hy Hm. destruct Hm as [x cs c Hc | x cs i c now x' c' Hi Ha].
  - destruct Hy as [Hst Hop Hp Hcs Hset]. cbn [fst snd] in *.
    split; cbn [fst snd]; rewrite ?over_snoc; try done; try (destruct c; done || (cbn; lia)).
    apply Forall_app. split; [done |]. apply Forall_singleton. by destruct c.
  - by eapply breaker_advance_inv.
Qed.

Lemma breaker_reach_inv used y y' :
  breaker_inv y -> rtc (breaker_move used) y y' -> breaker_inv y'.
Proof. intros Hy H. induction H; [done |]. by eauto using breaker_move_inv. Qed.

Lemma breaker_new_inv fthr sthr timeout : breaker_inv (idle (breaker_new fthr sthr timeout), []).
Proof. by split. Qed.

Definition finished (c : BCall) : bool :=
  match c with BDone _ | BPanicked => true | _ => false end.

(** ** No call is blocked for ever *)

(** With the locks free every call has an action. *)
Lemma free_advance now b c : finished c = false -> is_Some (advance now (idle b) c).
Proof. by destruct c; cbn; eauto. Qed.

(** Otherwise the one that holds them has. *)
Lemma holder_advance y now i c :
  breaker_inv y -> y.2 !! i = Some c -> 0 < holds_state c -> is_Some (advance now y.1 c).
Proof.
  intros [Hst Hop _ _ _] Hi Hc. destruct y as [[b sh oh] cs].
  cbn [fst snd br state_held opened_held] in *.
  assert (Hg : forall c, 0 <= holds_state c - holds_opened c) by (by intros []).
  pose proof (over_member _ _ _ _ Hg Hi) as Hm. rewrite over_minus, Hst, Hop in Hm.
  destruct c; try done; cbn in *; eauto; destruct sh, oh; cbn in *; eauto; lia.
Qed.

Lemma breaker_progress y now :
  breaker_inv y -> Forall (fun c => finished c = true) y.2 \/
  exists i c, y.2 !! i = Some c /\ is_Some (advance now y.1 c).
Proof.
  intros Hy. destruct (decide (Forall (fun c => finished c = true) y.2)) as [| Hn]; [by left |].
  right. destruct (state_held y.1) eqn:Hs.
  - destruct (over_positive holds_state y.2) as (i & c & Hi & Hc).
    { rewrite (bi_state _ Hy), Hs. done. }
    exists i, c. split; [done |]. by eapply holder_advance.
  - apply not_Forall_Exists in Hn; [| apply _]. apply Exists_exists in Hn as (c & Hin & Hc).
    apply list_elem_of_lookup in Hin as [i Hi]. exists i, c. split; [done |].
    assert (Ho : opened_held y.1 = false).
    { pose proof (over_nonneg (fun c => holds_state c - holds_opened c) y.2 ltac:(by intros [])) as Hm.
      rewrite over_minus, (bi_state _ Hy), (bi_opened _ Hy), Hs in Hm.
      by destruct (opened_held y.1). }
    destruct y as [[b sh oh] cs]. cbn in *. subst. apply free_advance. by destruct (finished c).
Qed.

(** Calls that are all answered leave a breaker that answers by its state. *)
Lemma quiet_answers y now :
  breaker_inv y -> Forall (fun c => finished c = true) y.2 ->
  y.1 = idle (br y.1) /\
  exists s r b', breaker_state (br y.1) = Ret s /\ allows_execution now (br y.1) = Ret (r, b') /\
    (r = false <-> s = Open /\ exists t, content (opened_at (br y.1)) = Some t /\
       elapsed now t < reset_timeout (br y.1)).
Proof.
  intros Hy Hf.
  assert (H0 : over holds_state y.2 = 0 /\ over holds_opened y.2 = 0).
  { clear Hy. induction Hf as [| c cs Hc _ [IH1 IH2]]; [done |].
    rewrite !over_cons, IH1, IH2. by destruct c. }
  destruct Hy as [Hst Hop [Hp1 Hp2] _ Hset]. destruct H0 as [H1 H2]. rewrite H1 in Hst. rewrite H2 in Hop.
  destruct y as [[[[st ps] fc sc ft stt rt [op po]] sh oh] cs]; cbn in *.
  destruct sh, oh; try done. subst. split; [done |]. specialize (Hset eq_refl). unfold settled in Hset.
  cbn in Hset. unfold allows_execution, breaker_state. cbn. exists st.
  destruct st; cbn.
  - eexists _, _. split; [done |]. split; [done |]. split; [done |]. by intros [].
  - destruct Hset as [t ->]. cbn.
    destruct (Z.geb_spec (elapsed now t) rt); eexists _, _; (split; [done |]; split; [done |]);
      (split; [try done | intros (_ & t' & [= <-] & ?); try done; lia]).
    intros _. split; [done |]. by exists t.
  - eexists _, _. split; [done |]. split; [done |]. split; [done |]. by intros [].
Qed.

(** ** The methods are runs of the system *)

Definition entry_of (e : BreakerEvent) : Z * BCall :=
  match e with
  | EvAllows now => (now, BAllows)
  | EvSuccess => (0, BSuccess)
  | EvFailure now => (now, BFailure)
  | EvReset => (0, BToClosed)
  end.

(** A call that runs alone. *)
Fixpoint alone (fuel : nat) (now : Z) x (c : BCall) : Shared * BCall :=
  match fuel with
  | O => (x, c)
  | S fuel => match advance now x c with Some (x, c) => alone fuel now x c | None => (x, c) end
  end.

Lemma alone_run fuel now x c cs :
  let '(x', c') := alone fuel now x c in
  rtc (breaker_move any_method) (x, cs ++ [c]) (x', cs ++ [c']).
Proof.
  revert x c; induction fuel as [| fuel IH]; intros x c; cbn [alone]; [apply rtc_refl |].
  destruct (advance now x c) as [[x1 c1] |] eqn:Ha; [| apply rtc_refl].
  specialize (IH x1 c1). destruct (alone fuel now x1 c1) as [x' c'].
  eapply rtc_l; [| exact IH]. rewrite <- (snoc_insert cs c c1).
  eapply move_advance; [apply snoc_lookup | exact Ha].
Qed.

Lemma method_alone b e o b' :
  breaker_step b e = Ret (o, b') ->
  alone 6 (entry_of e).1 (idle b) (entry_of e).2 = (idle b', BDone o).
Proof.
  destruct b as [[st []] fc sc ft stt rt [op []]]; destruct e as [now | | now |], st; try done;
    cbn [alone entry_of fst snd idle advance br state_held opened_held taking after_count breaker_step
      cb_state opened_at lock poisoned content].
  all: unfold allows_execution, record_success, record_failure, breaker_state; cbn.
  all: try (by intros [= <- <-]).
  all: match goal with
    | |- context [add_w 64 ?n 1] =>
        destruct (add_w 64 n 1) as [count | |]; [cbn; destruct (count >=? _) | done | done];
        by intros [= <- <-]
    | |- _ => destruct op as [t |]; [cbn; destruct (elapsed now t >=? rt) |]; by intros [= <- <-]
    end.
Qed.

(** Calls of the methods, one after the other. *)
Lemma methods_refine_breaker b es os b' cs :
  breaker_run b es = Ret (os, b') ->
  rtc (breaker_move any_method) (idle b, cs) (idle b', cs ++ (BDone <$> os)).
Proof.
  revert b os cs; induction es as [| e es IH]; intros b os cs; cbn [breaker_run].
  - intros [= <- <-]. by rewrite app_nil_r.
  - intros ([o b1] & H1 & ([os1 b2] & H & [= <- <-])%bind_ret_inv)%bind_ret_inv.
    apply method_alone in H1. pose proof (alone_run 6 (entry_of e).1 (idle b) (entry_of e).2 cs) as Hr.
    rewrite H1 in Hr. specialize (IH b1 os1 (cs ++ [BDone o]) H). rewrite <- app_assoc in IH.
    eapply rtc_l; [by apply (move_call any_method (idle b) cs (entry_of e).2); destruct e |].
    etransitivity; [exact Hr | exact IH].
Qed.

(** ** Concurrent failures *)

Definition is_failure (c : BCall) : bool := match c with BFailure => true | _ => false end.

(** The calls of [record_failure], and those that have been counted. *)
Definition failing (c : BCall) : Prop :=
  match c with
  | BFailure | BCountFailure | BToOpen | BOpen1 | BOpen2 | BDone _ | BPanicked => True
  | _ => False
  end.
Definition counted (c : BCall) : Z :=
  match c with BToOpen | BOpen1 | BOpen2 | BDone _ | BPanicked => 1 | _ => 0 end.

Definition opening (c : BCall) : Z := match c with BToOpen => 1 | _ => 0 end.

Lemma counted_le cs : 0 <= over counted cs <= Z.of_nat (length cs).
Proof.
  induction cs as [| c cs IH]; [done |]. rewrite over_cons. cbn [length].
  assert (0 <= counted c <= 1) by (by destruct c). lia.
Qed.

Section failures.
Context (fthr : Z) (Hfthr : u64 fthr).

Record failures_inv (y : Shared * list BCall) : Prop := {
  fi_calls : Forall failing y.2;
  fi_threshold : failure_threshold (br y.1) = fthr;
  fi_state : match content (cb_state (br y.1)) with
    | Open => Z.max 1 fthr <= over counted y.2
    | Closed => failure_count (br y.1) = over counted y.2 /\
        (Z.max 1 fthr <= over counted y.2 <-> 0 < over opening y.2)
    | HalfOpen => False
    end }.

Lemma failures_advance x cs i c now x' c' :
  Z.of_nat (length cs) < 2 ^ 64 ->
  breaker_inv (x, cs) -> failures_inv (x, cs) ->
  cs !! i = Some c -> advance now x c = Some (x', c') ->
  failures_inv (x', <[i := c']> cs).
Proof using Hfthr.
  intros Hlen Hb [Hcs Hthr Hst] Hi Hadv. cbn [fst snd] in *.
  pose proof (Forall_lookup_1 _ _ _ _ Hcs Hi) as Hfail.
  pose proof (Forall_lookup_1 _ _ _ _ (bi_calls _ Hb) Hi) as Hway. cbn [fst] in Hway.
  pose proof (over_member opening _ _ _ ltac:(by intros []) Hi) as Hop.
  pose proof (counted_le cs) as Hle. pose proof (counted_le (<[i := c']> cs)) as Hle'.
  rewrite length_insert, (over_insert _ _ _ _ _ Hi) in Hle'.
  destruct (bi_healthy _ Hb) as [Hp1 Hp2]. cbn [fst] in *.
  destruct x as [[[st ps] fc sc ft stt rt [op po]] sh oh].
  cbn [br cb_state opened_at poisoned content failure_count failure_threshold] in *. subst ps po ft.
  destruct c; try done; cbn in Hadv, Hop; unfold taking, after_count in Hadv; cbn in Hadv.
  - (* read *)
    destruct sh; [done |]. destruct st; simplify_eq; try done;
      (split; [by apply Forall_insert | done |]); cbn [fst snd br cb_state content failure_count];
      rewrite !(over_insert _ _ _ _ _ Hi); cbn; rewrite ?Z.sub_0_r, ?Z.add_0_r; [done | lia].
  - (* count *)
    destruct st; [| | done].
    + destruct Hst as [-> Hiff]. unfold add_w in Hadv. injection Hadv as <- <-.
      set (n := over counted cs) in *.
      assert (Hn : n + 1 < 2 ^ 64) by (cbn in Hle'; repeat case_match; cbn in Hle'; lia).
      clear Hle'. rewrite checked_in by (unfold uint; lia).
      destruct (Z.geb_spec (n + 1) fthr); (split; [by apply Forall_insert | done |]);
        cbn [fst snd br set_failures set_counts cb_state content failure_count success_count];
        rewrite !(over_insert _ _ _ _ _ Hi), wrap_id by (unfold uint; lia); cbn; fold n; lia.
    + injection Hadv as <- <-. split; cbn [fst snd].
      * apply Forall_insert; [done |]. by repeat case_match.
      * done.
      * cbn [br set_failures set_counts cb_state content]. rewrite (over_insert _ _ _ _ _ Hi).
        cbn. repeat case_match; cbn; lia.
  - (* open *)
    destruct sh; [done |]. injection Hadv as <- <-.
    split; [by apply Forall_insert | done |]. cbn [fst snd br set_state cb_state lock_set content].
    rewrite (over_insert _ _ _ _ _ Hi). cbn in *. destruct st; [lia | lia | done].
  - (* opening time *)
    destruct oh; [done |]. injection Hadv as <- <-. cbn in Hway. subst st.
    split; [by apply Forall_insert | done |]. cbn [fst snd br set_opened cb_state lock_set content].
    rewrite (over_insert _ _ _ _ _ Hi). cbn. lia.
  - (* release *)
    injection Hadv as <- <-. cbn in Hway. destruct Hway as [-> _].
    split; [by apply Forall_insert | done |].
    cbn [fst snd br set_successes set_counts cb_state content].
    rewrite (over_insert _ _ _ _ _ Hi). cbn. lia.
Qed.

Lemma failures_move y y' :
  Z.of_nat (length y'.2) < 2 ^ 64 -> breaker_inv y -> failures_inv y ->
  breaker_move is_failure y y' -> failures_inv y'.
Proof using Hfthr.
  intros Hlen Hb Hf Hm. destruct Hm as [x cs c Hc | x cs i c now x' c' Hi Ha]; cbn [snd] in Hlen.
  - destruct Hf as [Hcs Hthr Hst]. cbn [fst snd] in *.
    assert (c = BFailure) as -> by (destruct c; done).
    split; cbn [fst snd]; [| done | by rewrite !over_snoc, !Z.add_0_r].
    apply Forall_app. split; [done |]. by apply Forall_singleton.
  - rewrite length_insert in Hlen. by eapply failures_advance.
Qed.

Lemma run_length used y y' : rtc (breaker_move used) y y' -> (length y.2 <= length y'.2)%nat.
Proof.
  induction 1 as [| y y1 y2 Hm _ IH]; [done |]. etransitivity; [| exact IH].
  destruct Hm; cbn [snd]; rewrite ?length_app, ?length_insert; lia.
Qed.

Lemma failures_reach y y' :
  Z.of_nat (length y'.2) < 2 ^ 64 -> breaker_inv y -> failures_inv y ->
  rtc (breaker_move is_failure) y y' -> failures_inv y'.
Proof using Hfthr.
  intros Hlen Hb Hf H. induction H as [| y y1 y2 Hm Hr IH]; [done |].
  pose proof (run_length _ _ _ Hr). apply IH; [done | by eapply breaker_move_inv |].
  eapply failures_move; [lia | done | done | exact Hm].
Qed.

End failures.


(** ** A transition decided on earlier *)

(** A schedule: a call, or the next action of a call and its time. *)
Fixpoint exec (used : BCall -> bool) (y : Shared * list BCall) (schedule : list (BCall + nat * Z)) :
  option (Shared * list BCall) :=
  match schedule with
  | [] => Some y
  | inl c :: schedule => if entry c && used c then exec used (y.1, y.2 ++ [c]) schedule else None
  | inr (i, now) :: schedule =>
      c ← y.2 !! i; '(x, c) ← advance now y.1 c; exec used (x, <[i := c]> y.2) schedule
  end.

Lemma exec_run used schedule y y' :
  exec used y schedule = Some y' -> rtc (breaker_move used) y y'.
Proof.
  revert y; induction schedule as [| [c | [i now]] schedule IH]; intros [x cs]; cbn [exec fst snd].
  - intros [= <-]. apply rtc_refl.
  - destruct (entry c && used c) eqn:Hc; [| done]. intros H.
    eapply rtc_l; [by apply (move_call used x cs c) | exact (IH _ H)].
  - intros (c & Hi & H)%bind_Some. apply bind_Some in H as ([x1 c1] & Ha & H).
    eapply rtc_l; [by eapply move_advance | exact (IH _ H)].
Qed.

End breaker_steps.

(** C8. Threads that share a circuit breaker, in every state that calls of its
    methods can reach in any interleaving: neither lock is poisoned and at most
    one call holds the state's; there is no deadlock, as long as a call is not
    answered some call has an action; and when all are answered the breaker is
    at rest, where a request is refused exactly if the breaker is open and less
    than the timeout has passed since the opening time, which an open breaker
    always has: it is never open for ever. *)
Theorem shared_breaker_safe {prof : Profile} fthr sthr timeout x cs now :
  rtc (breaker_move any_method) (idle (breaker_new fthr sthr timeout), []) (x, cs) ->
  poisoned (cb_state (br x)) = false /\ poisoned (opened_at (br x)) = false /\
  over holds_state cs <= 1 /\
  (Forall (fun c => finished c = true) cs \/
   exists i c, cs !! i = Some c /\ is_Some (advance now x c)) /\
  (Forall (fun c => finished c = true) cs ->
   x = idle (br x) /\
   exists s r b', breaker_state (br x) = Ret s /\ allows_execution now (br x) = Ret (r, b') /\
     (r = false <-> s = Open /\ exists t, content (opened_at (br x)) = Some t /\
        elapsed now t < reset_timeout (br x))).
Proof.
  intros Hr. pose proof (breaker_reach_inv _ _ _ (breaker_new_inv fthr sthr timeout) Hr) as Hy.
  destruct (bi_healthy _ Hy) as [H1 H2]. split; [done |]. split; [done |]. split.
  - pose proof (bi_state _ Hy) as Hs. cbn [fst snd] in Hs. rewrite Hs. by destruct (state_held x).
  - split; [exact (breaker_progress _ now Hy) | exact (quiet_answers _ now Hy)].
Qed.

(** C9. No concurrent failure is lost: when fewer than 2^64 threads have
    reported a failure to a new breaker, in any interleaving, and all their
    calls are answered, the breaker is open exactly if they are at least the
    threshold (or one, for the threshold 0), and otherwise closed with their
    number as its count. *)
Theorem concurrent_failures_counted {prof : Profile} fthr sthr timeout x cs :
  u64 fthr -> Z.of_nat (length cs) < 2 ^ 64 ->
  rtc (breaker_move is_failure) (idle (breaker_new fthr sthr timeout), []) (x, cs) ->
  Forall (fun c => finished c = true) cs ->
  if Z.max 1 fthr <=? Z.of_nat (length cs)
  then breaker_state (br x) = Ret Open
  else breaker_state (br x) = Ret Closed /\ failure_count (br x) = Z.of_nat (length cs).
Proof.
  intros Hf Hlen Hr Hfin. pose proof (breaker_new_inv fthr sthr timeout) as H0.
  assert (Hn : failures_inv fthr (idle (breaker_new fthr sthr timeout), [])).
  { split; [done | done |]. cbn. lia. }
  pose proof (breaker_reach_inv _ _ _ H0 Hr) as Hy.
  destruct (failures_reach fthr Hf _ (x, cs) Hlen H0 Hn Hr) as [_ _ Hst]. cbn [fst snd] in Hst.
  destruct (bi_healthy _ Hy) as [Hp _]. cbn [fst] in Hp.
  assert (Hover : over counted cs = Z.of_nat (length cs) /\ over opening cs = 0).
  { clear -Hfin. induction Hfin as [| c cs Hc _ [IH1 IH2]]; [done |].
    rewrite !over_cons, IH1, IH2. cbn [length]. destruct c; try done; cbn; lia. }
  destruct Hover as [Hc Ho]. rewrite Hc, Ho in Hst.
  unfold breaker_state, lock. rewrite Hp.
  destruct (Z.leb_spec (Z.max 1 fthr) (Z.of_nat (length cs))); destruct (content _); try done; try lia.
  by destruct Hst.
Qed.

(** ** Witnesses *)

Definition threshold_two : Shared := idle (breaker_new 2 1 10).

(** A reported failure, from its call on: the whole of it, at time [t]. *)
Definition whole (i n : nat) (t : Z) : list (BCall + nat * Z) := replicate n (inr (i, t)).

(** Two failures that both read the state before either counts. *)
Definition race : list (BCall + nat * Z) :=
  [inl BFailure; inl BFailure; inr (0%nat, 5); inr (1%nat, 5); inr (1%nat, 5)] ++ whole 0 4 6.

Lemma concurrent_failures_witness : exists x,
  rtc (breaker_move (prof := dev) is_failure) (threshold_two, []) (x, [BDone None; BDone None]) /\
  breaker_state (br x) = Ret Open.
Proof.
  eassert (H : rtc (breaker_move (prof := dev) is_failure) (threshold_two, [])
    (_, [BDone None; BDone None])) by (apply (exec_run (prof := dev) is_failure race); reflexivity).
  eexists. split; [exact H |].
  apply (concurrent_failures_counted (prof := dev) 2 1 10 _ [BDone None; BDone None]);
    [by split | reflexivity | exact H | by repeat constructor].
Defined.

(** A request decides on the transition to half-open; another request is let in
    first, succeeds and closes the breaker. *)
Definition closed_meanwhile : list (BCall + nat * Z) :=
  race ++ [inl BAllows; inr (2%nat, 20); inr (2%nat, 20)] ++
  inl BAllows :: whole 3 5 20 ++ inl BSuccess :: whole 4 6 21.

(** Then the first request makes its transition, and one failure comes in. *)
Definition one_failure : list (BCall + nat * Z) := whole 2 3 22 ++ inl BFailure :: whole 5 4 23.

(** A transition does not look at the state again: from a closed breaker
    without failures, whose threshold is two, a single failure leads to an open
    one; [circuit_step] counts it and stays closed. *)
Example stale_transition : exists x cs x' cs',
  rtc (breaker_move (prof := dev) any_method) (threshold_two, []) (x, cs) /\
  breaker_state (br x) = Ret Closed /\ failure_count (br x) = 0 /\
  rtc (breaker_move (prof := dev) any_method) (x, cs) (x', cs') /\
  drop (length cs) cs' = [BDone None] /\ breaker_state (br x') = Ret Open /\
  circuit_step 2 1 10 (CClosed 0) (EvFailure 23) = (None, CClosed 1).
Proof.
  assert (H : exists y y',
    exec (prof := dev) any_method (threshold_two, []) closed_meanwhile = Some y /\
    breaker_state (br y.1) = Ret Closed /\ failure_count (br y.1) = 0 /\
    exec (prof := dev) any_method y one_failure = Some y' /\
    drop (length y.2) y'.2 = [BDone None] /\ breaker_state (br y'.1) = Ret Open).
  { eexists _, _. split; [vm_compute; reflexivity |]. split; [reflexivity |]. split; [reflexivity |].
    split; [vm_compute; reflexivity |]. split; reflexivity. }
  destruct H as ([x cs] & [x' cs'] & H1 & H2 & H3 & H4 & H5 & H6). exists x, cs, x', cs'.
  split_and!; [by eapply exec_run | done | done | by eapply exec_run | done | done | done].
Qed.

Lemma shared_breaker_witness : exists x cs,
  rtc (breaker_move (prof := dev) any_method) (threshold_two, []) (x, cs) /\
  cs !! 2%nat = Some BToHalf /\ over holds_state cs <= 1.
Proof.
  set (y := exec (prof := dev) any_method (threshold_two, []) closed_meanwhile).
  assert (Hy : exists y', y = Some y' /\ y'.2 !! 2%nat = Some BToHalf)
    by (vm_compute; eexists; split; reflexivity).
  destruct Hy as ([x cs] & Hy & Hi). apply exec_run in Hy. exists x, cs.
  split; [exact Hy |]. split; [exact Hi |].
  exact (proj1 (proj2 (proj2 (shared_breaker_safe (prof := dev) 2 1 10 x cs 20 Hy)))).
Defined.
