(* ===== verification/Executor.v ===== *)
(** * Executor: the compute backends (src/executor.rs)

    The [Executor] trait as a class, the CPU executor with its process handling
    and its pipelines, the GPU and remote executors, and the registry that
    dispatches a task to the first executor that accepts it.

    Child processes, the clock and sleeping belong to the operating system: the
    class [Os] is a parameter with a state [W], and its operations are those
    the code calls ([Command::spawn], [Child::try_wait], ...).  The two that
    can block, the write to a child's standard input and the wait for its end and
    its output, may never return; a call that runs into that has no result with any
    fuel.  The polling loop of a task with a timeout runs with fuel. *)

From stdpp Require Import pretty.
From S2P Require Import Prelude Bytes KernelError Scheduler Task Fault.

(** ** The operating system *)

(** [std::process::Command] as the code fills it, and [ExitStatus]. *)
Record Command : Type := mkCommand {
  cmd_path : string;
  cmd_args : list string;
  cmd_env : gmap string string;
  cmd_dir : option string;
  cmd_piped_stdin : bool }.

Definition ExitStatus : Type := option Z.
Definition status_code (s : ExitStatus) : option Z := s.
Definition status_success (s : ExitStatus) : bool := bool_decide (s = Some 0).

Class Os (W : Type) : Type := {
  clock : W -> Z * W;
  sleep : Z -> W -> W;
  Child : Type;
  (** The error says whether it is [NotFound]. *)
  spawn : Command -> W -> result bool Child * W;
  (** [write_all] on the pipe: [None] when the child never reads all of it (an error,
      which the code ignores, is a return). *)
  write_stdin : Child -> bytes -> W -> option W;
  try_wait : Child -> W -> result unit (option ExitStatus) * W;
  (** [None] when the child never exits, or its output pipes are never closed. *)
  wait_with_output : Child -> W -> option (result unit (ExitStatus * bytes * bytes) * W);
  kill : Child -> W -> W;
  available_parallelism : option Z }.

(** What the code relies on: time does not go back, and sleeping takes time. *)
Class OsLaws (W : Type) {os : Os W} (time_of : W -> Z) : Prop := {
  clock_reads w : (clock w).1 = time_of (clock w).2;
  clock_mono w : time_of w <= time_of (clock w).2;
  sleep_takes d w : 0 <= d -> time_of w + d <= time_of (sleep d w);
  spawn_mono c w : time_of w <= time_of (spawn c w).2;
  write_mono c d w w' : write_stdin c d w = Some w' -> time_of w <= time_of w';
  try_wait_mono c w : time_of w <= time_of (try_wait c w).2;
  wait_mono c w r w' : wait_with_output c w = Some (r, w') -> time_of w <= time_of w';
  kill_mono c w : time_of w <= time_of (kill c w) }.

(** A call that blocks for ever never has a result. *)
Definition unblocked {A} (o : option A) : comp A := match o with Some a => Ret a | None => OutOfFuel end.

(** [Instant + Duration] panics past the last instant, 2^63 seconds. *)
Definition instant_add (i d : Z) : comp Z :=
  if decide (i + d < 2 ^ 63 * nanos_per_sec) then Ret (i + d) else Panic.

(** ** The trait *)

Class Executor (W E : Type) : Type := {
  ex_backend : E -> Backend;
  ex_can_execute : E -> Task -> bool;
  ex_execute_sync : nat -> E -> Task -> W -> comp (Result ExecutionResult * E * W);
  ex_num_workers : E -> Z;
  ex_is_healthy : E -> bool;
  ex_shutdown : E -> E }.

(** ** The CPU executor *)

Record CpuExecutor : Type := mkCpu {
  cpu_workers : Z;
  max_memory : option Z;
  max_cpu_time : option Z;
  running_tasks : Z;
  cpu_running : bool }.

Definition CpuExecutor_new (num : Z) : CpuExecutor := mkCpu (Z.max num 1) None None 0 true.
Definition default_workers {W} {os : Os W} : CpuExecutor :=
  CpuExecutor_new (default 4 available_parallelism).
Definition with_max_memory (e : CpuExecutor) (n : Z) : CpuExecutor :=
  mkCpu (cpu_workers e) (Some n) (max_cpu_time e) (running_tasks e) (cpu_running e).
Definition with_max_cpu_time (e : CpuExecutor) (d : Z) : CpuExecutor :=
  mkCpu (cpu_workers e) (max_memory e) (Some d) (running_tasks e) (cpu_running e).
Definition set_running_tasks (e : CpuExecutor) (n : Z) : CpuExecutor :=
  mkCpu (cpu_workers e) (max_memory e) (max_cpu_time e) n (cpu_running e).

(** [{:?}] of an [Option<i32>]. *)
Definition debug_code (code : option Z) : string :=
  match code with Some c => "Some(" +:+ pretty c +:+ ")" | None => "None" end.

Definition build_result (task_id : TaskId) (exit_code : option Z) (stdout stderr : bytes)
    (duration : Z) (success : bool) : ExecutionResult :=
  mkExecutionResult task_id exit_code stdout stderr [] duration
    (if success then Completed else Failed)
    (if success then None else Some ("Exit code: " +:+ debug_code exit_code)).

Section cpu.
Context {W : Type} {os : Os W}.

Definition command_of (task : BinaryTask) : Command :=
  mkCommand (bt_path task) (bt_args task) (bt_env task) (bt_working_dir task)
    (bool_decide (is_Some (bt_stdin task))).

(** One turn of the polling loop. *)
Definition poll (child : Child) (task_id : TaskId) (start deadline : Z) (w : W) :
  comp (W + Result ExecutionResult * W) :=
  let '(r, w) := try_wait child w in
  match r with
  | Ok (Some status) =>
      '(out, w) ← unblocked (wait_with_output child w);
      match out with
      | Err _ => Ret (inr (Err IoTimeout, w))
      | Ok (_, stdout, stderr) =>
          let '(t, w) := clock w in
          Ret (inr (Ok (build_result task_id (status_code status) stdout stderr (elapsed t start)
                          (status_success status)), w))
      end
  | Ok None =>
      let '(t, w) := clock w in
      if t >? deadline then
        let w := kill child w in
        let '(t', w) := clock w in
        Ret (inr (Ok (mkExecutionResult task_id None [] [] [] (elapsed t' start) TimedOut
                        (Some "Task timed out")), w))
      else Ret (inl (sleep (from_millis 10) w))
  | Err _ => Ret (inr (Err IoTimeout, w))
  end.

Definition run_binary_internal (fuel : nat) (e : CpuExecutor) (task : BinaryTask)
    (timeout : option Z) (task_id : TaskId) (start : Z) (w : W) :
  comp (Result ExecutionResult * W) :=
  let '(r, w) := spawn (command_of task) w in
  match r with
  | Err not_found =>
      Ret (Err (if (not_found : bool) then UblkDeviceNotFound else InvalidRequest), w)
  | Ok child =>
      w ← match bt_stdin task with Some data => unblocked (write_stdin child data w) | None => Ret w end;
      match (match timeout with Some t => Some t | None => max_cpu_time e end) with
      | Some timeout_duration =>
          deadline ← instant_add start timeout_duration;
          loop fuel (poll child task_id start deadline) w
      | None =>
          '(out, w) ← unblocked (wait_with_output child w);
          match out with
          | Err _ => Ret (Err IoTimeout, w)
          | Ok (status, stdout, stderr) =>
              let '(t, w) := clock w in
              Ret (Ok (build_result task_id (status_code status) stdout stderr (elapsed t start)
                         (status_success status)), w)
          end
      end
  end.

Definition execute_binary (fuel : nat) (e : CpuExecutor) (task : BinaryTask)
    (timeout : option Z) (w : W) : comp (Result ExecutionResult * CpuExecutor * W) :=
  let '(start, w) := clock w in
  let task_id := mkTaskId 0 in
  let e := set_running_tasks e (wrap 64 (running_tasks e + 1)) in
  '(r, w) ← run_binary_internal fuel e task timeout task_id start w;
  let e := set_running_tasks e (wrap 64 (running_tasks e - 1)) in
  Ret (r, e, w).

Definition set_stdin (t : BinaryTask) (stdin : option bytes) : BinaryTask :=
  mkBinaryTask (bt_path t) (bt_args t) (bt_env t) (bt_working_dir t) stdin.

(** The stages from [idx] on. *)
Fixpoint run_stages (fuel : nat) (e : CpuExecutor) (pipe_output : bool) (timeout : option Z)
    (start : Z) (idx : nat) (last_output : option bytes) (stages : list BinaryTask) (w : W) :
  comp (Result ExecutionResult * CpuExecutor * W) :=
  match stages with
  | [] =>
      let '(t, w) := clock w in
      Ret (Ok (mkExecutionResult (mkTaskId 0) (Some 0) (default [] last_output) [] []
                 (elapsed t start) Completed None), e, w)
  | stage :: stages' =>
      let stage_task :=
        if pipe_output && (0 <? idx)%nat then set_stdin stage last_output else stage in
      '(r, e, w) ← execute_binary fuel e stage_task timeout w;
      match r with
      | Err err => Ret (Err err, e, w)
      | Ok result =>
          if is_success result then
            run_stages fuel e pipe_output timeout start (S idx) (Some (er_stdout result)) stages' w
          else
            let '(t, w) := clock w in
            Ret (Ok (mkExecutionResult (mkTaskId 0) (er_exit_code result) (er_stdout result)
                       (er_stderr result) [] (elapsed t start) Failed
                       (Some ("Pipeline stage " +:+ pretty (Z.of_nat idx) +:+ " failed"))), e, w)
      end
  end.

Definition cpu_execute_sync (fuel : nat) (e : CpuExecutor) (task : Task) (w : W) :
  comp (Result ExecutionResult * CpuExecutor * W) :=
  if negb (cpu_running e) then Ret (Err DeviceNotReady, e, w)
  else
    match kind task with
    | Binary binary_task => execute_binary fuel e binary_task (timeout task) w
    | Pipeline p =>
        let '(start, w) := clock w in
        run_stages fuel e (pipe_output p) (timeout task) start 0 None (stages p) w
    | Shader _ => Ret (Err NotSupported, e, w)
    end.

Definition accepts_backend (b : Backend) (task : Task) : bool :=
  bool_decide (backend task = b) || bool_decide (backend task = AnyBackend).

Definition cpu_can_execute (e : CpuExecutor) (task : Task) : bool :=
  match kind task with Binary _ | Pipeline _ => true | Shader _ => false end &&
  accepts_backend Cpu task && cpu_running e.

Definition cpu_shutdown (e : CpuExecutor) : CpuExecutor :=
  mkCpu (cpu_workers e) (max_memory e) (max_cpu_time e) (running_tasks e) false.

#[export] Instance Cpu_executor : Executor W CpuExecutor := {|
  ex_backend _ := Cpu;
  ex_can_execute := cpu_can_execute;
  ex_execute_sync := cpu_execute_sync;
  ex_num_workers := cpu_workers;
  ex_is_healthy := cpu_running;
  ex_shutdown := cpu_shutdown |}.

End cpu.

(** ** The GPU and remote executors *)

Record GpuExecutor : Type := mkGpu { num_devices : Z; gpu_running : bool }.
Definition GpuExecutor_new : GpuExecutor := mkGpu 0 true.
Definition GpuExecutor_default : GpuExecutor := mkGpu 0 false.
Definition gpu_is_available : bool := false.
Definition gpu_can_execute (e : GpuExecutor) (task : Task) : bool :=
  match kind task with Shader _ => true | _ => false end &&
  accepts_backend Gpu task && gpu_running e && (num_devices e >? 0).
Definition gpu_execute_sync {W} (fuel : nat) (e : GpuExecutor) (task : Task) (w : W) :
  comp (Result ExecutionResult * GpuExecutor * W) := Ret (Err NotSupported, e, w).
Definition gpu_is_healthy (e : GpuExecutor) : bool := gpu_running e && (num_devices e >? 0).
Definition gpu_shutdown (e : GpuExecutor) : GpuExecutor := mkGpu (num_devices e) false.

#[export] Instance Gpu_executor W : Executor W GpuExecutor := {|
  ex_backend _ := Gpu;
  ex_can_execute := gpu_can_execute;
  ex_execute_sync := gpu_execute_sync;
  ex_num_workers := num_devices;
  ex_is_healthy := gpu_is_healthy;
  ex_shutdown := gpu_shutdown |}.

Record RemoteExecutor : Type := mkRemote { remote_workers : list string; connected : bool }.
Definition RemoteExecutor_new : RemoteExecutor := mkRemote [] false.
Definition remote_add_worker (e : RemoteExecutor) (address : string) : RemoteExecutor :=
  mkRemote (remote_workers e ++ [address]) (connected e).
Definition connect (e : RemoteExecutor) : Result unit * RemoteExecutor :=
  (Ok tt, mkRemote (remote_workers e) true).
Definition has_workers (e : RemoteExecutor) : bool :=
  match remote_workers e with [] => false | _ => true end.
Definition remote_can_execute (e : RemoteExecutor) (task : Task) : bool :=
  match kind task with Binary _ => true | _ => false end &&
  accepts_backend Remote task && connected e && has_workers e.
Definition remote_execute_sync {W} (fuel : nat) (e : RemoteExecutor) (task : Task) (w : W) :
  comp (Result ExecutionResult * RemoteExecutor * W) := Ret (Err NotSupported, e, w).
Definition remote_is_healthy (e : RemoteExecutor) : bool := connected e && has_workers e.
Definition remote_shutdown (e : RemoteExecutor) : RemoteExecutor :=
  mkRemote (remote_workers e) false.

#[export] Instance Remote_executor W : Executor W RemoteExecutor := {|
  ex_backend _ := Remote;
  ex_can_execute := remote_can_execute;
  ex_execute_sync := remote_execute_sync;
  ex_num_workers e := Z.of_nat (length (remote_workers e));
  ex_is_healthy := remote_is_healthy;
  ex_shutdown := remote_shutdown |}.

(** ** [dyn Executor] and the registry *)

Inductive DynExecutor : Type :=
| DCpu (e : CpuExecutor)
| DGpu (e : GpuExecutor)
| DRemote (e : RemoteExecutor).

Section registry.
Context {W : Type} {os : Os W}.

Definition dyn_execute_sync (fuel : nat) (d : DynExecutor) (task : Task) (w : W) :
  comp (Result ExecutionResult * DynExecutor * W) :=
  match d with
  | DCpu e => '(r, e, w) ← ex_execute_sync fuel e task w; Ret (r, DCpu e, w)
  | DGpu e => '(r, e, w) ← ex_execute_sync fuel e task w; Ret (r, DGpu e, w)
  | DRemote e => '(r, e, w) ← ex_execute_sync fuel e task w; Ret (r, DRemote e, w)
  end.

#[export] Instance Dyn_executor : Executor W DynExecutor := {|
  ex_backend d := match d with DCpu e => ex_backend (W := W) e | DGpu e => ex_backend (W := W) e
                  | DRemote e => ex_backend (W := W) e end;
  ex_can_execute d task :=
    match d with DCpu e => ex_can_execute (W := W) e task | DGpu e => ex_can_execute (W := W) e task
    | DRemote e => ex_can_execute (W := W) e task end;
  ex_execute_sync := dyn_execute_sync;
  ex_num_workers d := match d with DCpu e => ex_num_workers (W := W) e
    | DGpu e => ex_num_workers (W := W) e | DRemote e => ex_num_workers (W := W) e end;
  ex_is_healthy d := match d with DCpu e => ex_is_healthy (W := W) e
    | DGpu e => ex_is_healthy (W := W) e | DRemote e => ex_is_healthy (W := W) e end;
  ex_shutdown d := match d with DCpu e => DCpu (ex_shutdown (W := W) e)
    | DGpu e => DGpu (ex_shutdown (W := W) e) | DRemote e => DRemote (ex_shutdown (W := W) e) end |}.

End registry.

(** The registry, over any executor type. *)
Section generic_registry.
Context {prof : Profile} {W E : Type} {ex : Executor W E}.

Record ExecutorRegistry : Type := mkRegistry { executors : list E }.

Definition registry_new : ExecutorRegistry := mkRegistry [].
Definition register (r : ExecutorRegistry) (e : E) : ExecutorRegistry :=
  mkRegistry (executors r ++ [e]).

(** [iter().find(..)]: the first that accepts; its position stands for the [Arc]. *)
Definition find_executor (r : ExecutorRegistry) (task : Task) : option (nat * E) :=
  list_find (fun e => ex_can_execute (W := W) e task) (executors r).

Definition registry_execute (fuel : nat) (r : ExecutorRegistry) (task : Task) (w : W) :
  comp (Result ExecutionResult * ExecutorRegistry * W) :=
  match find_executor r task with
  | None => Ret (Err NotSupported, r, w)
  | Some (i, e) =>
      '(res, e', w) ← ex_execute_sync fuel e task w;
      Ret (res, mkRegistry (<[i := e']> (executors r)), w)
  end.

Definition total_workers (r : ExecutorRegistry) : comp Z :=
  for_each (executors r) (fun e acc => add_w 64 acc (ex_num_workers (W := W) e)) 0.

Definition registry_shutdown (r : ExecutorRegistry) : ExecutorRegistry :=
  mkRegistry (ex_shutdown (W := W) <$> executors r).

End generic_registry.
Arguments ExecutorRegistry : clear implicits.

(** ** The CPU executor terminates *)

(** What every result satisfies: it is final, a success has exit code zero and
    no error, and a timeout is reported only after the time allowed. *)
Definition result_ok (allowed : option Z) (res : ExecutionResult) : Prop :=
  is_terminal (er_state res) = true /\
  (is_success res = true -> er_exit_code res = Some 0 /\ er_error res = None) /\
  (er_state res = TimedOut -> exists t, allowed = Some t /\ t < er_duration res).

Lemma build_result_ok allowed task_id status stdout stderr d :
  result_ok allowed (build_result task_id (status_code status) stdout stderr d (status_success status)).
Proof.
  unfold result_ok, build_result, status_success, status_code. cbn.
  destruct (bool_decide (status = Some 0)) eqn:H; cbn; (split; [done |]); (split; [| done]).
  - intros _. apply bool_decide_eq_true in H. done.
  - done.
Qed.

#[local] Arguments set_running_tasks : simpl never.
#[local] Arguments wrap : simpl never.
#[local] Arguments elapsed : simpl never.
#[local] Arguments Z.pow : simpl never.

Definition allowed_time (e : CpuExecutor) (timeout : option Z) : option Z :=
  match timeout with Some t => Some t | None => max_cpu_time e end.

(** ** What the children must do

    Of the commands a call starts ([mine]): a child that is given an input reads it;
    with a time limit, one that has exited has its output pipes closed (no process it
    left behind keeps them open); without, it exits and they are closed. *)
Section children.
Context {W : Type} {os : Os W}.

Definition spawned (mine : Command -> Prop) (child : Child) : Prop :=
  exists c w w', mine c /\ spawn c w = (Ok child, w').
Definition reads_input (mine : Command -> Prop) : Prop :=
  forall child data w, spawned (fun c => mine c /\ cmd_piped_stdin c = true) child ->
    is_Some (write_stdin child data w).
Definition closes_output (mine : Command -> Prop) : Prop :=
  forall child w status w', spawned mine child -> try_wait child w = (Ok (Some status), w') ->
    is_Some (wait_with_output child w').
Definition exits (mine : Command -> Prop) : Prop :=
  forall child w, spawned mine child -> is_Some (wait_with_output child w).

Definition behaved (allowed : option Z) (mine : Command -> Prop) : Prop :=
  reads_input mine /\ match allowed with Some _ => closes_output mine | None => exits mine end.

(** The commands a task starts, a stage of a pipeline with or without an input. *)
Definition started_by (task : Task) (c : Command) : Prop :=
  exists b stdin, c = command_of (set_stdin b stdin) /\
    match kind task with Binary b' => b = b' /\ stdin = bt_stdin b' | Pipeline p => b ∈ stages p | Shader _ => False end.

End children.

Section cpu_theorems.
Context {W : Type} {os : Os W} (time_of : W -> Z) {laws : OsLaws W time_of}.

(** Ten-millisecond polls, and one to see the deadline pass. *)
Definition enough_polls (fuel : nat) (allowed : option Z) : Prop :=
  forall t, allowed = Some t -> 0 <= t /\ t / from_millis 10 + 1 < Z.of_nat fuel.

(** The verdict on a run that starts at [start] in [w]. *)
Definition run_ok {A} (allowed : option Z) (w : W) (m : comp (Result ExecutionResult * A * W))
    (P : A -> Prop) : Prop :=
  match m with
  | Ret (r, a, w') => P a /\ time_of w <= time_of w' /\
      forall res, r = Ok res -> result_ok allowed res
  | Panic => exists t w', allowed = Some t /\ time_of w <= time_of w' /\
      2 ^ 63 * nanos_per_sec <= time_of w' + t
  | OutOfFuel => False
  end.

Lemma poll_loop fuel mine child task_id start t w :
  spawned mine child -> closes_output mine -> start <= time_of w -> 0 <= t -> t / from_millis 10 + 1 < Z.of_nat fuel ->
  returns (loop fuel (poll child task_id start (start + t)) w) (fun '(r, w') =>
    time_of w <= time_of w' /\ forall res, r = Ok res -> result_ok (Some t) res).
Proof using laws.
  intros Hmine Hclose Hw Ht Hfuel.
  assert (Hms : from_millis 10 = 10000000) by reflexivity.
  eapply (loop_total _ (fun w' => time_of w <= time_of w')
    (fun w' => Z.to_nat ((start + t + from_millis 10 - time_of w') / from_millis 10)));
    [| lia |].
  - intros w' Hw'. unfold poll.
    pose proof (try_wait_mono child w') as Htw. destruct (try_wait child w') as [r w1] eqn:Htry; cbn in Htw.
    destruct r as [[status |] | []].
    + destruct (Hclose child w' status w1 Hmine Htry) as [[out w2] Hwait]. rewrite Hwait.
      pose proof (wait_mono child w1 _ _ Hwait) as Hwm. cbn [unblocked]. rewrite bind_ret.
      destruct out as [[[st so] se] | []].
      * pose proof (clock_mono w2) as Hcm. destruct (clock w2) as [t1 w3]; cbn in Hcm.
        apply returns_ret. split; [lia |]. intros res [= <-]. apply build_result_ok.
      * apply returns_ret. split; [lia | done].
    + pose proof (clock_mono w1) as Hcm. pose proof (clock_reads w1) as Hcr.
      destruct (clock w1) as [t1 w2]; cbn in Hcm, Hcr. subst t1.
      destruct (Z.gtb_spec (time_of w2) (start + t)).
      * pose proof (kill_mono child w2) as Hk.
        pose proof (clock_mono (kill child w2)) as Hcm'. pose proof (clock_reads (kill child w2)) as Hcr.
        destruct (clock (kill child w2)) as [t2 w3]; cbn in Hcm', Hcr. subst t2.
        apply returns_ret. split; [lia |]. intros res [= <-]. split; [done |]. split; [done |].
        intros _. exists t. split; [done |]. cbn. unfold elapsed. lia.
      * pose proof (sleep_takes (from_millis 10) w2 ltac:(lia)) as Hs.
        apply returns_ret. split; [lia |].
        assert ((start + t + from_millis 10 - time_of (sleep (from_millis 10) w2)) / from_millis 10 <
          (start + t + from_millis 10 - time_of w') / from_millis 10).
        { apply Z.lt_le_trans with
            ((start + t + from_millis 10 - time_of (sleep (from_millis 10) w2)) / from_millis 10 + 1);
            [lia |].
          rewrite <- Z.div_add by lia. apply Z.div_le_mono; lia. }
        assert (0 < (start + t + from_millis 10 - time_of w') / from_millis 10)
          by (apply Z.div_str_pos; lia).
        lia.
    + apply returns_ret. split; [lia | done].
  - assert ((start + t + from_millis 10 - time_of w) / from_millis 10 <= t / from_millis 10 + 1).
    { rewrite <- Z.div_add by lia. apply Z.div_le_mono; lia. }
    lia.
Qed.

Lemma execute_binary_ok fuel mine e task timeout w :
  mine (command_of task) -> behaved (allowed_time e timeout) mine -> u64 (running_tasks e) -> enough_polls fuel (allowed_time e timeout) ->
  run_ok (allowed_time e timeout) w (execute_binary fuel e task timeout w) (fun e' => e' = e).
Proof using laws.
  intros Hmine [Hreads Hends] Hrun Hfuel. unfold execute_binary.
  pose proof (clock_mono w) as Hcm. pose proof (clock_reads w) as Hcr.
  destruct (clock w) as [start w0]; cbn in Hcm, Hcr. subst start.
  set (e1 := set_running_tasks e (wrap 64 (running_tasks e + 1))).
  assert (Hback : set_running_tasks e1 (wrap 64 (running_tasks e1 - 1)) = e).
  { unfold e1. destruct e as [cw mm mc rt cr]; cbn in *.
    unfold set_running_tasks; cbn. f_equal. unfold wrap.
    rewrite Zminus_mod_idemp_l. replace (rt + 1 - 1) with rt by lia. by apply Z.mod_small. }
  change (allowed_time e timeout) with (allowed_time e1 timeout) in *.
  unfold run_binary_internal. fold (allowed_time e1 timeout).
  pose proof (spawn_mono (command_of task) w0) as Hsp.
  destruct (spawn (command_of task) w0) as [[child | nf] w1] eqn:Hspawn; cbn in Hsp; cycle 1.
  { cbn. rewrite Hback. split; [done |]. split; [lia | done]. }
  assert (Hchild : spawned mine child) by (by exists (command_of task), w0, w1).
  assert (exists w2, match bt_stdin task with Some data => unblocked (write_stdin child data w1) | None => Ret w1 end =
    Ret w2 /\ time_of w1 <= time_of w2) as (w2 & -> & Hw2).
  { destruct (bt_stdin task) as [data |] eqn:Hin; [| exists w1; split; [done | lia]].
    destruct (Hreads child data w1) as [w2 Hw].
    - exists (command_of task), w0, w1. split; [split; [done |] | done]. unfold command_of. by rewrite Hin.
    - exists w2. rewrite Hw. split; [done | by eapply write_mono]. }
  rewrite bind_ret. destruct (allowed_time e1 timeout) as [t |] eqn:Ha.
  - destruct (Hfuel t eq_refl) as [Ht Hf]. unfold instant_add.
    destruct (decide _) as [Hin | Hout]; cbn.
    + destruct (poll_loop fuel mine child (mkTaskId 0) (time_of w0) t w2) as ([r w'] & -> & Hle & Hres);
        [done | done | lia | done | done |].
      cbn. rewrite Hback. split; [done |]. split; [lia | done].
    + exists t, w0. split; [done |]. lia.
  - destruct (Hends child w2 Hchild) as [[out w3] Hwait]. rewrite Hwait.
    pose proof (wait_mono child w2 _ _ Hwait) as Hwm. cbn [unblocked]. rewrite bind_ret.
    destruct out as [[[st so] se] | []]; cbn.
    + pose proof (clock_mono w3) as Hc3. destruct (clock w3) as [t1 w4]; cbn in Hc3 |- *.
      rewrite Hback. split; [done |]. split; [lia |]. intros res [= <-]. apply build_result_ok.
    + rewrite Hback. split; [done |]. split; [lia | done].
Qed.

Lemma run_stages_ok fuel mine e pipe timeout start stages idx last w :
  (forall b stdin, b ∈ stages -> mine (command_of (set_stdin b stdin))) -> behaved (allowed_time e timeout) mine ->
  u64 (running_tasks e) -> enough_polls fuel (allowed_time e timeout) ->
  run_ok (allowed_time e timeout) w (run_stages fuel e pipe timeout start idx last stages w)
    (fun e' => e' = e).
Proof using laws.
  intros Hmine Hbeh Hrun Hfuel. revert idx last w. induction stages as [|stage stages IH]; intros idx last w; cbn.
  - pose proof (clock_mono w) as Hc. destruct (clock w) as [t w']; cbn in Hc |- *.
    split; [done |]. split; [done |]. by intros res [= <-].
  - match goal with |- context [execute_binary fuel e ?st timeout w] =>
      assert (Hst : mine (command_of st))
        by (destruct (_ && _); [apply Hmine; by left |]; replace stage with (set_stdin stage (bt_stdin stage))
              by (by destruct stage); apply Hmine; by left);
      pose proof (execute_binary_ok fuel mine e st timeout w Hst Hbeh Hrun Hfuel) as He;
      destruct (execute_binary fuel e st timeout w) as [[[r e1] w1] | |]; cbn in He |- *; [| done | done]
    end.
    destruct He as (-> & Hle & Hres). destruct r as [res | err]; cbn; [| by split].
    destruct (is_success res).
    + specialize (IH ltac:(intros b stdin Hb; apply Hmine; by right) (S idx) (Some (er_stdout res)) w1).
      destruct (run_stages _ _ _ _ _ _ _ _ _) as [[[r e2] w2] | |]; cbn in IH |- *; [| | done].
      * destruct IH as (-> & Hle' & Hres'). split; [done |]. split; [lia | done].
      * destruct IH as (t & w' & ? & ? & ?). exists t, w'. split; [done |]. lia.
    + pose proof (clock_mono w1) as Hc. destruct (clock w1) as [t w2]; cbn in Hc |- *.
      split; [done |]. split; [lia |]. by intros ? [= <-].
Qed.

End cpu_theorems.

Lemma cpu_execute_ok {W} {os : Os W} (time_of : W -> Z) {laws : OsLaws W time_of}
    fuel e task w :
  behaved (allowed_time e (timeout task)) (started_by task) ->
  u64 (running_tasks e) -> enough_polls fuel (allowed_time e (timeout task)) ->
  run_ok time_of (allowed_time e (timeout task)) w (cpu_execute_sync fuel e task w)
    (fun e' => e' = e).
Proof.
  intros Hbeh Hrun Hfuel. unfold cpu_execute_sync.
  destruct (cpu_running e); cbn [negb]; [| by split].
  destruct (kind task) as [b | s | p] eqn:Hkind.
  - apply (execute_binary_ok time_of fuel (started_by task)); [| done..].
    exists b, (bt_stdin b). rewrite Hkind. split; [by destruct b | done].
  - by split.
  - pose proof (clock_mono w) as Hc. destruct (clock w) as [start w0]; cbn in Hc.
    pose proof (run_stages_ok time_of fuel (started_by task) e (pipe_output p) (timeout task) start (stages p) 0
      None w0 ltac:(intros b stdin Hb; exists b, stdin; by rewrite Hkind) Hbeh Hrun Hfuel) as H.
    destruct (run_stages _ _ _ _ _ _ _ _ _) as [[[r e2] w2] | |]; cbn in H |- *; [| | done].
    + destruct H as (-> & Hle & Hres). split; [done |]. split; [lia | done].
    + destruct H as (t & w' & ? & ? & ?). exists t, w'. split; [done |]. lia.
Qed.

(** C10. [CpuExecutor::execute_sync] comes back if the children do their part: those
    that are given an input read it, and they have closed their output when they
    have exited (with a time limit), or exit and close it (without one).  Then with
    more polls than ten-millisecond steps in the time allowed it never runs out of
    them; the count of running tasks is what it was; every result is final, a success
    has exit code 0 and no error, and a timeout is reported only after more than the
    time allowed.  The only panic is a deadline past the last representable instant.
    The time limit does not cover the first condition: if a child of a binary task
    never reads its input the call never returns, whatever the limit. *)
Theorem cpu_execute_terminates {W} {os : Os W} (time_of : W -> Z) {laws : OsLaws W time_of}
    fuel e task w :
  u64 (running_tasks e) -> enough_polls fuel (allowed_time e (timeout task)) ->
  (behaved (allowed_time e (timeout task)) (started_by task) ->
   run_ok time_of (allowed_time e (timeout task)) w (cpu_execute_sync fuel e task w)
     (fun e' => e' = e)) /\
  (forall b data child w1, cpu_running e = true -> kind task = Binary b -> bt_stdin b = Some data ->
   spawn (command_of b) (clock w).2 = (Ok child, w1) -> write_stdin child data w1 = None ->
   forall n, cpu_execute_sync n e task w = OutOfFuel).
Proof.
  intros Hrun Hfuel. split; [intros Hbeh; by apply cpu_execute_ok |].
  intros b data child w1 Hr Hk Hin Hspawn Hwrite n. unfold cpu_execute_sync. rewrite Hr, Hk. cbn [negb].
  unfold execute_binary, run_binary_internal. destruct (clock w) as [start w0]. cbn [snd] in Hspawn.
  by rewrite Hspawn, Hin, Hwrite.
Qed.

(** ** Pipelines compose programs *)

(** An operating system on which every command can be started and its exit
    status and outputs are a function of the command and its standard input. *)
Class PureOs (W : Type) {os : Os W} (sem : Command -> option bytes -> ExitStatus * bytes * bytes) :
  Prop := {
  pure_run c w : exists child w1, spawn c w = (Ok child, w1) /\
    forall stdin, exists w2 w3,
      match stdin with Some data => write_stdin child data w1 | None => Some w1 end = Some w2 /\
      wait_with_output child w2 = Some (Ok (sem c stdin), w3) }.

Section pipelines.
Context {W : Type} {os : Os W} (sem : Command -> option bytes -> ExitStatus * bytes * bytes)
  {pure : PureOs W sem}.

(** A stage as it is run after a stage that printed [prev]. *)
Definition fed (pipe : bool) (prev : option bytes) (stage : BinaryTask) : BinaryTask :=
  match prev with
  | Some out => if pipe then set_stdin stage (Some out) else stage
  | None => stage
  end.
Definition outcome (pipe : bool) (prev : option bytes) (stage : BinaryTask) :
  ExitStatus * bytes * bytes :=
  sem (command_of (fed pipe prev stage)) (bt_stdin (fed pipe prev stage)).
(** What the stages print, one into the next. *)
Definition through (pipe : bool) (prev : option bytes) (stages : list BinaryTask) : option bytes :=
  fold_left (fun prev stage => Some (outcome pipe prev stage).1.2) stages prev.

Lemma pure_execute_binary fuel e stage w :
  u64 (running_tasks e) -> max_cpu_time e = None ->
  let '(status, out, err) := sem (command_of stage) (bt_stdin stage) in
  exists d w', execute_binary fuel e stage None w =
    Ret (Ok (build_result (mkTaskId 0) status out err d (status_success status)), e, w').
Proof using pure.
  intros Hrun Hcpu. destruct (sem _ _) as [[status out] err] eqn:Hsem.
  unfold execute_binary. destruct (clock w) as [start w0].
  set (e1 := set_running_tasks e _).
  assert (Hback : set_running_tasks e1 (wrap 64 (running_tasks e1 - 1)) = e).
  { unfold e1. destruct e as [cw mm mc rt cr]; cbn in *. unfold set_running_tasks; cbn. f_equal.
    unfold wrap. rewrite Zminus_mod_idemp_l. replace (rt + 1 - 1) with rt by lia.
    by apply Z.mod_small. }
  unfold run_binary_internal. destruct (pure_run (command_of stage) w0) as (child & w1 & -> & Hw).
  change (max_cpu_time e1) with (max_cpu_time e). rewrite Hcpu.
  destruct (Hw (bt_stdin stage)) as (w2 & w3 & Hwr & Hwait). rewrite Hsem in Hwait.
  assert (match bt_stdin stage with Some data => unblocked (write_stdin child data w1) | None => Ret w1 end = Ret w2)
    as -> by (by destruct (bt_stdin stage); [rewrite Hwr | simplify_eq]).
  rewrite bind_ret, Hwait. cbn [unblocked]. rewrite bind_ret.
  destruct (clock w3) as [t w4]. rewrite bind_ret, Hback. by eexists _, _.
Qed.

Lemma run_stages_pure fuel e pipe start stages idx prev w :
  u64 (running_tasks e) -> max_cpu_time e = None ->
  (prev = None <-> idx = 0%nat) ->
  let run := run_stages fuel e pipe None start idx prev stages w in
  ((forall k st, stages !! k = Some st ->
      (outcome pipe (through pipe prev (take k stages)) st).1.1 = Some 0) ->
   exists d w', run = Ret (Ok (mkExecutionResult (mkTaskId 0) (Some 0)
     (default [] (through pipe prev stages)) [] [] d Completed None), e, w')) /\
  (forall k st, stages !! k = Some st ->
    (forall j st', (j < k)%nat -> stages !! j = Some st' ->
      (outcome pipe (through pipe prev (take j stages)) st').1.1 = Some 0) ->
    (outcome pipe (through pipe prev (take k stages)) st).1.1 <> Some 0 ->
   exists d w', run = Ret (Ok (mkExecutionResult (mkTaskId 0)
     (outcome pipe (through pipe prev (take k stages)) st).1.1
     (outcome pipe (through pipe prev (take k stages)) st).1.2
     (outcome pipe (through pipe prev (take k stages)) st).2 [] d Failed
     (Some ("Pipeline stage " +:+ pretty (Z.of_nat (idx + k)) +:+ " failed"))), e, w')).
Proof using pure.
  intros Hrun Hcpu. revert idx prev w.
  induction stages as [|stage stages IH]; intros idx prev w Hprev; cbn zeta.
  { split; [| done]. intros _. cbn. destruct (clock w) as [t w']. by eexists _, _. }
  cbn [run_stages].
  assert (Hfed : (if pipe && (0 <? idx)%nat then set_stdin stage prev else stage) = fed pipe prev stage).
  { unfold fed. destruct prev as [out |].
    - destruct (Nat.ltb_spec 0 idx) as [_ | H0]; [by rewrite andb_true_r |].
      assert (Some out = None) by (apply Hprev; lia). done.
    - rewrite (proj1 Hprev eq_refl). by rewrite andb_false_r. }
  rewrite Hfed. clear Hfed.
  pose proof (pure_execute_binary fuel e (fed pipe prev stage) w Hrun Hcpu) as Hx.
  assert (Hout : outcome pipe prev stage = sem (command_of (fed pipe prev stage))
    (bt_stdin (fed pipe prev stage))) by done.
  destruct (sem _ _) as [[status out] err]. destruct Hx as (d & w1 & ->). rewrite bind_ret.
  assert (Hth : forall l, through pipe prev (stage :: l) = through pipe (Some out) l).
  { intros l. unfold through; cbn [fold_left]. by rewrite Hout. }
  specialize (IH (S idx) (Some out) w1 ltac:(split; [done | lia])). cbn zeta in IH.
  destruct IH as [IHok IHbad].
  unfold is_success, build_result at 1; cbn [er_state].
  destruct (status_success status) eqn:Hs; cbn match.
  - split.
    + intros Hall. rewrite Hth. apply IHok. intros k st Hk.
      specialize (Hall (S k) st Hk). cbn [take] in Hall. by rewrite Hth in Hall.
    + intros [|k] st Hk Hpre Hne.
      { injection Hk as <-. cbn [take] in Hne. unfold through in Hne; cbn [fold_left] in Hne.
        rewrite Hout in Hne. apply bool_decide_eq_true in Hs. done. }
      cbn [take lookup list_lookup] in *. rewrite Hth in *.
      replace (idx + S k)%nat with (S idx + k)%nat by lia. apply IHbad; [done | | done].
      intros j st' Hj Hjst. specialize (Hpre (S j) st' ltac:(lia) Hjst). cbn [take] in Hpre.
      by rewrite Hth in Hpre.
  - apply bool_decide_eq_false in Hs. split.
    + intros Hall. specialize (Hall 0%nat stage eq_refl). cbn [take] in Hall.
      unfold through in Hall; cbn [fold_left] in Hall. by rewrite Hout in Hall.
    + intros [|k] st Hk Hpre Hne.
      * injection Hk as <-. cbn [take]. unfold through; cbn [fold_left]. rewrite Hout. cbn.
        destruct (clock w1) as [t w2]. rewrite Nat.add_0_r. by eexists _, _.
      * specialize (Hpre 0%nat stage ltac:(lia) eq_refl). cbn [take] in Hpre.
        unfold through in Hpre; cbn [fold_left] in Hpre. by rewrite Hout in Hpre.
Qed.

End pipelines.


(** ** Dispatch *)

(** The executors [Pool::from_config] registers, whatever the configuration. *)
Definition pool_executor (d : DynExecutor) : Prop :=
  match d with
  | DCpu e => True
  | DGpu e => num_devices e = 0
  | DRemote e => connected e = false
  end.

(** Dispatch: the registry runs a task on the first registered executor
    that accepts it and on no other, and answers [NotSupported] when none does.
    Among executors as a pool builds them (the GPU executor has no device, the
    remote executor is never connected) only a CPU executor that is running
    accepts a task, only a binary or a pipeline, only for the CPU or any
    backend; a shader, or a task for the GPU or a remote worker, always gets
    [NotSupported]. *)
Theorem registry_dispatch {W} {os : Os W} fuel (r : ExecutorRegistry DynExecutor)
    task (w : W) :
  (forall pre d post, executors r = pre ++ d :: post ->
     Forall (fun d' => ex_can_execute (W := W) d' task = false) pre ->
     ex_can_execute (W := W) d task = true ->
     registry_execute fuel r task w =
       ('(res, d', w') ← ex_execute_sync fuel d task w;
        Ret (res, mkRegistry (pre ++ d' :: post), w'))) /\
  (Forall (fun d => ex_can_execute (W := W) d task = false) (executors r) ->
     registry_execute fuel r task w = Ret (Err NotSupported, r, w)) /\
  (Forall pool_executor (executors r) ->
     is_shader task = true \/ backend task = Gpu \/ backend task = Remote ->
     registry_execute fuel r task w = Ret (Err NotSupported, r, w)).
Proof.
  assert (Hnone : Forall (fun d => ex_can_execute (W := W) d task = false) (executors r) ->
    registry_execute fuel r task w = Ret (Err NotSupported, r, w)).
  { intros H. unfold registry_execute, find_executor.
    destruct (list_find _ _) as [[i d] |] eqn:Hf; [| done].
    apply list_find_Some in Hf as (Hi & Hp & _). rewrite Forall_lookup in H.
    rewrite (H _ _ Hi) in Hp. done. }
  split; [| split; [exact Hnone |]].
  - intros pre d post Hr Hpre Hd. unfold registry_execute, find_executor.
    assert (Hf : list_find (fun e => ex_can_execute (W := W) e task) (executors r) =
      Some (length pre, d)).
    { apply list_find_Some. rewrite Hr. split; [by apply list_lookup_middle |].
      split; [by apply Is_true_true |]. intros j y Hj Hlt.
      rewrite lookup_app_l in Hj by done. rewrite Forall_lookup in Hpre.
      intros Hp; rewrite (Hpre _ _ Hj) in Hp; done. }
    rewrite Hf. destruct (ex_execute_sync fuel d task w) as [[[res d'] w'] | |]; cbn; try done.
    rewrite Hr, insert_app_r_alt by lia. by rewrite Nat.sub_diag.
  - intros Hpool Htask. apply Hnone. eapply Forall_impl; [exact Hpool |].
    intros d Hd. unfold is_shader in Htask.
    destruct d as [e | e | e]; cbn in Hd |- *;
      unfold cpu_can_execute, gpu_can_execute, remote_can_execute, accepts_backend.
    + destruct Htask as [H | [H | H]]; [by destruct (kind task) | |]; rewrite H;
        by destruct (kind task).
    + rewrite Hd. cbn. by rewrite !andb_false_r.
    + rewrite Hd. by rewrite andb_false_r.
Qed.

(** ** Witnesses: a small operating system *)

(** Its programs: [cat], [rev], [hang] (never exits), anything else fails. *)
Definition demo_sem (c : Command) (stdin : option bytes) : ExitStatus * bytes * bytes :=
  if decide (cmd_path c = "cat") then (Some 0, default [] stdin, [])
  else if decide (cmd_path c = "rev") then (Some 0, reverse (default [] stdin), [])
  else (Some 1, [], [33]).

(** Time and what was written to the last child. *)
Definition DemoWorld : Type := Z * option bytes.

#[export] Instance demo_os : Os DemoWorld := {|
  clock w := (w.1, w);
  sleep d w := (w.1 + d, w.2);
  Child := Command;
  spawn c w := (Ok c, (w.1, None));
  write_stdin c data w := Some (w.1, Some data);
  try_wait c w :=
    (Ok (if decide (cmd_path c = "hang") then None else Some (demo_sem c w.2).1.1), w);
  wait_with_output c w := Some (Ok (demo_sem c w.2), w);
  kill c w := w;
  available_parallelism := Some 8 |}.

#[export] Instance demo_laws : OsLaws DemoWorld fst.
Proof. split; intros; cbn in *; simplify_eq/=; try lia; reflexivity. Qed.

#[export] Instance demo_pure : PureOs DemoWorld demo_sem.
Proof.
  split. intros c w. exists c, (w.1, None). split; [reflexivity |].
  intros [data |]; by eexists _, _.
Qed.

Definition demo_w : DemoWorld := (0, None).
Definition hang_task : Task := build (builder_timeout (Task_binary "hang") (from_millis 50)).
Definition demo_pipeline : PipelineTask :=
  mkPipelineTask [with_stdin (BinaryTask_new "cat") [1; 2; 3]; BinaryTask_new "rev"] true.
Definition pipeline_task : Task := build (TaskBuilder_new (Pipeline demo_pipeline)).
Definition demo_cpu : CpuExecutor := CpuExecutor_new 4.

(** The hanging child is killed after the sixth poll. *)
Example hang_times_out :
  match cpu_execute_sync 7 demo_cpu hang_task demo_w with
  | Ret (Ok res, _, _) => er_state res = TimedOut /\ er_duration res = from_millis 60
  | _ => False
  end.
Proof. vm_compute. split; reflexivity. Qed.

Lemma demo_cpu_tasks : u64 (running_tasks demo_cpu).
Proof. split; [discriminate | reflexivity]. Qed.

(** Another one, on which [deaf] and [hang] never exit and [deaf] never reads. *)
Definition StuckWorld : Type := Z.

#[export] Instance stuck_os : Os StuckWorld := {|
  clock w := (w, w);
  sleep d w := w + d;
  Child := Command;
  spawn c w := (Ok c, w);
  write_stdin c data w := if decide (cmd_path c = "deaf") then None else Some w;
  try_wait c w := (Ok None, w);
  wait_with_output c w := None;
  kill c w := w;
  available_parallelism := Some 8 |}.

Definition stuck_time (w : StuckWorld) : Z := w.
#[export] Instance stuck_laws : OsLaws StuckWorld stuck_time.
Proof.
  split; intros; cbn in *; repeat case_match; simplify_eq/=; unfold stuck_time, StuckWorld in *; try lia; reflexivity.
Qed.

(** A child that never exits is killed at the deadline, unless it was given an input
    and does not read it. *)
Definition stuck_task (path : string) : Task :=
  build (builder_timeout (TaskBuilder_new (Binary (with_stdin (BinaryTask_new path) [1; 2]))) (from_millis 50)).
Definition stuck_w : StuckWorld := 0.

Lemma cpu_execute_witness :
  run_ok stuck_time (Some (from_millis 50)) stuck_w (cpu_execute_sync 7 demo_cpu (stuck_task "hang") stuck_w)
    (fun e' => e' = demo_cpu) /\
  forall n, cpu_execute_sync n demo_cpu (stuck_task "deaf") stuck_w = OutOfFuel.
Proof.
  split.
  - apply (cpu_execute_terminates stuck_time 7 demo_cpu (stuck_task "hang") stuck_w demo_cpu_tasks).
    + intros t [= <-]. split; [discriminate | reflexivity].
    + split; [| discriminate]. intros child data w (c & w1 & w2 & [(b & stdin & -> & -> & ->) _] & [= <- <-]).
      by eexists.
  - apply (proj2 (cpu_execute_terminates stuck_time 7 demo_cpu (stuck_task "deaf") stuck_w demo_cpu_tasks
      ltac:(intros t [= <-]; split; [discriminate | reflexivity])) (with_stdin (BinaryTask_new "deaf") [1; 2])
      [1; 2] (command_of (with_stdin (BinaryTask_new "deaf") [1; 2])) stuck_w); reflexivity.
Defined.


Definition demo_registry : ExecutorRegistry DynExecutor :=
  mkRegistry [DCpu demo_cpu; DGpu GpuExecutor_new; DRemote (mkRemote ["node:9000"] false)].

Lemma registry_dispatch_witness :
  registry_execute 0 demo_registry (build (Task_shader [3; 2; 35; 7])) demo_w =
  Ret (Err NotSupported, demo_registry, demo_w).
Proof.
  apply (proj2 (proj2 (registry_dispatch 0 demo_registry (build (Task_shader [3; 2; 35; 7])) demo_w))).
  - repeat constructor.
  - by left.
Defined.
