(* ===== verification/ExecutorSteps.v ===== *)
(** * ExecutorSteps: threads that share a CPU executor (src/executor.rs)

    A pool hands one [CpuExecutor] to all the threads that submit: [execute_sync]
    takes [&self].  Its actions are the load of [running], the readings of the
    clock, the [fetch_add] and [fetch_sub] of the count of running tasks, the start
    of the process, the write to its standard input, and each poll of it, with the
    sleep after it, or the wait for it.  A write or a wait that never returns is an
    action that never happens: the call stays in its phase, whatever the others do.
    The operating system is the class [Os] of
    [Executor]; here all the threads act on the same one. *)

From stdpp Require Import pretty.
From S2P Require Import Prelude Bytes KernelError Scheduler Task Fault Executor Lts.

(** ** A call in flight *)

Inductive Op : Type := Execute (task : Task) | RunningTasks | IsHealthy | Shutdown.
Inductive Out : Type :=
| Executed (r : Result ExecutionResult)
| Count (n : Z)
| Healthy (b : bool)
| Done.

(** What follows the run of a process: nothing, or the rest of a pipeline. *)
Inductive Cont : Type :=
| Alone
| Then (pipe_output : bool) (timeout : option Z) (start : Z) (idx : nat) (stages : list BinaryTask).

Section phases.
Context {W : Type} {os : Os W}.

Inductive Phase : Type :=
| Called (op : Op)
| Between (pipe_output : bool) (timeout : option Z) (start : Z) (idx : nat)
    (last_output : option bytes) (stages : list BinaryTask)
| Entering (k : Cont) (task : BinaryTask) (timeout : option Z)
| Timed (k : Cont) (task : BinaryTask) (timeout : option Z) (start : Z)
| Starting (k : Cont) (task : BinaryTask) (timeout : option Z) (start : Z)
| Feeding (k : Cont) (task : BinaryTask) (timeout : option Z) (start : Z) (child : Child)
| Polling (k : Cont) (start deadline : Z) (child : Child)
| Waiting (k : Cont) (start : Z) (child : Child)
| Leaving (k : Cont) (r : Result ExecutionResult)
| Left (k : Cont) (r : Result ExecutionResult)
| Finished (out : Out).

(** The next action of a call. *)
Definition advance (x : CpuExecutor * W) (p : Phase) : comp ((CpuExecutor * W) * Phase) :=
  let '(e, w) := x in
  match p with
  | Called RunningTasks => Ret ((e, w), Finished (Count (running_tasks e)))
  | Called IsHealthy => Ret ((e, w), Finished (Healthy (cpu_running e)))
  | Called Shutdown => Ret ((cpu_shutdown e, w), Finished Done)
  | Called (Execute task) =>
      if negb (cpu_running e) then Ret ((e, w), Finished (Executed (Err DeviceNotReady)))
      else
        match kind task with
        | Binary binary_task => Ret ((e, w), Entering Alone binary_task (timeout task))
        | Pipeline p =>
            let '(start, w) := clock w in
            Ret ((e, w), Between (pipe_output p) (timeout task) start 0 None (stages p))
        | Shader _ => Ret ((e, w), Finished (Executed (Err NotSupported)))
        end
  | Between pipe timeout start idx last [] =>
      let '(t, w) := clock w in
      Ret ((e, w), Finished (Executed (Ok (mkExecutionResult (mkTaskId 0) (Some 0)
        (default [] last) [] [] (elapsed t start) Completed None))))
  | Between pipe timeout start idx last (stage :: stages) =>
      Ret ((e, w), Entering (Then pipe timeout start idx stages)
        (if pipe && (0 <? idx)%nat then set_stdin stage last else stage) timeout)
  | Entering k task timeout =>
      let '(start, w) := clock w in Ret ((e, w), Timed k task timeout start)
  | Timed k task timeout start =>
      Ret ((set_running_tasks e (wrap 64 (running_tasks e + 1)), w), Starting k task timeout start)
  | Starting k task timeout start =>
      let '(r, w) := spawn (command_of task) w in
      match r with
      | Err not_found =>
          Ret ((e, w), Leaving k (Err (if (not_found : bool) then UblkDeviceNotFound else InvalidRequest)))
      | Ok child => Ret ((e, w), Feeding k task timeout start child)
      end
  | Feeding k task timeout start child =>
      w ← match bt_stdin task with Some data => unblocked (write_stdin child data w) | None => Ret w end;
      match (match timeout with Some t => Some t | None => max_cpu_time e end) with
      | Some timeout_duration =>
          deadline ← instant_add start timeout_duration;
          Ret ((e, w), Polling k start deadline child)
      | None => Ret ((e, w), Waiting k start child)
      end
  | Polling k start deadline child =>
      r ← poll child (mkTaskId 0) start deadline w;
      match r with
      | inl w => Ret ((e, w), Polling k start deadline child)
      | inr (r, w) => Ret ((e, w), Leaving k r)
      end
  | Waiting k start child =>
      '(out, w) ← unblocked (wait_with_output child w);
      match out with
      | Err _ => Ret ((e, w), Leaving k (Err IoTimeout))
      | Ok (status, stdout, stderr) =>
          let '(t, w) := clock w in
          Ret ((e, w), Leaving k (Ok (build_result (mkTaskId 0) (status_code status) stdout stderr
            (elapsed t start) (status_success status))))
      end
  | Leaving k r => Ret ((set_running_tasks e (wrap 64 (running_tasks e - 1)), w), Left k r)
  | Left Alone r => Ret ((e, w), Finished (Executed r))
  | Left (Then pipe timeout start idx stages) r =>
      match r with
      | Err err => Ret ((e, w), Finished (Executed (Err err)))
      | Ok result =>
          if is_success result
          then Ret ((e, w), Between pipe timeout start (S idx) (Some (er_stdout result)) stages)
          else
            let '(t, w) := clock w in
            Ret ((e, w), Finished (Executed (Ok (mkExecutionResult (mkTaskId 0) (er_exit_code result)
              (er_stdout result) (er_stderr result) [] (elapsed t start) Failed
              (Some ("Pipeline stage " +:+ pretty (Z.of_nat idx) +:+ " failed"))))))
      end
  | Finished out => Ret ((e, w), Finished out)
  end.

#[export] Instance executor_object : SharedObject (CpuExecutor * W) Phase Op Out := {|
  enter := Called;
  act := advance;
  outcome p := match p with Finished out => Some out | _ => None end;
  may_act _ _ := True;
  may_act_dec _ _ := decide True |}.

End phases.
Arguments Phase W {os}.

(** ** The count of running tasks *)

(** The calls between their [fetch_add] and their [fetch_sub]. *)
Definition in_process {W} {os : Os W} (p : Phase W) : nat :=
  match p with
  | Starting _ _ _ _ | Feeding _ _ _ _ _ | Polling _ _ _ _ | Waiting _ _ _ | Leaving _ _ => 1
  | _ => 0
  end.

Section accounts.
Context {W : Type} {os : Os W}.
Implicit Types (e : CpuExecutor) (w : W) (p : Phase W) (ph : gmap nat (Phase W)).

Lemma advance_counts e w p e' w' p' :
  outcome p = None -> u64 (running_tasks e) -> advance (e, w) p = Ret ((e', w'), p') ->
  running_tasks e' = wrap 64 (running_tasks e + Z.of_nat (in_process p') - Z.of_nat (in_process p)).
Proof.
  intros Hout Hu Hadv.
  assert (Hid : forall n, running_tasks e = wrap 64 (running_tasks e + n - n))
    by (intros n; replace (running_tasks e + n - n) with (running_tasks e) by lia; by rewrite wrap_id).
  destruct p; try done; cbn [advance] in Hadv.
  all: try (repeat case_match; simplify_eq; cbn; by (apply Hid || (f_equal; lia))).
  - apply bind_ret_inv in Hadv as (w1 & _ & Hadv). case_match; [| simplify_eq; apply Hid].
    apply bind_ret_inv in Hadv as (deadline & _ & [= <- <- <-]). apply Hid.
  - apply bind_ret_inv in Hadv as ([w1 | [r w1]] & _ & [= <- <- <-]); apply Hid.
  - apply bind_ret_inv in Hadv as ([out w1] & _ & Hadv). repeat case_match; simplify_eq; apply Hid.
Qed.

(** Nothing else of the executor changes, but that it is never started again. *)
Lemma advance_config e w p e' w' p' :
  advance (e, w) p = Ret ((e', w'), p') ->
  cpu_workers e' = cpu_workers e /\ max_cpu_time e' = max_cpu_time e /\
  (cpu_running e' = true -> cpu_running e = true).
Proof.
  intros Hadv. destruct p; cbn [advance] in Hadv;
    try (repeat case_match; simplify_eq; done).
  - apply bind_ret_inv in Hadv as (w1 & _ & Hadv). case_match; [| by simplify_eq].
    by apply bind_ret_inv in Hadv as (deadline & _ & [= <- <- <-]).
  - by apply bind_ret_inv in Hadv as ([w1 | [r w1]] & _ & [= <- <- <-]).
  - apply bind_ret_inv in Hadv as ([out w1] & _ & Hadv). by repeat case_match; simplify_eq.
Qed.

Definition counted (x : (CpuExecutor * W) * gmap nat (Phase W)) : Prop :=
  running_tasks x.1.1 = wrap 64 (Z.of_nat (total in_process x.2)).

Lemma counted_step x l x' : counted x -> conc_step x l x' -> counted x'.
Proof.
  unfold counted. intros Hx Hstep.
  destruct Hstep as [[e w] ph t op Hnone | [e w] ph t p [e' w'] p' Hp Hout _ Hadv | [e w] ph t p out Hp Hout];
    cbn [fst snd] in *.
  - rewrite (total_delete in_process (<[t := _]> ph) t (Called op)) by apply lookup_insert_eq.
    rewrite delete_insert_id by done. exact Hx.
  - cbn [act executor_object] in Hadv.
    assert (Hu : u64 (running_tasks e)) by (rewrite Hx; by apply wrap_uint).
    rewrite (advance_counts _ _ _ _ _ _ Hout Hu Hadv), Hx.
    pose proof (total_insert in_process ph t p p' Hp).
    replace (wrap 64 (Z.of_nat (total in_process ph)) + Z.of_nat (in_process p') - Z.of_nat (in_process p))
      with (wrap 64 (Z.of_nat (total in_process ph)) + (Z.of_nat (in_process p') - Z.of_nat (in_process p))) by lia.
    rewrite wrap_add_wrap. f_equal. lia.
  - rewrite (total_delete in_process ph t p Hp) in Hx. by destruct p.
Qed.

(** ** One call that no other interleaves with *)

Definition reaches (x : CpuExecutor * W) p (x' : CpuExecutor * W) p' : Prop :=
  exists n, forall m, run_alone (n + m) x p = run_alone m x' p'.

Lemma reaches_refl x p : reaches x p x p.
Proof. by exists 0%nat. Qed.

Lemma reaches_trans x p x1 p1 x2 p2 : reaches x p x1 p1 -> reaches x1 p1 x2 p2 -> reaches x p x2 p2.
Proof. intros [n1 H1] [n2 H2]. exists (n1 + n2)%nat. intros m. by rewrite <- Nat.add_assoc, H1. Qed.

Lemma reaches_step x p x1 p1 x2 p2 :
  outcome p = None -> advance x p = Ret (x1, p1) -> reaches x1 p1 x2 p2 -> reaches x p x2 p2.
Proof.
  intros Hout Hadv. apply reaches_trans. exists 1%nat. intros m.
  cbn [Nat.add]. rewrite run_alone_step by done. cbn [act executor_object]. by rewrite Hadv.
Qed.

Lemma poll_reaches fuel k e child start deadline : forall w r w',
  loop fuel (poll child (mkTaskId 0) start deadline) w = Ret (r, w') ->
  reaches (e, w) (Polling k start deadline child) (e, w') (Leaving k r).
Proof.
  induction fuel as [| fuel IH]; intros w r w' Hloop; [done |]. rewrite loop_S in Hloop.
  apply bind_ret_inv in Hloop as (s & Hpoll & Hloop).
  assert (Hact : advance (e, w) (Polling k start deadline child) =
    Ret (match s with inl w1 => ((e, w1), Polling k start deadline child)
                    | inr (r1, w1) => ((e, w1), Leaving k r1) end))
    by (cbn [advance]; rewrite Hpoll; by destruct s as [? | []]).
  destruct s as [w1 | [r1 w1]].
  - eapply reaches_step; [done | exact Hact | by apply IH].
  - injection Hloop as -> ->. eapply reaches_step; [done | exact Hact | apply reaches_refl].
Qed.

Lemma binary_reaches fuel k e task timeout w r e' w' :
  execute_binary fuel e task timeout w = Ret (r, e', w') ->
  reaches (e, w) (Entering k task timeout) (e', w') (Left k r).
Proof.
  unfold execute_binary. destruct (clock w) as [start w1] eqn:Hc.
  set (e1 := set_running_tasks e (wrap 64 (running_tasks e + 1))).
  intros ([r1 w2] & Hrun & [= <- <- <-])%bind_ret_inv.
  eapply reaches_step; [done | by cbn [advance]; rewrite Hc |].
  eapply reaches_step; [done | done |]. fold e1.
  apply (reaches_trans _ _ (e1, w2) (Leaving k r1));
    [| eapply reaches_step; [done | done | apply reaches_refl]].
  unfold run_binary_internal in Hrun.
  destruct (spawn (command_of task) w1) as [[child | nf] w3] eqn:Hsp.
  2:{ injection Hrun as <- <-.
      eapply reaches_step; [done | by cbn [advance]; rewrite Hsp | apply reaches_refl]. }
  eapply reaches_step; [done | by cbn [advance]; rewrite Hsp |].
  apply bind_ret_inv in Hrun as (w4 & Hfeed & Hrun).
  destruct (match timeout with Some t => Some t | None => max_cpu_time e1 end) as [t |] eqn:Ht.
  - apply bind_ret_inv in Hrun as (deadline & Hd & Hloop).
    eapply reaches_step; [done | by cbn [advance]; rewrite Hfeed, bind_ret, Ht, Hd |]. by eapply poll_reaches.
  - eapply reaches_step; [done | by cbn [advance]; rewrite Hfeed, bind_ret, Ht |].
    apply bind_ret_inv in Hrun as ([out w5] & Hw & Hrun). destruct out as [[[status so] se] | []].
    + destruct (clock w5) as [t1 w6] eqn:Hc5. injection Hrun as <- <-.
      eapply reaches_step; [done | by cbn [advance]; rewrite Hw, bind_ret, Hc5 | apply reaches_refl].
    + injection Hrun as <- <-.
      eapply reaches_step; [done | by cbn [advance]; rewrite Hw, bind_ret | apply reaches_refl].
Qed.

Lemma stages_reaches fuel pipe timeout start stages : forall e idx last w r e' w',
  run_stages fuel e pipe timeout start idx last stages w = Ret (r, e', w') ->
  reaches (e, w) (Between pipe timeout start idx last stages) (e', w') (Finished (Executed r)).
Proof.
  induction stages as [| stage stages IH]; intros e idx last w r e' w'; cbn [run_stages].
  - destruct (clock w) as [t w1] eqn:Hc. intros [= <- <- <-].
    eapply reaches_step; [done | by cbn [advance]; rewrite Hc | apply reaches_refl].
  - intros ([[r1 e1] w1] & Hb & Hrest)%bind_ret_inv.
    eapply reaches_step; [done | done |].
    apply (reaches_trans _ _ _ _ _ _ (binary_reaches _ (Then pipe timeout start idx stages) _ _ _ _ _ _ _ Hb)).
    destruct r1 as [res | err].
    + destruct (is_success res) eqn:Hs.
      * eapply reaches_step; [done | by cbn [advance]; rewrite Hs | by apply IH].
      * destruct (clock w1) as [t w2] eqn:Hc. injection Hrest as <- <- <-.
        eapply reaches_step; [done | by cbn [advance]; rewrite Hs, Hc | apply reaches_refl].
    + injection Hrest as <- <- <-. eapply reaches_step; [done | done | apply reaches_refl].
Qed.

(** What [execute_sync] answers is what a call answers that runs alone. *)
Lemma execute_reaches fuel e task w r e' w' :
  cpu_execute_sync fuel e task w = Ret (r, e', w') ->
  reaches (e, w) (Called (Execute task)) (e', w') (Finished (Executed r)).
Proof.
  unfold cpu_execute_sync. destruct (cpu_running e) eqn:Hrun; cbn [negb].
  2:{ intros [= <- <- <-]. eapply reaches_step; [done | by cbn [advance]; rewrite Hrun | apply reaches_refl]. }
  destruct (kind task) as [b | s | p] eqn:Hk.
  - intros Hb. eapply reaches_step; [done | by cbn [advance]; rewrite Hrun, Hk |].
    eapply reaches_trans; [by eapply binary_reaches |].
    eapply reaches_step; [done | done | apply reaches_refl].
  - intros [= <- <- <-]. eapply reaches_step; [done | by cbn [advance]; rewrite Hrun, Hk | apply reaches_refl].
  - destruct (clock w) as [start w1] eqn:Hc. intros Hs.
    eapply reaches_step; [done | by cbn [advance]; rewrite Hrun, Hk, Hc |]. by eapply stages_reaches.
Qed.

(** ** After a shutdown *)

(** A call that finds the executor stopped, at any phase it can be in. *)
Definition refusing p : Prop :=
  match p with
  | Called _ => True
  | Finished (Executed r) => r = Err DeviceNotReady
  | Finished (Healthy b) => b = false
  | Finished _ => True
  | _ => False
  end.

Definition refusal (l : Event Op Out) : Prop :=
  match l with
  | Return _ (Executed r) => r = Err DeviceNotReady
  | Return _ (Healthy b) => b = false
  | _ => True
  end.

Lemma stopped_executor_step e w ph l x' :
  cpu_running e = false -> map_Forall (fun _ p => refusing p) ph -> conc_step ((e, w), ph) l x' ->
  x'.1 = (e, w) /\ map_Forall (fun _ p => refusing p) x'.2 /\ Forall refusal (option_list l).
Proof.
  intros Hstop Hall Hstep.
  inversion Hstep as [? ? t op Hnone | ? ? t p x1 p' Hp Hout _ Hadv | ? ? t p out Hp Hout]; subst; cbn.
  - split; [done |]. split; [by apply map_Forall_insert_2 | by repeat constructor].
  - pose proof (Hall t p Hp) as Hr. destruct p as [[task | | |] | | | | | | | | | |]; try done;
      cbn [act executor_object advance] in Hadv; try rewrite Hstop in Hadv; cbn [negb] in Hadv;
      injection Hadv as <- <-; (split; [| split; [by apply map_Forall_insert_2 | constructor]]); try done.
    destruct e; cbn in *. by rewrite Hstop.
  - pose proof (Hall t p Hp) as Hr. destruct p; try done. injection Hout as ->.
    split; [done |]. split; [by apply map_Forall_delete |].
    constructor; [| constructor]. by destruct out.
Qed.

Lemma stopped_executor_run e w ph tr x' :
  cpu_running e = false -> map_Forall (fun _ p => refusing p) ph -> run conc_step ((e, w), ph) tr x' ->
  x'.1 = (e, w) /\ Forall refusal tr.
Proof.
  intros Hstop Hall Hrun. remember ((e, w), ph) as x eqn:Hx. revert ph Hall Hx.
  induction Hrun as [x | x l x1 tr x2 Hstep _ IH]; intros ph Hall ->; [by split |].
  destruct (stopped_executor_step e w ph l x1 Hstop Hall Hstep) as (H1 & Hall1 & Hl).
  destruct x1 as [x1 ph1]. cbn [fst snd] in *. subst x1.
  destruct (IH ph1 Hall1 eq_refl) as [H2 Htr]. split; [done |]. by apply Forall_app.
Qed.

End accounts.

(** C13. Threads that share a CPU executor: whatever the interleaving of their
    calls, with one another and with shutdowns, and whatever their processes do, the
    count of running tasks is the number of calls between the start and the end of a
    process, hence 0 when no call is in flight; an executor is never started again;
    once it is stopped and the calls under way have returned no further call starts a
    process or touches the operating system: each [execute_sync] answers
    [DeviceNotReady] and the executor stays as it is.  A call that runs without
    interruption answers what the function [cpu_execute_sync] answers. *)
Theorem shared_executor_accounts {W} {os : Os W} num (w0 : W) tr e w ph :
  run conc_step ((CpuExecutor_new num, w0), ∅) tr ((e, w), ph) ->
  running_tasks e = wrap 64 (Z.of_nat (total in_process ph)) /\
  (ph = ∅ -> running_tasks e = 0) /\
  (ph = ∅ -> cpu_running e = false ->
   forall tr' x' ph', run conc_step ((e, w), ph) tr' (x', ph') -> x' = (e, w) /\ Forall refusal tr') /\
  (forall fuel task r e' w', cpu_execute_sync fuel e task w = Ret (r, e', w') ->
   exists n, run_alone n (e, w) (Called (Execute task)) = Ret (Executed r, (e', w'))).
Proof.
  intros Hrun.
  assert (Hc : counted ((e, w), ph))
    by (eapply run_invariant in Hrun; [exact Hrun | intros ????; by apply counted_step | done]).
  unfold counted in Hc. cbn [fst snd] in Hc. split; [done |]. split; [by intros -> |]. split.
  - intros -> Hstop tr' x' ph' Hrun'.
    destruct (stopped_executor_run e w ∅ tr' (x', ph') Hstop ltac:(apply map_Forall_empty) Hrun') as [H1 H2].
    by split.
  - intros fuel task r e' w' Hex. destruct (execute_reaches _ _ _ _ _ _ _ Hex) as [n Hn].
    exists (n + 0)%nat. rewrite Hn. by apply run_alone_finished.
Qed.

(** Two threads run a process each; the second has not returned yet. *)
Definition cat_task : Task := build (Task_binary "cat").
Definition two_threads : list (nat * option Op) :=
  [(1%nat, Some (Execute cat_task)); (2%nat, Some (Execute cat_task))] ++ replicate 4 (1%nat, None) ++
  replicate 4 (2%nat, None).

Example two_processes :
  option_map (fun '(_, ((e, _), _)) => running_tasks e)
    (conc_exec ((demo_cpu, demo_w), ∅) two_threads) = Some 2.
Proof. vm_compute. reflexivity. Qed.

Lemma shared_executor_witness : exists tr e w ph,
  run conc_step ((demo_cpu, demo_w), ∅) tr ((e, w), ph) /\ size ph = 2%nat /\
  running_tasks e = wrap 64 (Z.of_nat (total in_process ph)).
Proof.
  destruct (conc_exec ((demo_cpu, demo_w), ∅) two_threads) as [[tr [[e w] ph]] |] eqn:He;
    [| exfalso; revert He; vm_compute; discriminate].
  assert (Hs : option_map (fun '(_, (_, ph)) => size ph)
    (conc_exec ((demo_cpu, demo_w), ∅) two_threads) = Some 2%nat) by (vm_compute; reflexivity).
  rewrite He in Hs. injection Hs as Hs. apply conc_exec_run in He.
  exists tr, e, w, ph. split; [exact He |]. split; [exact Hs |].
  exact (proj1 (shared_executor_accounts 4 demo_w tr e w ph He)).
Defined.
