(* ===== verification/Pool.v ===== *)
(** * Pool: the user-facing execution pool (src/pool.rs)

    The configuration and its builder, [Pool] with every method, over any
    executor type that keeps the promise [ReliableExecutor]; the CPU, GPU and
    remote executors discharge it.  [submit] runs its retry loop with fuel and
    sleeps on the operating system's clock. *)

From S2P Require Import Prelude Float Bytes KernelError Scheduler Task Fault Executor.

(** ** Configuration *)

Record PoolConfig : Type := mkPoolConfig {
  pc_cpu_workers : Z;
  pc_enable_gpu : bool;
  pc_remote_workers : list string;
  pc_queue_capacity : Z;
  pc_retry_policy : RetryPolicy;
  pc_default_timeout : option Z }.

Definition PoolConfig_default : PoolConfig :=
  mkPoolConfig 0 false [] 1024 RetryPolicy_default None.

(** [PoolBuilder] holds a [PoolConfig]. *)
Definition PoolBuilder : Type := PoolConfig.
Definition PoolBuilder_new : PoolBuilder := PoolConfig_default.
Definition builder_cpu_workers (b : PoolBuilder) (count : Z) : PoolBuilder :=
  mkPoolConfig count (pc_enable_gpu b) (pc_remote_workers b) (pc_queue_capacity b)
    (pc_retry_policy b) (pc_default_timeout b).
Definition builder_enable_gpu (b : PoolBuilder) (enable : bool) : PoolBuilder :=
  mkPoolConfig (pc_cpu_workers b) enable (pc_remote_workers b) (pc_queue_capacity b)
    (pc_retry_policy b) (pc_default_timeout b).
Definition builder_remote_workers (b : PoolBuilder) (addresses : list string) : PoolBuilder :=
  mkPoolConfig (pc_cpu_workers b) (pc_enable_gpu b) addresses (pc_queue_capacity b)
    (pc_retry_policy b) (pc_default_timeout b).
Definition builder_queue_capacity (b : PoolBuilder) (capacity : Z) : PoolBuilder :=
  mkPoolConfig (pc_cpu_workers b) (pc_enable_gpu b) (pc_remote_workers b) capacity
    (pc_retry_policy b) (pc_default_timeout b).
Definition builder_retry_policy (b : PoolBuilder) (policy : RetryPolicy) : PoolBuilder :=
  mkPoolConfig (pc_cpu_workers b) (pc_enable_gpu b) (pc_remote_workers b) (pc_queue_capacity b)
    policy (pc_default_timeout b).
Definition builder_default_timeout (b : PoolBuilder) (timeout : Z) : PoolBuilder :=
  mkPoolConfig (pc_cpu_workers b) (pc_enable_gpu b) (pc_remote_workers b) (pc_queue_capacity b)
    (pc_retry_policy b) (Some timeout).

Record PoolStats : Type := mkPoolStats {
  ps_submitted : Z;
  ps_completed : Z;
  ps_failed : Z;
  ps_pending : Z;
  ps_retries : Z }.

Definition success_rate {prof : Profile} (s : PoolStats) : comp SpecFloat.spec_float :=
  success_share (ps_completed s) (ps_failed s).

(** ** The pool *)

Section pool.
Context {prof : Profile} {W : Type} {os : Os W} {E : Type} {ex : Executor W E}.

Record Pool : Type := mkPool {
  p_config : PoolConfig;
  p_scheduler : Scheduler Task;
  p_executors : ExecutorRegistry E;
  p_detector : FailureDetector;
  tasks_submitted : Z;
  tasks_completed : Z;
  tasks_failed : Z;
  total_retries : Z;
  p_running : bool }.

Definition set_scheduler (p : Pool) (s : Scheduler Task) : Pool :=
  mkPool (p_config p) s (p_executors p) (p_detector p) (tasks_submitted p) (tasks_completed p)
    (tasks_failed p) (total_retries p) (p_running p).
Definition set_executors (p : Pool) (r : ExecutorRegistry E) : Pool :=
  mkPool (p_config p) (p_scheduler p) r (p_detector p) (tasks_submitted p) (tasks_completed p)
    (tasks_failed p) (total_retries p) (p_running p).
(** The [fetch_add(1)]s. *)
Definition count_submitted (p : Pool) : Pool :=
  mkPool (p_config p) (p_scheduler p) (p_executors p) (p_detector p)
    (wrap 64 (tasks_submitted p + 1)) (tasks_completed p) (tasks_failed p) (total_retries p)
    (p_running p).
Definition count_completed (p : Pool) : Pool :=
  mkPool (p_config p) (p_scheduler p) (p_executors p) (p_detector p) (tasks_submitted p)
    (wrap 64 (tasks_completed p + 1)) (tasks_failed p) (total_retries p) (p_running p).
Definition count_failed (p : Pool) : Pool :=
  mkPool (p_config p) (p_scheduler p) (p_executors p) (p_detector p) (tasks_submitted p)
    (tasks_completed p) (wrap 64 (tasks_failed p + 1)) (total_retries p) (p_running p).
Definition count_retry (p : Pool) : Pool :=
  mkPool (p_config p) (p_scheduler p) (p_executors p) (p_detector p) (tasks_submitted p)
    (tasks_completed p) (tasks_failed p) (wrap 64 (total_retries p + 1)) (p_running p).

Definition policy_of (p : Pool) : RetryPolicy := pc_retry_policy (p_config p).

(** Between two attempts: record the failure, count, wait. *)
Definition prepare_retry (p : Pool) (rs : RetryState) (task : Task) (error : string) (w : W) :
  comp (RetryState * Task * Pool * W) :=
  let '(now, w) := clock w in
  rs ← retry_record_failure now rs error;
  let p := count_retry p in
  task ← increment_retry task;
  delay ← next_delay rs (policy_of p);
  let w := if delay >? 0 then sleep delay w else w in
  Ret (rs, task, p, w).

(** One turn of the loop of [submit]. *)
Definition submit_step (fuel : nat) (s : RetryState * Task * Pool * W) :
  comp (RetryState * Task * Pool * W + Result ExecutionResult * Pool * W) :=
  let '(rs, task, p, w) := s in
  '(result, r, w) ← registry_execute fuel (p_executors p) task w;
  let p := set_executors p r in
  match result with
  | Ok exec_result =>
      if is_success exec_result then Ret (inr (Ok exec_result, count_completed p, w))
      else if should_retry rs (policy_of p) then
        s ← prepare_retry p rs task (default "" (er_error exec_result)) w; Ret (inl s)
      else Ret (inr (Ok exec_result, count_failed p, w))
  | Err e =>
      if is_retriable e && should_retry rs (policy_of p) then
        s ← prepare_retry p rs task (KernelError_fmt e) w; Ret (inl s)
      else Ret (inr (Err e, count_failed p, w))
  end.

Definition submit (fuel attempts : nat) (p : Pool) (task : Task) (w : W) :
  comp (Result ExecutionResult * Pool * W) :=
  if negb (p_running p) then Ret (Err DeviceNotReady, p, w)
  else loop attempts (submit_step fuel) (RetryState_new, task, count_submitted p, w).

Definition submit_async (p : Pool) (task : Task) : Result TaskId * Pool :=
  if negb (p_running p) then (Err DeviceNotReady, p)
  else
    let p := count_submitted p in
    let '(r, s) := Scheduler.submit (p_scheduler p) task in
    (ok_or UblkQueueFull r, set_scheduler p s).

Definition pool_stats (p : Pool) : comp PoolStats :=
  pending ← pending_tasks (p_scheduler p);
  Ret (mkPoolStats (tasks_submitted p) (tasks_completed p) (tasks_failed p) pending
    (total_retries p)).

Definition pool_num_workers (p : Pool) : comp Z := total_workers (W := W) (p_executors p).
Definition pool_pending_tasks (p : Pool) : comp Z := pending_tasks (p_scheduler p).
Definition pool_is_running (p : Pool) : bool := p_running p.
Definition pool_worker_loads (p : Pool) : list Z := worker_loads (p_scheduler p).

Definition shutdown (p : Pool) : Pool :=
  mkPool (p_config p) (stop (p_scheduler p)) (registry_shutdown (W := W) (p_executors p))
    (detector_stop (p_detector p)) (tasks_submitted p) (tasks_completed p) (tasks_failed p)
    (total_retries p) false.

End pool.

Arguments Pool : clear implicits.

Definition workers_of {W} {os : Os W} (config : PoolConfig) : Z :=
  if pc_cpu_workers config =? 0 then default 4 available_parallelism else pc_cpu_workers config.

Definition from_config {W} {os : Os W} {layout : TaskLayout} (config : PoolConfig) :
  comp (Result (Pool DynExecutor)) :=
  let cpu_workers := workers_of config in
  scheduler ← Scheduler_with_capacity item_size cpu_workers (pc_queue_capacity config);
  let r := register registry_new (DCpu (CpuExecutor_new cpu_workers)) in
  let r := if pc_enable_gpu config then register r (DGpu GpuExecutor_new) else r in
  let r := match pc_remote_workers config with
    | [] => r
    | addrs => register r (DRemote (fold_left remote_add_worker addrs RemoteExecutor_new))
    end in
  Ret (Ok (mkPool config scheduler r detector_new 0 0 0 0 true)).

Definition build {W} {os : Os W} {layout : TaskLayout} (b : PoolBuilder) : comp (Result (Pool DynExecutor)) :=
  from_config b.

(** ** What the pool asks of its executors *)

(** On the tasks of [accepted], which a retry does not leave, an executor that
    satisfies [ready] comes back with a final result or an error and satisfies
    [ready] again. *)
Class ReliableExecutor (W E : Type) {ex : Executor W E} (fuel : nat) (ready : E -> Prop)
    (accepted : Task -> Prop) : Prop := {
  reliable_execute e task w :
    ready e -> accepted task ->
    returns (ex_execute_sync fuel e task w) (fun '(r, e', _) =>
      ready e' /\ forall res, r = Ok res -> is_terminal (er_state res) = true);
  reliable_retry task n : accepted task -> accepted (set_retry_count task n) }.

Definition cpu_ready (e : CpuExecutor) : Prop := u64 (running_tasks e) /\ max_cpu_time e = None.
Definition dyn_ready (d : DynExecutor) : Prop :=
  match d with DCpu e => cpu_ready e | _ => True end.
(** A task without a time limit whose children read their input, exit and close their
    output: the CPU executor comes back from it. *)
Definition unlimited (W : Type) {os : Os W} (task : Task) : Prop :=
  timeout task = None /\ behaved None (started_by task).

Section reliable.
Context {W : Type} {os : Os W} (time_of : W -> Z) {laws : OsLaws W time_of}.

#[export] Instance cpu_reliable fuel : ReliableExecutor W CpuExecutor fuel cpu_ready (unlimited W).
Proof using time_of laws.
  split; [| done]. intros e task w [Hr Hc] [Ht Hb].
  assert (Ha : allowed_time e (timeout task) = None) by (unfold allowed_time; by rewrite Ht).
  pose proof (cpu_execute_ok time_of fuel e task w) as H. rewrite Ha in H.
  specialize (H Hb Hr ltac:(done)). cbn.
  destruct (cpu_execute_sync fuel e task w) as [[[r e'] w'] | |]; cbn in H.
  - destruct H as (-> & _ & Hres). apply returns_ret. split; [by split |].
    intros res Hr'. by destruct (Hres res Hr').
  - by destruct H as (? & ? & ? & _).
  - done.
Qed.

#[export] Instance dyn_reliable fuel : ReliableExecutor W DynExecutor fuel dyn_ready (unlimited W).
Proof using time_of laws.
  split; [| done]. intros [e | e | e] task w Hd Ht; cbn [ex_execute_sync Dyn_executor dyn_execute_sync].
  - eapply returns_bind; [apply (reliable_execute (ReliableExecutor := cpu_reliable fuel)); done |].
    intros [[r e'] w'] [He Hres]. by apply returns_ret.
  - cbn. by apply returns_ret.
  - cbn. by apply returns_ret.
Qed.
End reliable.

(** ** Submitting a task *)

Section pool_theorems.
Context {prof : Profile} {W : Type} {os : Os W} {E : Type} {ex : Executor W E}.
Context (fuel : nat) (ready : E -> Prop) (accepted : Task -> Prop)
  {reliable : ReliableExecutor W E fuel ready accepted}.

(** The policy's retries fit the 32-bit counters and powers. *)
Definition policy_fits (p : RetryPolicy) (task : Task) : Prop :=
  u32 (rp_max_retries p) /\ u32 (backoff_factor p) /\ 0 <= retry_count task /\
  retry_count task + rp_max_retries p < 2 ^ 32 /\
  forall k, 0 < k <= rp_max_retries p -> backoff_factor p ^ (k - 1) < 2 ^ 32.

Lemma registry_execute_returns (r : ExecutorRegistry E) task (w : W) :
  Forall ready (executors r) -> accepted task ->
  returns (registry_execute fuel r task w) (fun '(res, r', _) =>
    Forall ready (executors r') /\ forall x, res = Ok x -> is_terminal (er_state x) = true).
Proof using reliable.
  intros Hr Ht. unfold registry_execute, find_executor.
  destruct (list_find _ _) as [[i e] |] eqn:Hf; [| by apply returns_ret].
  apply list_find_Some in Hf as (Hi & _ & _).
  eapply returns_bind; [apply reliable_execute; [| done] |].
  { by apply (Forall_lookup_1 _ _ _ _ Hr Hi). }
  intros [[res e'] w'] [He Hres]. apply returns_ret. split; [| done]. cbn.
  by apply Forall_insert.
Qed.

(** What a submission does not touch. *)
Definition same_pool (p p' : Pool E) : Prop :=
  p_config p' = p_config p /\ p_scheduler p' = p_scheduler p /\ p_detector p' = p_detector p /\
  p_running p' = p_running p /\ tasks_submitted p' = tasks_submitted p.

(** After [k] retries: nothing finished yet. *)
Definition retried (p0 : Pool E) (task0 : Task) (k : Z) (s : RetryState * Task * Pool E * W) : Prop :=
  let '(rs, task, p, _) := s in
  attempts rs = k /\ 0 <= k <= rp_max_retries (policy_of p0) /\
  task = set_retry_count task0 (retry_count task0 + k) /\
  same_pool p0 p /\ Forall ready (executors (p_executors p)) /\
  tasks_completed p = tasks_completed p0 /\ tasks_failed p = tasks_failed p0 /\
  total_retries p = wrap 64 (total_retries p0 + k).

(** How the submission ends after [k] retries. *)
Definition submitted (p0 : Pool E) (k : Z) (r : Result ExecutionResult) (p : Pool E) : Prop :=
  0 <= k <= rp_max_retries (policy_of p0) /\ same_pool p0 p /\
  Forall ready (executors (p_executors p)) /\
  total_retries p = wrap 64 (total_retries p0 + k) /\
  match r with
  | Ok res => is_terminal (er_state res) = true /\
      if is_success res
      then tasks_completed p = wrap 64 (tasks_completed p0 + 1) /\ tasks_failed p = tasks_failed p0
      else tasks_completed p = tasks_completed p0 /\ tasks_failed p = wrap 64 (tasks_failed p0 + 1) /\
           k = rp_max_retries (policy_of p0)
  | Err e =>
      tasks_completed p = tasks_completed p0 /\ tasks_failed p = wrap 64 (tasks_failed p0 + 1) /\
      (is_retriable e = false \/ k = rp_max_retries (policy_of p0))
  end.

Lemma prepare_retry_spec p0 task0 k rs task p error w :
  policy_fits (policy_of p0) task0 ->
  retried p0 task0 k (rs, task, p, w) -> k < rp_max_retries (policy_of p0) ->
  returns (prepare_retry p rs task error w) (retried p0 task0 (k + 1)).
Proof.
  intros (Hmax & Hb & Hrc & Hfit & Hpow) (Hk & Hkr & -> & Hsame & Hready & Hc & Hf & Ht) Hlt.
  unfold prepare_retry. destruct (clock w) as [now w1].
  assert (Hpol : policy_of p = policy_of p0) by (unfold policy_of; by destruct Hsame as (-> & _)).
  unfold retry_record_failure, increment_retry, add_w; cbn [retry_count set_retry_count].
  rewrite Hk, !checked_in by (unfold uint in *; lia).
  change (policy_of (count_retry p)) with (policy_of p). rewrite !bind_ret, Hpol.
  unfold next_delay; cbn [attempts].
  assert (Hd : exists d, delay_for_attempt (policy_of p0) (k + 1) = Ret d).
  { unfold delay_for_attempt. destruct (Z.eqb_spec (k + 1) 0); [by eexists |].
    unfold pow_w. rewrite checked_in; [by eexists |].
    replace (saturating_sub (k + 1) 1) with (k + 1 - 1) by (unfold saturating_sub; lia).
    split; [apply Z.pow_nonneg; apply Hb | apply Hpow; lia]. }
  destruct Hd as [d ->]. rewrite bind_ret. apply returns_ret.
  split; [done |]. split; [lia |]. split; [unfold set_retry_count; cbn; f_equal; lia |].
  split; [done |]. split; [done |]. split; [done |]. split; [done |].
  cbn. rewrite Ht. unfold wrap. rewrite Zplus_mod_idemp_l. f_equal; lia.
Qed.

(** The end of a submission: a success, or a failure that is not retried. *)
Lemma retried_completed p0 task0 k rs task p w x :
  retried p0 task0 k (rs, task, p, w) -> is_terminal (er_state x) = true -> is_success x = true ->
  submitted p0 k (Ok x) (count_completed p).
Proof.
  intros (_ & Hk & _ & Hsame & Hrd & Hc & Hf & Ht) Hx Hs. do 4 (split; [done |]).
  split; [done |]. rewrite Hs. cbn. by rewrite Hc, Hf.
Qed.

Lemma retried_failed p0 task0 k rs task p w r :
  retried p0 task0 k (rs, task, p, w) ->
  match r with
  | Ok x => is_terminal (er_state x) = true /\ is_success x = false /\
      should_retry rs (policy_of p0) = false
  | Err e => is_retriable e && should_retry rs (policy_of p0) = false
  end ->
  submitted p0 k r (count_failed p).
Proof.
  intros (Ha & Hk & _ & Hsame & Hrd & Hc & Hf & Ht) Hr. do 4 (split; [done |]).
  unfold should_retry, policy_should_retry in Hr. destruct r as [x | e].
  - destruct Hr as (Hx & -> & Hr). split; [done |]. cbn. rewrite Hc, Hf. do 2 (split; [done |]). lia.
  - cbn. rewrite Hc, Hf. do 2 (split; [done |]). destruct (is_retriable e); [right; lia | by left].
Qed.

(** The retries left. *)
Definition retries_left (p0 : Pool E) '((rs, _, _, _) : RetryState * Task * Pool E * W) : nat :=
  Z.to_nat (rp_max_retries (policy_of p0) - attempts rs).

(** A turn of the loop ends the submission or leaves one retry less. *)
Definition turned (p0 : Pool E) (task0 : Task) (s : RetryState * Task * Pool E * W)
    (r : (RetryState * Task * Pool E * W) + (Result ExecutionResult * Pool E * W)) : Prop :=
  match r with
  | inl s' => (exists k, retried p0 task0 k s') /\ (retries_left p0 s' < retries_left p0 s)%nat
  | inr (r, p, _) => exists k, submitted p0 k r p
  end.

Lemma submit_turn p0 task0 k s :
  policy_fits (policy_of p0) task0 -> accepted task0 -> retried p0 task0 k s ->
  returns (submit_step fuel s) (turned p0 task0 s).
Proof using reliable.
  intros Hpol Htask. destruct s as [[[rs task] p] w]. intros Hk.
  pose proof Hk as (Ha & Hkr & Htk & Hsame & Hrd & Hc & Hf & Ht).
  assert (Hp : policy_of p = policy_of p0) by (unfold policy_of; by destruct Hsame as (-> & _)).
  assert (Hacc : accepted task) by (rewrite Htk; by apply reliable_retry).
  unfold submit_step. eapply returns_bind; [apply registry_execute_returns; done |].
  intros [[res r'] w1] [Hr' Hterm].
  assert (Hk' : retried p0 task0 k (rs, task, set_executors p r', w1)) by done.
  change (policy_of (set_executors p r')) with (policy_of p). rewrite Hp.
  assert (Hretry : forall error, should_retry rs (policy_of p0) = true ->
    returns (s ← prepare_retry (set_executors p r') rs task error w1; Ret (inl s))
      (turned p0 task0 (rs, task, p, w))).
  { intros error Hs. unfold should_retry, policy_should_retry in Hs. apply Z.ltb_lt in Hs.
    eapply returns_bind; [eapply prepare_retry_spec; [done | exact Hk' | lia] |].
    intros [[[rs' t'] p'] w''] Hs'. apply returns_ret. split; [by eexists |].
    destruct Hs' as (Ha' & Hb' & _). cbn. lia. }
  destruct res as [x | e].
  - specialize (Hterm x eq_refl). destruct (is_success x) eqn:Hsucc;
      [| destruct (should_retry rs (policy_of p0)) eqn:Hs; [by apply Hretry |]];
      apply returns_ret; exists k; [by eapply retried_completed | by eapply retried_failed].
  - destruct (is_retriable e && should_retry rs (policy_of p0)) eqn:Hs.
    + apply andb_true_iff in Hs as [_ Hs]. by apply Hretry.
    + apply returns_ret. exists k. by eapply retried_failed.
Qed.

Lemma submit_loop p0 task0 w n :
  policy_fits (policy_of p0) task0 -> accepted task0 ->
  Forall ready (executors (p_executors p0)) -> u64 (total_retries p0) ->
  rp_max_retries (policy_of p0) < Z.of_nat n ->
  returns (loop n (submit_step fuel) (RetryState_new, task0, p0, w)) (fun '(r, p, _) =>
    exists k, submitted p0 k r p).
Proof using reliable.
  intros Hpol Htask Hready Hu Hn. pose proof Hpol as (Hmax & _ & Hrc & _). unfold uint in Hmax.
  apply (loop_total _ (fun s => exists k, retried p0 task0 k s) (retries_left p0)).
  - intros s [k Hk]. by apply (submit_turn p0 task0 k).
  - exists 0. split; [done |]. split; [lia |]. split; [by rewrite Z.add_0_r; destruct task0 |].
    split; [by repeat split |]. split; [done |]. split; [done |]. split; [done |].
    by rewrite Z.add_0_r, wrap_id.
  - cbn. lia.
Qed.

End pool_theorems.


(** ** A pool in use *)

(** Submissions of both kinds, and what each returns. *)
Inductive PoolOp : Type := PSubmit (task : Task) | PAsync (task : Task).
Inductive PoolOut : Type := OResult (r : Result ExecutionResult) | OTask (r : Result TaskId).

Definition op_task (o : PoolOp) : Task := match o with PSubmit t | PAsync t => t end.
Definition is_async (o : PoolOp) : bool := match o with PAsync _ => true | _ => false end.
Definition out_completed (o : PoolOut) : bool :=
  match o with OResult (Ok res) => is_success res | _ => false end.
Definition out_failed (o : PoolOut) : bool :=
  match o with OResult (Ok res) => negb (is_success res) | OResult (Err _) => true | _ => false end.
Definition out_enqueued (o : PoolOut) : bool :=
  match o with OTask (Ok _) => true | _ => false end.
Definition tally {A} (f : A -> bool) (l : list A) : Z := Z.of_nat (length (List.filter f l)).

Section accounting.
Context {prof : Profile} {W : Type} {os : Os W} (time_of : W -> Z) {laws : OsLaws W time_of}.

Definition pool_op (fuel attempts : nat) (p : Pool DynExecutor) (o : PoolOp) (w : W) :
  comp (PoolOut * Pool DynExecutor * W) :=
  match o with
  | PSubmit task => '(r, p, w) ← submit fuel attempts p task w; Ret (OResult r, p, w)
  | PAsync task => let '(r, p) := submit_async p task in Ret (OTask r, p, w)
  end.

Fixpoint pool_run (fuel attempts : nat) (p : Pool DynExecutor) (ops : list PoolOp) (w : W) :
  comp (list PoolOut * Pool DynExecutor * W) :=
  match ops with
  | [] => Ret ([], p, w)
  | o :: ops' =>
      '(r, p, w) ← pool_op fuel attempts p o w;
      '(rs, p, w) ← pool_run fuel attempts p ops' w;
      Ret (r :: rs, p, w)
  end.

Definition queued (p : Pool DynExecutor) : Z :=
  total ((fun q => Z.of_nat (length q)) <$> queues (p_scheduler p)).

Record pool_inv (config : PoolConfig) (p : Pool DynExecutor) : Prop := {
  pi_config : p_config p = config;
  pi_running : p_running p = true;
  pi_sched : sched_inv (p_scheduler p);
  pi_ready : Forall dyn_ready (executors (p_executors p));
  pi_counters : u64 (tasks_submitted p) /\ u64 (tasks_completed p) /\ u64 (tasks_failed p) /\
    u64 (total_retries p) }.

(** [p'] counts [outs] more than [p]. *)
Definition counted (p p' : Pool DynExecutor) (outs : list PoolOut) : Prop :=
  tasks_submitted p' = wrap 64 (tasks_submitted p + Z.of_nat (length outs)) /\
  tasks_completed p' = wrap 64 (tasks_completed p + tally out_completed outs) /\
  tasks_failed p' = wrap 64 (tasks_failed p + tally out_failed outs) /\
  queued p' = queued p + tally out_enqueued outs.

Lemma tally_cons {A} (f : A -> bool) x l : tally f (x :: l) = tally f [x] + tally f l.
Proof. unfold tally; cbn. destruct (f x); cbn; lia. Qed.

Lemma counted_cons p p1 p2 o outs :
  counted p p1 [o] -> counted p1 p2 outs -> counted p p2 (o :: outs).
Proof.
  intros (A1 & A2 & A3 & A4) (B1 & B2 & B3 & B4). unfold counted.
  rewrite B1, B2, B3, B4, A1, A2, A3, A4, !wrap_add_wrap, !(tally_cons _ o outs).
  cbn [length]. split; [f_equal; lia |]. split; [f_equal; lia |]. split; [f_equal; lia | lia].
Qed.

Lemma total_alter (qs : list (list Task)) idx q task :
  qs !! idx = Some q ->
  total ((fun q => Z.of_nat (length q)) <$> alter (fun q => q ++ [task]) idx qs) =
  total ((fun q => Z.of_nat (length q)) <$> qs) + 1.
Proof.
  revert idx; induction qs as [|q0 qs IH]; intros [|idx] H; cbn in H; try done.
  - cbn. rewrite length_app; cbn. lia.
  - specialize (IH idx H). cbn in IH |- *. unfold total in *. cbn. lia.
Qed.

Lemma counted_uint p p' outs :
  counted p p' outs ->
  u64 (tasks_submitted p') /\ u64 (tasks_completed p') /\ u64 (tasks_failed p').
Proof.
  intros (-> & -> & -> & _). split; [| split]; apply wrap_uint; lia.
Qed.

Lemma pool_op_spec fuel attempts config p o w :
  pool_inv config p -> unlimited W (op_task o) ->
  policy_fits (pc_retry_policy config) (op_task o) ->
  rp_max_retries (pc_retry_policy config) < Z.of_nat attempts ->
  returns (pool_op fuel attempts p o w) (fun '(out, p', _) =>
    pool_inv config p' /\ counted p p' [out] /\
    tally out_completed [out] + tally out_failed [out] = tally (fun o => negb (is_async o)) [o]).
Proof using laws.
  intros [Hc Hr Hs Hrd (Hsub & Hcomp & Hfail & Hu)] Htask Hpol Hatt.
  destruct o as [task | task]; cbn [pool_op].
  - unfold submit. rewrite Hr. cbn [negb].
    assert (Hpol' : policy_fits (policy_of (count_submitted p)) task)
      by (unfold policy_of; cbn; by rewrite Hc).
    eapply returns_bind.
    { apply (submit_loop fuel dyn_ready (unlimited W) (reliable := dyn_reliable time_of fuel)
        (count_submitted p) task w attempts Hpol' Htask Hrd Hu).
      unfold policy_of; cbn. by rewrite Hc. }
    intros [[r p'] w'] (k & _ & (S1 & S2 & S3 & S4 & S5) & Hrd' & Ht & Hres).
    cbn in S1, S2, S3, S4, S5, Ht, Hres. apply returns_ret.
    assert (Hcount : counted p p' [OResult r]).
    { unfold counted, queued. rewrite S2, S5. split; [done |]. unfold tally; cbn.
      destruct r as [res | e]; cbn; [destruct Hres as [_ Hres]; destruct (is_success res) |]; cbn;
        [destruct Hres as (-> & ->) | destruct Hres as (-> & -> & _) ..];
        rewrite ?Z.add_0_r, ?(wrap_id 64 (tasks_failed p)), ?(wrap_id 64 (tasks_completed p)) by done;
        done. }
    split; [| split; [done |]].
    + destruct (counted_uint _ _ _ Hcount) as (? & ? & ?).
      split; [congruence | congruence | by rewrite S2 | done |].
      do 3 (split; [done |]). rewrite Ht. apply wrap_uint; lia.
    + destruct r as [res | e]; [| done]. unfold tally; cbn. by destruct (is_success res).
  - unfold submit_async. rewrite Hr. cbn [negb].
    pose proof (submit_outcome (p_scheduler p) task Hs) as Hout.
    change (p_scheduler (count_submitted p)) with (p_scheduler p).
    destruct (Scheduler.submit (p_scheduler p) task) as [r s']. destruct Hout as (Hs' & _ & Hres).
    apply returns_ret.
    assert (Hcount : counted p (set_scheduler (count_submitted p) s') [OTask (ok_or UblkQueueFull r)]).
    { unfold counted, tally, queued; cbn -[total queues].
      rewrite !Z.add_0_r, (wrap_id 64 (tasks_completed p)), (wrap_id 64 (tasks_failed p)) by done.
      do 3 (split; [done |]).
      destruct r as [id |]; cbn.
      - destruct Hres as (_ & _ & _ & _ & i & idx & _ & _ & (_ & q & Hq & _) & _ & ->).
        by apply (total_alter _ _ q).
      - destruct Hres as (_ & -> & _). lia. }
    split; [| by split].
    destruct (counted_uint _ _ _ Hcount) as (? & ? & ?). by split.
Qed.

Lemma pool_run_spec fuel attempts config ops p w :
  pool_inv config p ->
  Forall (fun o => unlimited W (op_task o) /\ policy_fits (pc_retry_policy config) (op_task o)) ops ->
  rp_max_retries (pc_retry_policy config) < Z.of_nat attempts ->
  returns (pool_run fuel attempts p ops w) (fun '(outs, p', _) =>
    pool_inv config p' /\ counted p p' outs /\ length outs = length ops /\
    tally out_completed outs + tally out_failed outs = tally (fun o => negb (is_async o)) ops).
Proof using laws.
  intros Hp Hos Hatt. revert p w Hp.
  induction Hos as [|o ops [Ht Hpol] _ IH]; intros p w Hp; cbn [pool_run].
  { apply returns_ret. split; [done |]. split; [| done].
    destruct Hp as [_ _ _ _ (? & ? & ? & _)]. unfold counted, tally; cbn.
    rewrite !Z.add_0_r, !wrap_id by done. done. }
  eapply returns_bind; [by apply pool_op_spec |].
  intros [[out p1] w1] (Hp1 & Hc1 & Ht1).
  eapply returns_bind; [by apply IH |].
  intros [[outs p2] w2] (Hp2 & Hc2 & Hl2 & Ht2). apply returns_ret.
  split; [done |]. split; [by eapply counted_cons |].
  split; [cbn; by rewrite Hl2 |].
  rewrite (tally_cons out_completed), (tally_cons out_failed), (tally_cons (fun o => negb (is_async o))).
  lia.
Qed.

Context {layout : TaskLayout}.

Lemma from_config_ok config :
  0 < workers_of config -> workers_of config * 8 < 2 ^ 63 ->
  if pc_queue_capacity config * item_size <? 2 ^ 63
  then exists p, from_config config = Ret (Ok p) else from_config config = Panic.
Proof.
  intros H0 H8. unfold from_config. rewrite Scheduler_with_capacity_spec by lia.
  destruct (_ <? _); [| done]. rewrite bind_ret. by eexists.
Qed.

Lemma from_config_built config p :
  from_config config = Ret (Ok p) ->
  p_scheduler p = with_capacity (workers_of config) (pc_queue_capacity config) /\ p_config p = config /\
  p_running p = true /\ Forall dyn_ready (executors (p_executors p)) /\
  tasks_submitted p = 0 /\ tasks_completed p = 0 /\ tasks_failed p = 0 /\ total_retries p = 0.
Proof.
  intros (s & [-> _]%Scheduler_with_capacity_inv & [= <-])%bind_ret_inv. split_and!; try done. cbn.
  assert (Hcpu : forall n, cpu_ready (CpuExecutor_new n)) by done.
  destruct (pc_enable_gpu config), (pc_remote_workers config); cbn; repeat constructor; done.
Qed.

Lemma from_config_inv config p :
  u64 (pc_queue_capacity config) -> from_config config = Ret (Ok p) -> pool_inv config p.
Proof.
  intros Hcap (Hs & Hc & Hr & He & H1 & H2 & H3 & H4)%from_config_built.
  split; rewrite ?H1, ?H2, ?H3, ?H4; try done. rewrite Hs. by apply with_capacity_inv.
Qed.

Lemma from_config_empty config p :
  from_config config = Ret (Ok p) ->
  queued p = 0 /\ tasks_submitted p = 0 /\ tasks_completed p = 0 /\ tasks_failed p = 0.
Proof.
  intros (Hs & _ & _ & _ & H1 & H2 & H3 & _)%from_config_built. split; [| done].
  unfold queued, queues; rewrite Hs; cbn.
  rewrite !fmap_replicate. cbn. by induction (Z.to_nat _).
Qed.

End accounting.

(** C30. A pool in use, from its configuration on: with at least one and fewer than
    2^60 workers, building it panics when the buffer of a queue would exceed
    [isize::MAX] bytes, and otherwise any sequence of fewer than 2^64 synchronous and
    asynchronous submissions is served without a panic, if the tasks have no time
    limit, their children read their input, exit and close their output ([unlimited]),
    and the retry policy fits them ([policy_fits]: the task's retries with the
    policy's stay below 2^32, and so does every power of the back-off factor that is
    taken; a default policy with 34 retries does not fit and panics).  The statistics
    account for every submission:
    [tasks_submitted] counts them all, those an asynchronous submission
    refused included; each synchronous one is counted once, as completed or as
    failed, as it returned; and every asynchronous one that was accepted is
    still queued, since no method of the pool takes a task from the
    scheduler, and is reported as pending.  Up to [2^53] submissions the
    success rate is a number between 0 and 1: 1 exactly when none failed. *)
Theorem pool_accounts {prof : Profile} {W} {os : Os W} {layout : TaskLayout} (time_of : W -> Z)
    {laws : OsLaws W time_of} fuel attempts config ops w :
  0 < workers_of config -> workers_of config * 8 < 2 ^ 63 -> u64 (pc_queue_capacity config) ->
  Forall (fun o => unlimited W (op_task o) /\ policy_fits (pc_retry_policy config) (op_task o)) ops ->
  rp_max_retries (pc_retry_policy config) < Z.of_nat attempts ->
  Z.of_nat (length ops) < 2 ^ 64 ->
  if pc_queue_capacity config * item_size <? 2 ^ 63 then
  exists p outs p' w', from_config config = Ret (Ok p) /\
    pool_run fuel attempts p ops w = Ret (outs, p', w') /\
    tasks_submitted p' = Z.of_nat (length ops) /\
    tasks_completed p' = tally out_completed outs /\ tasks_failed p' = tally out_failed outs /\
    tasks_completed p' + tasks_failed p' = tally (fun o => negb (is_async o)) ops /\
    queued p' = tally out_enqueued outs /\
    exists st, pool_stats p' = Ret st /\ ps_submitted st = Z.of_nat (length ops) /\
      ps_pending st = tally out_enqueued outs /\
      (Z.of_nat (length ops) <= 2 ^ 53 ->
       reports_share (success_rate st) (tally out_completed outs) (tally out_failed outs))
  else from_config config = Panic.
Proof.
  intros H0 H8 Hcap Hops Hatt Hlen. pose proof (from_config_ok config H0 H8) as Hcfg.
  destruct (_ <? _); [| exact Hcfg]. destruct Hcfg as [p Hcfg].
  pose proof (from_config_inv config p Hcap Hcfg) as Hp.
  destruct (from_config_empty config p Hcfg) as (E1 & E2 & E3 & E4).
  destruct (pool_run_spec time_of fuel attempts config ops p w Hp Hops Hatt)
    as ([[outs p'] w'] & Hr & Hp' & (C1 & C2 & C3 & C4) & Hl & Ht).
  exists p, outs, p', w'. split; [done |]. split; [done |].
  assert (Htl : forall f : PoolOut -> bool, 0 <= tally f outs <= Z.of_nat (length ops)).
  { intros f. unfold tally. pose proof (filter_length_le f outs). rewrite <- Hl. lia. }
  pose proof (Htl out_completed). pose proof (Htl out_failed). pose proof (Htl out_enqueued).
  assert (tally out_completed outs + tally out_failed outs <= Z.of_nat (length ops)).
  { rewrite Ht. unfold tally. pose proof (filter_length_le (fun o => negb (is_async o)) ops). lia. }
  destruct (loads_spec prof (p_scheduler p') (pi_sched _ _ Hp')) as [Hloads Hpend].
  rewrite E1, Z.add_0_l in C4. rewrite Hloads in Hpend. fold (queued p') in Hpend. rewrite C4 in Hpend.
  unfold pool_stats. rewrite Hpend, bind_ret by lia.
  rewrite C1, C2, C3, E2, E3, E4, !Z.add_0_l, Hl.
  rewrite !wrap_id by (unfold uint; lia). split_and!; try done.
  eexists; split; [done |]. split; [done |]. split; [done |]. intros H53.
  apply success_share_spec; lia.
Qed.

(** ** Witnesses *)

Definition demo_config : PoolConfig :=
  builder_retry_policy (builder_cpu_workers PoolBuilder_new 2)
    (with_max_retries RetryPolicy_default 2).
#[export] Instance demo_layout : TaskLayout := 256.
Definition demo_pool : Pool DynExecutor :=
  match from_config demo_config with Ret (Ok p) => p | _ => mkPool demo_config
    (with_capacity 0 0) registry_new detector_new 0 0 0 0 false end.
Definition failing_task : Task := Task.build (Task_binary "missing").
Definition cat_task : Task := Task.build (Task_binary "cat").

Lemma demo_fits t : retry_count t = 0 -> policy_fits (pc_retry_policy demo_config) t.
Proof.
  intros H. split; [by split |]. split; [by split |]. rewrite H. cbn.
  split; [lia |]. split; [lia |]. intros k Hk. assert (k = 1 \/ k = 2) by lia.
  destruct_or!; by subst.
Qed.

(** Two retries, 300 ms of waiting, then the failing result. *)
Example failing_submission :
  match submit (prof := dev) 1 3 demo_pool failing_task demo_w with
  | Ret (Ok res, p, w) => er_state res = Failed /\ total_retries p = 2 /\ w.1 = from_millis 300
  | _ => False
  end.
Proof. vm_compute. repeat split. Qed.

Lemma demo_unlimited t : timeout t = None -> unlimited DemoWorld t.
Proof. intros Ht. split; [done |]. split; intros; by eexists. Qed.

Lemma demo_pool_ready : Forall dyn_ready (executors (p_executors demo_pool)).
Proof. repeat constructor; done. Qed.


Lemma pool_accounts_witness : exists p outs p' w',
  from_config demo_config = Ret (Ok p) /\
  pool_run (prof := dev) 1 3 p [PSubmit cat_task; PAsync cat_task; PSubmit failing_task] demo_w
    = Ret (outs, p', w') /\
  tasks_submitted p' = 3 /\ tasks_completed p' + tasks_failed p' = 2.
Proof.
  destruct (pool_accounts (prof := dev) fst 1 3 demo_config
    [PSubmit cat_task; PAsync cat_task; PSubmit failing_task] demo_w)
    as (p & outs & p' & w' & H0 & H1 & H2 & _ & _ & H3 & _).
  - reflexivity.
  - reflexivity.
  - split; [discriminate | reflexivity].
  - do 3 (apply Forall_cons; split; [split; [by apply demo_unlimited | apply demo_fits; reflexivity] |]).
    constructor.
  - reflexivity.
  - reflexivity.
  - exists p, outs, p', w'. split; [exact H0 |]. split; [exact H1 | split; [exact H2 | exact H3]].
Defined.
