(* ===== verification/PoolSteps.v ===== *)
(** * PoolSteps: threads that share one pool (src/pool.rs)

    Every method of [Pool] takes [&self].  Between its call and its answer a
    submission goes through the atomic actions of its code: the load of
    [running]; the [fetch_add] of [tasks_submitted]; then, for [submit], one
    execution after another, each followed by the count of a retry or of the
    outcome, and for [submit_async] the actions of [Scheduler::submit] as
    [SchedulerSteps] has them.  An execution may return any result and may
    change the registry of executors and the failure detector in any way, so
    that the theorems hold whatever the executors do.

    [shared_pool_accounts] sums the contributions of the calls, and
    [calls_refine_pool] shows that [Pool.submit] and [Pool.submit_async] are
    runs of this system.  A panic in a retry is a call that takes no further
    step.

    The state is the pool, the state of its scheduler's submissions and the
    calls made so far, answered or in flight. *)

From S2P Require Import Prelude Lts Bytes KernelError Scheduler SchedulerSteps Task Fault Executor Pool.

(** ** Calls and steps *)

(** A call and how far it is; [k] counts its retries. *)
Inductive Call : Type :=
| Called (async : bool) (t : Task)
| LetIn (async : bool) (t : Task)
| Executing (rs : RetryState) (t : Task)
| Retrying (rs : RetryState) (t : Task) (error : string)
| Waiting (rs : RetryState) (t : Task)
| Concluding (k : Z) (r : Result ExecutionResult)
| Queueing (t : Task)
| Enqueueing (t : Task)
| Answered (k : Z) (r : Result ExecutionResult)
| AnsweredAsync (r : Result TaskId)
| Refused (async : bool).

(** What [submit] does with the result of an execution. *)
Definition conclude (policy : RetryPolicy) (rs : RetryState) (t : Task) (r : Result ExecutionResult) :
  Call :=
  match r with
  | Ok x =>
      if is_success x then Concluding (attempts rs) r
      else if should_retry rs policy then Retrying rs t (default EmptyString (er_error x))
      else Concluding (attempts rs) r
  | Err e =>
      if is_retriable e && should_retry rs policy then Retrying rs t (KernelError_fmt e)
      else Concluding (attempts rs) r
  end.

Definition success_of (r : Result ExecutionResult) : bool :=
  match r with Ok x => is_success x | Err _ => false end.

Section shared.
Context {prof : Profile} {E : Type}.
Implicit Types (p : Pool E) (y : Sys Task) (cs : list Call).

Definition count_outcome p (r : Result ExecutionResult) : Pool E :=
  if success_of r then count_completed p else count_failed p.

(** The scheduler as the pool's callers see it. *)
Definition with_sched p y : Pool E := set_scheduler p (sched y).

Inductive pool_step : Pool E * Sys Task * list Call -> Pool E * Sys Task * list Call -> Prop :=
| pool_call p y cs async t :
    pool_step (p, y, cs) (p, y, cs ++ [Called async t])
| pool_refuse p y cs i async t :
    cs !! i = Some (Called async t) -> p_running p = false ->
    pool_step (p, y, cs) (p, y, <[i := Refused async]> cs)
| pool_admit p y cs i async t :
    cs !! i = Some (Called async t) -> p_running p = true ->
    pool_step (p, y, cs) (p, y, <[i := LetIn async t]> cs)
| pool_count p y cs i async t :
    cs !! i = Some (LetIn async t) ->
    pool_step (p, y, cs) (count_submitted p, y,
      <[i := if async then Queueing t else Executing RetryState_new t]> cs)
| pool_execute p y cs i rs t r reg :
    cs !! i = Some (Executing rs t) ->
    pool_step (p, y, cs) (set_executors p reg, y, <[i := conclude (policy_of p) rs t r]> cs)
| pool_retry p y cs i rs t error now rs' :
    cs !! i = Some (Retrying rs t error) -> retry_record_failure now rs error = Ret rs' ->
    pool_step (p, y, cs) (count_retry p, y, <[i := Waiting rs' t]> cs)
| pool_wait p y cs i rs t t' delay :
    cs !! i = Some (Waiting rs t) ->
    increment_retry t = Ret t' -> next_delay rs (policy_of p) = Ret delay ->
    pool_step (p, y, cs) (p, y, <[i := Executing rs t']> cs)
| pool_conclude p y cs i k r :
    cs !! i = Some (Concluding k r) ->
    pool_step (p, y, cs) (count_outcome p r, y, <[i := Answered k r]> cs)
| pool_enqueue p y cs i t :
    cs !! i = Some (Queueing t) -> running (sched y) = true ->
    pool_step (p, y, cs) (p,
      mkSys (sched y) (t :: entering y) (searching y) (chosen y) (unnumbered y) (issued y)
        (accepted y) (refused y) (delivered y), <[i := Enqueueing t]> cs)
| pool_enqueue_refused p y cs i t :
    cs !! i = Some (Queueing t) -> running (sched y) = false ->
    pool_step (p, y, cs) (p,
      mkSys (sched y) (entering y) (searching y) (chosen y) (unnumbered y) (issued y) (accepted y)
        (refused y ++ [t]) (delivered y), <[i := AnsweredAsync (Err UblkQueueFull)]> cs)
| pool_scheduler p y y' cs :
    inner_step y y' -> pool_step (p, y, cs) (with_sched p y', y', cs)
| pool_unqueued p y y' cs i t :
    cs !! i = Some (Enqueueing t) ->
    sys_step y y' -> delivered y' = delivered y -> issued y' = issued y ->
    in_scheduler y = S (in_scheduler y') ->
    pool_step (p, y, cs) (with_sched p y', y', <[i := AnsweredAsync (Err UblkQueueFull)]> cs)
| pool_queued p y y' cs i t id :
    cs !! i = Some (Enqueueing t) ->
    sys_step y y' -> delivered y' = delivered y -> issued y' = issued y ++ [id] ->
    in_scheduler y = S (in_scheduler y') ->
    pool_step (p, y, cs) (with_sched p y', y', <[i := AnsweredAsync (Ok (mkTaskId id))]> cs)
| pool_shutdown p y cs :
    pool_step (p, y, cs) (mkPool (p_config p) (p_scheduler p) (p_executors p) (p_detector p)
      (tasks_submitted p) (tasks_completed p) (tasks_failed p) (total_retries p) false, y, cs)
| pool_parts p y cs reg fd :
    pool_step (p, y, cs) (mkPool (p_config p) (p_scheduler p) reg fd (tasks_submitted p)
      (tasks_completed p) (tasks_failed p) (total_retries p) (p_running p), y, cs).

(** The turn of [submit]'s loop is these actions. *)
Lemma submit_step_calls {W} {os : Os W} {ex : Executor W E} fuel p rs t w r reg w' :
  registry_execute fuel (p_executors p) t w = Ret (r, reg, w') ->
  submit_step fuel (rs, t, p, w) =
  let p := set_executors p reg in
  match conclude (policy_of p) rs t r with
  | Retrying rs t error => s ← prepare_retry p rs t error w'; Ret (inl s)
  | _ => Ret (inr (r, count_outcome p r, w'))
  end.
Proof.
  intros Hr. unfold submit_step. rewrite Hr, bind_ret. unfold conclude, count_outcome. cbn [success_of].
  destruct r as [x | e]; cbn [success_of].
  - destruct (is_success x); [done |]. by destruct (should_retry rs _).
  - by destruct (is_retriable e && should_retry rs _).
Qed.

(** ** The invariant *)

(** What a call contributes to each counter. *)
Definition submitted_by (c : Call) : Z :=
  match c with Called _ _ | LetIn _ _ | Refused _ => 0 | _ => 1 end.
Definition completed_by (c : Call) : Z :=
  match c with Answered _ r => if success_of r then 1 else 0 | _ => 0 end.
Definition failed_by (c : Call) : Z :=
  match c with Answered _ r => if success_of r then 0 else 1 | _ => 0 end.
Definition retries_by (c : Call) : Z :=
  match c with
  | Executing rs _ | Retrying rs _ _ | Waiting rs _ => attempts rs
  | Concluding k _ | Answered k _ => k
  | _ => 0
  end.
Definition enqueueing (c : Call) : Z := match c with Enqueueing _ => 1 | _ => 0 end.
Definition refused_by (c : Call) : Z :=
  match c with AnsweredAsync (Err _) => 1 | _ => 0 end.
Definition id_of (c : Call) : option Z :=
  match c with AnsweredAsync (Ok id) => Some (task_raw id) | _ => None end.

(** What the policy promises about each call. *)
Definition call_ok (policy : RetryPolicy) (c : Call) : Prop :=
  match c with
  | Executing rs _ | Waiting rs _ => 0 <= attempts rs <= rp_max_retries policy
  | Retrying rs _ _ => 0 <= attempts rs < rp_max_retries policy
  | Concluding k r | Answered k r =>
      0 <= k <= rp_max_retries policy /\
      match r with
      | Ok x => is_success x = true \/ k = rp_max_retries policy
      | Err e => is_retriable e = false \/ k = rp_max_retries policy
      end
  | _ => True
  end.

Record shared_inv (policy : RetryPolicy) (x : Pool E * Sys Task * list Call) : Prop := {
  si_policy : policy_of x.1.1 = policy;
  si_submitted : tasks_submitted x.1.1 = wrap 64 (over submitted_by x.2);
  si_completed : tasks_completed x.1.1 = wrap 64 (over completed_by x.2);
  si_failed : tasks_failed x.1.1 = wrap 64 (over failed_by x.2);
  si_retries : total_retries x.1.1 = wrap 64 (over retries_by x.2);
  si_calls : Forall (call_ok policy) x.2;
  si_sched : p_scheduler x.1.1 = sched x.1.2;
  si_sys : sys_inv x.1.2;
  si_delivered : delivered x.1.2 = [];
  si_waiting : over enqueueing x.2 = Z.of_nat (in_scheduler x.1.2);
  si_refused : over refused_by x.2 = Z.of_nat (length (refused x.1.2));
  si_ids : omap id_of x.2 ≡ₚ issued x.1.2 }.

Lemma record_failure_attempts now rs error rs' max :
  u32 max -> 0 <= attempts rs < max -> retry_record_failure now rs error = Ret rs' ->
  attempts rs' = attempts rs + 1.
Proof.
  unfold retry_record_failure, add_w. intros Hmax Hrs.
  rewrite checked_in by (unfold uint in *; lia). by intros [= <-].
Qed.

Lemma conclude_contributes policy rs t r :
  submitted_by (conclude policy rs t r) = 1 /\ completed_by (conclude policy rs t r) = 0 /\
  failed_by (conclude policy rs t r) = 0 /\ retries_by (conclude policy rs t r) = attempts rs /\
  enqueueing (conclude policy rs t r) = 0 /\ refused_by (conclude policy rs t r) = 0 /\
  id_of (conclude policy rs t r) = None.
Proof. unfold conclude. by repeat case_match. Qed.

Lemma conclude_ok policy rs t r :
  call_ok policy (Executing rs t) -> call_ok policy (conclude policy rs t r).
Proof.
  cbn. intros Hrs. unfold conclude, should_retry, policy_should_retry.
  destruct r as [x | e].
  - destruct (is_success x) eqn:Hx; [cbn; rewrite Hx; by auto |].
    destruct (Z.ltb_spec (attempts rs) (rp_max_retries policy)); cbn; [lia |].
    split; [lia |]. right; lia.
  - destruct (is_retriable e) eqn:He; cbn [andb]; [| cbn; by auto].
    destruct (Z.ltb_spec (attempts rs) (rp_max_retries policy)); cbn; [lia |].
    split; [lia |]. right; lia.
Qed.

(** Replacing one call: the counters move by the difference. *)
Lemma wrap_over f cs i c c' n :
  cs !! i = Some c -> n = wrap 64 (over f cs) -> f c' = f c ->
  n = wrap 64 (over f (<[i := c']> cs)).
Proof. intros Hi -> Hf. rewrite (over_insert _ _ _ _ _ Hi). f_equal. lia. Qed.

Lemma wrap_over_1 f cs i c c' n :
  cs !! i = Some c -> n = wrap 64 (over f cs) -> f c' = f c + 1 ->
  wrap 64 (n + 1) = wrap 64 (over f (<[i := c']> cs)).
Proof.
  intros Hi -> Hf. rewrite (over_insert _ _ _ _ _ Hi), wrap_add_wrap. f_equal. lia.
Qed.

Lemma sys_enter_inv y t :
  sys_inv y -> running (sched y) = true ->
  sys_inv (mkSys (sched y) (t :: entering y) (searching y) (chosen y) (unnumbered y) (issued y)
    (accepted y) (refused y) (delivered y)).
Proof. destruct y. intros Hy Hr. eapply sys_step_inv; [exact Hy |]. by constructor. Qed.

Lemma sys_refuse_inv y t :
  sys_inv y -> running (sched y) = false ->
  sys_inv (mkSys (sched y) (entering y) (searching y) (chosen y) (unnumbered y) (issued y)
    (accepted y) (refused y ++ [t]) (delivered y)).
Proof. destruct y. intros Hy Hr. eapply sys_step_inv; [exact Hy |]. by constructor. Qed.

Section invariant.
Context (policy : RetryPolicy) (Hpolicy : u32 (rp_max_retries policy)).

Lemma call_ok_insert cs i c : Forall (call_ok policy) cs -> call_ok policy c ->
  Forall (call_ok policy) (<[i := c]> cs).
Proof. intros. by apply Forall_insert. Qed.

(** The invariant after call [i] has moved on: what its move leaves alone. *)
Ltac moved_on Hi :=
  split; cbn [fst snd]; try done;
    try (by eapply wrap_over); try (by eapply wrap_over_1); try (by apply call_ok_insert);
    try (rewrite (over_insert _ _ _ _ _ Hi); unfold in_scheduler in *; cbn in *; rewrite ?length_app;
      cbn in *; lia);
    try (by rewrite (omap_insert_none _ _ _ _ _ Hi));
    try (by eapply sys_step_inv).

Lemma pool_step_inv x x' : shared_inv policy x -> pool_step x x' -> shared_inv policy x'.
Proof using Hpolicy.
  intros [Hpol Hsub Hcom Hfai Hret Hok Hsch Hsys Hdel Hwait Href Hids] Hstep.
  destruct Hstep as [p y cs async t | p y cs i async t Hi Hr | p y cs i async t Hi Hr
    | p y cs i async t Hi | p y cs i rs t r reg Hi | p y cs i rs t error now rs' Hi Hrs
    | p y cs i rs t t' delay Hi Ht Hd
    | p y cs i k r Hi | p y cs i t Hi Hr | p y cs i t Hi Hr | p y y' cs (Hy & Hd & Hn & Hf & Hl)
    | p y y' cs i t Hi Hy Hd Hn Hl | p y y' cs i t id Hi Hy Hd Hn Hl | p y cs | p y cs reg fd];
    cbn [fst snd] in *;
    try (pose proof (Forall_lookup_1 _ _ _ _ Hok Hi) as Hc; cbn in Hc).
  - split; cbn [fst snd]; rewrite ?over_snoc; cbn; rewrite ?Z.add_0_r; try done.
    + apply Forall_app. split; [done |]. by repeat constructor.
    + by rewrite omap_app, app_nil_r.
  - moved_on Hi.
  - moved_on Hi.
  - destruct async; moved_on Hi. apply call_ok_insert; [done |]. cbn. unfold uint in Hpolicy. lia.
  - rewrite Hpol. destruct (conclude_contributes policy rs t r) as (E1 & E2 & E3 & E4 & E5 & E6 & E7).
    moved_on Hi. by apply call_ok_insert, conclude_ok.
  - pose proof (record_failure_attempts _ _ _ _ _ Hpolicy Hc Hrs) as Ha.
    moved_on Hi. apply call_ok_insert; [done |]. cbn. lia.
  - moved_on Hi.
  - unfold count_outcome. destruct (success_of r) eqn:Hsucc; moved_on Hi;
      try (eapply wrap_over; [done | done | cbn; by rewrite ?Hsucc]);
      try (eapply wrap_over_1; [done | done | cbn; by rewrite Hsucc]).
  - moved_on Hi. by apply sys_enter_inv.
  - moved_on Hi. by apply sys_refuse_inv.
  - split; cbn [fst snd]; try done; [by eapply sys_step_inv | congruence ..].
  - pose proof (step_ends_refused _ _ Hy Hl Hn) as Hf.
    moved_on Hi; [congruence |]. by rewrite Hn, (omap_insert_none _ _ _ _ _ Hi).
  - pose proof (step_numbers _ _ _ Hy Hn) as Hf. rewrite <- Hf in Href.
    moved_on Hi; [congruence |].
    rewrite Hn, (omap_insert_some _ _ _ _ _ id Hi) by done. by rewrite Hids.
  - by split.
  - by split.
Qed.

Lemma pool_reach_inv x x' : shared_inv policy x -> rtc pool_step x x' -> shared_inv policy x'.
Proof using Hpolicy. intros Hx H. induction H; [done |]. by eauto using pool_step_inv. Qed.

End invariant.

(** ** The methods are runs of the system *)

(** What a caller gets back. *)
Definition answer (c : Call) : option PoolOut :=
  match c with
  | Answered _ r => Some (OResult r)
  | AnsweredAsync r => Some (OTask r)
  | Refused false => Some (OResult (Err DeviceNotReady))
  | Refused true => Some (OTask (Err DeviceNotReady))
  | _ => None
  end.

(** A step of the last call. *)
Ltac last_call H := pose proof H as Hlast; rewrite snoc_insert in Hlast;
  specialize (Hlast (snoc_lookup _ _)).

Section methods.
Context {W : Type} {os : Os W} {ex : Executor W E}.

Lemma submit_step_run fuel p rs t w out y cs :
  submit_step fuel (rs, t, p, w) = Ret out ->
  match out with
  | inl (rs', t', p', w') =>
      rtc pool_step (p, y, cs ++ [Executing rs t]) (p', y, cs ++ [Executing rs' t']) /\
      p_scheduler p' = p_scheduler p
  | inr (r, p', w') => exists k,
      rtc pool_step (p, y, cs ++ [Executing rs t]) (p', y, cs ++ [Answered k r]) /\
      p_scheduler p' = p_scheduler p
  end.
Proof.
  intros H. destruct (registry_execute fuel (p_executors p) t w) as [[[r reg] w1] | |] eqn:Hr.
  2-3: unfold submit_step in H; by rewrite Hr in H.
  rewrite (submit_step_calls _ _ _ _ _ _ _ _ Hr) in H.
  last_call (pool_execute p y (cs ++ [Executing rs t]) (length cs) rs t r reg).
  assert (Hc : (exists e, conclude (policy_of p) rs t r = Retrying rs t e) \/
    conclude (policy_of p) rs t r = Concluding (attempts rs) r)
    by (unfold conclude; repeat case_match; eauto).
  cbn zeta in H. change (policy_of (set_executors p reg)) with (policy_of p) in H.
  destruct Hc as [[e Hc] | Hc]; rewrite Hc in H, Hlast.
  - apply bind_ret_inv in H as ([[[rs' t'] p'] w'] & H & [= <-]). unfold prepare_retry in H.
    destruct (clock w1) as [now w2].
    apply bind_ret_inv in H as (rs1 & Hrs & H). apply bind_ret_inv in H as (t1 & Ht & H).
    apply bind_ret_inv in H as (d & Hd & [= -> -> <- <-]).
    split; [| done]. eapply rtc_l; [exact Hlast |]. clear Hlast.
    last_call (pool_retry (set_executors p reg) y (cs ++ [Retrying rs t e]) (length cs) rs t e now rs').
    eapply rtc_l; [by apply Hlast |]. clear Hlast.
    last_call (pool_wait (count_retry (set_executors p reg)) y (cs ++ [Waiting rs' t]) (length cs)
      rs' t t' d).
    apply rtc_once. by apply Hlast.
  - injection H as <-. exists (attempts rs). split; [| by destruct r as [x |]; [unfold count_outcome; case_match |]].
    eapply rtc_l; [exact Hlast |]. clear Hlast.
    last_call (pool_conclude (set_executors p reg) y (cs ++ [Concluding (attempts rs) r])
      (length cs) (attempts rs) r).
    by apply rtc_once.
Qed.

Lemma submit_loop_run fuel n p rs t w r p' w' y cs :
  loop n (submit_step fuel) (rs, t, p, w) = Ret (r, p', w') ->
  exists k, rtc pool_step (p, y, cs ++ [Executing rs t]) (p', y, cs ++ [Answered k r]) /\
    p_scheduler p' = p_scheduler p.
Proof.
  revert p rs t w; induction n as [| n IH]; intros p rs t w; [done |]. rewrite loop_S.
  intros (out & Hs & H)%bind_ret_inv. apply (submit_step_run _ _ _ _ _ _ y cs) in Hs.
  destruct out as [[[[rs1 t1] p1] w1] | [[r1 p1] w1]].
  - destruct Hs as [Hs Hp]. destruct (IH _ _ _ _ H) as (k & Hk & Hp'). exists k.
    split; [by etransitivity | congruence].
  - by injection H as -> -> ->.
Qed.

Lemma submit_refines fuel n p t w r p' w' y cs :
  submit fuel n p t w = Ret (r, p', w') ->
  exists c, rtc pool_step (p, y, cs) (p', y, cs ++ [c]) /\ answer c = Some (OResult r) /\
    p_scheduler p' = p_scheduler p.
Proof.
  unfold submit. intros H. destruct (p_running p) eqn:Hrun; cbn [negb] in H.
  - destruct (submit_loop_run _ _ _ _ _ _ _ _ _ y cs H) as (k & Hk & Hp).
    exists (Answered k r). split; [| done]. eapply rtc_l; [apply (pool_call p y cs false t) |].
    last_call (pool_admit p y (cs ++ [Called false t]) (length cs) false t).
    eapply rtc_l; [by apply Hlast |]. clear Hlast.
    last_call (pool_count p y (cs ++ [LetIn false t]) (length cs) false t).
    by eapply rtc_l.
  - injection H as <- <- <-. exists (Refused false). split; [| done].
    eapply rtc_l; [apply (pool_call p y cs false t) |].
    last_call (pool_refuse p y (cs ++ [Called false t]) (length cs) false t).
    apply rtc_once. by apply Hlast.
Qed.

Lemma inner_run p y y' cs :
  p_scheduler p = sched y -> rtc inner_step y y' -> rtc pool_step (p, y, cs) (with_sched p y', y', cs).
Proof.
  intros Hp H. revert p Hp. induction H as [y | y y1 y2 Hs _ IH]; intros p Hp.
  - replace (with_sched p y) with p; [done |]. destruct p; unfold with_sched. cbn in *. by subst.
  - eapply rtc_l; [by apply pool_scheduler |]. by apply (IH (with_sched p y1)).
Qed.

Lemma submit_async_refines p t r p' I A R cs :
  submit_async p t = (r, p') ->
  exists c I' A' R', answer c = Some (OTask r) /\
    rtc pool_step (p, quiet (p_scheduler p) I A R [], cs) (p', quiet (p_scheduler p') I' A' R' [], cs ++ [c]).
Proof.
  unfold submit_async. set (y := quiet (p_scheduler p) I A R []).
  assert (Hcall := pool_call p y cs true t).
  destruct (p_running p) eqn:Hrun; cbn [negb]; intros H.
  2:{ injection H as <- <-. exists (Refused true), I, A, R. split; [done |]. eapply rtc_l; [exact Hcall |].
      last_call (pool_refuse p y (cs ++ [Called true t]) (length cs) true t).
      apply rtc_once. by apply Hlast. }
  set (p1 := count_submitted p) in *.
  assert (Hq : rtc pool_step (p, y, cs) (p1, y, cs ++ [Queueing t])).
  { eapply rtc_l; [exact Hcall |].
    last_call (pool_admit p y (cs ++ [Called true t]) (length cs) true t).
    eapply rtc_l; [by apply Hlast |]. clear Hlast.
    last_call (pool_count p y (cs ++ [LetIn true t]) (length cs) true t). by apply rtc_once. }
  change (p_scheduler p1) with (p_scheduler p) in H.
  destruct (running (p_scheduler p)) eqn:Hs; cycle 1.
  { unfold Scheduler.submit in H. rewrite Hs in H. injection H as <- <-.
    exists (AnsweredAsync (Err UblkQueueFull)), I, A, (R ++ [t]). split; [done |].
    replace (set_scheduler p1 (p_scheduler p)) with p1 by done.
    eapply rtc_r; [exact Hq |].
    last_call (pool_enqueue_refused p1 y (cs ++ [Queueing t]) (length cs) t). by apply Hlast. }
  pose proof (submit_path (p_scheduler p) t I A R [] Hs) as Hpath.
  destruct (Scheduler.submit (p_scheduler p) t) as [r' s']. injection H as <- <-.
  destruct Hpath as (y1 & Hy1 & Hd & Hi & Hn & Hend).
  assert (H1 : rtc pool_step (p, y, cs) (with_sched p1 y1, y1, cs ++ [Enqueueing t])).
  { etransitivity; [eapply rtc_r; [exact Hq |] | apply (inner_run p1); [| exact Hy1]; done].
    last_call (pool_enqueue p1 y (cs ++ [Queueing t]) (length cs) t). by apply Hlast. }
  destruct r' as [id |]; cbn in Hend.
  - rewrite app_nil_r in Hend. set (y2 := quiet s' (I ++ [task_raw id]) (A ++ [t]) R []) in Hend.
    exists (AnsweredAsync (Ok id)), (I ++ [task_raw id]), (A ++ [t]), R. split; [done |].
    eapply rtc_r; [exact H1 |].
    last_call (pool_queued (with_sched p1 y1) y1 y2 (cs ++ [Enqueueing t]) (length cs) t (task_raw id)).
    destruct id. by apply Hlast; cbn [delivered issued y2 quiet]; rewrite ?Hd, ?Hi, ?Hn.
  - rewrite !app_nil_r in Hend. set (y2 := quiet s' I A (R ++ [t]) []) in Hend.
    exists (AnsweredAsync (Err UblkQueueFull)), I, A, (R ++ [t]). split; [done |].
    eapply rtc_r; [exact H1 |].
    last_call (pool_unqueued (with_sched p1 y1) y1 y2 (cs ++ [Enqueueing t]) (length cs) t).
    by apply Hlast; rewrite ?Hd, ?Hi, ?Hn.
Qed.

Lemma shutdown_refines p I A R cs :
  rtc pool_step (p, quiet (p_scheduler p) I A R [], cs)
    (shutdown (W := W) p, quiet (p_scheduler (shutdown (W := W) p)) I A R [], cs).
Proof.
  eapply rtc_l; [apply pool_shutdown |]. eapply rtc_l; [apply pool_scheduler |].
  { split; [apply step_stop | done]. }
  set (y := quiet (stop (p_scheduler p)) I A R [] : Sys Task).
  apply rtc_once. exact (pool_parts (with_sched (mkPool (p_config p) (p_scheduler p) (p_executors p)
    (p_detector p) (tasks_submitted p) (tasks_completed p) (tasks_failed p) (total_retries p) false) y)
    y cs (registry_shutdown (W := W) (p_executors p)) (detector_stop (p_detector p))).
Qed.

End methods.

(** ** After a shutdown *)

(** What a call can be that has not been let in. *)
Definition outside (c : Call) : Prop :=
  (exists async t, c = Called async t) \/ exists async, c = Refused async.

Lemma outside_insert n cs i c c' :
  cs !! i = Some c -> (forall j cj, (n <= j)%nat -> cs !! j = Some cj -> outside cj) ->
  (outside c -> outside c') ->
  forall j cj, (n <= j)%nat -> <[i := c']> cs !! j = Some cj -> outside cj.
Proof.
  intros Hi Hcs Hc j cj Hj. destruct (decide (i = j)) as [<- | Hne].
  - rewrite list_lookup_insert_eq by (by eapply lookup_lt_Some). intros [= <-]. by eapply Hc, Hcs.
  - rewrite list_lookup_insert_ne by done. by apply Hcs.
Qed.

Lemma stopped_step n x x' :
  p_running x.1.1 = false /\ (forall j c, (n <= j)%nat -> x.2 !! j = Some c -> outside c) ->
  pool_step x x' ->
  p_running x'.1.1 = false /\ (forall j c, (n <= j)%nat -> x'.2 !! j = Some c -> outside c).
Proof.
  intros [Hr Hcs] Hstep.
  destruct Hstep; cbn [fst snd] in *; (split; [first [done | unfold count_outcome; by case_match] |]);
    try done; try (eapply outside_insert; [done | done | intros [(? & ? & ?) | (? & ?)]; congruence]).
  - intros j c Hj Hc. apply lookup_app_Some in Hc as [Hc | (Hl & Hc)]; [by eapply Hcs |].
    apply list_lookup_singleton_Some in Hc as [_ <-]. left. by eexists _, _.
  - eapply outside_insert; [done | done |]. right. by eexists.
Qed.

Lemma stopped_run n x x' :
  p_running x.1.1 = false /\ (forall j c, (n <= j)%nat -> x.2 !! j = Some c -> outside c) ->
  rtc pool_step x x' ->
  p_running x'.1.1 = false /\ (forall j c, (n <= j)%nat -> x'.2 !! j = Some c -> outside c).
Proof. intros Hx H. induction H; [done |]. eauto using stopped_step. Qed.

End shared.

(** The methods, one after the other. *)
Inductive Method : Type := MSubmit (task : Task) | MAsync (task : Task) | MShutdown.

Section sequence.
Context {prof : Profile} {E W : Type} {os : Os W} {ex : Executor W E}.

Fixpoint run_methods (fuel n : nat) (p : Pool E) (ms : list Method) (w : W) :
  comp (list PoolOut * Pool E * W) :=
  match ms with
  | [] => Ret ([], p, w)
  | MSubmit task :: ms' =>
      '(r, p, w) ← submit fuel n p task w;
      '(outs, p, w) ← run_methods fuel n p ms' w; Ret (OResult r :: outs, p, w)
  | MAsync task :: ms' =>
      let '(r, p) := submit_async p task in
      '(outs, p, w) ← run_methods fuel n p ms' w; Ret (OTask r :: outs, p, w)
  | MShutdown :: ms' => run_methods fuel n (shutdown (W := W) p) ms' w
  end.

(** C12. Refinement: the methods of [Pool], called one after the other, are a
    run of the shared system with the same answers, from any state of the pool:
    what every interleaving satisfies holds of [submit], [submit_async] and
    [shutdown] as the code has them. *)
Theorem methods_refine_shared_pool fuel n p ms w outs p' w' I A R cs :
  run_methods fuel n p ms w = Ret (outs, p', w') ->
  exists I' A' R' cs',
    rtc pool_step (p, quiet (p_scheduler p) I A R [], cs)
      (p', quiet (p_scheduler p') I' A' R' [], cs ++ cs') /\
    omap answer cs' = outs.
Proof.
  revert p w outs I A R cs; induction ms as [| [t | t |] ms IH]; intros p w outs I A R cs; cbn [run_methods].
  - intros [= <- <- <-]. exists I, A, R, []. by rewrite app_nil_r.
  - intros ([[r p1] w1] & Hs & ([[outs1 p2] w2] & H & [= <- <- <-])%bind_ret_inv)%bind_ret_inv.
    destruct (submit_refines _ _ _ _ _ _ _ _ (quiet (p_scheduler p) I A R []) cs Hs) as (c & Hc & Ha & Hp).
    destruct (IH _ _ _ I A R (cs ++ [c]) H) as (I' & A' & R' & cs' & Hr & <-).
    exists I', A', R', (c :: cs'). rewrite Hp, <- app_assoc in Hr. split; [by etransitivity |].
    cbn. by rewrite Ha.
  - destruct (submit_async p t) as [r p1] eqn:Hs.
    intros ([[outs1 p2] w2] & H & [= <- <- <-])%bind_ret_inv.
    destruct (submit_async_refines _ _ _ _ I A R cs Hs) as (c & I1 & A1 & R1 & Ha & Hc).
    destruct (IH _ _ _ I1 A1 R1 (cs ++ [c]) H) as (I' & A' & R' & cs' & Hr & <-).
    exists I', A', R', (c :: cs'). rewrite <- app_assoc in Hr. split; [by etransitivity |].
    cbn. by rewrite Ha.
  - intros H. destruct (IH _ _ _ I A R cs H) as (I' & A' & R' & cs' & Hr & <-).
    exists I', A', R', cs'. split; [| done]. etransitivity; [apply shutdown_refines | exact Hr].
Qed.

End sequence.

(** A task left with the scheduler. *)
Definition asynchronous (c : Call) : Z := match c with AnsweredAsync _ => 1 | _ => 0 end.

Lemma answered_contributes cs :
  Forall (fun c => is_Some (answer c)) cs ->
  over submitted_by cs = over completed_by cs + over failed_by cs + over asynchronous cs /\
  over enqueueing cs = 0.
Proof.
  induction 1 as [| c cs Hc _ [IH1 IH2]]; [done |]. rewrite !over_cons, IH1, IH2.
  destruct c as [| | | | | | | | k r | |]; try (by destruct Hc); cbn; try lia.
  destruct (success_of r); lia.
Qed.

Lemma asynchronous_outcomes cs :
  over asynchronous cs = Z.of_nat (length (omap id_of cs)) + over refused_by cs.
Proof.
  induction cs as [| c cs IH]; [done |]. rewrite !over_cons, IH.
  destruct c as [| | | | | | | | | [id | e] |]; cbn; lia.
Qed.

Lemma none_refused cs :
  over refused_by cs = 0 -> Forall (fun c => forall e, c <> AnsweredAsync (Err e)) cs.
Proof.
  intros H. apply over_zero in H; [| intros c; unfold refused_by; repeat case_match; lia].
  eapply Forall_impl; [exact H |]. by intros c Hc e ->.
Qed.

(** What the scheduler does in a run of the pool is a run of the scheduler. *)
Lemma pool_step_sys {prof : Profile} {E} p y cs p' y' cs' :
  pool_step (E := E) (p, y, cs) (p', y', cs') -> rtc sys_step y y'.
Proof.
  intros H. inversion H; subst; try apply rtc_refl; try (by apply rtc_once);
    [destruct y; apply rtc_once; by constructor .. |].
  match goal with Hs : inner_step _ _ |- _ => destruct Hs as [Hs _]; by apply rtc_once end.
Qed.

Lemma pool_run_sys {prof : Profile} {E} x x' :
  rtc (pool_step (E := E)) x x' -> rtc sys_step x.1.2 x'.1.2.
Proof.
  induction 1 as [| [[p y] cs] [[p' y'] cs'] x' Hs _ IH]; [done |].
  etransitivity; [by eapply pool_step_sys | exact IH].
Qed.

Lemma wrap_add3 a b c : wrap 64 (wrap 64 a + wrap 64 b + c) = wrap 64 (a + b + c).
Proof.
  unfold wrap. rewrite <- (Zplus_mod_idemp_l (a mod _ + _)), <- Zplus_mod. apply Zplus_mod_idemp_l.
Qed.

Lemma from_config_shared {W} {os : Os W} {layout : TaskLayout} config p :
  u64 (pc_queue_capacity config) -> from_config config = Ret (Ok p) ->
  shared_inv (pc_retry_policy config) (p, quiet (p_scheduler p) [] [] [] [], []).
Proof.
  intros Hcap (Hs & Hc & Hr & He & H1 & H2 & H3 & H4)%from_config_built.
  split; cbn [fst snd]; try done; [unfold policy_of; by rewrite Hc |].
  rewrite Hs. by apply with_capacity_sys.
Qed.

(** C11. Any number of threads may share a pool: whatever their interleaving,
    with one another and with a shutdown, and whatever the executors answer,
    the counters are the sums modulo 2^64 of what the calls have done; each
    call makes at most [max_retries] retries, and gives up on a failure only
    then or on an error that is not retriable; the ids handed out are those the
    scheduler issued, pairwise distinct for the first 2^64; the tasks enqueued
    are those the queues hold.  When every call has its answer, submissions are
    completions, failures and asynchronous submissions, and the queues hold one
    task per id handed out.  No asynchronous submission that was let in fails
    before the scheduler is stopped or a worker deactivated, as long as they are
    no more than one queue holds.  Once the pool is stopped, no call made later
    is ever let in. *)
Theorem shared_pool_accounts {prof : Profile} {W} {os : Os W} {layout : TaskLayout} config (p0 p : Pool DynExecutor) y cs :
  u64 (pc_queue_capacity config) -> u32 (rp_max_retries (pc_retry_policy config)) ->
  from_config config = Ret (Ok p0) ->
  rtc pool_step (p0, quiet (p_scheduler p0) [] [] [] [], []) (p, y, cs) ->
  (tasks_submitted p = wrap 64 (over submitted_by cs) /\
   tasks_completed p = wrap 64 (over completed_by cs) /\
   tasks_failed p = wrap 64 (over failed_by cs) /\
   total_retries p = wrap 64 (over retries_by cs)) /\
  Forall (call_ok (pc_retry_policy config)) cs /\
  omap id_of cs ≡ₚ issued y /\
  (Z.of_nat (length (issued y)) <= 2 ^ 64 -> NoDup (omap id_of cs)) /\
  accepted y ≡ₚ concat (queues (p_scheduler p)) /\
  (Forall (fun c => is_Some (answer c)) cs ->
   tasks_submitted p = wrap 64 (tasks_completed p + tasks_failed p + over asynchronous cs) /\
   length (concat (queues (p_scheduler p))) = length (omap id_of cs)) /\
  (0 < pc_cpu_workers config ->
   running (p_scheduler p) = true -> Forall (eq true) (actives (p_scheduler p)) ->
   over enqueueing cs + over asynchronous cs <= pc_queue_capacity config ->
   Forall (fun c => forall e, c <> AnsweredAsync (Err e)) cs) /\
  (p_running p = false -> forall p' y' cs' i c,
   rtc pool_step (p, y, cs) (p', y', cs') -> cs !! i = None -> cs' !! i = Some c -> outside c).
Proof.
  intros Hcap Hmax Hp0 Hrun.
  destruct (pool_reach_inv _ Hmax _ _ (from_config_shared _ _ Hcap Hp0) Hrun)
    as [_ Hsub Hcom Hfai Hret Hok Hsch [_ Hcons Hids _ Hcount] Hdel Hwait Href Hperm].
  cbn [fst snd] in *. rewrite Hdel, app_nil_r, <- Hsch in Hcons.
  split; [done |]. split; [done |]. split; [done |].
  split; [intros Hn; rewrite Hperm, Hids; by apply wrap_seq_NoDup |].
  split; [done |]. split; [| split].
  - intros Hall. destruct (answered_contributes _ Hall) as [Hsum H0].
    rewrite Hsub, Hcom, Hfai, Hsum. split.
    + by rewrite wrap_add3.
    + rewrite <- (Permutation_length Hcons), <- Hcount, (Permutation_length Hperm).
      unfold in_scheduler in Hwait. lia.
  - intros Hnum Hrn Hact Hle. apply none_refused. rewrite Href.
    assert (Hreach : rtc sys_step (quiet (with_capacity (pc_cpu_workers config)
      (pc_queue_capacity config)) [] [] [] []) y).
    { pose proof (pool_run_sys _ _ Hrun) as Hy. cbn in Hy.
      apply from_config_built in Hp0 as [Hs0 _]. rewrite Hs0 in Hy. unfold workers_of in Hy.
      by replace (pc_cpu_workers config =? 0) with false in Hy by lia. }
    destruct (sys_reach_unrefused _ _ _ Hcap Hnum Hreach) as [-> _]; [| done].
    rewrite Hsch in Hrn, Hact. split; [done |]. split; [done |].
    rewrite asynchronous_outcomes, (Permutation_length Hperm), Href, Hwait in Hle.
    unfold submissions, in_scheduler in *. lia.
  - intros Hr p' y' cs' i c Hrun' Hi Hc. apply lookup_ge_None in Hi.
    pose proof (stopped_run (length cs) (p, y, cs) (p', y', cs')) as [_ H]; [| done | by eapply H].
    split; [done |]. cbn. intros j cj Hj Hcj. apply lookup_lt_Some in Hcj. lia.
Qed.

(** ** Witnesses *)

(** Two calls interleaved, a shutdown between them and a third call. *)
Lemma shared_pool_witness : exists p,
  rtc (pool_step (prof := dev)) (demo_pool, quiet (p_scheduler demo_pool) [] [] [] [], [])
    (p, quiet (p_scheduler demo_pool) [] [] [] [],
     [Answered 0 (Err NotSupported); Queueing cat_task; Refused false]) /\
  tasks_submitted p = 2 /\ tasks_failed p = 1.
Proof.
  set (y := quiet (p_scheduler demo_pool) [] [] [] []).
  eassert (H : rtc (pool_step (prof := dev)) (demo_pool, y, []) (_, y,
    [Answered 0 (Err NotSupported); Queueing cat_task; Refused false])).
  { eapply rtc_l; [exact (pool_call (prof := dev) _ y [] false failing_task) |].
    eapply rtc_l; [exact (pool_call (prof := dev) _ y _ true cat_task) |].
    eapply rtc_l; [by apply (pool_admit (prof := dev) _ y _ 0%nat false failing_task) |].
    eapply rtc_l; [by apply (pool_admit (prof := dev) _ y _ 1%nat true cat_task) |].
    eapply rtc_l; [by apply (pool_count (prof := dev) _ y _ 1%nat true cat_task) |].
    eapply rtc_l; [by apply (pool_count (prof := dev) _ y _ 0%nat false failing_task) |].
    eapply rtc_l; [by apply (pool_execute (prof := dev) _ y _ 0%nat RetryState_new failing_task (Err NotSupported)
      (p_executors demo_pool)) |].
    eapply rtc_l; [apply pool_shutdown |].
    eapply rtc_l; [exact (pool_call (prof := dev) _ y _ false cat_task) |].
    eapply rtc_l; [by apply (pool_refuse (prof := dev) _ y _ 2%nat false cat_task) |].
    eapply rtc_l; [by apply (pool_conclude (prof := dev) _ y _ 0%nat 0 (Err NotSupported)) |].
    apply rtc_refl. }
  eexists; split; [exact H |].
  destruct (shared_pool_accounts (prof := dev) demo_config demo_pool _ _ _ ltac:(by split) ltac:(by split) eq_refl H)
    as ((H1 & _ & H3 & _) & _).
  split; [exact H1 | exact H3].
Defined.

(** A submission left with the scheduler, a shutdown, a submission refused. *)
Lemma methods_refine_shared_pool_witness : exists p I A R cs,
  rtc (pool_step (prof := dev)) (demo_pool, quiet (p_scheduler demo_pool) [] [] [] [], [])
    (p, quiet (p_scheduler p) I A R [], cs) /\
  omap answer cs = [OTask (Ok (mkTaskId 0)); OResult (Err DeviceNotReady)].
Proof.
  destruct (methods_refine_shared_pool (prof := dev) 1 3 demo_pool
    [MAsync cat_task; MShutdown; MSubmit cat_task] demo_w _ _ _ [] [] [] [] eq_refl)
    as (I & A & R & cs & H & Ha).
  eexists _, I, A, R, cs. split; [exact H | exact Ha].
Defined.
