(* ===== verification/Vmm.v ===== *)
(** * Vmm: the micro virtual machine monitor (src/vmm.rs)

    VM states, configuration and builder, vCPUs (which the code mocks: [run]
    halts at once), memory regions, [MicroVm] with its life cycle, and the
    jailer.  [run] takes the state lock twice and runs the vCPU in between, so
    other threads can pause, resume, stop and even run the machine in the
    middle: the last section is that interleaving as a step relation. *)

From S2P Require Import Prelude KernelError.

Definition KVM_API_VERSION : Z := 12.
Definition MAX_VCPUS : Z := 254.
Definition MAX_MEMORY_SLOTS : Z := 32.

(** ** States *)

Inductive VmState : Set := Created | Running | Paused | Stopped | Error.
#[export] Instance VmState_eq_dec : EqDecision VmState.
Proof. solve_decision. Defined.

Definition VmState_default : VmState := Created.
Definition can_start (s : VmState) : bool :=
  match s with Created | Paused => true | _ => false end.
Definition is_active (s : VmState) : bool :=
  match s with Running | Paused => true | _ => false end.

(** ** Configuration *)

Record VmConfig : Type := mkVmConfig {
  vcpus : Z;
  memory_mb : Z;
  kernel_path : option string;
  kernel_cmdline : option string;
  initrd_path : option string;
  enable_kvm : bool;
  vsock_path : option string }.

Definition VmConfig_default : VmConfig := mkVmConfig 1 128 None None None true None.

Definition validate (c : VmConfig) : Result unit :=
  if (vcpus c =? 0) || (vcpus c >? MAX_VCPUS) then Err InvalidArgument
  else if memory_mb c =? 0 then Err InvalidArgument
  else Ok tt.

(** [self.memory_mb * 1024 * 1024], plain [u64] products. *)
Definition memory_bytes {prof : Profile} (c : VmConfig) : comp Z :=
  kb ← mul_w 64 (memory_mb c) 1024; mul_w 64 kb 1024.

(** [VmConfigBuilder] holds a [VmConfig]. *)
Definition VmConfigBuilder : Type := VmConfig.
Definition VmConfigBuilder_new : VmConfigBuilder := VmConfig_default.
Definition with_vcpus (b : VmConfigBuilder) (n : Z) : VmConfigBuilder :=
  mkVmConfig n (memory_mb b) (kernel_path b) (kernel_cmdline b) (initrd_path b) (enable_kvm b)
    (vsock_path b).
Definition with_memory_mb (b : VmConfigBuilder) (mb : Z) : VmConfigBuilder :=
  mkVmConfig (vcpus b) mb (kernel_path b) (kernel_cmdline b) (initrd_path b) (enable_kvm b)
    (vsock_path b).
Definition with_kernel_path (b : VmConfigBuilder) (p : string) : VmConfigBuilder :=
  mkVmConfig (vcpus b) (memory_mb b) (Some p) (kernel_cmdline b) (initrd_path b) (enable_kvm b)
    (vsock_path b).
Definition with_kernel_cmdline (b : VmConfigBuilder) (l : string) : VmConfigBuilder :=
  mkVmConfig (vcpus b) (memory_mb b) (kernel_path b) (Some l) (initrd_path b) (enable_kvm b)
    (vsock_path b).
Definition with_initrd_path (b : VmConfigBuilder) (p : string) : VmConfigBuilder :=
  mkVmConfig (vcpus b) (memory_mb b) (kernel_path b) (kernel_cmdline b) (Some p) (enable_kvm b)
    (vsock_path b).
Definition with_enable_kvm (b : VmConfigBuilder) (e : bool) : VmConfigBuilder :=
  mkVmConfig (vcpus b) (memory_mb b) (kernel_path b) (kernel_cmdline b) (initrd_path b) e
    (vsock_path b).
Definition with_vsock_path (b : VmConfigBuilder) (p : string) : VmConfigBuilder :=
  mkVmConfig (vcpus b) (memory_mb b) (kernel_path b) (kernel_cmdline b) (initrd_path b)
    (enable_kvm b) (Some p).
Definition build (b : VmConfigBuilder) : Result VmConfig :=
  match validate b with Ok _ => Ok b | Err e => Err e end.

(** ** Registers *)

Record VcpuRegs : Type := mkRegs {
  rax : Z; rbx : Z; rcx : Z; rdx : Z; rsi : Z; rdi : Z; rsp : Z; rbp : Z;
  r8 : Z; r9 : Z; r10 : Z; r11 : Z; r12 : Z; r13 : Z; r14 : Z; r15 : Z;
  rip : Z; rflags : Z }.
Definition VcpuRegs_default : VcpuRegs := mkRegs 0 0 0 0 0 0 0 0 0 0 0 0 0 0 0 0 0 0.

Record Segment : Type := mkSegment {
  seg_base : Z; seg_limit : Z; selector : Z; seg_type : Z; present : Z; dpl : Z; db : Z;
  seg_s : Z; seg_l : Z; seg_g : Z; avl : Z; unusable : Z; seg_padding : Z }.
Definition Segment_default : Segment := mkSegment 0 0 0 0 0 0 0 0 0 0 0 0 0.

(** [padding] is an array of three. *)
Record Dtable : Type := mkDtable { dt_base : Z; dt_limit : Z; dt_padding : list Z }.
Definition Dtable_default : Dtable := mkDtable 0 0 [0; 0; 0].

Record VcpuSregs : Type := mkSregs {
  cs : Segment; ds : Segment; es : Segment; fs : Segment; gs : Segment; ss : Segment;
  tr : Segment; ldt : Segment; gdt : Dtable; idt : Dtable;
  cr0 : Z; cr2 : Z; cr3 : Z; cr4 : Z; cr8 : Z; efer : Z; apic_base : Z;
  interrupt_bitmap : list Z }.
Definition VcpuSregs_default : VcpuSregs :=
  let s := Segment_default in let d := Dtable_default in
  mkSregs s s s s s s s s d d 0 0 0 0 0 0 0 [0; 0; 0; 0].

(** ** Exit reasons *)

Inductive ExitReason : Set :=
| ExUnknown | Exception | ExternalInterrupt | TripleFault | Init | Sipi | Io | Halt | Cpuid
| Hlt | Mmio | Hypercall | InternalError | Shutdown | SystemEvent.

Definition ExitReason_code (e : ExitReason) : Z :=
  match e with
  | ExUnknown => 0 | Exception => 1 | ExternalInterrupt => 2 | TripleFault => 3 | Init => 4
  | Sipi => 5 | Io => 6 | Halt => 7 | Cpuid => 8 | Hlt => 9 | Mmio => 10 | Hypercall => 11
  | InternalError => 12 | Shutdown => 13 | SystemEvent => 14
  end.
Definition ExitReason_from (value : Z) : ExitReason :=
  match value with
  | 1 => Exception | 2 => ExternalInterrupt | 3 => TripleFault | 4 => Init | 5 => Sipi
  | 6 => Io | 7 => Halt | 8 => Cpuid | 9 => Hlt | 10 => Mmio | 11 => Hypercall
  | 12 => InternalError | 13 => Shutdown | 14 => SystemEvent
  | _ => ExUnknown
  end.

(** ** Memory regions *)

Record MemoryRegion : Type := mkRegion {
  mr_slot : Z;
  mr_guest_phys_addr : Z;
  mr_memory_size : Z;
  mr_userspace_addr : Z;
  mr_flags : Z }.

Definition MemoryRegion_new (slot addr size user : Z) : MemoryRegion :=
  mkRegion slot addr size user 0.
Definition readonly (r : MemoryRegion) : MemoryRegion :=
  mkRegion (mr_slot r) (mr_guest_phys_addr r) (mr_memory_size r) (mr_userspace_addr r)
    (Z.lor (mr_flags r) 1).

(** ** vCPUs *)

Record Vcpu : Type := mkVcpu { vcpu_id : Z; vcpu_fd : Z; vcpu_running : bool }.
Definition Vcpu_new (i : Z) : Result Vcpu := Ok (mkVcpu i (-1) false).
Definition set_running (v : Vcpu) (b : bool) : Vcpu := mkVcpu (vcpu_id v) (vcpu_fd v) b.
Definition vcpu_run (v : Vcpu) : Result ExitReason * Vcpu :=
  let v := set_running v true in
  let v := set_running v false in
  (Ok Halt, v).

(** The register accessors are mocks: a read gives the default registers, a
    write keeps nothing. *)
Definition get_regs (v : Vcpu) : Result VcpuRegs := Ok VcpuRegs_default.
Definition set_regs (v : Vcpu) (r : VcpuRegs) : Result unit := Ok tt.
Definition get_sregs (v : Vcpu) : Result VcpuSregs := Ok VcpuSregs_default.
Definition set_sregs (v : Vcpu) (r : VcpuSregs) : Result unit := Ok tt.

(** ** The machine *)

Record MicroVm : Type := mkVm {
  vm_config : VmConfig;
  vm_state : Lock VmState;
  vm_vcpus : list Vcpu;
  vm_memory_size : Z;
  vm_regions : list MemoryRegion;
  vm_exit_count : Z }.

Section vmm.
Context {prof : Profile}.

(** [for i in 0..config.vcpus { vcpus.push(Vcpu::new(i)?) }]. *)
Fixpoint create_vcpus (ids : list nat) (acc : list Vcpu) : Result (list Vcpu) :=
  match ids with
  | [] => Ok acc
  | i :: ids' =>
      match Vcpu_new (Z.of_nat i) with
      | Ok v => create_vcpus ids' (acc ++ [v])
      | Err e => Err e
      end
  end.

Definition create (config : VmConfig) : comp (Result MicroVm) :=
  match validate config with
  | Err e => Ret (Err e)
  | Ok _ =>
      match create_vcpus (seq 0 (Z.to_nat (vcpus config))) [] with
      | Err e => Ret (Err e)
      | Ok vs =>
          size ← memory_bytes config;
          Ret (Ok (mkVm config (lock_new Created) vs size [] 0))
      end
  end.

Definition state (vm : MicroVm) : comp VmState := expect (lock (vm_state vm)).
Definition vcpu_count (vm : MicroVm) : Z := Z.of_nat (length (vm_vcpus vm)).
Definition memory_size (vm : MicroVm) : Z := vm_memory_size vm.
Definition exit_count (vm : MicroVm) : Z := vm_exit_count vm.

Definition set_state (vm : MicroVm) (s : VmState) : MicroVm :=
  mkVm (vm_config vm) (lock_set (vm_state vm) s) (vm_vcpus vm) (vm_memory_size vm) (vm_regions vm)
    (vm_exit_count vm).
Definition set_vcpus (vm : MicroVm) (vs : list Vcpu) : MicroVm :=
  mkVm (vm_config vm) (vm_state vm) vs (vm_memory_size vm) (vm_regions vm) (vm_exit_count vm).
Definition count_exit (vm : MicroVm) : MicroVm :=
  mkVm (vm_config vm) (vm_state vm) (vm_vcpus vm) (vm_memory_size vm) (vm_regions vm)
    (wrap 64 (vm_exit_count vm + 1)).

Definition add_memory_region (vm : MicroVm) (region : MemoryRegion) : Result unit * MicroVm :=
  if Z.of_nat (length (vm_regions vm)) >=? MAX_MEMORY_SLOTS then (Err OutOfMemory, vm)
  else (Ok tt, mkVm (vm_config vm) (vm_state vm) (vm_vcpus vm) (vm_memory_size vm)
                 (vm_regions vm ++ [region]) (vm_exit_count vm)).

(** The three sections of [run]: under the lock, the vCPU, under the lock. *)
Definition run_begin (vm : MicroVm) : Result unit * MicroVm :=
  match lock (vm_state vm) with
  | None => (Err ResourceBusy, vm)
  | Some s => if negb (can_start s) then (Err InvalidRequest, vm) else (Ok tt, set_state vm Running)
  end.

Definition run_vcpu (vm : MicroVm) : Result ExitReason * MicroVm :=
  match vm_vcpus vm with
  | [] => (Ok Halt, count_exit vm)
  | v :: vs =>
      match vcpu_run v with
      | (Err e, v') => (Err e, set_vcpus vm (v' :: vs))
      | (Ok exit, v') => (Ok exit, count_exit (set_vcpus vm (v' :: vs)))
      end
  end.

Definition run_end (vm : MicroVm) : Result unit * MicroVm :=
  match lock (vm_state vm) with
  | None => (Err ResourceBusy, vm)
  | Some _ => (Ok tt, set_state vm Stopped)
  end.

Definition run (vm : MicroVm) : Result ExitReason * MicroVm :=
  match run_begin vm with
  | (Err e, vm) => (Err e, vm)
  | (Ok _, vm) =>
      match run_vcpu vm with
      | (Err e, vm) => (Err e, vm)
      | (Ok exit, vm) =>
          match run_end vm with
          | (Err e, vm) => (Err e, vm)
          | (Ok _, vm) => (Ok exit, vm)
          end
      end
  end.

Definition pause (vm : MicroVm) : Result unit * MicroVm :=
  match lock (vm_state vm) with
  | None => (Err ResourceBusy, vm)
  | Some s => if decide (s <> Running) then (Err InvalidRequest, vm) else (Ok tt, set_state vm Paused)
  end.

Definition resume (vm : MicroVm) : Result unit * MicroVm :=
  match lock (vm_state vm) with
  | None => (Err ResourceBusy, vm)
  | Some s => if decide (s <> Paused) then (Err InvalidRequest, vm) else (Ok tt, set_state vm Running)
  end.

Definition stop (vm : MicroVm) : Result unit * MicroVm :=
  match lock (vm_state vm) with
  | None => (Err ResourceBusy, vm)
  | Some _ => (Ok tt, set_state vm Stopped)
  end.

End vmm.

(** ** The jailer *)

Record JailerConfig : Type := mkJailerConfig {
  chroot_dir : option string;
  uid : option Z;
  gid : option Z;
  seccomp : bool;
  netns : bool;
  cpuset : option string;
  memory_limit : option Z }.

Definition JailerConfig_default : JailerConfig := mkJailerConfig None None None false false None None.
Definition minimal : JailerConfig :=
  mkJailerConfig (Some "/srv/jailer") (Some 65534) (Some 65534) true true None
    (Some (256 * 1024 * 1024)).
Definition production (chroot : string) : JailerConfig :=
  mkJailerConfig (Some chroot) (Some 65534) (Some 65534) true true None None.

Record Jailer : Type := mkJailer { j_config : JailerConfig; j_active : bool }.
Definition Jailer_new (c : JailerConfig) : Jailer := mkJailer c false.
Definition jailer_is_active (j : Jailer) : bool := j_active j.
Definition enter (j : Jailer) : Result unit * Jailer := (Ok tt, mkJailer (j_config j) true).
Definition exit (j : Jailer) : Result unit * Jailer := (Ok tt, mkJailer (j_config j) false).

(** ** Creation *)

Lemma create_vcpus_ok ids acc :
  create_vcpus ids acc = Ok (acc ++ ((fun i => mkVcpu (Z.of_nat i) (-1) false) <$> ids)).
Proof.
  revert acc; induction ids as [|i ids IH]; intros acc; cbn; [by rewrite app_nil_r |].
  rewrite IH. by rewrite <- app_assoc.
Qed.

(** The machine [create] makes. *)
Definition fresh_vm (c : VmConfig) (size : Z) : MicroVm :=
  mkVm c (lock_new Created) ((fun i => mkVcpu (Z.of_nat i) (-1) false) <$> seq 0 (Z.to_nat (vcpus c)))
    size [] 0.

Lemma memory_bytes_value {prof : Profile} c :
  0 <= memory_mb c ->
  (memory_mb c < 2 ^ 44 -> memory_bytes c = Ret (memory_mb c * 1048576)) /\
  (2 ^ 44 <= memory_mb c < 2 ^ 64 ->
   memory_bytes c = if overflow_checks then Panic else Ret (wrap 64 (memory_mb c * 1048576))).
Proof.
  intros H0. unfold memory_bytes, mul_w. split; intros H.
  - rewrite checked_in by (unfold uint; lia). rewrite bind_ret, checked_in by (unfold uint; lia).
    f_equal; lia.
  - destruct (decide (memory_mb c < 2 ^ 54)).
    + rewrite checked_in by (unfold uint; lia). rewrite bind_ret, checked_out by (unfold uint; lia).
      destruct overflow_checks; [done |]. do 2 f_equal; lia.
    + rewrite (checked_out 64 (memory_mb c * 1024)) by (unfold uint; lia).
      destruct overflow_checks eqn:Ho; [done |]. rewrite bind_ret.
      replace (wrap 64 (memory_mb c * 1048576)) with (wrap 64 (wrap 64 (memory_mb c * 1024) * 1024)).
      * unfold checked. rewrite Ho. case_decide as Hu; [by rewrite (wrap_id 64 (wrap 64 _ * 1024)) | done].
      * unfold wrap. rewrite Zmult_mod_idemp_l. f_equal; lia.
Qed.

(** The calls on a builder, in order, and the value each setter picks. *)
Inductive BuilderCall : Type :=
| CallVcpus (n : Z)
| CallMemoryMb (mb : Z)
| CallKernelPath (path : string)
| CallKernelCmdline (line : string)
| CallInitrdPath (path : string)
| CallEnableKvm (enable : bool)
| CallVsockPath (path : string).

Definition builder_call (b : VmConfigBuilder) (call : BuilderCall) : VmConfigBuilder :=
  match call with
  | CallVcpus n => with_vcpus b n
  | CallMemoryMb mb => with_memory_mb b mb
  | CallKernelPath path => with_kernel_path b path
  | CallKernelCmdline line => with_kernel_cmdline b line
  | CallInitrdPath path => with_initrd_path b path
  | CallEnableKvm enable => with_enable_kvm b enable
  | CallVsockPath path => with_vsock_path b path
  end.
Definition builder_calls (calls : list BuilderCall) : VmConfigBuilder :=
  fold_left builder_call calls VmConfigBuilder_new.

Definition called_vcpus call := match call with CallVcpus n => Some n | _ => None end.
Definition called_memory_mb call := match call with CallMemoryMb mb => Some mb | _ => None end.
Definition called_kernel_path call :=
  match call with CallKernelPath path => Some (Some path) | _ => None end.
Definition called_kernel_cmdline call :=
  match call with CallKernelCmdline line => Some (Some line) | _ => None end.
Definition called_initrd_path call :=
  match call with CallInitrdPath path => Some (Some path) | _ => None end.
Definition called_enable_kvm call :=
  match call with CallEnableKvm enable => Some enable | _ => None end.
Definition called_vsock_path call :=
  match call with CallVsockPath path => Some (Some path) | _ => None end.

Lemma builder_calls_spec calls :
  builder_calls calls =
  mkVmConfig (latest 1 called_vcpus calls) (latest 128 called_memory_mb calls)
    (latest None called_kernel_path calls) (latest None called_kernel_cmdline calls)
    (latest None called_initrd_path calls) (latest true called_enable_kvm calls)
    (latest None called_vsock_path calls).
Proof.
  induction calls as [|call calls IH] using rev_ind; [done |].
  unfold builder_calls in *. rewrite fold_left_app, IH, !latest_snoc. by destruct call.
Qed.

(** The test on configurations. *)
Lemma validate_cases c :
  0 <= vcpus c -> 0 <= memory_mb c ->
  validate c = if decide (vcpus c = 0 \/ 254 < vcpus c \/ memory_mb c = 0)
               then Err InvalidArgument else Ok tt.
Proof.
  intros Hv Hm. unfold validate, MAX_VCPUS.
  destruct (Z.eqb_spec (vcpus c) 0), (Z.gtb_spec (vcpus c) 254), (Z.eqb_spec (memory_mb c) 0);
    cbn; case_decide; (done || lia).
Qed.

(** C37. Every sequence of calls on a configuration builder sets each field to
    the argument of the last call for it, or leaves its default, and [build]
    accepts the result exactly when [create] does.  [MicroVm::create] on every
    configuration: it is rejected with [InvalidArgument] exactly when the vCPU count is zero or above 254 or the
    memory is zero; otherwise, with less than 2^44 MB, it gives a machine in
    state [Created] with that many idle vCPUs numbered from 0, the memory in
    bytes, no region and no exit.  The test has no upper bound on the memory:
    from 2^44 MB on the size overflows, so that a build with overflow checks
    panics and one without makes a machine of the size modulo 2^64, which is
    zero at 2^44 MB. *)
Theorem create_spec (c : VmConfig) :
  u32 (vcpus c) -> u64 (memory_mb c) ->
  (forall calls, builder_calls calls = c ->
   c = mkVmConfig (latest 1 called_vcpus calls) (latest 128 called_memory_mb calls)
         (latest None called_kernel_path calls) (latest None called_kernel_cmdline calls)
         (latest None called_initrd_path calls) (latest true called_enable_kvm calls)
         (latest None called_vsock_path calls) /\
   build (builder_calls calls) =
     if decide (vcpus c = 0 \/ 254 < vcpus c \/ memory_mb c = 0) then Err InvalidArgument else Ok c) /\
  (validate c = Err InvalidArgument <-> vcpus c = 0 \/ 254 < vcpus c \/ memory_mb c = 0) /\
  (validate c = Err InvalidArgument ->
   forall prof : Profile, create c = Ret (Err InvalidArgument)) /\
  (1 <= vcpus c <= 254 -> 0 < memory_mb c < 2 ^ 44 ->
   forall prof : Profile, create c = Ret (Ok (fresh_vm c (memory_mb c * 1048576)))) /\
  (1 <= vcpus c <= 254 -> 2 ^ 44 <= memory_mb c ->
   @create dev c = Panic /\
   @create release c = Ret (Ok (fresh_vm c (wrap 64 (memory_mb c * 1048576)))) /\
   (memory_mb c = 2 ^ 44 -> wrap 64 (memory_mb c * 1048576) = 0)).
Proof.
  intros [Hv0 Hv1] [Hm0 Hm1]. pose proof (validate_cases c Hv0 Hm0) as Hval.
  assert (Hcreate : forall prof : Profile, 1 <= vcpus c <= 254 -> 0 < memory_mb c ->
    create c = (size ← memory_bytes c; Ret (Ok (fresh_vm c size)))).
  { intros prof Hc Hm. unfold create. rewrite Hval, decide_False by lia.
    by rewrite create_vcpus_ok. }
  split; [| split; [| split; [| split]]].
  - intros calls <-. split; [apply builder_calls_spec |].
    unfold build. rewrite Hval. by case_decide.
  - rewrite Hval. case_decide; split; (done || lia).
  - intros H prof. unfold create. by rewrite H.
  - intros Hc Hm prof. rewrite Hcreate by lia.
    by rewrite (proj1 (memory_bytes_value c Hm0)) by lia.
  - intros Hc Hm. split; [| split].
    + rewrite Hcreate by lia. by rewrite (proj2 (memory_bytes_value c Hm0)) by lia.
    + rewrite Hcreate by lia. by rewrite (proj2 (memory_bytes_value c Hm0)) by lia.
    + intros ->. reflexivity.
Qed.

(** ** The life cycle under concurrency *)

(** The machine; runs that set [Running] and have not left the vCPU; runs that
    left it and have not set [Stopped]; how many runs began and pauses
    succeeded. *)
Record VmSys : Type := mkSys {
  machine : MicroVm;
  entered : nat;
  exited : nat;
  begun : nat;
  pauses : nat }.

Definition vm_now (y : VmSys) : VmState := content (vm_state (machine y)).

(** The successful operations; [add_memory_region] takes [&mut self], so it
    excludes the others. *)
Inductive vm_step : VmSys -> VmSys -> Prop :=
| vstep_begin vm vm' n x b p :
    run_begin vm = (Ok tt, vm') -> vm_step (mkSys vm n x b p) (mkSys vm' (S n) x (S b) p)
| vstep_vcpu vm vm' n x b p e :
    run_vcpu vm = (Ok e, vm') -> vm_step (mkSys vm (S n) x b p) (mkSys vm' n (S x) b p)
| vstep_end vm vm' n x b p :
    run_end vm = (Ok tt, vm') -> vm_step (mkSys vm n (S x) b p) (mkSys vm' n x b p)
| vstep_pause vm vm' n x b p :
    pause vm = (Ok tt, vm') -> vm_step (mkSys vm n x b p) (mkSys vm' n x b (S p))
| vstep_resume vm vm' n x b p :
    resume vm = (Ok tt, vm') -> vm_step (mkSys vm n x b p) (mkSys vm' n x b p)
| vstep_stop vm vm' n x b p :
    stop vm = (Ok tt, vm') -> vm_step (mkSys vm n x b p) (mkSys vm' n x b p)
| vstep_add vm vm' b p r region :
    add_memory_region vm region = (r, vm') ->
    vm_step (mkSys vm 0 0 b p) (mkSys vm' 0 0 b p).

Definition vm_init (vm : MicroVm) : VmSys := mkSys vm 0 0 0 0.

Record vm_inv (y : VmSys) : Prop := {
  vi_healthy : poisoned (vm_state (machine y)) = false;
  vi_no_error : vm_now y <> Error;
  vi_begun : (begun y + (if can_start (vm_now y) then 1 else 0) <= 1 + pauses y)%nat;
  vi_entered : (entered y <= begun y)%nat;
  vi_exits : vm_exit_count (machine y) = wrap 64 (Z.of_nat (begun y - entered y));
  vi_regions : Z.of_nat (length (vm_regions (machine y))) <= MAX_MEMORY_SLOTS }.

Lemma state_lock vm : poisoned (vm_state vm) = false -> lock (vm_state vm) = Some (content (vm_state vm)).
Proof. apply lock_healthy. Qed.

Lemma run_vcpu_spec vm e vm' :
  run_vcpu vm = (Ok e, vm') ->
  e = Halt /\ vm_state vm' = vm_state vm /\ vm_regions vm' = vm_regions vm /\
  vm_exit_count vm' = wrap 64 (vm_exit_count vm + 1).
Proof. unfold run_vcpu. destruct (vm_vcpus vm); intros [= <- <-]; done. Qed.

Lemma vm_step_inv y y' : vm_inv y -> vm_step y y' -> vm_inv y'.
Proof.
  intros Hy Hstep. destruct Hstep; destruct Hy as [Hp Hne Hb He Hx Hr]; unfold vm_now in *; cbn in *.
  - revert H. unfold run_begin. rewrite state_lock by done.
    destruct (can_start _); cbn [negb]; intros [= <-].
    split; unfold vm_now; cbn; try done; lia.
  - apply run_vcpu_spec in H as (-> & Hst & Hrg & Hc).
    split; unfold vm_now; cbn; rewrite ?Hst, ?Hrg; try done; [lia |].
    rewrite Hc, Hx. unfold wrap. rewrite Zplus_mod_idemp_l. f_equal; lia.
  - revert H. unfold run_end. rewrite state_lock by done. intros [= <-].
    split; unfold vm_now; cbn; try done. destruct (can_start _); lia.
  - revert H. unfold pause. rewrite state_lock by done.
    destruct (decide _) as [? | Hs]; intros [= <-].
    split; unfold vm_now; cbn; try done. destruct (can_start _); lia.
  - revert H. unfold resume. rewrite state_lock by done.
    destruct (decide _) as [? | Hs]; intros [= <-].
    split; unfold vm_now; cbn; try done. destruct (can_start _); lia.
  - revert H. unfold stop. rewrite state_lock by done. intros [= <-].
    split; unfold vm_now; cbn; try done. destruct (can_start _); lia.
  - revert H. unfold add_memory_region.
    destruct (Z.geb_spec (Z.of_nat (length (vm_regions vm))) MAX_MEMORY_SLOTS); intros [= _ <-].
    + by split.
    + split; unfold vm_now; cbn; try done. rewrite length_app; cbn. lia.
Qed.

Lemma vm_fresh_inv c size : vm_inv (vm_init (fresh_vm c size)).
Proof. split; cbn; (done || lia). Qed.

Lemma vm_reach_inv y y' : vm_inv y -> rtc vm_step y y' -> vm_inv y'.
Proof. intros Hy H. induction H; [done |]. by eapply IHrtc, vm_step_inv. Qed.

Lemma vm_stopped_step y y' :
  vm_inv y -> vm_now y = Stopped -> vm_step y y' -> vm_now y' = Stopped /\ begun y' = begun y.
Proof.
  intros Hy Hs Hstep. destruct Hstep; destruct Hy as [Hp _ _ _ _ _]; unfold vm_now in *; cbn in *.
  - revert H. unfold run_begin. rewrite state_lock, Hs by done. done.
  - apply run_vcpu_spec in H as (_ & -> & _). done.
  - revert H. unfold run_end. rewrite state_lock by done. by intros [= <-].
  - revert H. unfold pause. rewrite state_lock, Hs by done. done.
  - revert H. unfold resume. rewrite state_lock, Hs by done. done.
  - revert H. unfold stop. rewrite state_lock by done. by intros [= <-].
  - revert H. unfold add_memory_region. case_match; by intros [= _ <-].
Qed.

Lemma vm_stopped_forever y y' :
  vm_inv y -> vm_now y = Stopped -> rtc vm_step y y' -> vm_now y' = Stopped /\ begun y' = begun y.
Proof.
  intros Hy Hs H. induction H as [y | y y1 y2 Hstep _ IH]; [done |].
  destruct (vm_stopped_step _ _ Hy Hs Hstep) as [Hs1 Hb1].
  destruct (IH (vm_step_inv _ _ Hy Hstep) Hs1) as [? ->]. done.
Qed.

(** C18. The life cycle of a machine, under any interleaving of the threads that
    run, pause, resume and stop it: it is never in the error state; at most one
    run begins plus one per successful pause; the exit count is the number of
    runs that have left the vCPU; there are never more than 32 memory regions;
    and once stopped it stays stopped and no run begins any more. *)
Theorem vm_lifecycle c size y :
  rtc vm_step (vm_init (fresh_vm c size)) y ->
  vm_now y <> Error /\
  (begun y <= 1 + pauses y)%nat /\
  vm_exit_count (machine y) = wrap 64 (Z.of_nat (begun y - entered y)) /\
  (length (vm_regions (machine y)) <= 32)%nat /\
  (vm_now y = Stopped -> forall y', rtc vm_step y y' -> vm_now y' = Stopped /\ begun y' = begun y).
Proof.
  intros Hr. pose proof (vm_reach_inv _ _ (vm_fresh_inv c size) Hr) as Hy.
  pose proof Hy as [_ Hne Hb _ Hx Hrg]. split; [done |].
  split; [destruct (can_start _); lia |]. split; [done |]. split; [unfold MAX_MEMORY_SLOTS in Hrg; lia |].
  intros Hs y' Hr'. by eapply vm_stopped_forever.
Qed.

(** ** One call after the other *)

Inductive VmOp : Type := OpRun | OpPause | OpResume | OpStop | OpAdd (region : MemoryRegion).
Inductive VmOut : Type := OutRun (r : Result ExitReason) | OutUnit (r : Result unit).

Definition vm_op (vm : MicroVm) (o : VmOp) : VmOut * MicroVm :=
  match o with
  | OpRun => let '(r, vm) := run vm in (OutRun r, vm)
  | OpPause => let '(r, vm) := pause vm in (OutUnit r, vm)
  | OpResume => let '(r, vm) := resume vm in (OutUnit r, vm)
  | OpStop => let '(r, vm) := stop vm in (OutUnit r, vm)
  | OpAdd region => let '(r, vm) := add_memory_region vm region in (OutUnit r, vm)
  end.

Fixpoint vm_ops (vm : MicroVm) (os : list VmOp) : list VmOut * MicroVm :=
  match os with
  | [] => ([], vm)
  | o :: os' =>
      let '(r, vm) := vm_op vm o in let '(rs, vm) := vm_ops vm os' in (r :: rs, vm)
  end.

(** The specification: has the machine been run or stopped, how many exits,
    which regions. *)
Record VmSpec : Type := mkVmSpec { used : bool; exits : Z; slots : list MemoryRegion }.

Definition spec_op (s : VmSpec) (o : VmOp) : VmOut * VmSpec :=
  match o with
  | OpRun =>
      if used s then (OutRun (Err InvalidRequest), s)
      else (OutRun (Ok Halt), mkVmSpec true (exits s + 1) (slots s))
  | OpPause | OpResume => (OutUnit (Err InvalidRequest), s)
  | OpStop => (OutUnit (Ok tt), mkVmSpec true (exits s) (slots s))
  | OpAdd region =>
      if (32 <=? length (slots s))%nat then (OutUnit (Err OutOfMemory), s)
      else (OutUnit (Ok tt), mkVmSpec (used s) (exits s) (slots s ++ [region]))
  end.

Fixpoint spec_ops (s : VmSpec) (os : list VmOp) : list VmOut * VmSpec :=
  match os with
  | [] => ([], s)
  | o :: os' => let '(r, s) := spec_op s o in let '(rs, s) := spec_ops s os' in (r :: rs, s)
  end.

Definition vm_represents (s : VmSpec) (vm : MicroVm) : Prop :=
  vm_state vm = mkLock (if used s then Stopped else Created) false /\
  vm_exit_count vm = exits s /\ (used s = false -> exits s = 0) /\ 0 <= exits s <= 1 /\
  vm_regions vm = slots s.

Ltac solve_rep := split; [done |]; split; [done |]; split; [done |]; split; [lia | done].

Lemma vm_op_spec s vm o :
  vm_represents s vm ->
  let '(r, s') := spec_op s o in exists vm', vm_op vm o = (r, vm') /\ vm_represents s' vm'.
Proof.
  destruct vm as [cfg st vs sz rg ec]. intros (Hst & Hec & Hz & Hx & Hrg); cbn in *; subst st ec rg.
  destruct o as [| | | | region]; cbn.
  - unfold run, run_begin; cbn. destruct (used s) eqn:Hu; cbn.
    + eexists; split; [done |]. unfold vm_represents; cbn. rewrite ?Hu. solve_rep.
    + rewrite Hz by done. unfold run_vcpu, run_end; cbn. destruct vs as [|v vs]; cbn;
        (eexists; split; [done |]); unfold vm_represents; cbn; solve_rep.
  - unfold pause; cbn. destruct (used s) eqn:Hu; cbn; (eexists; split; [done |]);
      unfold vm_represents; cbn; rewrite ?Hu; solve_rep.
  - unfold resume; cbn. destruct (used s) eqn:Hu; cbn; (eexists; split; [done |]);
      unfold vm_represents; cbn; rewrite ?Hu; solve_rep.
  - eexists; split; [done |]. unfold vm_represents; cbn. solve_rep.
  - unfold add_memory_region; cbn.
    destruct (Nat.leb_spec 32 (length (slots s))), (Z.geb_spec (Z.of_nat (length (slots s))) MAX_MEMORY_SLOTS);
      unfold MAX_MEMORY_SLOTS in *; try lia; (eexists; split; [done |]);
      unfold vm_represents; cbn; solve_rep.
Qed.

(** C31. Called one after the other, the methods of a new machine behave as the
    specification says: the first [run], unless [stop] came before it, halts and
    leaves the machine stopped; every later [run] is an [InvalidRequest];
    [pause] and [resume] always are; [stop] always succeeds; the thirty-third
    memory region is refused with [OutOfMemory]; and the exit count is 1 or 0
    according to whether the machine was run. *)
Theorem vm_refines_spec c size os :
  let '(rs, s) := spec_ops (mkVmSpec false 0 []) os in
  exists vm, vm_ops (fresh_vm c size) os = (rs, vm) /\
    state vm = Ret (if used s then Stopped else Created) /\ exit_count vm = exits s /\
    vm_regions vm = slots s.
Proof.
  assert (H : forall s vm, vm_represents s vm ->
    let '(rs, s') := spec_ops s os in
    exists vm', vm_ops vm os = (rs, vm') /\ vm_represents s' vm').
  { induction os as [|o os IH]; intros s vm Hs; cbn; [by exists vm |].
    pose proof (vm_op_spec s vm o Hs) as Ho. destruct (spec_op s o) as [r s1].
    destruct Ho as (vm1 & -> & Hs1). specialize (IH s1 vm1 Hs1).
    destruct (spec_ops s1 os) as [rs s2]. destruct IH as (vm2 & -> & Hs2). by exists vm2. }
  specialize (H (mkVmSpec false 0 []) (fresh_vm c size) ltac:(by repeat split)).
  destruct (spec_ops _ os) as [rs s]. destruct H as (vm & Hr & Hst & Hx & _ & _ & Hrg).
  exists vm. split; [done |]. unfold state, exit_count. by rewrite Hst.
Qed.

(** ** Witnesses *)

Definition demo_config : VmConfig := with_vcpus VmConfig_default 2.
Definition demo_vm : MicroVm := fresh_vm demo_config (128 * 1048576).

(** A paused machine can be run again while its first run is still inside the
    vCPU: two runs overlap. *)
Lemma two_runs_overlap : exists y,
  rtc vm_step (vm_init demo_vm) y /\ entered y = 2%nat /\ vm_now y = Running.
Proof.
  eexists. split.
  - eapply rtc_l; [by apply vstep_begin |].
    eapply rtc_l; [by apply vstep_pause |].
    eapply rtc_l; [by apply vstep_begin | apply rtc_refl].
  - split; reflexivity.
Qed.

Lemma vm_lifecycle_witness : exists y,
  rtc vm_step (vm_init demo_vm) y /\ begun y = 1%nat /\ (begun y <= 1 + pauses y)%nat.
Proof.
  eexists. split.
  - eapply rtc_l; [by apply vstep_begin | apply rtc_refl].
  - split; [reflexivity |].
    refine (proj1 (proj2 (vm_lifecycle demo_config (128 * 1048576) _ _))).
    eapply rtc_l; [by apply vstep_begin | apply rtc_refl].
Defined.

Lemma create_spec_witness :
  build (builder_calls [CallVcpus 4; CallKernelPath "/boot/vmlinux"; CallVcpus 2]) =
    Ok (mkVmConfig 2 128 (Some "/boot/vmlinux"%string) None None true None) /\
  @create dev (with_memory_mb demo_config (2 ^ 44)) = Panic /\
  @create release demo_config = Ret (Ok demo_vm).
Proof.
  split; [| split].
  - set (calls := [CallVcpus 4; CallKernelPath "/boot/vmlinux"; CallVcpus 2]).
    destruct (create_spec (builder_calls calls)) as (H & _);
      [split; [discriminate | reflexivity] | split; [discriminate | reflexivity] |].
    exact (proj2 (H calls eq_refl)).
  - destruct (create_spec (with_memory_mb demo_config (2 ^ 44))) as (_ & _ & _ & _ & H);
      [split; [discriminate | reflexivity] | split; [discriminate | reflexivity] |].
    apply H; cbn [vcpus memory_mb with_memory_mb demo_config with_vcpus]; lia.
  - destruct (create_spec demo_config) as (_ & _ & _ & H & _);
      [split; [discriminate | reflexivity] | split; [discriminate | reflexivity] |].
    apply H; cbn [vcpus memory_mb demo_config with_vcpus VmConfig_default]; lia.
Defined.
