(* ===== verification/Virtio.v ===== *)
(** * Virtio: virtual queues, sockets and block devices (src/virtio.rs)

    Descriptors, [VirtQueue], vsock addresses, packet headers, connections and
    the vsock device, and the RAM-backed [VirtioBlock].  A shared device is its
    state; a method that takes its lock has the poisoned branch the code has.
    The block device is refined to an abstract disk at the end. *)

From stdpp Require Import pretty.
From S2P Require Import Prelude Lts Bytes KernelError.

(** ** Constants *)

Definition device_type_NET : Z := 1.
Definition device_type_BLK : Z := 2.
Definition device_type_CONSOLE : Z := 3.
Definition device_type_RNG : Z := 4.
Definition device_type_VSOCK : Z := 19.
(** Every device type and status bit, in declaration order. *)
Definition device_types : list (string * Z) :=
  [("NET", 1); ("BLK", 2); ("CONSOLE", 3); ("RNG", 4); ("BALLOON", 5); ("SCSI", 8); ("P9", 9);
   ("GPU", 16); ("INPUT", 18); ("VSOCK", 19); ("CRYPTO", 20); ("FS", 26)]%string.
Definition status_bits : list (string * Z) :=
  [("ACKNOWLEDGE", 1); ("DRIVER", 2); ("DRIVER_OK", 4); ("FEATURES_OK", 8);
   ("DEVICE_NEEDS_RESET", 64); ("FAILED", 128)]%string.
Definition AVAIL_NO_INTERRUPT : Z := 1.
Definition USED_NO_NOTIFY : Z := 1.
Definition status_ACKNOWLEDGE : Z := 1.
Definition status_DRIVER : Z := 2.
Definition status_DRIVER_OK : Z := 4.
Definition status_FEATURES_OK : Z := 8.
Definition status_FAILED : Z := 128.
Definition DEFAULT_QUEUE_SIZE : Z := 256.
Definition MAX_QUEUE_SIZE : Z := 32768.

(** ** Descriptors *)

Record VirtqDesc : Type := mkDesc { d_addr : Z; d_len : Z; d_flags : Z; d_next : Z }.
Definition F_NEXT : Z := 1.
Definition F_WRITE : Z := 2.
Definition F_INDIRECT : Z := 4.
Definition VirtqDesc_new (addr len flags next : Z) : VirtqDesc := mkDesc addr len flags next.
Definition has_next (d : VirtqDesc) : bool := negb (Z.land (d_flags d) F_NEXT =? 0).
Definition is_write_only (d : VirtqDesc) : bool := negb (Z.land (d_flags d) F_WRITE =? 0).
Definition is_indirect (d : VirtqDesc) : bool := negb (Z.land (d_flags d) F_INDIRECT =? 0).

(** The rings; their arrays of variable size are declared with length 0. *)
Record VirtqAvail : Type := mkAvail { av_flags : Z; av_idx : Z }.
Record VirtqUsedElem : Type := mkUsedElem { ue_id : Z; ue_len : Z }.
Record VirtqUsed : Type := mkUsed { us_flags : Z; us_idx : Z }.

(** ** Queues *)

Record VirtQueueConfig : Type := mkQueueConfig {
  q_size : Z; q_desc_addr : Z; q_avail_addr : Z; q_used_addr : Z }.
Definition VirtQueueConfig_default : VirtQueueConfig := mkQueueConfig DEFAULT_QUEUE_SIZE 0 0 0.

Record VirtQueue : Type := mkQueue {
  q_config : VirtQueueConfig;
  q_ready : bool;
  last_avail_idx : Z;
  last_used_idx : Z;
  q_pending : Lock (list Z) }.

Definition VirtQueue_new (c : VirtQueueConfig) : VirtQueue := mkQueue c false 0 0 (lock_new []).
Definition with_size (size : Z) : VirtQueue := VirtQueue_new (mkQueueConfig size 0 0 0).
Definition queue_is_ready (q : VirtQueue) : bool := q_ready q.
Definition set_ready (q : VirtQueue) (ready : bool) : VirtQueue :=
  mkQueue (q_config q) ready (last_avail_idx q) (last_used_idx q) (q_pending q).
Definition queue_size (q : VirtQueue) : Z := q_size (q_config q).
Definition avail_idx (q : VirtQueue) : Z := last_avail_idx q.
Definition used_idx (q : VirtQueue) : Z := last_used_idx q.
Definition set_pending (q : VirtQueue) (l : list Z) : VirtQueue :=
  mkQueue (q_config q) (q_ready q) (last_avail_idx q) (last_used_idx q) (lock_set (q_pending q) l).

Definition add_pending (q : VirtQueue) (desc_idx : Z) : Result unit * VirtQueue :=
  match lock (q_pending q) with
  | None => (Err ResourceBusy, q)
  | Some l => (Ok tt, set_pending q (l ++ [desc_idx]))
  end.

(** [Vec::pop]. *)
Definition pop_pending (q : VirtQueue) : Result (option Z) * VirtQueue :=
  match lock (q_pending q) with
  | None => (Err ResourceBusy, q)
  | Some l =>
      match reverse l with
      | [] => (Ok None, q)
      | x :: r => (Ok (Some x), set_pending q (reverse r))
      end
  end.

Definition pending_count (q : VirtQueue) : Z :=
  match lock (q_pending q) with Some l => Z.of_nat (length l) | None => 0 end.
Definition notify (q : VirtQueue) : Result unit :=
  if negb (queue_is_ready q) then Err DeviceNotReady else Ok tt.
Definition mark_used (q : VirtQueue) (desc_idx len : Z) : Result unit * VirtQueue :=
  (Ok tt, mkQueue (q_config q) (q_ready q) (last_avail_idx q) (wrap 64 (last_used_idx q + 1))
            (q_pending q)).

(** ** Vsock addresses and packets *)

Record VsockAddr : Set := mkAddr { cid : Z; port : Z }.
#[export] Instance VsockAddr_eq_dec : EqDecision VsockAddr.
Proof. solve_decision. Defined.
#[export] Instance VsockAddr_countable : Countable VsockAddr.
Proof. apply (inj_countable' (fun a => (cid a, port a)) (fun p => mkAddr p.1 p.2)). by intros []. Defined.

Definition HOST_CID : Z := 2.
Definition ANY_CID : Z := umax 64.
Definition ANY_PORT : Z := umax 32.
Definition VsockAddr_new (c p : Z) : VsockAddr := mkAddr c p.
Definition host (p : Z) : VsockAddr := VsockAddr_new HOST_CID p.
Definition is_host (a : VsockAddr) : bool := cid a =? HOST_CID.
Definition VsockAddr_fmt (a : VsockAddr) : string := pretty (cid a) +:+ ":" +:+ pretty (port a).

Inductive VsockPacketType : Set :=
| PInvalid | PRequest | PResponse | PRst | PShutdown | PRw | PCreditUpdate | PCreditRequest.
Definition packet_code (t : VsockPacketType) : Z :=
  match t with
  | PInvalid => 0 | PRequest => 1 | PResponse => 2 | PRst => 3 | PShutdown => 4 | PRw => 5
  | PCreditUpdate => 6 | PCreditRequest => 7
  end.
Definition packet_from (value : Z) : VsockPacketType :=
  match value with
  | 1 => PRequest | 2 => PResponse | 3 => PRst | 4 => PShutdown | 5 => PRw
  | 6 => PCreditUpdate | 7 => PCreditRequest
  | _ => PInvalid
  end.

Record VsockPacketHeader : Type := mkHeader {
  src_cid : Z; dst_cid : Z; src_port : Z; dst_port : Z; h_len : Z; packet_type : Z;
  h_op : Z; h_flags : Z; h_buf_alloc : Z; h_fwd_cnt : Z }.
Definition VsockPacketHeader_SIZE : Z := 44.
Definition VsockPacketHeader_new (src dst : VsockAddr) (t : VsockPacketType) : VsockPacketHeader :=
  mkHeader (cid src) (cid dst) (port src) (port dst) 0 (packet_code t) 0 0 0 0.
Definition get_type (h : VsockPacketHeader) : VsockPacketType := packet_from (packet_type h).
Definition header_src (h : VsockPacketHeader) : VsockAddr := VsockAddr_new (src_cid h) (src_port h).
Definition header_dst (h : VsockPacketHeader) : VsockAddr := VsockAddr_new (dst_cid h) (dst_port h).

(** ** Vsock connections and the device *)

Inductive VsockConnState : Set := Disconnected | Connecting | Connected | Disconnecting.

Record VsockConnection : Type := mkConn {
  c_local : VsockAddr;
  c_remote : VsockAddr;
  c_state : VsockConnState;
  rx_buffer : bytes;
  tx_buffer : bytes;
  buf_alloc : Z;
  fwd_cnt : Z }.

Definition VsockConnection_new (local remote : VsockAddr) : VsockConnection :=
  mkConn local remote Disconnected [] [] 65536 0.
Definition is_connected (c : VsockConnection) : bool :=
  match c_state c with Connected => true | _ => false end.
Definition available_credit (c : VsockConnection) : Z :=
  saturating_sub (buf_alloc c) (wrap 32 (Z.of_nat (length (rx_buffer c)))).
Definition pending_tx (c : VsockConnection) : Z := Z.of_nat (length (tx_buffer c)).
Definition queue_tx (c : VsockConnection) (data : bytes) : VsockConnection :=
  mkConn (c_local c) (c_remote c) (c_state c) (rx_buffer c) (tx_buffer c ++ data) (buf_alloc c)
    (fwd_cnt c).
Definition acknowledge (c : VsockConnection) (n : Z) : VsockConnection :=
  mkConn (c_local c) (c_remote c) (c_state c) (rx_buffer c) (tx_buffer c) (buf_alloc c)
    (saturating_add 32 (fwd_cnt c) n).

Record VirtioVsock : Type := mkVsock {
  vs_cid : Z;
  rx_queue : VirtQueue;
  tx_queue : VirtQueue;
  event_queue : VirtQueue;
  connections : Lock (gmap (VsockAddr * VsockAddr) VsockConnection);
  vs_ready : bool }.

Definition VirtioVsock_new (c : Z) : VirtioVsock :=
  mkVsock c (with_size DEFAULT_QUEUE_SIZE) (with_size DEFAULT_QUEUE_SIZE)
    (with_size DEFAULT_QUEUE_SIZE) (lock_new ∅) false.
Definition vsock_activate (d : VirtioVsock) : VirtioVsock :=
  mkVsock (vs_cid d) (set_ready (rx_queue d) true) (set_ready (tx_queue d) true)
    (set_ready (event_queue d) true) (connections d) true.
Definition vsock_deactivate (d : VirtioVsock) : VirtioVsock :=
  mkVsock (vs_cid d) (set_ready (rx_queue d) false) (set_ready (tx_queue d) false)
    (set_ready (event_queue d) false) (connections d) false.
Definition vsock_connect (d : VirtioVsock) (remote : VsockAddr) : Result unit * VirtioVsock :=
  if negb (vs_ready d) then (Err DeviceNotReady, d)
  else
    let local := VsockAddr_new (vs_cid d) 0 in
    let conn := VsockConnection_new local remote in
    match lock (connections d) with
    | None => (Err ResourceBusy, d)
    | Some m =>
        (Ok tt, mkVsock (vs_cid d) (rx_queue d) (tx_queue d) (event_queue d)
                  (lock_set (connections d) (<[(local, remote) := conn]> m)) (vs_ready d))
    end.
Definition connection_count (d : VirtioVsock) : Z :=
  match lock (connections d) with Some m => Z.of_nat (base.size m) | None => 0 end.
Definition send (d : VirtioVsock) (remote : VsockAddr) (data : bytes) : Result Z :=
  if negb (vs_ready d) then Err DeviceNotReady else Ok (Z.of_nat (length data)).
Definition recv (d : VirtioVsock) (remote : VsockAddr) (buffer : bytes) : Result Z * bytes :=
  if negb (vs_ready d) then (Err DeviceNotReady, buffer) else (Ok 0, buffer).

(** ** Block requests and the block device *)

Inductive BlockRequestType : Set := BIn | BOut | BFlush | BDiscard | BWriteZeroes.
Definition request_code (t : BlockRequestType) : Z :=
  match t with BIn => 0 | BOut => 1 | BFlush => 4 | BDiscard => 11 | BWriteZeroes => 13 end.
Definition request_from (value : Z) : BlockRequestType :=
  match value with
  | 0 => BIn | 1 => BOut | 4 => BFlush | 11 => BDiscard | 13 => BWriteZeroes
  | _ => BIn
  end.
Record BlockRequestHeader : Type := mkRequest {
  request_type : Z; rq_reserved : Z; rq_sector : Z }.
Definition BlockRequestHeader_SIZE : Z := 16.
Definition request_read (sector : Z) : BlockRequestHeader := mkRequest (request_code BIn) 0 sector.
Definition request_write (sector : Z) : BlockRequestHeader := mkRequest (request_code BOut) 0 sector.
Definition request_flush : BlockRequestHeader := mkRequest (request_code BFlush) 0 0.
Definition request_get_type (h : BlockRequestHeader) : BlockRequestType :=
  request_from (request_type h).

Record BlockConfig : Type := mkBlockConfig {
  bc_capacity : Z; bc_blk_size : Z; bc_read_only : bool }.
Definition BlockConfig_default : BlockConfig := mkBlockConfig 0 512 false.

Record VirtioBlock : Type := mkBlock {
  b_config : BlockConfig;
  b_queue : VirtQueue;
  storage : Lock bytes;
  b_ready : bool;
  reads : Z;
  writes : Z }.

Section block.
Context {prof : Profile}.

Definition VirtioBlock_new (config : BlockConfig) : comp VirtioBlock :=
  storage_size ← mul_w 64 (bc_capacity config) 512;
  _ ← allocate_bytes storage_size;
  Ret (mkBlock config (with_size DEFAULT_QUEUE_SIZE)
    (lock_new (replicate (Z.to_nat storage_size) 0)) false 0 0).

(** [mib * 1024 * 1024 / 512]. *)
Definition with_capacity_mib (mib : Z) : comp VirtioBlock :=
  kib ← mul_w 64 mib 1024;
  b ← mul_w 64 kib 1024;
  VirtioBlock_new (mkBlockConfig (b / 512) 512 false).

Definition capacity (d : VirtioBlock) : Z := bc_capacity (b_config d).
Definition capacity_bytes (d : VirtioBlock) : comp Z := mul_w 64 (bc_capacity (b_config d)) 512.
Definition is_read_only (d : VirtioBlock) : bool := bc_read_only (b_config d).
Definition block_is_ready (d : VirtioBlock) : bool := b_ready d.
Definition block_activate (d : VirtioBlock) : VirtioBlock :=
  mkBlock (b_config d) (set_ready (b_queue d) true) (storage d) true (reads d) (writes d).
Definition block_deactivate (d : VirtioBlock) : VirtioBlock :=
  mkBlock (b_config d) (set_ready (b_queue d) false) (storage d) false (reads d) (writes d).

(** The buffer has length [len]; the result carries its new contents. *)
Definition read (d : VirtioBlock) (sector : Z) (buffer : bytes) :
  comp (Result Z * bytes * VirtioBlock) :=
  if negb (block_is_ready d) then Ret (Err DeviceNotReady, buffer, d)
  else
    offset ← mul_w 64 sector 512;
    let len := Z.of_nat (length buffer) in
    match lock (storage d) with
    | None => Ret (Err ResourceBusy, buffer, d)
    | Some st =>
        stop ← add_w 64 offset len;
        if stop >? Z.of_nat (length st) then Ret (Err InvalidArgument, buffer, d)
        else
          src ← slice st (Z.to_nat offset) (Z.to_nat stop);
          buffer ← copy_from_slice buffer 0 (length buffer) src;
          Ret (Ok len, buffer, mkBlock (b_config d) (b_queue d) (storage d) (b_ready d)
                 (wrap 64 (reads d + 1)) (writes d))
    end.

Definition write (d : VirtioBlock) (sector : Z) (data : bytes) :
  comp (Result Z * VirtioBlock) :=
  if negb (block_is_ready d) then Ret (Err DeviceNotReady, d)
  else if bc_read_only (b_config d) then Ret (Err NotSupported, d)
  else
    offset ← mul_w 64 sector 512;
    let len := Z.of_nat (length data) in
    match lock (storage d) with
    | None => Ret (Err ResourceBusy, d)
    | Some st =>
        stop ← add_w 64 offset len;
        if stop >? Z.of_nat (length st) then Ret (Err InvalidArgument, d)
        else
          st ← copy_from_slice st (Z.to_nat offset) (Z.to_nat stop) data;
          Ret (Ok len, mkBlock (b_config d) (b_queue d) (lock_set (storage d) st) (b_ready d)
                 (reads d) (wrap 64 (writes d + 1)))
    end.

Definition flush (d : VirtioBlock) : Result unit :=
  if negb (block_is_ready d) then Err DeviceNotReady else Ok tt.
Definition read_count (d : VirtioBlock) : Z := reads d.
Definition write_count (d : VirtioBlock) : Z := writes d.

End block.

(** ** The block device implements a disk *)

(** A disk: the byte at each address, and the size. *)
Definition Disk : Type := Z -> Z.
Definition disk_read (d : Disk) (offset : Z) (len : nat) : bytes :=
  (fun i => d (offset + Z.of_nat i)) <$> seq 0 len.
Definition disk_write (d : Disk) (offset : Z) (data : bytes) : Disk :=
  fun a => if offset <=? a then default (d a) (data !! Z.to_nat (a - offset)) else d a.

Inductive BlockOp : Type := BRead (sector : Z) (buffer : bytes) | BWrite (sector : Z) (data : bytes).
Inductive BlockOut : Type := ORead (r : Result Z) (buffer : bytes) | OWrite (r : Result Z).

Definition op_sector (o : BlockOp) : Z := match o with BRead s _ | BWrite s _ => s end.
Definition op_bytes (o : BlockOp) : bytes := match o with BRead _ b | BWrite _ b => b end.
(** The request ends below 2^64. *)
Definition addressable (o : BlockOp) : Prop :=
  0 <= op_sector o /\ op_sector o * 512 + Z.of_nat (length (op_bytes o)) < 2 ^ 64.

Section disk.
Context (size : Z) (read_only : bool).

Definition disk_step (d : Disk) (o : BlockOp) : BlockOut * Disk :=
  match o with
  | BRead sector buffer =>
      if sector * 512 + Z.of_nat (length buffer) <=? size
      then (ORead (Ok (Z.of_nat (length buffer))) (disk_read d (sector * 512) (length buffer)), d)
      else (ORead (Err InvalidArgument) buffer, d)
  | BWrite sector data =>
      if read_only then (OWrite (Err NotSupported), d)
      else if sector * 512 + Z.of_nat (length data) <=? size
      then (OWrite (Ok (Z.of_nat (length data))), disk_write d (sector * 512) data)
      else (OWrite (Err InvalidArgument), d)
  end.

Fixpoint disk_run (d : Disk) (os : list BlockOp) : list BlockOut * Disk :=
  match os with
  | [] => ([], d)
  | o :: os' => let '(r, d) := disk_step d o in let '(rs, d) := disk_run d os' in (r :: rs, d)
  end.
End disk.

Section block_theorems.
Context {prof : Profile}.

Definition block_step (d : VirtioBlock) (o : BlockOp) : comp (BlockOut * VirtioBlock) :=
  match o with
  | BRead sector buffer => '(r, b, d) ← read d sector buffer; Ret (ORead r b, d)
  | BWrite sector data => '(r, d) ← write d sector data; Ret (OWrite r, d)
  end.

Fixpoint block_run (d : VirtioBlock) (os : list BlockOp) : comp (list BlockOut * VirtioBlock) :=
  match os with
  | [] => Ret ([], d)
  | o :: os' =>
      '(r, d) ← block_step d o; '(rs, d) ← block_run d os'; Ret (r :: rs, d)
  end.

(** The storage holds the disk's bytes and has its size. *)
Definition stores (disk : Disk) (size : Z) (st : bytes) : Prop :=
  Z.of_nat (length st) = size /\
  forall i, (i < length st)%nat -> st !! i = Some (disk (Z.of_nat i)).

Definition presents (disk : Disk) (size : Z) (ro : bool) (d : VirtioBlock) : Prop :=
  b_ready d = true /\ bc_read_only (b_config d) = ro /\ poisoned (storage d) = false /\
  stores disk size (content (storage d)).

(** A read or a write that succeeded; the counters after [r] and [w] of them. *)
Definition read_done (o : BlockOut) : Z := match o with ORead (Ok _) _ => 1 | _ => 0 end.
Definition write_done (o : BlockOut) : Z := match o with OWrite (Ok _) => 1 | _ => 0 end.
Definition block_counts (d : VirtioBlock) (r w : Z) : Prop :=
  read_count d = wrap 64 r /\ write_count d = wrap 64 w.

Lemma stores_read disk size st offset len :
  stores disk size st -> 0 <= offset -> offset + Z.of_nat len <= size ->
  slice st (Z.to_nat offset) (Z.to_nat (offset + Z.of_nat len)) = Ret (disk_read disk offset len).
Proof.
  intros [Hlen Hst] Ho Hle. rewrite slice_ok by lia. f_equal.
  apply list_eq; intros i. unfold disk_read. rewrite list_lookup_fmap.
  destruct (decide (i < len)%nat) as [Hi | Hi].
  - rewrite lookup_take_lt, lookup_drop, Hst by lia. rewrite lookup_seq_lt by lia. cbn.
    do 2 f_equal; lia.
  - rewrite lookup_take_ge by lia. by rewrite lookup_seq_ge by lia.
Qed.

Lemma stores_write disk size st offset data :
  stores disk size st -> 0 <= offset -> offset + Z.of_nat (length data) <= size ->
  exists st', copy_from_slice st (Z.to_nat offset) (Z.to_nat (offset + Z.of_nat (length data))) data =
    Ret st' /\ stores (disk_write disk offset data) size st'.
Proof.
  intros [Hlen Hst] Ho Hle. rewrite copy_from_slice_ok by lia.
  eexists; split; [done |]. split.
  - rewrite !length_app, length_take, length_drop. lia.
  - intros i Hi. rewrite !length_app, length_take, length_drop in Hi. unfold disk_write.
    destruct (Z.leb_spec offset (Z.of_nat i)).
    + rewrite lookup_app_r by (rewrite length_take; lia). rewrite length_take, Nat.min_l by lia.
      destruct (decide (i - Z.to_nat offset < length data)%nat).
      * rewrite lookup_app_l by lia.
        replace (Z.to_nat (Z.of_nat i - offset)) with (i - Z.to_nat offset)%nat by lia.
        destruct (lookup_lt_is_Some_2 data (i - Z.to_nat offset) ltac:(lia)) as [b ->]. done.
      * rewrite lookup_app_r by lia. rewrite lookup_drop.
        rewrite (lookup_ge_None_2 data) by lia. cbn. rewrite Hst by lia. do 2 f_equal; lia.
    + rewrite lookup_app_l by (rewrite length_take; lia). rewrite lookup_take_lt by lia.
      apply Hst; lia.
Qed.

Lemma length_disk_read disk offset len : length (disk_read disk offset len) = len.
Proof. unfold disk_read. by rewrite length_fmap, length_seq. Qed.

Lemma block_step_spec disk size ro d o rd wr :
  presents disk size ro d -> block_counts d rd wr -> 0 <= size < 2 ^ 64 -> addressable o ->
  let '(r, disk') := disk_step size ro disk o in
  exists d', block_step d o = Ret (r, d') /\ presents disk' size ro d' /\
    block_counts d' (rd + read_done r) (wr + write_done r).
Proof.
  intros (Hrd & Hro & Hp & Hst) [Hcr Hcw] Hsize [Hs0 Hs1].
  assert (Hsame : block_counts d (rd + 0) (wr + 0)) by (unfold block_counts; by rewrite !Z.add_0_r). pose proof Hst as [Hlen _].
  destruct o as [sector buffer | sector data]; cbn [op_sector op_bytes] in *; cbn [disk_step block_step].
  - unfold read, block_is_ready. rewrite Hrd. cbn [negb]. unfold mul_w, add_w.
    rewrite checked_in, bind_ret by (unfold uint; lia). rewrite lock_healthy by done.
    rewrite checked_in, bind_ret by (unfold uint; lia).
    destruct (Z.gtb_spec (sector * 512 + Z.of_nat (length buffer)) (Z.of_nat (length (content (storage d))))),
      (Z.leb_spec (sector * 512 + Z.of_nat (length buffer)) size); try lia.
    + rewrite bind_ret. by exists d.
    + rewrite (stores_read disk size) by (done || lia). rewrite bind_ret.
      rewrite copy_from_slice_ok by (rewrite ?length_disk_read; lia). rewrite !bind_ret.
      rewrite take_0, drop_all, app_nil_r. cbn [app]. eexists; split; [done |]. split; [done |].
      split; cbn; [| by rewrite Z.add_0_r]. unfold read_count in Hcr. rewrite Hcr. apply wrap_add_wrap.
  - unfold write, block_is_ready. rewrite Hrd, Hro. cbn [negb].
    destruct ro; [rewrite bind_ret; by exists d |].
    unfold mul_w, add_w. rewrite checked_in, bind_ret by (unfold uint; lia).
    rewrite lock_healthy by done. rewrite checked_in, bind_ret by (unfold uint; lia).
    destruct (Z.gtb_spec (sector * 512 + Z.of_nat (length data)) (Z.of_nat (length (content (storage d))))),
      (Z.leb_spec (sector * 512 + Z.of_nat (length data)) size); try lia.
    + rewrite bind_ret. by exists d.
    + destruct (stores_write disk size (content (storage d)) (sector * 512) data)
        as (st' & -> & Hst'); [done | lia | lia |].
      rewrite !bind_ret. eexists; split; [done |]. split; [done |].
      split; cbn; [by rewrite Z.add_0_r |]. unfold write_count in Hcw. rewrite Hcw. apply wrap_add_wrap.
Qed.

Lemma block_run_spec disk size ro d os rd wr :
  presents disk size ro d -> block_counts d rd wr -> 0 <= size < 2 ^ 64 -> Forall addressable os ->
  let '(rs, disk') := disk_run size ro disk os in
  exists d', block_run d os = Ret (rs, d') /\ presents disk' size ro d' /\
    block_counts d' (rd + over read_done rs) (wr + over write_done rs).
Proof.
  intros Hd Hc Hsize Hos. revert disk d rd wr Hd Hc.
  induction Hos as [|o os Ho _ IH]; intros disk d rd wr Hd Hc; cbn.
  { exists d. unfold over; cbn. by rewrite !Z.add_0_r. }
  pose proof (block_step_spec disk size ro d o rd wr Hd Hc Hsize Ho) as H.
  destruct (disk_step size ro disk o) as [r disk1]. destruct H as (d1 & -> & Hd1 & Hc1).
  rewrite bind_ret. specialize (IH disk1 d1 _ _ Hd1 Hc1).
  destruct (disk_run size ro disk1 os) as [rs disk2]. destruct IH as (d2 & -> & Hd2 & Hc2).
  rewrite bind_ret. exists d2. rewrite !over_cons, !Z.add_assoc. done.
Qed.

Lemma block_new_presents config d :
  VirtioBlock_new config = Ret d -> 0 <= bc_capacity config -> bc_capacity config * 512 < 2 ^ 64 ->
  presents (fun _ => 0) (bc_capacity config * 512) (bc_read_only config) (block_activate d).
Proof.
  intros H H0 Hc. unfold VirtioBlock_new, mul_w in H.
  rewrite checked_in, bind_ret in H by (unfold uint; lia). apply bind_ret_inv in H as (_ & _ & [= <-]).
  split; [done |]. split; [done |]. split; [done |]. cbn. split.
  - rewrite length_replicate. lia.
  - intros i Hi. rewrite length_replicate in Hi. by rewrite lookup_replicate_2.
Qed.

Lemma block_new_counts config d : VirtioBlock_new config = Ret d -> block_counts (block_activate d) 0 0.
Proof. unfold VirtioBlock_new. intros (n & _ & (_ & _ & [= <-])%bind_ret_inv)%bind_ret_inv. done. Qed.

Lemma block_new_ok config :
  0 <= bc_capacity config -> bc_capacity config * 512 < 2 ^ 64 ->
  if bc_capacity config * 512 <? 2 ^ 63 then exists d, VirtioBlock_new config = Ret d
  else VirtioBlock_new config = Panic.
Proof.
  intros H0 Hc. unfold VirtioBlock_new, mul_w. rewrite checked_in, bind_ret by (unfold uint; lia).
  unfold allocate_bytes. destruct (_ <? _); [by eexists | done].
Qed.

End block_theorems.

(** C16. The block device is a disk: after activation, any sequence of reads and
    writes whose requests end below 2^64 runs without a panic and returns what
    an abstract disk of [capacity * 512] zero bytes returns: a read the bytes
    last written at its addresses, a request past the end [InvalidArgument]
    with buffer and disk unchanged, and every write to a read-only device
    [NotSupported].  The two counters count the requests that succeed, modulo
    2^64.  This is for sizes below 2^63 bytes; from there to 2^64 the constructor
    panics, capacity overflow. *)
Theorem block_refines_disk (prof : Profile) config ops :
  0 <= bc_capacity config -> bc_capacity config * 512 < 2 ^ 64 -> Forall addressable ops ->
  (bc_capacity config * 512 < 2 ^ 63 ->
   let '(outs, _) := disk_run (bc_capacity config * 512) (bc_read_only config) (fun _ => 0) ops in
   exists d d', VirtioBlock_new config = Ret d /\ block_run (block_activate d) ops = Ret (outs, d') /\
     read_count d' = wrap 64 (over read_done outs) /\ write_count d' = wrap 64 (over write_done outs)) /\
  (2 ^ 63 <= bc_capacity config * 512 -> VirtioBlock_new config = Panic).
Proof.
  intros H0 Hc Hops. pose proof (block_new_ok config H0 Hc) as Hnew. split; intros Hsz.
  2:{ by rewrite (proj2 (Z.ltb_ge _ _)) in Hnew by lia. }
  rewrite (proj2 (Z.ltb_lt _ _)) in Hnew by lia. destruct Hnew as [d Hd].
  pose proof (block_run_spec _ _ _ _ ops 0 0 (block_new_presents config d Hd H0 Hc)
    (block_new_counts config d Hd) ltac:(lia) Hops) as H.
  destruct (disk_run _ _ _ ops) as [outs disk']. destruct H as (d' & Hr & _ & Hct).
  exists d, d'. done.
Qed.

(** Sectors from 2^55 on: the byte offset overflows 64 bits, so that on a
    ready device a read, and a write to a writable one, panics in a build with
    overflow checks and in one without is served at the sector modulo 2^55:
    the caller gets, or changes, the data of another sector, with success. *)
Theorem block_sector_wraps d sector buffer :
  b_ready d = true -> uint 64 sector -> 2 ^ 55 <= sector ->
  @read dev d sector buffer = Panic /\
  @read release d sector buffer = @read release d (sector mod 2 ^ 55) buffer /\
  (bc_read_only (b_config d) = false ->
   @write dev d sector buffer = Panic /\
   @write release d sector buffer = @write release d (sector mod 2 ^ 55) buffer).
Proof.
  intros Hr [Hs0 Hs1] Hs.
  assert (Hbig : ~ uint 64 (sector * 512)) by (unfold uint; lia).
  assert (Hsmall : uint 64 (sector mod 2 ^ 55 * 512)).
  { pose proof (Z.mod_pos_bound sector (2 ^ 55) ltac:(lia)). unfold uint. lia. }
  assert (Hw : @mul_w release 64 sector 512 = @mul_w release 64 (sector mod 2 ^ 55) 512).
  { unfold mul_w. rewrite checked_out by done. rewrite checked_in by done.
    change (Ret (wrap 64 (sector * 512)) = Ret (sector mod 2 ^ 55 * 512)). f_equal. unfold wrap.
    change (2 ^ 64) with (2 ^ 55 * 512). rewrite Z.mul_mod_distr_r by lia. done. }
  assert (Hp : @mul_w dev 64 sector 512 = Panic).
  { unfold mul_w. by rewrite checked_out by done. }
  unfold read, write, block_is_ready. rewrite Hr, Hp, Hw. cbn [negb].
  split; [done |]. split; [done |]. intros ->. split; [done |]. done.
Qed.

(** ** Vsock connections *)

Inductive VsockOp : Type :=
| VActivate | VDeactivate | VConnect (remote : VsockAddr)
| VSend (remote : VsockAddr) (data : bytes) | VRecv (remote : VsockAddr) (buffer : bytes).
Inductive VsockOut : Type :=
| VDone (r : Result unit) | VSent (r : Result Z) | VReceived (r : Result Z) (buffer : bytes).

Definition vsock_exec (d : VirtioVsock) (o : VsockOp) : VsockOut * VirtioVsock :=
  match o with
  | VActivate => (VDone (Ok tt), vsock_activate d)
  | VDeactivate => (VDone (Ok tt), vsock_deactivate d)
  | VConnect remote => let '(r, d) := vsock_connect d remote in (VDone r, d)
  | VSend remote data => (VSent (send d remote data), d)
  | VRecv remote buffer => let '(r, b) := recv d remote buffer in (VReceived r b, d)
  end.
Definition vsock_step (d : VirtioVsock) (o : VsockOp) : VirtioVsock := (vsock_exec d o).2.

Fixpoint vsock_run (d : VirtioVsock) (os : list VsockOp) : list VsockOut * VirtioVsock :=
  match os with
  | [] => ([], d)
  | o :: os' =>
      let '(r, d) := vsock_exec d o in let '(rs, d) := vsock_run d os' in (r :: rs, d)
  end.

(** What each call answers, given whether the device is active. *)
Definition vsock_answer (ready : bool) (o : VsockOp) : VsockOut :=
  match o with
  | VActivate | VDeactivate => VDone (Ok tt)
  | VConnect _ => VDone (if ready then Ok tt else Err DeviceNotReady)
  | VSend _ data => VSent (if ready then Ok (Z.of_nat (length data)) else Err DeviceNotReady)
  | VRecv _ buffer => VReceived (if ready then Ok 0 else Err DeviceNotReady) buffer
  end.
Definition ready_after (ready : bool) (o : VsockOp) : bool :=
  match o with VActivate => true | VDeactivate => false | _ => ready end.
Fixpoint vsock_answers (ready : bool) (os : list VsockOp) : list VsockOut :=
  match os with
  | [] => []
  | o :: os' => vsock_answer ready o :: vsock_answers (ready_after ready o) os'
  end.

(** The remotes connected to while the device was ready. *)
Fixpoint reached (ready : bool) (os : list VsockOp) : gset VsockAddr :=
  match os with
  | [] => ∅
  | VActivate :: os' => reached true os'
  | VDeactivate :: os' => reached false os'
  | VConnect remote :: os' =>
      if ready then {[remote]} ∪ reached ready os' else reached ready os'
  | _ :: os' => reached ready os'
  end.

(** A device with the CID [c] that is [ready] and connected to [rs]. *)
Definition vsock_holds (c : Z) (ready : bool) (d : VirtioVsock) (rs : gset VsockAddr) : Prop :=
  vs_cid d = c /\ poisoned (connections d) = false /\ vs_ready d = ready /\
  Forall (fun q => queue_is_ready q = ready) [rx_queue d; tx_queue d; event_queue d] /\
  dom (content (connections d)) = set_map (fun r => (VsockAddr_new c 0, r)) rs /\
  forall k conn, content (connections d) !! k = Some conn ->
    conn = VsockConnection_new k.1 k.2.

Lemma vsock_step_holds c ready d o rs :
  vsock_holds c ready d rs ->
  (vsock_exec d o).1 = vsock_answer ready o /\
  vsock_holds c (ready_after ready o) (vsock_step d o)
    (match o with VConnect r => if ready then {[r]} ∪ rs else rs | _ => rs end).
Proof.
  intros (Hc & Hp & Hr & Hq & Hdom & Hconn). unfold vsock_step.
  destruct o as [| | remote | remote data | remote buffer]; cbn [vsock_exec vsock_answer ready_after];
    [split; [done |]; unfold vsock_holds; cbn; by repeat constructor .. | | |].
  - unfold vsock_connect. rewrite Hr. destruct ready; cbn [negb fst snd]; [| done].
    rewrite lock_healthy by done. cbn [fst snd]. rewrite Hc. split; [done |].
    unfold vsock_holds. cbn. split_and!; try done.
    + rewrite dom_insert_L, Hdom, set_map_union_L, set_map_singleton_L. done.
    + intros k conn. rewrite lookup_insert_Some. intros [[<- <-] | [_ H]]; [done | by apply Hconn].
  - unfold send. rewrite Hr. by destruct ready.
  - unfold recv. rewrite Hr. by destruct ready.
Qed.

Lemma vsock_run_holds c os ready d rs :
  vsock_holds c ready d rs ->
  (vsock_run d os).1 = vsock_answers ready os /\
  vsock_holds c (fold_left ready_after os ready) (vsock_run d os).2 (rs ∪ reached ready os).
Proof.
  revert ready d rs; induction os as [|o os IH]; intros ready d rs Hd; cbn [vsock_run].
  { cbn. by rewrite union_empty_r_L. }
  destruct (vsock_step_holds c ready d o rs Hd) as [Ho H1]. unfold vsock_step in H1.
  destruct (vsock_exec d o) as [r d1]. cbn [fst snd] in *. destruct (IH _ _ _ H1) as [Hos IH'].
  destruct (vsock_run d1 os) as [outs d2]. cbn [fst snd] in *. split.
  { cbn [vsock_answers]. by f_equal. }
  destruct o as [| | remote | |]; cbn in IH' |- *; try exact IH'.
  destruct ready; [| exact IH']. by rewrite (assoc_L (∪)), (comm_L (∪) rs).
Qed.

Lemma size_set_map_inj `{Countable A, Countable B} (f : A -> B) `{!Inj (=) (=) f} (X : gset A) :
  base.size (set_map (D := gset B) f X) = base.size X.
Proof.
  induction X as [|x X Hx IH] using set_ind_L.
  - rewrite set_map_empty. by rewrite !size_empty.
  - rewrite set_map_union_L, set_map_singleton_L, !size_union, !size_singleton, IH by set_solver. done.
Qed.

(** C36. The vsock device, under any sequence of activations, deactivations,
    connects, sends and receives on a new device: every call is refused with
    [DeviceNotReady] exactly while the device is inactive, its three queues
    being ready exactly while it is active; it holds one connection per remote
    address it connected to while active, counted once however often it was
    connected to, local to its own CID, with full credit; a send is answered
    with the length of its data although nothing is queued for any connection,
    a receive with no data, and no connection is ever connected, since
    [connect] leaves the state [Disconnected]. *)
Theorem vsock_connections c os :
  let '(outs, d) := vsock_run (VirtioVsock_new c) os in
  outs = vsock_answers false os /\
  vs_ready d = fold_left ready_after os false /\
  Forall (fun q => queue_is_ready q = vs_ready d) [rx_queue d; tx_queue d; event_queue d] /\
  connection_count d = Z.of_nat (base.size (reached false os)) /\
  (forall remote, remote ∈ reached false os <->
     exists conn, content (connections d) !! (VsockAddr_new c 0, remote) = Some conn) /\
  (forall k conn, content (connections d) !! k = Some conn ->
     c_local conn = k.1 /\ c_remote conn = k.2 /\ is_connected conn = false /\
     pending_tx conn = 0 /\ available_credit conn = 65536).
Proof.
  assert (H0 : vsock_holds c false (VirtioVsock_new c) ∅).
  { unfold vsock_holds. cbn. rewrite dom_empty_L, set_map_empty. by repeat constructor. }
  pose proof (vsock_run_holds c os _ _ _ H0) as (Hout & Hc & Hp & Hr & Hq & Hdom & Hconn).
  destruct (vsock_run (VirtioVsock_new c) os) as [outs d]. cbn [fst snd] in *.
  rewrite union_empty_l_L in Hdom. split; [done |]. split; [done |]. split; [by rewrite Hr |].
  split; [| split].
  - unfold connection_count. rewrite lock_healthy by done. f_equal.
    rewrite <- size_dom, Hdom. apply size_set_map_inj. intros ? ? [=]. done.
  - intros remote. change (remote ∈ reached false os <->
      is_Some (content (connections d) !! (VsockAddr_new c 0, remote))).
    rewrite <- elem_of_dom, Hdom. split; set_solver.
  - intros k conn Hk. rewrite (Hconn k conn Hk). by repeat split.
Qed.

(** ** The queue is a stack of descriptors *)

(** The methods of [VirtQueue]; each is one atomic action (a store, a
    [fetch_add] or a critical section), so that a sequence of them is also any
    interleaving of the callers that share the queue. *)
Inductive QueueOp : Type :=
| QSetReady (ready : bool) | QAdd (desc_idx : Z) | QPop | QCount | QNotify
| QUsed (desc_idx len : Z).
Inductive QueueOut : Type :=
| QDone (r : Result unit) | QPopped (r : Result (option Z)) | QPending (n : Z).

Definition queue_exec (q : VirtQueue) (o : QueueOp) : QueueOut * VirtQueue :=
  match o with
  | QSetReady ready => (QDone (Ok tt), set_ready q ready)
  | QAdd i => let '(r, q) := add_pending q i in (QDone r, q)
  | QPop => let '(r, q) := pop_pending q in (QPopped r, q)
  | QCount => (QPending (pending_count q), q)
  | QNotify => (QDone (notify q), q)
  | QUsed i len => let '(r, q) := mark_used q i len in (QDone r, q)
  end.
Fixpoint queue_run (q : VirtQueue) (os : list QueueOp) : list QueueOut * VirtQueue :=
  match os with
  | [] => ([], q)
  | o :: os' =>
      let '(r, q) := queue_exec q o in let '(rs, q) := queue_run q os' in (r :: rs, q)
  end.

(** The specification: the ready flag and the stack, its top first. *)
Definition stack_step (s : bool * list Z) (o : QueueOp) : QueueOut * (bool * list Z) :=
  let '(ready, stack) := s in
  match o with
  | QSetReady r => (QDone (Ok tt), (r, stack))
  | QAdd i => (QDone (Ok tt), (ready, i :: stack))
  | QPop => (QPopped (Ok (head stack)), (ready, tail stack))
  | QCount => (QPending (Z.of_nat (length stack)), s)
  | QNotify => (QDone (if ready then Ok tt else Err DeviceNotReady), s)
  | QUsed _ _ => (QDone (Ok tt), s)
  end.
Fixpoint stack_run (s : bool * list Z) (os : list QueueOp) : list QueueOut * (bool * list Z) :=
  match os with
  | [] => ([], s)
  | o :: os' =>
      let '(r, s) := stack_step s o in let '(rs, s) := stack_run s os' in (r :: rs, s)
  end.

Definition queue_added (os : list QueueOp) : list Z :=
  omap (fun o => match o with QAdd i => Some i | _ => None end) os.
Definition queue_popped (outs : list QueueOut) : list Z :=
  omap (fun r => match r with QPopped (Ok i) => i | _ => None end) outs.
Definition is_mark (o : QueueOp) : bool := match o with QUsed _ _ => true | _ => false end.
Definition queue_marked (os : list QueueOp) : Z := Z.of_nat (length (filter is_mark os)).

Definition queue_presents (q : VirtQueue) (s : bool * list Z) (used : Z) : Prop :=
  queue_is_ready q = s.1 /\ poisoned (q_pending q) = false /\
  content (q_pending q) = reverse s.2 /\ used_idx q = wrap 64 used /\ avail_idx q = 0.

Lemma queue_step_presents q s used o :
  queue_presents q s used ->
  (queue_exec q o).1 = (stack_step s o).1 /\
  queue_presents (queue_exec q o).2 (stack_step s o).2 (used + queue_marked [o]).
Proof.
  destruct s as [ready stack]. intros (Hr & Hp & Hst & Hu & Ha). cbn [fst snd] in *.
  assert (Hmark : used + 0 = used) by lia.
  destruct o as [r | i | | | | i len];
    [change (queue_marked _) with 0.. | change (queue_marked _) with 1]; cbn [queue_exec stack_step].
  - split; [done |]. rewrite Hmark. done.
  - unfold add_pending. rewrite lock_healthy by done. rewrite Hmark. split; [done |].
    unfold queue_presents. cbn [fst snd]. rewrite reverse_cons, <- Hst. done.
  - unfold pop_pending. rewrite lock_healthy by done. rewrite Hst, reverse_involutive.
    destruct stack as [| x stack]; cbn; rewrite Hmark; (split; [done |]); done.
  - unfold pending_count. rewrite lock_healthy by done. rewrite Hst, length_reverse, Hmark. done.
  - unfold notify. rewrite Hr, Hmark. by destruct ready.
  - split; [done |]. unfold queue_presents, used_idx in *. cbn. split_and!; try done.
    rewrite Hu. unfold wrap. by rewrite Zplus_mod_idemp_l.
Qed.

Lemma stack_step_conserves s o :
  queue_popped [(stack_step s o).1] ++ (stack_step s o).2.2 ≡ₚ queue_added [o] ++ s.2.
Proof. destruct s as [ready [| x stack]], o; cbn; done. Qed.

Lemma queue_run_presents os q s used :
  queue_presents q s used ->
  let '(outs, s') := stack_run s os in
  exists q', queue_run q os = (outs, q') /\ queue_presents q' s' (used + queue_marked os) /\
    queue_popped outs ++ s'.2 ≡ₚ queue_added os ++ s.2.
Proof.
  revert q s used; induction os as [| o os IH]; intros q s used Hq; cbn [stack_run queue_run].
  { exists q. split; [done |]. by rewrite Z.add_0_r. }
  destruct (queue_step_presents q s used o Hq) as [Ho H1].
  pose proof (stack_step_conserves s o) as Hcons.
  destruct (stack_step s o) as [r s1], (queue_exec q o) as [r' q1]. cbn [fst snd] in *. subst r'.
  specialize (IH q1 s1 _ H1). destruct (stack_run s1 os) as [outs s2].
  destruct IH as (q2 & -> & Hq2 & Hperm). exists q2. split; [done |]. split.
  - replace (queue_marked (o :: os)) with (queue_marked [o] + queue_marked os); [by rewrite Z.add_assoc |].
    unfold queue_marked. change (o :: os) with ([o] ++ os). rewrite filter_app, length_app. lia.
  - change (r :: outs) with ([r] ++ outs). change (o :: os) with ([o] ++ os).
    unfold queue_popped, queue_added in *. rewrite !omap_app, <- !app_assoc, Hperm.
    rewrite (Permutation_app_swap_app _ (omap _ os)), Hcons.
    by rewrite Permutation_app_swap_app.
Qed.

(** A virtual queue is a stack: any sequence of its methods, by any callers,
    on a new queue answers what a stack with a ready flag answers - a pop gives
    the descriptor added last and not yet popped, a notification fails exactly
    while the queue is not ready - and every descriptor added has been popped
    once or is still pending; the used index counts the descriptors marked,
    modulo 2^64, and the available index never moves. *)
Theorem queue_is_stack size os :
  let '(outs, (ready, stack)) := stack_run (false, []) os in
  exists q, queue_run (with_size size) os = (outs, q) /\
    queue_popped outs ++ stack ≡ₚ queue_added os /\
    pending_count q = Z.of_nat (length stack) /\ queue_is_ready q = ready /\
    queue_size q = size /\ used_idx q = wrap 64 (queue_marked os) /\ avail_idx q = 0.
Proof.
  assert (H0 : queue_presents (with_size size) (false, []) 0) by done.
  pose proof (queue_run_presents os _ _ _ H0) as H.
  assert (Hsize : forall os q, queue_size (queue_run q os).2 = queue_size q).
  { clear. induction os as [| o os IH]; intros q; cbn [queue_run]; [done |].
    assert (Ho : queue_size (queue_exec q o).2 = queue_size q).
    { destruct o; cbn; try done.
      - unfold add_pending. by destruct (lock (q_pending q)).
      - unfold pop_pending. destruct (lock (q_pending q)) as [l |]; [by destruct (reverse l) | done]. }
    destruct (queue_exec q o) as [r q1]. cbn in Ho. specialize (IH q1).
    destruct (queue_run q1 os) as [rs q2]. cbn in *. congruence. }
  destruct (stack_run (false, []) os) as [outs [ready stack]].
  destruct H as (q & Hrun & (Hr & Hp & Hst & Hu & Ha) & Hperm). cbn [fst snd] in *.
  exists q. split; [done |]. split; [by rewrite Hperm, app_nil_r |].
  split; [unfold pending_count; by rewrite lock_healthy, Hst, length_reverse by done |].
  split; [done |]. split; [| done].
  specialize (Hsize os (with_size size)). by rewrite Hrun in Hsize.
Qed.

(** ** Witnesses *)

Definition demo_block : BlockConfig := mkBlockConfig 2 512 false.
Definition demo_requests : list BlockOp :=
  [BWrite 1 [7; 8; 9]; BRead 1 [0; 0]; BRead 0 [1]; BWrite 1 (replicate 600 1); BRead 9 [5]].

Lemma block_refines_witness : exists d d',
  @VirtioBlock_new dev demo_block = Ret d /\
  @block_run dev (block_activate d) demo_requests =
    Ret ([OWrite (Ok 3); ORead (Ok 2) [7; 8]; ORead (Ok 1) [0]; OWrite (Err InvalidArgument);
          ORead (Err InvalidArgument) [5]], d') /\
  read_count d' = 2 /\ write_count d' = 1.
Proof.
  apply (block_refines_disk dev demo_block demo_requests).
  - cbn; lia.
  - cbn; lia.
  - repeat (apply Forall_cons; split; [split; [cbn; lia | reflexivity] |]). constructor.
  - cbn; lia.
Defined.

(** A device with one sector. *)
Definition demo_disk : VirtioBlock :=
  mkBlock (mkBlockConfig 1 512 false) (with_size DEFAULT_QUEUE_SIZE)
    (lock_new (replicate 512 42)) true 0 0.

Lemma block_sector_witness :
  @read release demo_disk (2 ^ 55) [0] = @read release demo_disk 0 [0] /\
  (@read release demo_disk 0 [0] ≫= (fun p => Ret p.1)) = Ret (Ok 1, [42]).
Proof.
  split; [| vm_compute; reflexivity].
  refine (proj1 (proj2 (block_sector_wraps demo_disk (2 ^ 55) [0] eq_refl _ _))).
  - split; [discriminate | reflexivity].
  - discriminate.
Defined.
