(* ===== verification/VirtioSteps.v ===== *)
(** * VirtioSteps: threads that share a virtio block device (src/virtio.rs)

    Every method of [VirtioBlock] takes [&self].  A request loads the ready flag,
    takes the storage's reader-writer lock, tests the bounds, copies, counts with a
    [fetch_add] and drops its guard when it returns; [activate] and [deactivate]
    store two flags one after the other.  A copy is not atomic: it moves one byte
    per action here, so that what keeps a read from seeing half a write is the
    lock and nothing else.

    The specification is a disk on which a request that was admitted while the
    device was ready takes effect at one instant before its return.  The instant
    need not come before a [deactivate] that returned in the meantime:
    [write_after_deactivate] is such a run. *)

From S2P Require Import Prelude Bytes KernelError Virtio Lts.

(** ** The device and its threads *)

Inductive Op : Type :=
| Io (o : BlockOp)
| Flush
| IsReady
| ReadCount
| WriteCount
| Activate
| Deactivate.

Inductive Out : Type :=
| IoOut (o : BlockOut)
| FlushOut (r : Result unit)
| ReadyOut (ready : bool)
| CountOut (n : Z)
| UnitOut.

(** What a request answers when it fails: the buffer is as it was. *)
Definition refused (o : BlockOp) (e : KernelError) : Out :=
  IoOut (match o with BRead _ buffer => ORead (Err e) buffer | BWrite _ _ => OWrite (Err e) end).
(** What it answers when it has copied [copied]. *)
Definition served (o : BlockOp) (copied : bytes) : Out :=
  IoOut (match o with
         | BRead _ buffer => ORead (Ok (Z.of_nat (length buffer))) copied
         | BWrite _ data => OWrite (Ok (Z.of_nat (length data)))
         end).
Definition is_write (o : BlockOp) : bool := match o with BWrite _ _ => true | BRead _ _ => false end.

(** A call in flight.  [Locked], [Copying] and [Releasing] hold the guard of the
    storage; [copied] are the bytes already moved. *)
Inductive Phase : Type :=
| Called (op : Op)
| Waiting (o : BlockOp) (offset : Z)
| Locked (o : BlockOp) (offset : Z)
| Copying (o : BlockOp) (offset : Z) (copied : bytes)
| Releasing (o : BlockOp) (out : Out)
| Switching (ready : bool)
| Finished (out : Out).

Definition holds (p : Phase) : bool :=
  match p with Locked _ _ | Copying _ _ _ | Releasing _ _ => true | _ => false end.
Definition holds_write (p : Phase) : bool :=
  match p with Locked o _ | Copying o _ _ | Releasing o _ => is_write o | _ => false end.

Definition waits_to_write (p : Phase) : bool := match p with Waiting o _ => is_write o | _ => false end.

(** [RwLock::read] waits for the writer to leave, and for one that waits if the
    lock prefers writers; [RwLock::write] for everybody. *)
Definition may_lock {policy : LockPolicy} (ph : gmap nat Phase) (o : BlockOp) : Prop :=
  if is_write o then nobody holds ph else may_read holds_write waits_to_write ph.
Definition may_advance {policy : LockPolicy} (ph : gmap nat Phase) (p : Phase) : Prop :=
  match p with Waiting o _ => may_lock ph o | _ => True end.

#[export] Instance may_lock_dec {policy : LockPolicy} ph o : Decision (may_lock ph o).
Proof. unfold may_lock. destruct (is_write o); apply _. Defined.
#[export] Instance may_advance_dec {policy : LockPolicy} ph p : Decision (may_advance ph p).
Proof. destruct p; cbn; apply _. Defined.

Definition set_flags (d : VirtioBlock) (q ready : bool) : VirtioBlock :=
  mkBlock (b_config d) (set_ready (b_queue d) q) (storage d) ready (reads d) (writes d).
Definition put_byte (d : VirtioBlock) (at_ : nat) (b : Z) : VirtioBlock :=
  mkBlock (b_config d) (b_queue d) (lock_set (storage d) (<[at_ := b]> (content (storage d))))
    (b_ready d) (reads d) (writes d).
Definition count_request (d : VirtioBlock) (o : BlockOp) : VirtioBlock :=
  mkBlock (b_config d) (b_queue d) (storage d) (b_ready d)
    (if is_write o then reads d else wrap 64 (reads d + 1))
    (if is_write o then wrap 64 (writes d + 1) else writes d).

(** A request ends below 2^64. *)
Definition wf_op (op : Op) : Prop := match op with Io o => addressable o | _ => True end.

Section device.
Context {policy : LockPolicy} {prof : Profile}.

(** The next atomic action of a call in flight. *)
Definition advance (d : VirtioBlock) (p : Phase) : comp (VirtioBlock * Phase) :=
  match p with
  | Called (Io o) =>
      if negb (block_is_ready d) then Ret (d, Finished (refused o DeviceNotReady))
      else if is_write o && bc_read_only (b_config d) then Ret (d, Finished (refused o NotSupported))
      else offset ← mul_w 64 (op_sector o) 512; Ret (d, Waiting o offset)
  | Waiting o offset =>
      match lock (storage d) with
      | None => Ret (d, Finished (refused o ResourceBusy))
      | Some _ => Ret (d, Locked o offset)
      end
  | Locked o offset =>
      stop ← add_w 64 offset (Z.of_nat (length (op_bytes o)));
      if stop >? Z.of_nat (length (content (storage d)))
      then Ret (d, Releasing o (refused o InvalidArgument))
      else _ ← slice (content (storage d)) (Z.to_nat offset) (Z.to_nat stop);
           Ret (d, Copying o offset [])
  | Copying o offset copied =>
      let at_ := (Z.to_nat offset + length copied)%nat in
      match op_bytes o !! length copied, content (storage d) !! at_ with
      | None, _ => Ret (count_request d o, Releasing o (served o copied))
      | Some _, None => Panic
      | Some new, Some old =>
          if is_write o then Ret (put_byte d at_ new, Copying o offset (copied ++ [new]))
          else Ret (d, Copying o offset (copied ++ [old]))
      end
  | Releasing _ out => Ret (d, Finished out)
  | Called Flush => Ret (d, Finished (FlushOut (flush d)))
  | Called IsReady => Ret (d, Finished (ReadyOut (block_is_ready d)))
  | Called ReadCount => Ret (d, Finished (CountOut (read_count d)))
  | Called WriteCount => Ret (d, Finished (CountOut (write_count d)))
  | Called Activate => Ret (set_flags d true (b_ready d), Switching true)
  | Called Deactivate => Ret (set_flags d (q_ready (b_queue d)) false, Switching false)
  | Switching true => Ret (set_flags d (q_ready (b_queue d)) true, Finished UnitOut)
  | Switching false => Ret (set_flags d false (b_ready d), Finished UnitOut)
  | Finished out => Ret (d, Finished out)
  end.

#[export] Instance block_object : SharedObject VirtioBlock Phase Op Out := {|
  enter := Called;
  act := advance;
  outcome p := match p with Finished out => Some out | _ => None end;
  may_act := may_advance;
  may_act_dec := may_advance_dec |}.

(** The same calls as methods of [Virtio]. *)
Definition method (d : VirtioBlock) (op : Op) : comp (Out * VirtioBlock) :=
  match op with
  | Io o => '(r, d) ← block_step d o; Ret (IoOut r, d)
  | Flush => Ret (FlushOut (flush d), d)
  | IsReady => Ret (ReadyOut (block_is_ready d), d)
  | ReadCount => Ret (CountOut (read_count d), d)
  | WriteCount => Ret (CountOut (write_count d), d)
  | Activate => Ret (UnitOut, block_activate d)
  | Deactivate => Ret (UnitOut, block_deactivate d)
  end.

End device.

(** ** The disk and its threads *)

Record DiskState : Type := mkDisk {
  disk : Disk;
  active : bool;
  reads_done : Z;
  writes_done : Z }.

Inductive SpecPhase : Type :=
| Pending (op : Op)
| Entered (o : BlockOp)
| Responded (out : Out).

Section spec.
Context (size : Z) (read_only : bool).

(** A request on the disk, with its counters. *)
Definition disk_effect (m : DiskState) (o : BlockOp) : Out * DiskState :=
  let '(r, d) := disk_step size read_only (disk m) o in
  (IoOut r, mkDisk d (active m) (reads_done m + read_done r) (writes_done m + write_done r)).

(** The other calls. *)
Definition disk_call (m : DiskState) (op : Op) : Out * DiskState :=
  match op with
  | Io o => (refused o DeviceNotReady, m)
  | Flush => (FlushOut (if active m then Ok tt else Err DeviceNotReady), m)
  | IsReady => (ReadyOut (active m), m)
  | ReadCount => (CountOut (wrap 64 (reads_done m)), m)
  | WriteCount => (CountOut (wrap 64 (writes_done m)), m)
  | Activate => (UnitOut, mkDisk (disk m) true (reads_done m) (writes_done m))
  | Deactivate => (UnitOut, mkDisk (disk m) false (reads_done m) (writes_done m))
  end.

Inductive disk_conc : DiskState * gmap nat SpecPhase -> option (Event Op Out) ->
    DiskState * gmap nat SpecPhase -> Prop :=
| disk_invoke m ph t op :
    ph !! t = None -> disk_conc (m, ph) (Some (Invoke t op)) (m, <[t := Pending op]> ph)
| disk_admit m ph t o :
    ph !! t = Some (Pending (Io o)) -> active m = true ->
    disk_conc (m, ph) None (m, <[t := Entered o]> ph)
| disk_answer m ph t op :
    ph !! t = Some (Pending op) -> (forall o, op = Io o -> active m = false) ->
    disk_conc (m, ph) None ((disk_call m op).2, <[t := Responded (disk_call m op).1]> ph)
| disk_serve m ph t o :
    ph !! t = Some (Entered o) ->
    disk_conc (m, ph) None ((disk_effect m o).2, <[t := Responded (disk_effect m o).1]> ph)
| disk_return m ph t out :
    ph !! t = Some (Responded out) -> disk_conc (m, ph) (Some (Return t out)) (m, delete t ph).

(** ** The simulation *)

(** The storage a call in flight leaves behind if its guard is dropped now. *)
Definition in_progress (p : Phase) (dk : Disk) : Disk :=
  match p with
  | Copying (BWrite _ _) offset copied => disk_write dk offset copied
  | _ => dk
  end.

(** What an admitted request has read, or written, so far. *)
Definition copied_so_far (dk : Disk) (o : BlockOp) (copied : bytes) : Prop :=
  match o with
  | BRead sector buffer =>
      (length copied <= length buffer)%nat /\ copied = disk_read dk (sector * 512) (length copied)
  | BWrite _ data => exists rest, data = copied ++ rest
  end.

Definition admitted (o : BlockOp) (offset : Z) : Prop :=
  addressable o /\ offset = op_sector o * 512 /\ is_write o && read_only = false.

Definition phase_rel (m : DiskState) (p : Phase) (q : SpecPhase) : Prop :=
  match p, q with
  | Called op, Pending op' => op = op' /\ wf_op op
  | Waiting o offset, Entered o' | Locked o offset, Entered o' => o = o' /\ admitted o offset
  | Copying o offset copied, Entered o' =>
      o = o' /\ admitted o offset /\ offset + Z.of_nat (length (op_bytes o)) <= size /\
      copied_so_far (disk m) o copied
  | Releasing _ out, Responded out' => out = out'
  | Switching true, Pending op => op = Activate
  | Switching false, Responded out => out = UnitOut
  | Finished out, Responded out' => out = out'
  | _, _ => False
  end.

Record block_rel (x : VirtioBlock * gmap nat Phase) (y : DiskState * gmap nat SpecPhase) : Prop := {
  rel_config : bc_read_only (b_config x.1) = read_only;
  rel_healthy : poisoned (storage x.1) = false;
  rel_ready : b_ready x.1 = active y.1;
  rel_counts : block_counts x.1 (reads_done y.1) (writes_done y.1);
  rel_size : Z.of_nat (length (content (storage x.1))) = size;
  rel_phases : forall t, option_Forall2 (phase_rel y.1) (x.2 !! t) (y.2 !! t);
  rel_exclusive : forall t p, x.2 !! t = Some p -> holds_write p = true ->
    forall t' p', x.2 !! t' = Some p' -> holds p' = true -> t' = t;
  rel_held : forall t p, x.2 !! t = Some p -> holds p = true ->
    stores (in_progress p (disk y.1)) size (content (storage x.1));
  rel_free : map_Forall (fun _ p => holds_write p = false) x.2 ->
    stores (disk y.1) size (content (storage x.1)) }.

(** The calls of the other threads. *)
Definition others (f : Phase -> bool) (t : nat) (ph : gmap nat Phase) : Prop :=
  forall t' p', t' <> t -> ph !! t' = Some p' -> f p' = false.

Lemma holds_write_holds p : holds_write p = true -> holds p = true.
Proof. by destruct p. Qed.

Lemma phase_rel_disk m m' p q :
  disk m' = disk m \/ holds p = false -> phase_rel m p q -> phase_rel m' p q.
Proof.
  intros Hd. destruct p as [op | o off | o off | o off copied | o out | [] | out], q; try done.
  cbn. destruct Hd as [-> | Hd]; [done | discriminate Hd].
Qed.

(** While a call holds the guard no other writes, and while it writes no other
    holds it. *)
Lemma others_of_holder d ph m qs t p :
  block_rel (d, ph) (m, qs) -> ph !! t = Some p ->
  (holds p = true -> others holds_write t ph) /\ (holds_write p = true -> others holds t ph).
Proof.
  intros Hrel Hp. split; intros Hh t' p' Hne Hp'; apply not_true_is_false; intros Hh'; apply Hne.
  - symmetry. by eapply (rel_exclusive _ _ Hrel t' p' Hp' Hh' t p).
  - by eapply (rel_exclusive _ _ Hrel t p Hp Hh t' p').
Qed.

(** One call moves from [p] to [p'] and the device and the disk with it. *)
Lemma block_rel_update d ph m qs t p d' p' m' q' :
  block_rel (d, ph) (m, qs) -> ph !! t = Some p ->
  bc_read_only (b_config d') = read_only -> poisoned (storage d') = false -> b_ready d' = active m' ->
  block_counts d' (reads_done m') (writes_done m') ->
  Z.of_nat (length (content (storage d'))) = size ->
  phase_rel m' p' q' ->
  (disk m' = disk m /\ content (storage d') = content (storage d)) \/ holds_write p = true ->
  (holds p' = true -> others holds_write t ph) -> (holds_write p' = true -> others holds t ph) ->
  (holds p' = true -> stores (in_progress p' (disk m')) size (content (storage d'))) ->
  (holds_write p' = false -> others holds_write t ph -> stores (disk m') size (content (storage d'))) ->
  block_rel (d', <[t := p']> ph) (m', <[t := q']> qs).
Proof.
  intros Hrel Hp Hro Hh Hrd Hc Hsz Hq Hsame Hoh How Hst Hfree.
  pose proof (others_of_holder _ _ _ _ _ _ Hrel Hp) as [_ Halone].
  split; cbn [fst snd]; try done.
  - intros j. destruct (decide (t = j)) as [<- | Hj]; [rewrite !lookup_insert_eq; by constructor |].
    rewrite !lookup_insert_ne by done. pose proof (rel_phases _ _ Hrel j) as Hpj. cbn in Hpj.
    inversion Hpj as [p1 q1 Hr H1 H2 | H1 H2]; constructor.
    apply (phase_rel_disk m m'); [| done]. destruct Hsame as [[? _] | Hw]; [by left | right].
    by eapply (Halone Hw j p1).
  - intros t1 p1 H1 Hw t2 p2 H2 Hh2.
    destruct (decide (t1 = t)) as [-> | Hn1], (decide (t2 = t)) as [-> | Hn2]; try done;
      rewrite ?lookup_insert_eq, ?lookup_insert_ne in * by done; simplify_eq.
    + by rewrite (How Hw t2 p2) in Hh2.
    + by rewrite (Hoh Hh2 t1 p1) in Hw.
    + by eapply (rel_exclusive _ _ Hrel).
  - intros t1 p1 H1 Hh1. destruct (decide (t1 = t)) as [-> | Hn1];
      rewrite ?lookup_insert_eq, ?lookup_insert_ne in H1 by done; [simplify_eq; by apply Hst |].
    destruct Hsame as [[-> ->] | Hw]; [by eapply (rel_held _ _ Hrel) |].
    by rewrite (Halone Hw t1 p1) in Hh1.
  - intros Hall. apply Hfree; [by apply (Hall t), lookup_insert_eq |].
    intros t1 p1 Hn1 H1. apply (Hall t1). by rewrite lookup_insert_ne.
Qed.

Lemma stores_free d ph m qs t p :
  block_rel (d, ph) (m, qs) -> ph !! t = Some p -> holds_write p = false -> others holds_write t ph ->
  stores (disk m) size (content (storage d)).
Proof.
  intros Hrel Hp Hw Ho. apply (rel_free _ _ Hrel). intros t' p' Hp'. cbn in Hp'.
  destruct (decide (t' = t)) as [-> | Hne]; [by simplify_eq | by eapply Ho].
Qed.

(** The same when neither the storage nor the guard changes hands. *)
Lemma block_rel_move d ph m qs t p d' p' m' q' :
  block_rel (d, ph) (m, qs) -> ph !! t = Some p ->
  b_config d' = b_config d -> storage d' = storage d -> disk m' = disk m ->
  b_ready d' = active m' -> block_counts d' (reads_done m') (writes_done m') ->
  holds p' = holds p -> holds_write p' = holds_write p ->
  (forall st, stores (in_progress p (disk m)) size st -> stores (in_progress p' (disk m)) size st) ->
  phase_rel m' p' q' ->
  block_rel (d', <[t := p']> ph) (m', <[t := q']> qs).
Proof.
  intros Hrel Hp Hcf Hst Hdk Hrd Hc Hh Hw Hpr Hq.
  pose proof (others_of_holder _ _ _ _ _ _ Hrel Hp) as [Ho1 Ho2].
  eapply block_rel_update; try done; rewrite ?Hcf, ?Hst, ?Hh, ?Hw, ?Hdk; try done; try apply Hrel.
  - by left.
  - intros Hp1. by apply Hpr, (rel_held _ _ Hrel t p).
  - by eapply stores_free.
Qed.

Lemma catches_up_admit m o : active m = true -> catches_up disk_conc m (Pending (Io o)) m (Entered o).
Proof. intros Ha t qs Ht. apply (run_one _ _ None). by apply disk_admit. Qed.

Lemma catches_up_answer m op out m' :
  (forall o, op = Io o -> active m = false) -> disk_call m op = (out, m') ->
  catches_up disk_conc m (Pending op) m' (Responded out).
Proof.
  intros Ha Hc t qs Ht. apply (run_one _ _ None).
  pose proof (disk_answer m qs t op Ht Ha) as H. by rewrite Hc in H.
Qed.

Lemma catches_up_serve m o out m' :
  disk_effect m o = (out, m') -> catches_up disk_conc m (Entered o) m' (Responded out).
Proof.
  intros Hc t qs Ht. apply (run_one _ _ None).
  pose proof (disk_serve m qs t o Ht) as H. by rewrite Hc in H.
Qed.

Lemma block_rel_invoke d ph m qs t op :
  block_rel (d, ph) (m, qs) -> ph !! t = None -> wf_op op ->
  block_rel (d, <[t := Called op]> ph) (m, <[t := Pending op]> qs).
Proof.
  intros Hrel Hnone Hwf. split; cbn [fst snd]; try apply Hrel.
  - by apply phases_insert; [| apply Hrel].
  - intros t1 p1 H1 Hw t2 p2 H2 Hh.
    destruct (decide (t1 = t)) as [-> | H1']; [rewrite lookup_insert_eq in H1; by simplify_eq |].
    destruct (decide (t2 = t)) as [-> | H2']; [rewrite lookup_insert_eq in H2; by simplify_eq |].
    rewrite lookup_insert_ne in H1, H2 by done. by eapply (rel_exclusive _ _ Hrel).
  - intros t1 p1 H1 Hh.
    destruct (decide (t1 = t)) as [-> | H1']; [rewrite lookup_insert_eq in H1; by simplify_eq |].
    rewrite lookup_insert_ne in H1 by done. by eapply (rel_held _ _ Hrel).
  - intros Hall. apply (rel_free _ _ Hrel). by apply map_Forall_insert_1_2 in Hall.
Qed.

Lemma block_rel_return d ph m qs t out :
  block_rel (d, ph) (m, qs) -> ph !! t = Some (Finished out) ->
  block_rel (d, delete t ph) (m, delete t qs).
Proof.
  intros Hrel Hp. split; cbn [fst snd]; try apply Hrel.
  - by apply phases_delete; apply Hrel.
  - intros t1 p1 [_ H1]%lookup_delete_Some Hw t2 p2 [_ H2]%lookup_delete_Some Hh.
    by eapply (rel_exclusive _ _ Hrel).
  - intros t1 p1 [_ H1]%lookup_delete_Some Hh. by eapply (rel_held _ _ Hrel).
  - intros Hall. apply (rel_free _ _ Hrel). intros t1 p1 H1.
    destruct (decide (t1 = t)) as [-> | Hne]; [cbn in H1; by simplify_eq |].
    apply (Hall t1). by rewrite lookup_delete_ne.
Qed.

(** ** Each action *)

Lemma stores_ext dk dk' st : (forall a, dk' a = dk a) -> stores dk size st -> stores dk' size st.
Proof. intros Heq [Hlen Hst]. split; [done |]. intros i Hi. rewrite Heq. by apply Hst. Qed.

Lemma disk_write_nil dk offset a : disk_write dk offset [] a = dk a.
Proof. unfold disk_write. by destruct (_ <=? _). Qed.

Context {policy : LockPolicy} {prof : Profile}.

Lemma failed_effect m o e :
  disk_step size read_only (disk m) o =
    (match o with BRead _ buffer => ORead (Err e) buffer | BWrite _ _ => OWrite (Err e) end, disk m) ->
  disk_effect m o = (refused o e, m).
Proof.
  unfold disk_effect. intros ->. destruct o; cbn [read_done write_done];
    rewrite !Z.add_0_r; by destruct m.
Qed.

(** The action happens, and the disk catches up with it. *)
Definition advances d ph m qs t p q : Prop :=
  exists d' p' m' q', advance d p = Ret (d', p') /\
    block_rel (d', <[t := p']> ph) (m', <[t := q']> qs) /\ catches_up disk_conc m q m' q'.

Lemma advances_request d ph m qs t o :
  block_rel (d, ph) (m, qs) -> ph !! t = Some (Called (Io o)) -> addressable o ->
  advances d ph m qs t (Called (Io o)) (Pending (Io o)).
Proof.
  intros Hrel Hp Ha. pose proof (rel_ready _ _ Hrel) as Hrd. cbn in Hrd.
  unfold advances; cbn [advance]. unfold block_is_ready. rewrite Hrd.
  destruct (active m) eqn:Hact; cbn [negb].
  2:{ exists d, (Finished (refused o DeviceNotReady)), m, (Responded (refused o DeviceNotReady)).
      split; [done |]. split; [by eapply block_rel_move; try apply Hrel |].
      by apply catches_up_answer. }
  pose proof (rel_config _ _ Hrel) as Hro. cbn in Hro. rewrite Hro.
  destruct (is_write o && read_only) eqn:Hw.
  - exists d, (Finished (refused o NotSupported)), m, (Responded (refused o NotSupported)).
    split; [done |]. split; [by eapply block_rel_move; try apply Hrel |].
    apply (catches_up_trans _ _ _ m (Entered o)); [by apply catches_up_admit |].
    apply catches_up_serve. apply andb_true_iff in Hw as [Hw Htrue]. destruct o as [| sector data]; [done |].
    apply failed_effect. cbn. by rewrite Htrue.
  - destruct Ha as [H0 Ha]. unfold mul_w. rewrite checked_in, bind_ret by (unfold uint; lia).
    exists d, (Waiting o (op_sector o * 512)), m, (Entered o). split; [done |].
    split; [| by apply catches_up_admit].
    eapply block_rel_move; try done; try apply Hrel.
Qed.

Lemma advances_lock d ph m qs t o offset :
  block_rel (d, ph) (m, qs) -> ph !! t = Some (Waiting o offset) -> may_lock ph o ->
  admitted o offset -> advances d ph m qs t (Waiting o offset) (Entered o).
Proof.
  intros Hrel Hp Hmay Ha. unfold advances; cbn [advance]. rewrite lock_healthy by apply Hrel.
  exists d, (Locked o offset), m, (Entered o). split; [done |]. split; [| apply catches_up_stutter].
  assert (Hnw : others holds_write t ph).
  { intros t' p' _ Hp'. unfold may_lock in Hmay. destruct (is_write o).
    - pose proof (Hmay t' p' Hp') as Hm. cbn in Hm.
      apply not_true_is_false. intros Hw%holds_write_holds. congruence.
    - exact (proj1 Hmay t' p' Hp'). }
  eapply block_rel_update; try done; try apply Hrel.
  - by left.
  - intros Hw t' p' _ Hp'. unfold may_lock in Hmay. cbn in Hw. rewrite Hw in Hmay. exact (Hmay t' p' Hp').
  - intros _. by eapply stores_free.
  - intros _ _. by eapply stores_free.
Qed.

Lemma advances_bounds d ph m qs t o offset :
  block_rel (d, ph) (m, qs) -> ph !! t = Some (Locked o offset) -> admitted o offset ->
  advances d ph m qs t (Locked o offset) (Entered o).
Proof.
  intros Hrel Hp ([H0 Ha] & -> & Hw). unfold advances; cbn [advance]. unfold add_w.
  rewrite checked_in, bind_ret by (unfold uint; lia).
  pose proof (rel_size _ _ Hrel) as Hsz. cbn in Hsz. rewrite Hsz.
  destruct (Z.gtb_spec (op_sector o * 512 + Z.of_nat (length (op_bytes o))) size) as [Hgt | Hle].
  - exists d, (Releasing o (refused o InvalidArgument)), m, (Responded (refused o InvalidArgument)).
    split; [done |]. split; [by eapply block_rel_move; try apply Hrel |].
    apply catches_up_serve, failed_effect.
    destruct o as [sector buffer | sector data]; cbn [op_sector op_bytes is_write disk_step andb] in *;
      rewrite ?Hw, (proj2 (Z.leb_gt _ _)) by lia; done.
  - rewrite slice_ok, bind_ret by lia.
    exists d, (Copying o (op_sector o * 512) []), m, (Entered o). split; [done |].
    split; [| apply catches_up_stutter].
    eapply block_rel_move; try done; try apply Hrel.
    + intros st. destruct o; [done |]. apply stores_ext. intros a. apply disk_write_nil.
    + split; [done |]. split; [by split |]. split; [lia |]. destruct o; cbn; [by split; [lia |] | by eexists].
Qed.

Lemma stores_put dk offset copied b st :
  0 <= offset -> (Z.to_nat offset + length copied < length st)%nat ->
  stores (disk_write dk offset copied) size st ->
  stores (disk_write dk offset (copied ++ [b])) size (<[(Z.to_nat offset + length copied)%nat := b]> st).
Proof.
  intros H0 Hlt [Hlen Hst]. split; [by rewrite length_insert |].
  intros i Hi. rewrite length_insert in Hi. specialize (Hst i Hi). unfold disk_write in *.
  destruct (decide (i = Z.to_nat offset + length copied)%nat) as [-> | Hne].
  - rewrite list_lookup_insert_eq by done. destruct (Z.leb_spec offset (Z.of_nat (Z.to_nat offset + length copied))); [| lia].
    replace (Z.to_nat (_ - offset)) with (length copied) by lia. by rewrite list_lookup_middle.
  - rewrite list_lookup_insert_ne, Hst by done. destruct (Z.leb_spec offset (Z.of_nat i)); [| done].
    destruct (decide (Z.to_nat (Z.of_nat i - offset) < length copied)%nat).
    + by rewrite lookup_app_l by lia.
    + rewrite (lookup_ge_None_2 copied), (lookup_ge_None_2 (copied ++ [b])); [done | | lia].
      rewrite length_app; cbn. lia.
Qed.

Lemma disk_read_snoc dk offset n :
  disk_read dk offset (S n) = disk_read dk offset n ++ [dk (offset + Z.of_nat n)].
Proof. unfold disk_read. by rewrite seq_S, fmap_app. Qed.

Lemma count_request_counts d o r w :
  block_counts d r w ->
  block_counts (count_request d o) (r + if is_write o then 0 else 1) (w + if is_write o then 1 else 0).
Proof.
  unfold block_counts, read_count, write_count. intros [Hr Hw].
  destruct o; cbn [count_request reads writes is_write];
    rewrite ?Hr, ?Hw, ?wrap_add_wrap, ?Z.add_0_r; done.
Qed.

Lemma block_advances_read d ph m qs t sector buffer copied :
  let o := BRead sector buffer in
  block_rel (d, ph) (m, qs) -> ph !! t = Some (Copying o (sector * 512) copied) -> admitted o (sector * 512) ->
  sector * 512 + Z.of_nat (length buffer) <= size -> copied_so_far (disk m) o copied ->
  advances d ph m qs t (Copying o (sector * 512) copied) (Entered o).
Proof.
  intros o Hrel Hp Ha Hle [Hk Hcp]. pose proof Ha as [[H0 _] _]. cbn [op_sector o] in H0.
  pose proof (rel_held _ _ Hrel t _ Hp eq_refl) as [Hlen Hst]. cbn [fst snd in_progress o] in Hlen, Hst.
  unfold advances; cbn [advance op_bytes is_write o]. destruct (buffer !! length copied) as [b |] eqn:Hb.
  - apply lookup_lt_Some in Hb. rewrite Hst by lia. cbv zeta.
    do 4 eexists. split; [done |]. split; [| apply catches_up_stutter].
    eapply block_rel_move; try done; try apply Hrel.
    split; [done |]. split; [done |]. split; [done |]. cbn. rewrite length_app; cbn. split; [lia |].
    rewrite Nat.add_1_r, disk_read_snoc, <- Hcp. do 3 f_equal. lia.
  - apply lookup_ge_None in Hb. assert (Heq : length copied = length buffer) by lia.
    rewrite Heq in Hcp. eexists _, _, _, _. split; [done |].
    split; [| apply catches_up_serve; unfold disk_effect; cbn [disk_step o];
              by rewrite (proj2 (Z.leb_le _ _)) by lia].
    eapply block_rel_move; try done; try apply Hrel.
    + apply (count_request_counts d o _ _ (rel_counts _ _ Hrel)).
    + unfold served; cbn. by rewrite Hcp.
Qed.

Lemma block_advances_write d ph m qs t sector data copied :
  let o := BWrite sector data in
  block_rel (d, ph) (m, qs) -> ph !! t = Some (Copying o (sector * 512) copied) -> admitted o (sector * 512) ->
  sector * 512 + Z.of_nat (length data) <= size -> copied_so_far (disk m) o copied ->
  advances d ph m qs t (Copying o (sector * 512) copied) (Entered o).
Proof.
  intros o Hrel Hp Ha Hle [rest Hcp]. pose proof Ha as [[H0 _] [_ Hro]].
  cbn [op_sector is_write o andb] in H0, Hro.
  pose proof (rel_held _ _ Hrel t _ Hp eq_refl) as Hst. cbn [fst snd in_progress o] in Hst.
  pose proof (rel_size _ _ Hrel) as Hsz. cbn [fst] in Hsz.
  pose proof (others_of_holder _ _ _ _ _ _ Hrel Hp) as [Ho1 Ho2].
  unfold advances; cbn [advance op_bytes is_write o]. destruct rest as [| b rest].
  - rewrite app_nil_r in Hcp. subst data. rewrite (lookup_ge_None_2 copied) by done.
    eexists _, _, _, _. split; [done |].
    split; [| apply catches_up_serve; unfold disk_effect; cbn [disk_step o];
              by rewrite Hro, (proj2 (Z.leb_le _ _)) by lia].
    eapply block_rel_update; try done; try apply Hrel; try by right.
    apply (count_request_counts d o _ _ (rel_counts _ _ Hrel)).
  - subst data. rewrite length_app in Hle. cbn [length] in Hle.
    rewrite list_lookup_middle by done. cbv zeta.
    destruct (lookup_lt_is_Some_2 (content (storage d)) (Z.to_nat (sector * 512) + length copied)) as [old ->]; [lia |].
    eexists _, _, _, _. split; [done |]. split; [| apply catches_up_stutter].
    eapply block_rel_update; try done; try apply Hrel; try by right.
    + by rewrite <- Hsz; cbn; rewrite length_insert.
    + split; [done |]. split; [done |]. split; [cbn; rewrite length_app; cbn; lia |].
      exists rest. by rewrite <- app_assoc.
    + intros _. by apply stores_put; [lia | lia |].
Qed.

Lemma advances_answer d ph m qs t op out :
  block_rel (d, ph) (m, qs) -> ph !! t = Some (Called op) -> (forall o, op <> Io o) ->
  advance d (Called op) = Ret (d, Finished out) -> disk_call m op = (out, m) ->
  advances d ph m qs t (Called op) (Pending op).
Proof.
  intros Hrel Hp Hop Hadv Hcall. exists d, (Finished out), m, (Responded out). split; [done |].
  split; [by eapply block_rel_move; try apply Hrel |].
  apply catches_up_answer; [| done]. intros o Ho. by destruct (Hop o).
Qed.

(** [activate] takes effect with its second store, [deactivate] with its first. *)
Lemma advances_switch d ph m qs t p q :
  block_rel (d, ph) (m, qs) -> ph !! t = Some p -> phase_rel m p q ->
  p = Called Activate \/ p = Called Deactivate \/ (exists ready, p = Switching ready) ->
  advances d ph m qs t p q.
Proof.
  intros Hrel Hp Hpq Hcase. pose proof (rel_counts _ _ Hrel) as Hc.
  destruct Hcase as [-> | [-> | [ready ->]]]; [| | destruct ready]; destruct q; try done; cbn in Hpq;
    destruct_and?; simplify_eq; unfold advances; cbn [advance]; eexists _, _, _, _; (split; [done |]).
  - split; [| apply catches_up_stutter]. by eapply block_rel_move; try apply Hrel.
  - split; [| by apply (catches_up_answer m Deactivate)]. by eapply block_rel_move; try apply Hrel.
  - split; [| by apply (catches_up_answer m Activate)]. by eapply block_rel_move; try apply Hrel.
  - split; [| apply catches_up_stutter]. by eapply block_rel_move; try apply Hrel.
Qed.

(** Whatever the phase, an action that may happen happens, and the disk catches up. *)
Lemma block_advance_simulates d ph m qs t p :
  block_rel (d, ph) (m, qs) -> ph !! t = Some p -> outcome p = None -> may_advance ph p ->
  exists q, qs !! t = Some q /\ advances d ph m qs t p q.
Proof.
  intros Hrel Hp Hout Hmay. pose proof (rel_phases _ _ Hrel t) as Ht. cbn in Ht.
  rewrite Hp in Ht. inversion Ht as [? q Hpq Hp0 Hq |]. exists q. split; [done |].
  pose proof (rel_ready _ _ Hrel) as Hrd. pose proof (rel_counts _ _ Hrel) as [Hr Hw].
  cbn [fst snd] in Hrd, Hr, Hw.
  destruct p as [op | o off | o off | o off copied | o out | ready | out]; try done.
  - destruct q as [op' | |]; try done. destruct Hpq as [<- Hwf]. destruct op as [o | | | | | |].
    + by apply advances_request.
    + eapply advances_answer; try done. cbn. unfold flush, block_is_ready.
      rewrite Hrd. by destruct (active m).
    + eapply advances_answer; try done. cbn. unfold block_is_ready. by rewrite Hrd.
    + eapply advances_answer; try done. cbn. by rewrite Hr.
    + eapply advances_answer; try done. cbn. by rewrite Hw.
    + apply advances_switch; by eauto.
    + apply advances_switch; by eauto.
  - destruct q as [| o' |]; try done. destruct Hpq as [<- Ha]. by apply advances_lock.
  - destruct q as [| o' |]; try done. destruct Hpq as [<- Ha]. by apply advances_bounds.
  - destruct q as [| o' |]; try done. destruct Hpq as (<- & Ha & Hle & Hc). pose proof Ha as (_ & -> & _).
    destruct o; [by apply block_advances_read | by apply block_advances_write].
  - destruct q as [| | out']; try done. cbn in Hpq; subst out'.
    exists d, (Finished out), m, (Responded out). split; [done |].
    split; [| apply catches_up_stutter].
    eapply block_rel_update; try done; try apply Hrel.
    + by left.
    + intros _ Ho. destruct (is_write o) eqn:Hwr; [by apply (rel_held _ _ Hrel t _ Hp eq_refl) |].
      by eapply stores_free.
  - apply advances_switch; by eauto.
Qed.

(** Every step of the threads on the device is matched on the disk, with the same label. *)
Lemma block_conc_step_simulates x l x' y :
  block_rel x y -> Forall (calls wf_op) (option_list l) -> conc_step x l x' ->
  exists y', run disk_conc y (option_list l) y' /\ block_rel x' y'.
Proof.
  destruct y as [m qs]. intros Hrel Hok Hstep.
  destruct Hstep as [d ph t op Hnone | d ph t p d' p' Hp Hout Hmay Hadv | d ph t p out Hp Hout].
  - exists (m, <[t := Pending op]> qs). split; [| by apply block_rel_invoke; [| | by inversion Hok]].
    apply run_one, disk_invoke. pose proof (rel_phases _ _ Hrel t) as Ht. cbn in Ht.
    rewrite Hnone in Ht. by inversion Ht.
  - destruct (block_advance_simulates _ _ _ _ _ _ Hrel Hp Hout Hmay)
      as (q & Hq & d1 & p1 & m' & q' & Hadv1 & Hrel' & Hcatch).
    cbn in Hadv. rewrite Hadv in Hadv1. injection Hadv1 as <- <-.
    exists (m', <[t := q']> qs). split; [by apply Hcatch | done].
  - pose proof (rel_phases _ _ Hrel t) as Ht. cbn in Ht. rewrite Hp in Ht.
    inversion Ht as [? q Hpq Hp0 Hq |]. destruct p; try done. injection Hout as ->.
    destruct q as [| | out']; try done. cbn in Hpq; subst out'.
    exists (m, delete t qs). split; [by apply run_one; constructor | by eapply block_rel_return].
Qed.

(** ** No deadlock, and every call returns *)

(** As long as a call is in flight, one of them can move. *)
Lemma moves_on d ph m qs : block_rel (d, ph) (m, qs) -> ph <> ∅ -> exists x', moves (d, ph) x'.
Proof.
  intros Hrel Hne.
  assert (Hact : forall t p, ph !! t = Some p -> may_advance ph p -> exists x', moves (d, ph) x').
  { intros t p Hp Hmay. destruct (outcome p) as [out |] eqn:Hout; [eexists; by eapply moves_return |].
    destruct (block_advance_simulates _ _ _ _ _ _ Hrel Hp Hout Hmay) as (q & _ & d' & p' & _ & _ & Hadv & _).
    eexists. by eapply moves_act. }
  destruct (decide (nobody holds ph)) as [Hfree | (t & p & Hp & Hh)%somebody];
    [| by eapply (Hact t p); destruct p].
  destruct (decide (nobody waits_to_write ph)) as [Hw | (t & p & Hp & Hh)%somebody].
  2:{ apply (Hact t p Hp). destruct p as [| o off | | | | |]; try done. cbn in *. unfold may_lock. by rewrite Hh. }
  destruct (map_choose _ Hne) as (t & p & Hp). apply (Hact t p Hp). destruct p as [| o off | | | | |]; try done.
  cbn. unfold may_lock. destruct (is_write o); [done |]. split; [| done]. intros t' p' Hp'.
  apply not_true_is_false. intros Hh%holds_write_holds. pose proof (Hfree t' p' Hp') as Hn. cbn in Hn. congruence.
Qed.

(** A step that starts no call stays in the simulation. *)
Lemma block_moves_rel x x' : (exists y, block_rel x y) -> moves x x' -> exists y, block_rel x' y.
Proof.
  intros [y Hrel] (l & Hstep & Hl).
  destruct (block_conc_step_simulates x l x' y Hrel) as (y' & _ & H); [| done | by eauto].
  destruct l as [[t op | t out] |]; [by destruct (Hl t op) | ..]; by repeat constructor.
Qed.

(** The actions a call has before it, its return included. *)
Definition work (p : Phase) : nat :=
  match p with
  | Called (Io o) => 6 + length (op_bytes o)
  | Called _ => 3
  | Waiting o _ => 5 + length (op_bytes o)
  | Locked o _ => 4 + length (op_bytes o)
  | Copying o _ copied => 3 + (length (op_bytes o) - length copied)
  | Releasing _ _ | Switching _ => 2
  | Finished _ => 1
  end.

Lemma advance_work d p d' p' : outcome p = None -> advance d p = Ret (d', p') -> (work p' < work p)%nat.
Proof.
  intros Hout Hadv. destruct p as [[o | | | | | |] | o off | o off | o off copied | o out | [] | out];
    try done; cbn [advance] in Hadv; simplify_eq; cbn; try lia.
  - repeat case_match; simplify_eq; cbn; try lia.
    apply bind_ret_inv in Hadv as (? & _ & [= <- <-]). cbn. lia.
  - case_match; simplify_eq; cbn; lia.
  - apply bind_ret_inv in Hadv as (stop & _ & Hadv). case_match; simplify_eq; cbn; [lia |].
    apply bind_ret_inv in Hadv as (? & _ & [= <- <-]). cbn. lia.
  - destruct (op_bytes o !! length copied) eqn:Hb; [| simplify_eq; cbn; lia].
    apply lookup_lt_Some in Hb. repeat case_match; simplify_eq; cbn; rewrite length_app; cbn; lia.
Qed.

Lemma block_moves_work n x x' : nsteps moves n x x' -> (n + total work x'.2 <= total work x.2)%nat.
Proof.
  apply (moves_work (fun _ => True) work); [done | | | done].
  - intros d ph t p d' p' _ _. apply advance_work.
  - intros p out. destruct p; cbn; [done.. | lia].
Qed.

(** ** One call at a time *)

Lemma block_finished_alone fuel d out : run_alone fuel d (Finished out) = Ret (out, d).
Proof. by apply run_alone_finished. Qed.

Lemma released_alone fuel d o out : (0 < fuel)%nat -> run_alone fuel d (Releasing o out) = Ret (out, d).
Proof. intros Hf. destruct fuel; [lia |]. rewrite run_alone_step by done. apply block_finished_alone. Qed.

Definition set_content (d : VirtioBlock) (st : bytes) : VirtioBlock :=
  mkBlock (b_config d) (b_queue d) (lock_set (storage d) st) (b_ready d) (reads d) (writes d).

Lemma read_alone n : forall fuel d sector buffer offset copied,
  (n + 1 < fuel)%nat -> length buffer = (length copied + n)%nat ->
  (Z.to_nat offset + length buffer <= length (content (storage d)))%nat ->
  copied = take (length copied) (drop (Z.to_nat offset) (content (storage d))) ->
  run_alone fuel d (Copying (BRead sector buffer) offset copied) =
  Ret (served (BRead sector buffer) (take (length buffer) (drop (Z.to_nat offset) (content (storage d)))),
       count_request d (BRead sector buffer)).
Proof.
  induction n as [| n IH]; intros fuel d sector buffer offset copied Hf Hlen Hle Hc;
    (destruct fuel as [| fuel]; [lia |]); rewrite run_alone_step by done;
    cbn [act block_object advance op_bytes is_write].
  - rewrite (lookup_ge_None_2 buffer), bind_ret, released_alone by lia.
    rewrite Hlen, Nat.add_0_r. by rewrite <- Hc.
  - destruct (lookup_lt_is_Some_2 buffer (length copied)) as [b ->]; [lia |].
    destruct (lookup_lt_is_Some_2 (content (storage d)) (Z.to_nat offset + length copied)) as [old Hold]; [lia |].
    rewrite Hold, bind_ret. apply IH; rewrite ?length_app; cbn [length]; try lia.
    rewrite Nat.add_1_r. rewrite (take_S_r _ _ old) by (by rewrite lookup_drop). by rewrite <- Hc.
Qed.

Lemma write_alone rest : forall fuel d sector data offset copied,
  (length rest + 1 < fuel)%nat -> data = copied ++ rest ->
  (Z.to_nat offset + length data <= length (content (storage d)))%nat ->
  run_alone fuel d (Copying (BWrite sector data) offset copied) =
  Ret (served (BWrite sector data) data,
       count_request (set_content d (take (Z.to_nat offset + length copied) (content (storage d)) ++ rest ++
         drop (Z.to_nat offset + length data) (content (storage d)))) (BWrite sector data)).
Proof.
  induction rest as [| b rest IH]; intros fuel d sector data offset copied Hf -> Hle;
    (destruct fuel as [| fuel]; [lia |]); rewrite run_alone_step by done;
    cbn [act block_object advance op_bytes is_write]; cbn [length] in Hf; rewrite length_app in *; cbn [length] in *.
  - rewrite (lookup_ge_None_2 (copied ++ [])) by (rewrite length_app; cbn; lia).
    rewrite bind_ret, released_alone by lia. rewrite Nat.add_0_r. cbn [app]. rewrite take_drop.
    unfold set_content, count_request; cbn. by destruct d as [? ? [? ?] ? ? ?].
  - rewrite list_lookup_middle by done.
    destruct (lookup_lt_is_Some_2 (content (storage d)) (Z.to_nat offset + length copied)) as [old Hold]; [lia |].
    rewrite Hold, bind_ret.
    rewrite (IH fuel (put_byte d (Z.to_nat offset + length copied) b)); [| lia | by rewrite <- app_assoc |];
      unfold put_byte; cbn [storage lock_set content]; rewrite ?length_insert, ?length_app; cbn [length]; [| lia].
    unfold set_content, count_request; cbn. do 3 f_equal.
    rewrite Nat.add_1_r, Nat.add_succ_r, (take_S_r _ _ b) by (apply list_lookup_insert_eq; lia).
    rewrite take_insert_ge, <- app_assoc by lia. cbn [app]. do 3 f_equal.
    rewrite drop_insert_lt by lia. done.
Qed.

Lemma request_alone d o fuel :
  poisoned (storage d) = false -> addressable o -> (6 + length (op_bytes o) <= fuel)%nat ->
  run_alone fuel d (Called (Io o)) = method d (Io o).
Proof.
  intros Hh [H0 Ha] Hf. destruct fuel as [| [| [| fuel]]]; [lia.. |].
  rewrite run_alone_step by done. cbn [act block_object advance method].
  destruct o as [sector buffer | sector data]; cbn [block_step is_write andb op_bytes op_sector] in *;
    [unfold read | unfold write]; destruct (block_is_ready d); cbn [negb];
    try (rewrite !bind_ret; apply block_finished_alone);
    [| destruct (bc_read_only (b_config d)); [rewrite !bind_ret; apply block_finished_alone |]];
    unfold mul_w, add_w; rewrite checked_in, !bind_ret by (unfold uint; lia); rewrite lock_healthy by done;
    rewrite run_alone_step by done; cbn [act block_object advance]; rewrite lock_healthy, bind_ret by done;
    rewrite run_alone_step by done; cbn [act block_object advance op_bytes]; unfold add_w;
    rewrite checked_in, !bind_ret by (unfold uint; lia);
    (match goal with |- context [?a >? ?b] => destruct (Z.gtb_spec a b) end;
     [rewrite !bind_ret, released_alone by lia; done |]);
    rewrite slice_ok, !bind_ret by lia.
  - rewrite (read_alone (length buffer)) by (cbn; done || lia).
    rewrite copy_from_slice_ok by (rewrite ?length_take, ?length_drop; lia).
    rewrite !bind_ret, take_0, drop_all, app_nil_r. cbn [app].
    replace (Z.to_nat _ - Z.to_nat _)%nat with (length buffer) by lia. done.
  - rewrite (write_alone data) by (cbn; done || lia).
    rewrite copy_from_slice_ok by lia. rewrite !bind_ret. cbn [length]. rewrite Nat.add_0_r.
    by rewrite Z2Nat.inj_add, Nat2Z.id by lia.
Qed.

(** A call that no other interleaves with is the method of [Virtio]. *)
Lemma block_run_alone_method d op fuel :
  poisoned (storage d) = false -> wf_op op -> (work (Called op) <= fuel)%nat ->
  run_alone fuel d (Called op) = method d op.
Proof.
  intros Hh Hwf Hf. destruct op as [o | | | | | |]; [by apply request_alone | ..]; cbn in Hf;
    (destruct fuel as [| [| fuel]]; [lia.. |]); rewrite run_alone_step by done;
    cbn [act block_object advance method]; rewrite bind_ret;
    [apply block_finished_alone.. | |]; rewrite run_alone_step by done;
    cbn [act block_object advance]; rewrite bind_ret; apply block_finished_alone.
Qed.

(** With no call in flight the methods return. *)
Lemma block_method_returns d m qs op :
  0 <= size < 2 ^ 64 -> block_rel (d, ∅) (m, qs) -> wf_op op -> exists out d', method d op = Ret (out, d').
Proof.
  intros Hsize Hrel Hwf. destruct op as [o | | | | | |]; cbn [method]; eauto.
  destruct (block_is_ready d) eqn:Hrd.
  - assert (Hp : presents (disk m) size read_only d).
    { split; [done |]. split; [apply Hrel |]. split; [apply Hrel |]. apply (rel_free _ _ Hrel). apply map_Forall_empty. }
    pose proof (block_step_spec _ _ _ d o _ _ Hp (rel_counts _ _ Hrel) Hsize Hwf) as H.
    destruct (disk_step _ _ _ _) as [r k]. destruct H as (d' & -> & _). by eauto.
  - destruct o as [sector buffer | sector data]; cbn [block_step]; unfold read, write; rewrite Hrd; cbn; by eauto.
Qed.

Lemma block_lone t p : may_act {[t := p]} p.
Proof.
  destruct p as [| o off | | | | |]; cbn; try done. unfold may_lock.
  destruct (is_write o) eqn:Ho; [by apply nobody_singleton |].
  split; [| intros _]; by apply nobody_singleton.
Qed.

(** A call made while no other is in flight. *)
Lemma block_call_alone d m qs t op :
  0 <= size < 2 ^ 64 -> block_rel (d, ∅) (m, qs) -> wf_op op ->
  exists out d2, method d op = Ret (out, d2) /\ run conc_step (d, ∅) [Invoke t op; Return t out] (d2, ∅).
Proof.
  intros Hsize Hrel Hwf. destruct (block_method_returns d m qs op) as (out & d2 & Hm); [done.. |].
  exists out, d2. split; [done |]. apply (call_alone_run (work (Called op))); [apply block_lone |].
  cbn [enter block_object]. rewrite block_run_alone_method; [done | apply Hrel | done | done].
Qed.

End spec.

Lemma block_rel_new {prof : Profile} config d :
  VirtioBlock_new config = Ret d -> 0 <= bc_capacity config -> bc_capacity config * 512 < 2 ^ 64 ->
  block_rel (bc_capacity config * 512) (bc_read_only config) (d, ∅) (mkDisk (fun _ => 0) false 0 0, ∅).
Proof.
  intros Hnew H0 Hc. destruct (block_new_presents config d Hnew H0 Hc) as (_ & Hro & Hh & Hst).
  pose proof (block_new_counts config d Hnew) as Hcounts.
  assert (Hready : b_ready d = false).
  { unfold VirtioBlock_new in Hnew. by apply bind_ret_inv in Hnew as (? & _ & (? & _ & [= <-])%bind_ret_inv). }
  split; cbn [fst snd]; try done; try apply Hst.
  intros t. rewrite !lookup_empty. constructor.
Qed.

(** ** Requests that end at or above 2^64 *)

(** The byte offset of a served request overflows, or its end under the guard.
    With overflow checks both panic, in the second case while the guard is held.
    Without, the request goes on at the offset modulo 2^64; a wrapped end lies
    before the offset, so that the bounds test refuses it or the slice panics. *)
Definition overflow_behaviour {prof : Profile} (d : VirtioBlock) (o : BlockOp) : Prop :=
  uint 64 (op_sector o) -> Z.of_nat (length (op_bytes o)) < 2 ^ 63 ->
  b_ready d = true -> is_write o && bc_read_only (b_config d) = false ->
  (2 ^ 64 <= op_sector o * 512 ->
     advance d (Called (Io o)) =
       if overflow_checks then Panic else Ret (d, Waiting o (op_sector o * 512 mod 2 ^ 64))) /\
  (forall offset, uint 64 offset -> 2 ^ 64 <= offset + Z.of_nat (length (op_bytes o)) ->
     holds (Locked o offset) = true /\
     (advance d (Locked o offset) = Panic \/
      overflow_checks = false /\ advance d (Locked o offset) = Ret (d, Releasing o (refused o InvalidArgument)))).

Lemma request_overflows {prof : Profile} d o : overflow_behaviour d o.
Proof.
  intros Hs Hl Hr Hro. split.
  - intros Hbig. cbn [advance]. unfold block_is_ready. rewrite Hr, Hro. cbn [negb].
    unfold mul_w. rewrite checked_out by (unfold uint; lia). by destruct overflow_checks.
  - intros offset Hoff Hbig. split; [done |]. cbn [advance]. unfold add_w.
    rewrite checked_out by (unfold uint; lia). destruct overflow_checks; [by left |]. rewrite bind_ret.
    assert (Hw : wrap 64 (offset + Z.of_nat (length (op_bytes o))) =
      offset + Z.of_nat (length (op_bytes o)) - 2 ^ 64).
    { unfold wrap. symmetry. apply (Z.mod_unique_pos _ _ 1); unfold uint in *; lia. }
    rewrite Hw. destruct (_ >? _); [by right |]. left. unfold slice. rewrite decide_False; [done |].
    unfold uint in *. lia.
Qed.

(** C15. Threads that share a block device see a disk, and no read sees half a
    write although copies go byte by byte: for every interleaving of the actions of
    any number of calls on a new device, requests that end below 2^64, flushes,
    counter reads, activations and deactivations, the calls and returns observed are
    those of a disk of zeros on which each request that found the device ready takes
    effect, counters included, at one instant before its return, and every other call
    at one instant.  No action panics.  The storage lock never deadlocks: while a call
    is in flight one of them can move, and without new calls all return within the
    sum of what each has before it, at most six actions and one per byte, whichever
    of readers and writers the lock prefers.  A call made while no other is in flight
    runs to its return and returns what the sequential method returns.  (A call
    suspended for ever with the guard does block the others.)

    A request that ends at or above 2^64 is not covered, and on a ready device breaks
    this: with overflow checks it panics, at the multiplication by 512 or, when only
    the end overflows, under the storage's guard; without them it is served at the
    sector modulo 2^55, and where the end wraps it is refused or panics under the
    guard. *)
Theorem shared_block_refines_disk (policy : LockPolicy) (prof : Profile) config d tr d' ph :
  0 <= bc_capacity config -> bc_capacity config * 512 < 2 ^ 64 ->
  VirtioBlock_new config = Ret d -> run conc_step (d, ∅) tr (d', ph) -> Forall (calls wf_op) tr ->
  ((exists y, run (disk_conc (bc_capacity config * 512) (bc_read_only config))
     (mkDisk (fun _ => 0) false 0 0, ∅) tr y) /\
   (forall t p, ph !! t = Some p -> outcome p = None -> may_advance ph p ->
      exists x, advance d' p = Ret x) /\
   (ph <> ∅ -> exists x', moves (d', ph) x') /\
   (forall n x', nsteps moves n (d', ph) x' -> (n + total work x'.2 <= total work ph)%nat) /\
   (exists d2, rtc moves (d', ph) (d2, ∅)) /\
   (ph = ∅ -> forall t op, wf_op op -> exists out d2,
      method d' op = Ret (out, d2) /\ run conc_step (d', ∅) [Invoke t op; Return t out] (d2, ∅))) /\
  (forall o, overflow_behaviour d' o).
Proof.
  intros H0 Hc Hnew Hrun Hok. split; [| intros o; apply request_overflows].
  set (size := bc_capacity config * 512). set (ro := bc_read_only config).
  destruct (forward_simulation conc_step (disk_conc size ro) (block_rel size ro) (calls wf_op))
    with (s1 := (d, ∅ : gmap nat Phase)) (tr := tr) (s1' := (d', ph))
      (s2 := (mkDisk (fun _ => 0) false 0 0, ∅ : gmap nat SpecPhase)) as ([m qs] & Hrun2 & Hrel);
    [intros; by eapply block_conc_step_simulates | by apply block_rel_new | done | done |].
  split; [by eauto |]. split.
  { intros t p Hp Hout Hmay.
    destruct (block_advance_simulates _ _ _ _ _ _ _ _ Hrel Hp Hout Hmay) as (? & _ & ? & ? & _ & _ & Hadv & _).
    by eexists. }
  split; [by eapply moves_on |]. split; [intros n x'; apply block_moves_work |]. split.
  - apply (moves_finish (fun x => exists y, block_rel size ro x y) work); [intros x x' | | | | by eauto].
    + apply block_moves_rel.
    + intros d1 ph1 t p d1' p' _ _. apply advance_work.
    + intros p out. destruct p; cbn; done || lia.
    + intros [d1 ph1] [[m1 qs1] H1]. by eapply moves_on.
  - intros -> t op. apply (block_call_alone size ro d' m qs); [unfold size; lia | done].
Qed.

(** ** Runs *)

#[local] Existing Instance dev.
#[local] Instance demo_policy : LockPolicy := false.
Definition demo_device : VirtioBlock :=
  mkBlock (mkBlockConfig 1 512 false) (with_size DEFAULT_QUEUE_SIZE) (lock_new (replicate 512 0)) false 0 0.

Definition activation : list (nat * option Op) :=
  [(0%nat, Some Activate); (0%nat, None); (0%nat, None); (0%nat, None)].
Definition act_n (t n : nat) : list (nat * option Op) := replicate n (t, None).

(** Thread 2 reads while thread 1 is in the middle of its write: it waits for the
    guard and reads the whole of it. *)
Definition overlap : list (nat * option Op) :=
  activation ++ [(1%nat, Some (Io (BWrite 0 [7; 8])))] ++ act_n 1 4 ++
  [(2%nat, Some (Io (BRead 0 [1; 1; 1])))] ++ act_n 2 1 ++ act_n 1 4 ++ act_n 2 8.
Definition overlap_trace : list (Event Op Out) :=
  [Invoke 0 Activate; Return 0 UnitOut; Invoke 1 (Io (BWrite 0 [7; 8]));
   Invoke 2 (Io (BRead 0 [1; 1; 1])); Return 1 (IoOut (OWrite (Ok 2)));
   Return 2 (IoOut (ORead (Ok 3) [7; 8; 0]))].

Example overlap_runs : option_map fst (conc_exec (demo_device, ∅) overlap) = Some overlap_trace.
Proof. vm_compute. reflexivity. Qed.

(** A write that saw the device ready lands after [deactivate] has returned. *)
Example write_after_deactivate :
  option_map (fun '(tr, (d, _)) => (tr, b_ready d, content (storage d) !! 0%nat))
    (conc_exec (demo_device, ∅)
      (activation ++ [(1%nat, Some (Io (BWrite 0 [7])))] ++ act_n 1 1 ++
       [(0%nat, Some Deactivate)] ++ act_n 0 3 ++ act_n 1 6)) =
  Some ([Invoke 0 Activate; Return 0 UnitOut; Invoke 1 (Io (BWrite 0 [7])); Invoke 0 Deactivate;
         Return 0 UnitOut; Return 1 (IoOut (OWrite (Ok 1)))], false, Some 7).
Proof. vm_compute. reflexivity. Qed.

(** [activate] and [deactivate] at the same time leave a ready device with a queue
    that is not. *)
Example flags_disagree :
  option_map (fun '(_, (d, ph)) => (b_ready d, q_ready (b_queue d), bool_decide (ph = ∅)))
    (conc_exec (demo_device, ∅)
      ([(0%nat, Some Activate); (1%nat, Some Deactivate)] ++ act_n 0 1 ++ act_n 1 1 ++ act_n 0 2 ++ act_n 1 2)) =
  Some (true, false, true).
Proof. vm_compute. reflexivity. Qed.

(** Thread 1 is in the middle of its write. *)
Definition halfway : list (nat * option Op) :=
  activation ++ [(1%nat, Some (Io (BWrite 0 [7; 8])))] ++ act_n 1 4.

Lemma shared_block_witness : exists d ph,
  run conc_step (demo_device, ∅) [Invoke 0 Activate; Return 0 UnitOut; Invoke 1 (Io (BWrite 0 [7; 8]))] (d, ph) /\
  ph !! 1%nat = Some (Copying (BWrite 0 [7; 8]) 0 [7]) /\
  exists x, moves (d, ph) x.
Proof.
  destruct (conc_exec (demo_device, ∅) halfway) as [[tr [d ph]] |] eqn:He;
    [| exfalso; revert He; vm_compute; discriminate].
  assert (Hx : option_map (fun '(tr, (_, ph)) => (tr, ph !! 1%nat)) (conc_exec (demo_device, ∅) halfway) =
    Some ([Invoke 0 Activate; Return 0 UnitOut; Invoke 1 (Io (BWrite 0 [7; 8]))],
          Some (Copying (BWrite 0 [7; 8]) 0 [7]))) by (vm_compute; reflexivity).
  rewrite He in Hx. cbn in Hx. injection Hx as -> Hp. apply conc_exec_run in He.
  exists d, ph. split; [exact He |]. split; [exact Hp |].
  destruct (shared_block_refines_disk demo_policy dev (mkBlockConfig 1 512 false) demo_device _ d ph
    ltac:(cbn; lia) ltac:(cbn; lia) ltac:(vm_compute; reflexivity) He
    ltac:(repeat constructor; vm_compute; discriminate)) as [(_ & _ & Hm & _) _].
  apply Hm. intros ->. by rewrite lookup_empty in Hp.
Defined.
