(* ===== verification/Simd.v ===== *)
(** * SIMD: capability detection, vector kernels and matrices ([simd.rs])

    Floating-point numbers are a type with the operations the code uses
    ([FloatOps] of [Float]), so what holds here holds bit for bit of [f32] and
    [f64]; the theorem on dot products is about IEEE 754 binary32.  A vector register is the list of its lanes.  A kernel
    behind [#[target_feature]] executes instructions the processor may lack:
    [requires] is that check, and a load or a store outside its slice, which
    is undefined behaviour in the source, is [Panic] here; the theorems show
    that neither is reached. *)

From Stdlib Require Import SpecFloat.
From S2P Require Import Prelude Float.

(** [target_arch] of the build, and the features of the processor that runs it. *)
Inductive Arch := x86_64 | aarch64 | other_arch.

Class Machine := mkMachine {
  target_arch : Arch;
  is_x86_feature_detected : string -> bool;
}.

(** ** Capabilities *)

Record SimdCapabilities := mkSimdCapabilities {
  sse41 : bool;
  sse42 : bool;
  avx : bool;
  avx2 : bool;
  fma : bool;
  avx512f : bool;
  avx512vl : bool;
  neon : bool;
}.

Definition SimdCapabilities_default : SimdCapabilities :=
  mkSimdCapabilities false false false false false false false false.

Definition detect `{Machine} : SimdCapabilities :=
  match target_arch with
  | x86_64 =>
      {| sse41 := is_x86_feature_detected "sse4.1";
         sse42 := is_x86_feature_detected "sse4.2";
         avx := is_x86_feature_detected "avx";
         avx2 := is_x86_feature_detected "avx2";
         fma := is_x86_feature_detected "fma";
         avx512f := is_x86_feature_detected "avx512f";
         avx512vl := is_x86_feature_detected "avx512vl";
         neon := false |}
  | aarch64 =>
      {| sse41 := false; sse42 := false; avx := false; avx2 := false;
         fma := false; avx512f := false; avx512vl := false; neon := true |}
  | other_arch => SimdCapabilities_default
  end.

Definition best_vector_width (self : SimdCapabilities) : Z :=
  if avx512f self then 512
  else if avx2 self || avx self then 256
  else if sse42 self || sse41 self then 128
  else if neon self then 128
  else 64.

Definition best_f32_width (self : SimdCapabilities) : Z := best_vector_width self / 32.
Definition best_f64_width (self : SimdCapabilities) : Z := best_vector_width self / 64.

Definition has_simd (self : SimdCapabilities) : bool := sse41 self || neon self.

Definition description (self : SimdCapabilities) : string :=
  if avx512f self then "AVX-512"
  else if avx2 self then "AVX2"
  else if avx self then "AVX"
  else if sse42 self then "SSE4.2"
  else if sse41 self then "SSE4.1"
  else if neon self then "NEON"
  else "Scalar".

Record SimdOps := mkSimdOps { caps : SimdCapabilities }.

Definition SimdOps_new `{Machine} : SimdOps := mkSimdOps detect.
Definition with_caps (c : SimdCapabilities) : SimdOps := mkSimdOps c.

(** ** Kernels *)

Definition assert (b : bool) : comp () := if b then Ret () else Panic.

(** [#[target_feature(enable = ...)]] on x86-64; NEON is always there on aarch64. *)
Definition requires `{Machine} (feature : string) : comp () :=
  match target_arch with
  | x86_64 => assert (is_x86_feature_detected feature)
  | aarch64 => assert (bool_decide (feature = "neon"))
  | other_arch => Panic
  end.

Section kernels.
Context {F : Type} (op : F -> F -> F).

(** [loadu] and [storeu] of [lanes] elements at [p.add(offset)]. *)
Definition loadu (lanes : nat) (l : list F) (offset : nat) : comp (list F) :=
  slice l offset (offset + lanes).
Definition storeu (lanes : nat) (l : list F) (offset : nat) (v : list F) : comp (list F) :=
  copy_from_slice l offset (offset + lanes) v.

(** The element loop: [for i in start..a.len() { c[i] = a[i] op b[i] }]. *)
Definition scalar_loop (start : nat) (a b c : list F) : comp (list F) :=
  for_each (seq start (length a - start)) (fun i c =>
    x ← index a i;
    y ← index b i;
    index_set c i (op x y)) c.

(** The vector loop over the whole chunks of [a]. *)
Definition chunk_loop (lanes : nat) (a b c : list F) : comp (list F) :=
  for_each (seq 0 (length a / lanes)) (fun i c =>
    let offset := (i * lanes)%nat in
    va ← loadu lanes a offset;
    vb ← loadu lanes b offset;
    let vc := zip_with op va vb in
    storeu lanes c offset vc) c.

Definition vector_kernel (lanes : nat) (a b c : list F) : comp (list F) :=
  c ← chunk_loop lanes a b c;
  let start := (length a / lanes * lanes)%nat in
  scalar_loop start a b c.

End kernels.

(** ** Vector operations *)

Section ops.
Context {M : Machine} {F32 F64 : Type} {f32 : FloatOps F32} {f64 : FloatOps F64}.

Definition vadd_f32_scalar (a b c : list F32) : comp (list F32) := scalar_loop fadd 0 a b c.
Definition vadd_f64_scalar (a b c : list F64) : comp (list F64) := scalar_loop fadd 0 a b c.
Definition vmul_f32_scalar (a b c : list F32) : comp (list F32) := scalar_loop fmul 0 a b c.
Definition dot_f32_scalar (a b : list F32) : F32 :=
  foldl fadd sum_zero (zip_with fmul a b).

Definition vadd_f32_avx512 (a b c : list F32) : comp (list F32) :=
  _ ← requires "avx512f"; vector_kernel fadd 16 a b c.
Definition vadd_f64_avx512 (a b c : list F64) : comp (list F64) :=
  _ ← requires "avx512f"; vector_kernel fadd 8 a b c.
Definition vmul_f32_avx512 (a b c : list F32) : comp (list F32) :=
  _ ← requires "avx512f"; vector_kernel fmul 16 a b c.
Definition vadd_f32_avx2 (a b c : list F32) : comp (list F32) :=
  _ ← requires "avx2"; vector_kernel fadd 8 a b c.
Definition vadd_f64_avx2 (a b c : list F64) : comp (list F64) :=
  _ ← requires "avx2"; vector_kernel fadd 4 a b c.
Definition vmul_f32_avx2 (a b c : list F32) : comp (list F32) :=
  _ ← requires "avx2"; vector_kernel fmul 8 a b c.
Definition vadd_f32_sse (a b c : list F32) : comp (list F32) :=
  _ ← requires "sse4.2"; vector_kernel fadd 4 a b c.
Definition vadd_f32_neon (a b c : list F32) : comp (list F32) :=
  _ ← requires "neon"; vector_kernel fadd 4 a b c.

(** The four-lane intrinsics of the horizontal sum. *)
Definition mm_add_ps (x y : list F32) : list F32 := zip_with fadd x y.
Definition mm_movehl_ps (x y : list F32) : list F32 := drop 2 y ++ drop 2 x.
Definition mm_shuffle_1 (x y : list F32) : list F32 :=
  match x, y with
  | x0 :: x1 :: _, y0 :: _ => [x1; x0; y0; y0]
  | _, _ => []
  end.
Definition mm_add_ss (x y : list F32) : list F32 :=
  match x, y with
  | x0 :: x', y0 :: _ => fadd x0 y0 :: x'
  | _, _ => []
  end.

Definition horizontal_sum (sum : list F32) : comp F32 :=
  let sum128 := mm_add_ps (take 4 sum) (drop 4 sum) in
  let sum64 := mm_add_ps sum128 (mm_movehl_ps sum128 sum128) in
  let sum32 := mm_add_ss sum64 (mm_shuffle_1 sum64 sum64) in
  index sum32 0.

Definition dot_f32_avx2 (a b : list F32) : comp F32 :=
  _ ← requires "avx2";
  let chunks := (length a / 8)%nat in
  sum ← for_each (seq 0 chunks) (fun i sum =>
    let offset := (i * 8)%nat in
    va ← loadu 8 a offset;
    vb ← loadu 8 b offset;
    let prod := zip_with fmul va vb in
    Ret (zip_with fadd sum prod)) (replicate 8 fzero);
  result ← horizontal_sum sum;
  let start := (chunks * 8)%nat in
  for_each (seq start (length a - start)) (fun i result =>
    x ← index a i;
    y ← index b i;
    Ret (fadd result (fmul x y))) result.

Definition same_length {A B} (x : list A) (y : list B) : bool := bool_decide (length x = length y).

Definition on_arch (x : Arch) : bool :=
  match target_arch, x with
  | x86_64, x86_64 | aarch64, aarch64 => true
  | _, _ => false
  end.

Definition vadd_f32 (self : SimdOps) (a b c : list F32) : comp (list F32) :=
  _ ← assert (same_length a b);
  _ ← assert (same_length a c);
  if on_arch x86_64 && (avx512f (caps self) && (16 <=? length a)%nat) then vadd_f32_avx512 a b c
  else if on_arch x86_64 && (avx2 (caps self) && (8 <=? length a)%nat) then vadd_f32_avx2 a b c
  else if on_arch x86_64 && (sse42 (caps self) && (4 <=? length a)%nat) then vadd_f32_sse a b c
  else if on_arch aarch64 && (neon (caps self) && (4 <=? length a)%nat) then vadd_f32_neon a b c
  else vadd_f32_scalar a b c.

Definition vadd_f64 (self : SimdOps) (a b c : list F64) : comp (list F64) :=
  _ ← assert (same_length a b);
  _ ← assert (same_length a c);
  if on_arch x86_64 && (avx512f (caps self) && (8 <=? length a)%nat) then vadd_f64_avx512 a b c
  else if on_arch x86_64 && (avx2 (caps self) && (4 <=? length a)%nat) then vadd_f64_avx2 a b c
  else vadd_f64_scalar a b c.

Definition vmul_f32 (self : SimdOps) (a b c : list F32) : comp (list F32) :=
  _ ← assert (same_length a b);
  _ ← assert (same_length a c);
  if on_arch x86_64 && (avx512f (caps self) && (16 <=? length a)%nat) then vmul_f32_avx512 a b c
  else if on_arch x86_64 && (avx2 (caps self) && (8 <=? length a)%nat) then vmul_f32_avx2 a b c
  else vmul_f32_scalar a b c.

Definition dot_f32 (self : SimdOps) (a b : list F32) : comp F32 :=
  _ ← assert (same_length a b);
  if on_arch x86_64 && (avx2 (caps self) && (8 <=? length a)%nat) then dot_f32_avx2 a b
  else Ret (dot_f32_scalar a b).

End ops.

(** ** Matrices *)

Definition TILE_SIZE : nat := 32.

(** Plain [usize] operators on the dimensions and the indices. *)
Definition usize_add {P : Profile} (a b : nat) : comp nat :=
  Z.to_nat <$> add_w 64 (Z.of_nat a) (Z.of_nat b).
Definition usize_mul {P : Profile} (a b : nat) : comp nat :=
  Z.to_nat <$> mul_w 64 (Z.of_nat a) (Z.of_nat b).

(** [(0..n).step_by(TILE_SIZE)]. *)
Definition step_by (n : nat) : list nat :=
  (fun t => (t * TILE_SIZE)%nat) <$> seq 0 ((n + TILE_SIZE - 1) / TILE_SIZE).

(** [for i in lo..hi]. *)
Definition range (lo hi : nat) : list nat := seq lo (hi - lo).

Record MatrixOps := mkMatrixOps { simd : SimdOps }.
Definition MatrixOps_new `{Machine} : MatrixOps := mkMatrixOps SimdOps_new.
Definition MatrixOps_caps (self : MatrixOps) : SimdCapabilities := caps (simd self).

Section matrices.
Context {P : Profile} {F32 : Type} {f32 : FloatOps F32}.

(** [c[i * n + j] += a_val * b[kk * n + j]]. *)
Definition matmul_update (b : list F32) (n i kk : nat) (a_val : F32) (j : nat)
    (c : list F32) : comp (list F32) :=
  kn ← usize_mul kk n; bi ← usize_add kn j;
  b_val ← index b bi;
  row ← usize_mul i n; ci ← usize_add row j;
  old ← index c ci;
  index_set c ci (fadd old (fmul a_val b_val)).

(** The inner tile: rows [i0..i_end], columns [j0..j_end], terms [k0..k_end]. *)
Definition matmul_tile (a b : list F32) (k n i0 i_end j0 j_end k0 k_end : nat)
    (c : list F32) : comp (list F32) :=
  for_each (range i0 i_end) (fun i =>
    for_each (range k0 k_end) (fun kk c =>
      row ← usize_mul i k; ai ← usize_add row kk;
      a_val ← index a ai;
      for_each (range j0 j_end) (matmul_update b n i kk a_val) c)) c.

Definition matmul_f32 (self : MatrixOps) (a b c : list F32) (m k n : nat) : comp (list F32) :=
  mk ← usize_mul m k; _ ← assert (bool_decide (length a = mk));
  kn ← usize_mul k n; _ ← assert (bool_decide (length b = kn));
  mn ← usize_mul m n; _ ← assert (bool_decide (length c = mn));
  c ← fill c 0 (length c) fzero;
  for_each (step_by m) (fun i0 c =>
    i' ← usize_add i0 TILE_SIZE; let i_end := (i' `min` m)%nat in
    for_each (step_by n) (fun j0 c =>
      j' ← usize_add j0 TILE_SIZE; let j_end := (j' `min` n)%nat in
      for_each (step_by k) (fun k0 c =>
        k' ← usize_add k0 TILE_SIZE; let k_end := (k' `min` k)%nat in
        matmul_tile a b k n i0 i_end j0 j_end k0 k_end c) c) c) c.

Definition transpose_f32 (self : MatrixOps) (src dst : list F32) (rows cols : nat) :
    comp (list F32) :=
  rc ← usize_mul rows cols; _ ← assert (bool_decide (length src = rc));
  rc ← usize_mul rows cols; _ ← assert (bool_decide (length dst = rc));
  for_each (range 0 rows) (fun i =>
    for_each (range 0 cols) (fun j dst =>
      row ← usize_mul i cols; si ← usize_add row j;
      x ← index src si;
      col ← usize_mul j rows; di ← usize_add col i;
      index_set dst di x)) dst.

End matrices.

(** ** Element-wise kernels *)

(** The first [p] elements of [z] have been stored over [c]. *)
Definition written {F} (z c : list F) (p : nat) (c' : list F) : Prop :=
  c' = take p z ++ drop p c.

Section kernel_lemmas.
Context {F : Type} (op : F -> F -> F) (a b c : list F).
Context (Hb : length b = length a) (Hc : length c = length a).
#[local] Abbreviation z := (zip_with op a b).

Lemma length_z : length z = length a.
Proof using Hb. by rewrite length_zip_with, Hb, Nat.min_id. Qed.

Lemma scalar_loop_written start c' :
  (start <= length a)%nat -> written z c start c' ->
  returns (scalar_loop op start a b c') (written z c (length a)).
Proof using Hb Hc.
  pose proof length_z as Hz. intros Hs Hw. unfold scalar_loop.
  replace (length a) with (start + (length a - start))%nat at 2 by lia.
  apply (for_seq start (length a - start)); [done |].
  intros i s Hi ->.
  destruct (index_lt a i) as (x & Hx & ->); [lia |].
  destruct (index_lt b i) as (y & Hy & ->); [lia |].
  rewrite !bind_ret. unfold index_set.
  rewrite decide_True by (rewrite length_app, length_take, length_drop; lia).
  apply returns_ret; unfold written.
  assert (Hzi : z !! i = Some (op x y)) by (by rewrite lookup_zip_with, Hx, Hy).
  rewrite (take_S_r _ _ _ Hzi), <- app_assoc; cbn.
  destruct (lookup_lt_is_Some_2 c i) as [v Hv]; [lia |].
  rewrite (drop_S _ _ _ Hv), insert_app_r_alt by (rewrite length_take; lia).
  rewrite length_take, Nat.min_l by lia. by rewrite Nat.sub_diag.
Qed.

Lemma chunk_loop_written lanes :
  (0 < lanes)%nat ->
  returns (chunk_loop op lanes a b c) (written z c (length a / lanes * lanes)).
Proof using Hb Hc.
  pose proof length_z as Hz. intros Hl. unfold chunk_loop.
  apply (for_range _ _ (fun i => written z c (i * lanes))); [by unfold written; cbn; rewrite drop_0 |].
  intros i s Hi ->.
  assert (i * lanes + lanes <= length a)%nat.
  { transitivity (length a / lanes * lanes)%nat; [nia |].
    rewrite Nat.mul_comm; apply Nat.Div0.mul_div_le. }
  unfold loadu, storeu. rewrite !slice_ok by lia. rewrite !bind_ret.
  replace (i * lanes + lanes - i * lanes)%nat with lanes by lia.
  rewrite <- zip_with_take, <- zip_with_drop.
  rewrite copy_from_slice_ok
    by (rewrite ?length_app, ?length_take, ?length_drop, ?length_z; lia).
  apply returns_ret; unfold written. cbn [Nat.mul].
  rewrite take_app_le, take_take, Nat.min_id by (rewrite length_take; lia).
  rewrite app_assoc, take_take_drop.
  f_equal; [f_equal; lia |].
  rewrite drop_app_ge by (rewrite length_take; lia).
  rewrite length_take, drop_drop. f_equal; lia.
Qed.

Lemma vector_kernel_ok lanes :
  (0 < lanes)%nat -> vector_kernel op lanes a b c = Ret z.
Proof using Hb Hc.
  intros Hl. unfold vector_kernel.
  destruct (chunk_loop_written lanes Hl) as (c' & -> & Hc'); rewrite bind_ret.
  destruct (scalar_loop_written (length a / lanes * lanes) c') as (r & -> & Hr); [| done |].
  - rewrite Nat.mul_comm; apply Nat.Div0.mul_div_le.
  - rewrite Hr. by rewrite take_ge, drop_ge, app_nil_r by (rewrite ?length_z; lia).
Qed.

Lemma scalar_loop_ok : scalar_loop op 0 a b c = Ret z.
Proof using Hb Hc.
  destruct (scalar_loop_written 0 c) as (r & -> & Hr); [lia | done |].
  f_equal. rewrite Hr. by rewrite take_ge, drop_ge, app_nil_r by (rewrite ?length_z; lia).
Qed.

End kernel_lemmas.

(** Capabilities the processor has: what [detect] returns, and any others
    [with_caps] is given truthfully. *)
Definition x86_features : list (string * (SimdCapabilities -> bool)) :=
  [("avx512f", avx512f); ("avx2", avx2); ("sse4.2", sse42)].

Definition supported `{Machine} (c : SimdCapabilities) : Prop :=
  target_arch = x86_64 ->
  forall (feature : string) (flag : SimdCapabilities -> bool), (feature, flag) ∈ x86_features ->
    flag c -> is_x86_feature_detected feature.

Lemma detect_supported `{Machine} : supported detect.
Proof.
  unfold supported, detect, x86_features. intros -> feature flag Hin.
  rewrite !elem_of_cons, elem_of_nil in Hin.
  by destruct Hin as [[= -> ->] | [[= -> ->] | [[= -> ->] | []]]].
Qed.

(** A branch's test implies that the kernel it calls can run. *)
Section branches.
Context {M : Machine} (k : SimdCapabilities) (big : bool) {A : Type} (body : comp A).

Lemma branch_x86 (feature : string) (flag : SimdCapabilities -> bool) :
  on_arch x86_64 && (flag k && big) = true ->
  (feature, flag) ∈ x86_features -> supported k ->
  (_ ← requires feature; body) = body.
Proof.
  unfold supported, on_arch, requires, assert. destruct target_arch; try done.
  intros [_ [Hk _]%andb_true_iff]%andb_true_iff Hin H.
  specialize (H eq_refl _ _ Hin). rewrite Hk in H.
  by destruct (is_x86_feature_detected _); [| destruct H].
Qed.

Lemma branch_neon :
  on_arch aarch64 && (neon k && big) = true -> (_ ← requires "neon"; body) = body.
Proof. unfold on_arch, requires, assert. by destruct target_arch. Qed.

End branches.

Lemma assert_spec (b : bool) {A} (k : comp A) :
  (_ ← assert b; k) = if b then k else Panic.
Proof. by destruct b. Qed.

(** One branch of a dispatch: its kernel can run. *)
Ltac dispatch :=
  match goal with
  | |- context [if ?b then _ else _] =>
      destruct b eqn:?;
      [etransitivity;
       [first [eapply branch_neon; eassumption
              |eapply branch_x86; [eassumption | by repeat constructor | assumption]] |] |]
  end.

Section elementwise.
Context {M : Machine} {F32 F64 : Type} {f32 : FloatOps F32} {f64 : FloatOps F64}.

Lemma elementwise self :
  supported (caps self) ->
  (forall a b c : list F32,
     vadd_f32 self a b c =
       (if same_length a b && same_length a c then Ret (zip_with fadd a b) else Panic) /\
     vmul_f32 self a b c =
       (if same_length a b && same_length a c then Ret (zip_with fmul a b) else Panic)) /\
  (forall a b c : list F64,
     vadd_f64 self a b c =
       (if same_length a b && same_length a c then Ret (zip_with fadd a b) else Panic)).
Proof.
  intros Hs. split; [intros a b c; split | intros a b c];
    unfold vadd_f32, vmul_f32, vadd_f64; rewrite !assert_spec;
    unfold same_length; (repeat case_bool_decide; cbn [andb]; try done);
    repeat (dispatch; [apply vector_kernel_ok; lia |]); apply scalar_loop_ok; lia.
Qed.

(** C22. Vector addition and multiplication do not depend on the kernel the
    dispatch selects: whatever subset of the processor's features the
    capabilities claim, and at any length, the result is the element-wise
    operation in the given arithmetic (so the same bits as the scalar loop),
    no kernel reads or writes outside a slice, none executes an instruction
    the processor lacks, and the call panics exactly when the lengths
    differ.  [SimdOps::new] is such an instance. *)
Theorem elementwise_spec :
  supported (caps SimdOps_new) /\
  forall self, supported (caps self) ->
  (forall a b c : list F32,
     vadd_f32 self a b c =
       (if same_length a b && same_length a c then Ret (zip_with fadd a b) else Panic) /\
     vmul_f32 self a b c =
       (if same_length a b && same_length a c then Ret (zip_with fmul a b) else Panic)) /\
  (forall a b c : list F64,
     vadd_f64 self a b c =
       (if same_length a b && same_length a c then Ret (zip_with fadd a b) else Panic)).
Proof.
  split; [apply detect_supported | exact elementwise].
Qed.

End elementwise.

(** ** The dot product

    Every kernel adds up all the products; they differ in the order, and in how
    many additions a product is below: all of them in the scalar loop, and in the
    AVX2 kernel those of its lane, of the horizontal sum and of the remainder. *)

Section dot.
Context {M : Machine} {F32 : Type} {f32 : FloatOps F32}.

Lemma concat_snoc {A} (ls : list (list A)) ps :
  length ls = length ps -> concat (zip_with (fun l p => l ++ [p]) ls ps) ≡ₚ concat ls ++ ps.
Proof.
  revert ps; induction ls as [|l ls IH]; intros [|p ps] Hl; try done. cbn in *.
  injection Hl as Hl. rewrite (IH ps Hl), <- !app_assoc. apply Permutation_app_head.
  cbn. apply Permutation_middle.
Qed.

Lemma lanes_step h ls sums va vb :
  Forall2 (sum_of_products h) ls sums -> length va = length sums -> length vb = length sums ->
  Forall2 (sum_of_products (S h)) (zip_with (fun l p => l ++ [p]) ls (zip va vb))
    (zip_with fadd sums (zip_with fmul va vb)).
Proof.
  intros Hs; revert va vb; induction Hs as [|l s ls sums Hs Hrest IH]; intros [|x va] [|y vb] Ha Hb;
    try done; cbn in *; constructor; [by apply sum_snoc | apply IH; lia].
Qed.

Lemma horizontal_sum_spec h ls s :
  Forall2 (sum_of_products h) ls s -> length s = 8%nat ->
  returns (horizontal_sum s) (sum_of_products (h + 3) (concat ls)).
Proof.
  intros Hs Hl.
  destruct s as [|s0 [|s1 [|s2 [|s3 [|s4 [|s5 [|s6 [|s7 [|]]]]]]]]]; try done. clear Hl.
  repeat match goal with H : Forall2 _ _ (_ :: _) |- _ =>
    apply Forall2_cons_inv_r in H as (? & ? & ? & ? & ->) end.
  match goal with H : Forall2 _ _ [] |- _ => apply Forall2_nil_inv_r in H as -> end.
  apply returns_ret.
  eapply sum_permuted; [| replace (h + 3)%nat with (S (S (S h `max` S h) `max` S (S h `max` S h)))
    by lia; do 2 (apply sum_add; [apply sum_add; (rewrite <- (Nat.max_id h); by apply sum_add) |
      apply sum_add; (rewrite <- (Nat.max_id h); by apply sum_add)])].
  cbn. rewrite app_nil_r. solve_Permutation.
Qed.

(** The lanes hold the first [8 * i] products. *)
Definition lanes_hold (zp : list (F32 * F32)) (i : nat) (sums : list F32) : Prop :=
  length sums = 8%nat /\
  exists ls, Forall2 (sum_of_products i) ls sums /\ concat ls ≡ₚ take (i * 8) zp.

Lemma lanes_hold_step a b i sums :
  length a = length b -> (i * 8 + 8 <= length a)%nat -> lanes_hold (zip a b) i sums ->
  lanes_hold (zip a b) (S i)
    (zip_with fadd sums (zip_with fmul (take 8 (drop (i * 8) a)) (take 8 (drop (i * 8) b)))).
Proof.
  intros Hab Hi (Hl & ls & Hs & Hc).
  assert (Hla : length (take 8 (drop (i * 8) a)) = 8%nat) by (rewrite length_take, length_drop; lia).
  assert (Hlb : length (take 8 (drop (i * 8) b)) = 8%nat) by (rewrite length_take, length_drop; lia).
  split; [rewrite !length_zip_with; lia |].
  eexists. split; [apply lanes_step; [exact Hs | lia | lia] |].
  rewrite concat_snoc, Hc by (rewrite (Forall2_length _ _ _ Hs), length_zip_with; lia).
  rewrite <- zip_with_take, <- zip_with_drop, take_take_drop.
  by replace (i * 8 + 8)%nat with (S i * 8)%nat by lia.
Qed.

Definition avx2_depth (n : nat) : nat := (n / 8 + 3 + n mod 8)%nat.

Lemma dot_avx2_sum a b :
  (forall A (k : comp A), (_ ← requires "avx2"; k) = k) -> length a = length b ->
  returns (dot_f32_avx2 a b) (sum_of_products (avx2_depth (length a)) (zip a b)).
Proof.
  intros Hf Hab. unfold dot_f32_avx2. rewrite Hf.
  pose proof (Nat.div_mod (length a) 8 ltac:(done)) as Hdm.
  eapply returns_bind.
  { apply (for_range (length a / 8) (fun i sum =>
      va ← loadu 8 a (i * 8); vb ← loadu 8 b (i * 8);
      Ret (zip_with fadd sum (zip_with fmul va vb))) (lanes_hold (zip a b))).
    - split; [done |]. exists (replicate 8 []). split; [| done].
      apply Forall2_replicate, sum_fzero.
    - intros i s Hi Hinv. unfold loadu. rewrite !slice_ok by lia. rewrite !bind_ret.
      replace (i * 8 + 8 - i * 8)%nat with 8%nat by lia.
      apply returns_ret, lanes_hold_step; [done | lia | done]. }
  intros sums (Hl & ls & Hs & Hc). eapply returns_bind; [by apply (horizontal_sum_spec (length a / 8) ls) |].
  intros r Hr. apply (sum_permuted _ _ _ _ Hc) in Hr.
  eapply returns_mono.
  { apply (for_seq (length a / 8 * 8) (length a - length a / 8 * 8) (fun i result =>
      x ← index a i; y ← index b i; Ret (fadd result (fmul x y)))
      (fun i r => sum_of_products (length a / 8 + 3 + (i - length a / 8 * 8)) (take i (zip a b)) r)).
    - by rewrite Nat.sub_diag, Nat.add_0_r.
    - intros i s Hi Hinv.
      destruct (index_lt a i) as (x & Hx & ->); [lia |].
      destruct (index_lt b i) as (y & Hy & ->); [lia |]. rewrite !bind_ret.
      apply returns_ret. rewrite (take_S_r _ _ (x, y)) by by rewrite lookup_zip_with, Hx, Hy.
      replace (length a / 8 + 3 + (S i - length a / 8 * 8))%nat
        with (S (length a / 8 + 3 + (i - length a / 8 * 8))) by lia.
      by apply sum_snoc. }
  intros r' Hr'. rewrite take_ge in Hr' by (rewrite length_zip_with; lia).
  unfold avx2_depth. by replace (length a mod 8)%nat with
    (length a / 8 * 8 + (length a - length a / 8 * 8) - length a / 8 * 8)%nat by lia.
Qed.

Lemma dot_scalar_sum a b :
  length a = length b -> sum_of_products (length a) (zip a b) (dot_f32_scalar a b).
Proof.
  intros E. unfold dot_f32_scalar.
  pose proof (sum_foldl fst snd (zip a b) sum_zero 0 [] sum_sum_zero) as H.
  cbn in H. rewrite length_zip_with, <- E, Nat.min_id in H.
  assert (Hz : (fun p : F32 * F32 => (p.1, p.2)) <$> zip a b = zip a b).
  { rewrite <- (list_fmap_id (zip a b)) at 2. apply list_fmap_ext. by intros _ [] _. }
  rewrite Hz in H. eapply eq_ind; [exact H |].
  generalize sum_zero as z. clear. revert b. induction a as [|x a IH]; intros [|y b] z; cbn; auto.
Qed.

(** The number of additions a product can be below. *)
Definition dot_depth (self : SimdOps) (n : nat) : nat :=
  if on_arch x86_64 && (avx2 (caps self) && (8 <=? n)%nat) then avx2_depth n else n.

Lemma dot_f32_sum (self : SimdOps) a b :
  supported (caps self) ->
  if same_length a b
  then returns (dot_f32 self a b) (sum_of_products (dot_depth self (length a)) (zip a b))
  else dot_f32 self a b = Panic.
Proof.
  intros Hs. unfold dot_f32, dot_depth. rewrite assert_spec.
  destruct (same_length a b) eqn:E; [| done]. apply bool_decide_eq_true in E.
  destruct (on_arch x86_64 && _) eqn:Eb.
  - apply dot_avx2_sum; [| done].
    intros A k. eapply branch_x86; [exact Eb | by repeat constructor | done].
  - by apply returns_ret, dot_scalar_sum.
Qed.

End dot.

(** ** Exact dot products

    The vector kernel adds in another order than the scalar loop, so in
    floating point the two may differ.  They agree where the arithmetic is
    exact: IEEE 754 represents every integer of absolute value at most [B]
    ([2^24] for [f32]) and rounds correctly, so a sum or a product of two
    numbers that hold integers is exact when the result is within [B].
    [holds x z]: the number [x] has the integer value [z] (both zeros hold 0). *)
Class ExactIntegers (F : Type) `{FloatOps F} (B : Z) (holds : F -> Z -> Prop) := {
  exact_zero : holds fzero 0;
  exact_sum_zero : holds sum_zero 0;
  exact_add x y a b : holds x a -> holds y b -> Z.abs (a + b) <= B -> holds (fadd x y) (a + b);
  exact_mul x y a b : holds x a -> holds y b -> Z.abs (a * b) <= B -> holds (fmul x y) (a * b);
}.

Definition zsum (l : list Z) : Z := foldr Z.add 0 l.
Definition zsum_abs (l : list Z) : Z := zsum (Z.abs <$> l).

Lemma zsum_app l k : zsum (l ++ k) = zsum l + zsum k.
Proof. induction l as [|x l IH]; cbn; [done | unfold zsum in *; lia]. Qed.

Lemma zsum_abs_app l k : zsum_abs (l ++ k) = zsum_abs l + zsum_abs k.
Proof. unfold zsum_abs. by rewrite fmap_app, zsum_app. Qed.

Lemma zsum_perm l k : l ≡ₚ k -> zsum l = zsum k.
Proof. unfold zsum. induction 1; cbn; lia. Qed.

Lemma zsum_abs_ge l : 0 <= zsum_abs l /\ Z.abs (zsum l) <= zsum_abs l.
Proof. induction l as [|x l IH]; cbn; [done | unfold zsum_abs, zsum in *; lia]. Qed.

Section exact.
Context {F32 : Type} {f32 : FloatOps F32}.
Context {B : Z} {holds : F32 -> Z -> Prop} {EX : ExactIntegers F32 B holds}.

#[local] Abbreviation products zl := ((fun q => q.1 * q.2) <$> zl).

(** In whatever order the products are added. *)
Lemma sum_exact h l s :
  sum_of_products h l s -> forall zl,
  Forall2 (fun p q => holds p.1 q.1 /\ holds p.2 q.2) l zl ->
  zsum_abs (products zl) <= B -> holds s (zsum (products zl)).
Proof using EX.
  induction 1 as [| | x y | h k l1 l2 s1 s2 H1 IH1 H2 IH2 | h l l' s Hl H IH]; intros zl Hzl HB.
  - apply Forall2_nil_inv_l in Hzl as ->. apply exact_zero.
  - apply Forall2_nil_inv_l in Hzl as ->. apply exact_sum_zero.
  - apply Forall2_cons_inv_l in Hzl as (q & zl' & [Hx Hy] & ->%Forall2_nil_inv_l & ->).
    unfold zsum_abs in HB. cbn in HB |- *. rewrite Z.add_0_r in *. by apply exact_mul.
  - apply Forall2_app_inv_l in Hzl as (zl1 & zl2 & Hz1 & Hz2 & ->).
    rewrite fmap_app, zsum_app, zsum_abs_app in *.
    pose proof (zsum_abs_ge (products zl1)). pose proof (zsum_abs_ge (products zl2)).
    apply exact_add; [apply IH1 | apply IH2 |]; (done || lia).
  - destruct (Permutation_Forall2 (symmetry Hl) Hzl) as (zl' & Hp & Hz).
    assert (Hm : products zl ≡ₚ products zl') by by apply fmap_Permutation.
    rewrite (zsum_perm _ _ Hm). apply IH; [done |].
    unfold zsum_abs in *. by rewrite <- (zsum_perm (Z.abs <$> products zl)) by by apply fmap_Permutation.
Qed.

End exact.

Lemma zip_with_zip {A B C} (f : A -> B -> C) a b :
  zip_with f a b = (fun q => f q.1 q.2) <$> zip a b.
Proof. revert b; induction a as [|x a IH]; intros [|y b]; cbn; [done.. |]. by rewrite IH. Qed.

Lemma Forall2_zip {A B} (P : A -> B -> Prop) a b za zb :
  Forall2 P a za -> Forall2 P b zb ->
  Forall2 (fun p q => P p.1 q.1 /\ P p.2 q.2) (zip a b) (zip za zb).
Proof.
  intros Ha; revert b zb; induction Ha as [|x u a za Hx Ha IH]; intros b zb Hb; [constructor |].
  destruct Hb; constructor; [done | by apply IH].
Qed.

(** IEEE 754 arithmetic is exact on the integers of 24 bits. *)
Lemma binary32_exact : @ExactIntegers spec_float binary32 (2 ^ 24) holds_f32.
Proof.
  split; [done | done | intros; by apply add_exact | intros; by apply mul_exact].
Qed.

(** Whatever kernel it runs, [dot_f32] on binary32 numbers returns the
    exact dot product of vectors of integers whose products' absolute values
    add up to at most [2^24], so on such vectors the eight-lane AVX2 kernel with
    its horizontal sum and remainder loop agrees with the scalar fold; vectors
    of different lengths panic. *)
Theorem dot_exact {M : Machine} (self : SimdOps) (a b : list spec_float) (za zb : list Z) :
  supported (caps self) ->
  Forall2 holds_f32 a za -> Forall2 holds_f32 b zb ->
  zsum_abs (zip_with Z.mul za zb) <= 2 ^ 24 ->
  if same_length a b
  then exists r, dot_f32 (f32 := binary32) self a b = Ret r /\
       holds_f32 r (zsum (zip_with Z.mul za zb))
  else dot_f32 (f32 := binary32) self a b = Panic.
Proof.
  intros Hs Ha Hb HB. pose proof (dot_f32_sum (f32 := binary32) self a b Hs) as H.
  destruct (same_length a b) eqn:E; [| done]. destruct H as (r & -> & Hr).
  exists r. split; [done |].
  rewrite (zip_with_zip Z.mul za zb) in *. apply (sum_exact (EX := binary32_exact) _ _ _ Hr); [| done].
  by apply Forall2_zip.
Qed.

(** ** Matrices

    [mat m n f] is the row-major slice of the [m] by [n] matrix with entries
    [f i j]. *)

Definition mat {F} (m n : nat) (f : nat -> nat -> F) : list F :=
  flat_map (fun i => f i <$> seq 0 n) (seq 0 m).

Lemma length_mat {F} m n (f : nat -> nat -> F) : length (mat m n f) = (m * n)%nat.
Proof.
  unfold mat. assert (forall s, length (flat_map (fun i => f i <$> seq 0 n) (seq s m)) = (m * n)%nat)
    as H; [| apply H].
  induction m as [|m IH]; intros s; cbn; [done |].
  by rewrite length_app, length_fmap, length_seq, IH.
Qed.

Lemma mat_from {F} m n (f : nat -> nat -> F) s i j :
  (i < m)%nat -> (j < n)%nat ->
  flat_map (fun i => f i <$> seq 0 n) (seq s m) !! (i * n + j)%nat = Some (f (s + i)%nat j).
Proof.
  revert s i; induction m as [|m IH]; intros s i Hi Hj; [lia |]. cbn [seq flat_map].
  destruct i as [|i].
  - rewrite lookup_app_l by (rewrite length_fmap, length_seq; lia).
    rewrite list_lookup_fmap, lookup_seq_lt by lia. cbn. by rewrite Nat.add_0_r.
  - rewrite lookup_app_r by (rewrite length_fmap, length_seq; lia).
    rewrite length_fmap, length_seq.
    replace (S i * n + j - n)%nat with (i * n + j)%nat by lia.
    rewrite IH by lia. do 2 f_equal; lia.
Qed.

Lemma mat_lookup {F} m n (f : nat -> nat -> F) i j :
  (i < m)%nat -> (j < n)%nat -> mat m n f !! (i * n + j)%nat = Some (f i j).
Proof. apply (mat_from m n f 0). Qed.

Lemma cell_lt m n i j : (i < m)%nat -> (j < n)%nat -> (i * n + j < m * n)%nat.
Proof. nia. Qed.

Lemma cell_inj n i j i' j' :
  (j < n)%nat -> (j' < n)%nat -> (i * n + j = i' * n + j')%nat -> i = i' /\ j = j'.
Proof.
  intros Hj Hj' H. destruct (Nat.lt_trichotomy i i') as [? | [-> | ?]]; [nia | lia | nia].
Qed.

Lemma cell_split m n p :
  (p < m * n)%nat -> exists i j, (i < m)%nat /\ (j < n)%nat /\ p = (i * n + j)%nat.
Proof.
  intros Hp. assert (n <> 0)%nat by nia. exists (p / n)%nat, (p mod n)%nat.
  split; [apply Nat.Div0.div_lt_upper_bound; lia |].
  split; [by apply Nat.mod_upper_bound |].
  rewrite Nat.mul_comm. by apply Nat.div_mod.
Qed.

(** A slice is a matrix when its cells are the entries. *)
Lemma mat_ext {F} m n (f : nat -> nat -> F) l :
  length l = (m * n)%nat ->
  (forall i j, (i < m)%nat -> (j < n)%nat -> l !! (i * n + j)%nat = Some (f i j)) ->
  l = mat m n f.
Proof.
  intros Hl H. apply list_eq_same_length with (n := (m * n)%nat); [by rewrite length_mat | done |].
  intros p x y Hp Hx Hy. destruct (cell_split m n p Hp) as (i & j & Hi & Hj & ->).
  rewrite H in Hx by done. rewrite mat_lookup in Hy by done. congruence.
Qed.


Section usize.
Context {P : Profile}.

Definition usize (n : nat) : Prop := u64 (Z.of_nat n).

Lemma usize_add_ok a b : usize (a + b) -> usize_add a b = Ret (a + b)%nat.
Proof.
  unfold usize_add, usize, add_w. intros H. rewrite <- Nat2Z.inj_add.
  rewrite checked_in by done. cbn. by rewrite Nat2Z.id.
Qed.

Lemma usize_mul_ok a b : usize (a * b) -> usize_mul a b = Ret (a * b)%nat.
Proof.
  unfold usize_mul, usize, mul_w. intros H. rewrite <- Nat2Z.inj_mul.
  rewrite checked_in by done. cbn. by rewrite Nat2Z.id.
Qed.

Lemma usize_le a b : usize b -> (a <= b)%nat -> usize a.
Proof. unfold usize. width. Qed.

(** The flat index of a cell of an [m] by [n] slice. *)
Lemma cell_index m n i j {A} (k : nat -> comp A) :
  usize (m * n) -> (i < m)%nat -> (j < n)%nat ->
  (row ← usize_mul i n; p ← usize_add row j; k p) = k (i * n + j)%nat.
Proof.
  intros H Hi Hj. pose proof (cell_lt m n i j Hi Hj).
  rewrite usize_mul_ok by (eapply usize_le; [exact H | lia]). rewrite bind_ret.
  rewrite usize_add_ok by (eapply usize_le; [exact H | lia]). done.
Qed.

(** [t + TILE_SIZE] does not overflow. *)
Lemma tile_end d t {A} (r : nat -> comp A) :
  Z.of_nat d < 2 ^ 63 -> (t < d)%nat -> (t' ← usize_add t TILE_SIZE; r t') = r (t + TILE_SIZE)%nat.
Proof.
  intros Hd Ht. unfold TILE_SIZE. rewrite usize_add_ok; [done |]. unfold usize.
  change (2 ^ 63) with 9223372036854775808 in Hd. width.
Qed.

End usize.

(** Choosing one element of a list without duplicates. *)
Lemma flat_map_pick {A} (y : nat) (v : list A) (l : list nat) :
  NoDup l -> y ∈ l -> flat_map (fun x => if decide (x = y) then v else []) l = v.
Proof.
  induction 1 as [|x l Hx Hl IH]; intros Hy; [by apply elem_of_nil in Hy |]. cbn.
  apply elem_of_cons in Hy as [-> | Hy].
  - rewrite decide_True by done.
    assert (flat_map (fun x0 => if decide (x0 = x) then v else []) l = []) as ->; [| apply app_nil_r].
    clear -Hx. induction l as [|z l IH]; cbn; [done |].
    apply not_elem_of_cons in Hx as [? ?]. by rewrite decide_False, IH.
  - rewrite decide_False by congruence. by apply IH.
Qed.

Lemma flat_map_ext_in {A B} (f g : A -> list B) l :
  (forall x, x ∈ l -> f x = g x) -> flat_map f l = flat_map g l.
Proof.
  induction l as [|x l IH]; cbn; intros H; [done |].
  rewrite (H x), IH; [done | intros; apply H; by right | by left].
Qed.

Lemma flat_map_flat_map {A B C} (f : A -> list B) (g : B -> list C) l :
  flat_map g (flat_map f l) = flat_map (fun x => flat_map g (f x)) l.
Proof. induction l as [|x l IH]; cbn; [done |]. by rewrite flat_map_app, IH. Qed.

Lemma flat_map_nil {A B} (l : list A) : flat_map (fun _ => @nil B) l = [].
Proof. by induction l. Qed.

Lemma flat_map_single {A} (l : list A) : flat_map (fun x => [x]) l = l.
Proof. induction l as [|x l IH]; cbn; [done | by rewrite IH]. Qed.

Lemma flat_map_if {A B} (Q : Prop) `{Decision Q} (g : A -> list B) l :
  flat_map (fun x => if decide Q then g x else []) l = if decide Q then flat_map g l else [].
Proof. destruct (decide Q); [done | apply flat_map_nil]. Qed.

(** ** Tiles *)

(** The indices below [n] of the tile that starts at [t]. *)
Definition tile (n t : nat) : list nat := range t ((t + TILE_SIZE) `min` n).

Lemma elem_of_tile n t y : y ∈ tile n t <-> (t <= y < t + TILE_SIZE)%nat /\ (y < n)%nat.
Proof. unfold tile, range. rewrite elem_of_seq. lia. Qed.

Lemma elem_of_step_by n t :
  t ∈ step_by n <-> (t mod TILE_SIZE = 0 /\ t < n)%nat.
Proof.
  unfold step_by, TILE_SIZE. rewrite list_elem_of_fmap. setoid_rewrite elem_of_seq.
  pose proof (Nat.div_mod (n + 32 - 1) 32 ltac:(done)) as Hn.
  pose proof (Nat.mod_upper_bound (n + 32 - 1) 32 ltac:(done)).
  split.
  - intros (q & -> & Hq). split; [apply Nat.Div0.mod_mul | nia].
  - intros [Ht Hlt]. exists (t / 32)%nat.
    pose proof (Nat.div_mod t 32 ltac:(done)). nia.
Qed.

Lemma step_by_NoDup n : NoDup (step_by n).
Proof.
  apply NoDup_fmap_2; [| apply NoDup_seq]. unfold TILE_SIZE. intros x y; lia.
Qed.

Lemma pick_tile {A} n y (v : list A) :
  (y < n)%nat -> flat_map (fun t => if decide (y ∈ tile n t) then v else []) (step_by n) = v.
Proof.
  intros Hy. pose proof (Nat.div_mod y 32 ltac:(done)) as Hd.
  pose proof (Nat.mod_upper_bound y 32 ltac:(done)) as Hu.
  transitivity (flat_map (fun t => if decide (t = y / 32 * 32)%nat then v else []) (step_by n));
    [| apply flat_map_pick; [apply step_by_NoDup | apply elem_of_step_by; unfold TILE_SIZE;
       split; [apply Nat.Div0.mod_mul | lia]]].
  apply flat_map_ext_in. intros t [Ht _]%elem_of_step_by.
  pose proof (Nat.div_mod t 32 ltac:(done)) as Hd'. unfold TILE_SIZE in Ht.
  apply decide_ext. rewrite elem_of_tile. unfold TILE_SIZE. nia.
Qed.

Lemma pick_range {A} n t y (v : list A) :
  flat_map (fun x => if decide (x = y) then v else []) (tile n t) =
  if decide (y ∈ tile n t) then v else [].
Proof.
  destruct (decide (y ∈ tile n t)) as [Hy | Hy].
  - apply flat_map_pick; [apply NoDup_seq | done].
  - etransitivity; [apply flat_map_ext_in | apply flat_map_nil].
    intros x Hx. apply decide_False. by intros ->.
Qed.

Lemma tiles_cover n : flat_map (tile n) (step_by n) = seq 0 n.
Proof.
  unfold step_by, TILE_SIZE.
  assert (forall q, flat_map (tile n) ((fun t => t * 32)%nat <$> seq 0 q) = seq 0 ((q * 32) `min` n))
    as H.
  { induction q as [|q IH]; [done |].
    rewrite seq_S, fmap_app, flat_map_app, IH. cbn [fmap list_fmap flat_map Nat.add].
    rewrite app_nil_r. unfold tile, range, TILE_SIZE.
    destruct (Nat.le_ge_cases n (q * 32)) as [Hle | Hle].
    - replace ((q * 32 + 32) `min` n - q * 32)%nat with 0%nat by lia.
      replace ((S q * 32) `min` n)%nat with ((q * 32) `min` n)%nat by lia. apply app_nil_r.
    - rewrite (Nat.min_l (q * 32)) by lia.
      replace ((S q * 32) `min` n)%nat with (q * 32 + ((q * 32 + 32) `min` n - q * 32))%nat by lia.
      by rewrite seq_app. }
  rewrite H. f_equal.
  pose proof (Nat.div_mod (n + 32 - 1) 32 ltac:(done)).
  pose proof (Nat.mod_upper_bound (n + 32 - 1) 32 ltac:(done)). nia.
Qed.

(** ** Matrix multiplication and transposition *)

Lemma comp_bind_ret_r {A} (m : comp A) : (x ← m; Ret x) = m.
Proof. by destruct m. Qed.

(** A loop whose body is itself a loop over [f x] steps. *)
Lemma for_each_nest {S X Y} (l : list X) (f : X -> list Y) (g : X -> S -> comp S)
    (body : Y -> S -> comp S) s :
  (forall x s, x ∈ l -> g x s = for_each (f x) body s) ->
  for_each l g s = for_each (flat_map f l) body s.
Proof. intros H. rewrite <- for_each_flat. by apply for_each_ext. Qed.

Section matmul_lemmas.
Context {P : Profile} {F32 : Type} {f32 : FloatOps F32}.
Context (m k n : nat) (f g : nat -> nat -> F32).
Context (Hm : Z.of_nat m < 2 ^ 63) (Hk : Z.of_nat k < 2 ^ 63) (Hn : Z.of_nat n < 2 ^ 63).
Context (Hmk : usize (m * k)) (Hkn : usize (k * n)) (Hmn : usize (m * n)).
#[local] Abbreviation a := (mat m k f).
#[local] Abbreviation b := (mat k n g).

(** A step adds term [kk] to cell [(i, j)]. *)
Definition update (t : nat * nat * nat) (c : list F32) : comp (list F32) :=
  let '(i, kk, j) := t in
  old ← index c (i * n + j)%nat;
  index_set c (i * n + j)%nat (fadd old (fmul (f i kk) (g kk j))).

Definition inner_steps (i kk j0 : nat) : list (nat * nat * nat) :=
  flat_map (fun j => [(i, kk, j)]) (tile n j0).
Definition tile_steps (i0 j0 k0 : nat) : list (nat * nat * nat) :=
  flat_map (fun i => flat_map (fun kk => inner_steps i kk j0) (tile k k0)) (tile m i0).
Definition matmul_steps : list (nat * nat * nat) :=
  flat_map (fun i0 => flat_map (fun j0 => flat_map (fun k0 => tile_steps i0 j0 k0)
    (step_by k)) (step_by n)) (step_by m).

Lemma matmul_tile_steps i0 j0 k0 c :
  matmul_tile a b k n i0 ((i0 + TILE_SIZE) `min` m) j0 ((j0 + TILE_SIZE) `min` n)
    k0 ((k0 + TILE_SIZE) `min` k) c = for_each (tile_steps i0 j0 k0) update c.
Proof using Hmk Hkn Hmn.
  apply for_each_nest. intros i c1 [_ Hi]%elem_of_tile.
  apply for_each_nest. intros kk c2 [_ Hkk]%elem_of_tile.
  rewrite (cell_index m k) by done.
  rewrite (index_lookup _ _ (f i kk)) by (by apply mat_lookup). rewrite bind_ret.
  apply for_each_nest. intros j c3 [_ Hj]%elem_of_tile.
  cbn [for_each]. rewrite comp_bind_ret_r.
  unfold matmul_update, update.
  rewrite (cell_index k n) by done.
  rewrite (index_lookup _ _ (g kk j)) by (by apply mat_lookup). rewrite bind_ret.
  by rewrite (cell_index m n) by done.
Qed.

Lemma matmul_loops c :
  for_each (step_by m) (fun i0 c =>
    i' ← usize_add i0 TILE_SIZE; let i_end := (i' `min` m)%nat in
    for_each (step_by n) (fun j0 c =>
      j' ← usize_add j0 TILE_SIZE; let j_end := (j' `min` n)%nat in
      for_each (step_by k) (fun k0 c =>
        k' ← usize_add k0 TILE_SIZE; let k_end := (k' `min` k)%nat in
        matmul_tile a b k n i0 i_end j0 j_end k0 k_end c) c) c) c =
  for_each matmul_steps update c.
Proof using Hm Hk Hn Hmk Hkn Hmn.
  apply for_each_nest. intros i0 c1 [_ Hi]%elem_of_step_by. rewrite (tile_end m) by done.
  apply for_each_nest. intros j0 c2 [_ Hj]%elem_of_step_by. rewrite (tile_end n) by done.
  apply for_each_nest. intros k0 c3 [_ Hk0]%elem_of_step_by. rewrite (tile_end k) by done.
  apply matmul_tile_steps.
Qed.

(** The terms a list of steps adds to cell [(i, j)], in order. *)
Definition terms (i j : nat) (l : list (nat * nat * nat)) : list nat :=
  flat_map (fun '(i', kk, j') =>
    if decide (i' = i) then if decide (j' = j) then [kk] else [] else []) l.

Definition accumulate (i j : nat) (x : F32) (l : list nat) : F32 :=
  foldl (fun acc kk => fadd acc (fmul (f i kk) (g kk j))) x l.

(** The matrix of the accumulated cells. *)
Definition partial (l : list (nat * nat * nat)) : list F32 :=
  mat m n (fun i j => accumulate i j fzero (terms i j l)).

Lemma update_partial l i kk j :
  (i < m)%nat -> (j < n)%nat ->
  update (i, kk, j) (partial l) = Ret (partial (l ++ [(i, kk, j)])).
Proof.
  intros Hi Hj. unfold update, partial.
  rewrite (index_lookup _ _ (accumulate i j fzero (terms i j l)))
    by exact (mat_lookup m n (fun i j => accumulate i j fzero (terms i j l)) i j Hi Hj).
  rewrite bind_ret. unfold index_set.
  rewrite decide_True by (rewrite length_mat; by apply cell_lt).
  f_equal. apply mat_ext; [by rewrite length_insert, length_mat |].
  intros i' j' Hi' Hj'. unfold terms. rewrite flat_map_app. cbn [flat_map]. rewrite app_nil_r.
  destruct (decide (i = i' /\ j = j')) as [[<- <-] | Hne].
  - rewrite list_lookup_insert_eq by (rewrite length_mat; by apply cell_lt).
    rewrite !decide_True by done. unfold accumulate. by rewrite foldl_app.
  - rewrite list_lookup_insert_ne by (intros E; apply Hne; by apply (cell_inj n)).
    rewrite mat_lookup by done. f_equal. fold (terms i' j' l).
    assert ((if decide (i = i') then if decide (j = j') then [kk] else [] else []) = [] :> list nat)
      as ->; [| by rewrite app_nil_r].
    destruct (decide (i = i')); [| done]. destruct (decide (j = j')); [| done]. tauto.
Qed.

Lemma updates_partial l l0 :
  Forall (fun '(i, _, j) => (i < m)%nat /\ (j < n)%nat) l ->
  for_each l update (partial l0) = Ret (partial (l0 ++ l)).
Proof.
  revert l0; induction l as [|[[i kk] j] l IH]; intros l0 Hl; [by rewrite app_nil_r |].
  apply Forall_cons in Hl as [[Hi Hj] Hl]. cbn [for_each].
  rewrite update_partial by done. rewrite bind_ret, IH by done.
  by rewrite <- app_assoc.
Qed.

Lemma matmul_steps_in_range :
  Forall (fun '(i, _, j) => (i < m)%nat /\ (j < n)%nat) matmul_steps.
Proof.
  unfold matmul_steps, tile_steps, inner_steps.
  repeat (apply Forall_flat_map, Forall_forall; intros ? ?).
  apply Forall_singleton. split; by eapply elem_of_tile.
Qed.

(** The tiling adds every term to every cell, in increasing order. *)
Lemma matmul_terms i j : (i < m)%nat -> (j < n)%nat -> terms i j matmul_steps = seq 0 k.
Proof.
  intros Hi Hj. unfold terms, matmul_steps, tile_steps, inner_steps.
  rewrite flat_map_flat_map.
  transitivity (flat_map (fun i0 => if decide (i ∈ tile m i0) then seq 0 k else []) (step_by m));
    [| by apply pick_tile].
  apply flat_map_ext_in. intros i0 _. rewrite flat_map_flat_map.
  transitivity (flat_map (fun j0 => if decide (i ∈ tile m i0) then
    (if decide (j ∈ tile n j0) then seq 0 k else []) else []) (step_by n));
    [| by rewrite flat_map_if, pick_tile].
  apply flat_map_ext_in. intros j0 _. rewrite flat_map_flat_map, <- tiles_cover.
  rewrite <- (flat_map_if (j ∈ tile n j0)), <- (flat_map_if (i ∈ tile m i0)).
  apply flat_map_ext_in. intros k0 _. rewrite flat_map_flat_map, <- (pick_range m i0 i).
  apply flat_map_ext_in. intros i' _.
  rewrite flat_map_flat_map.
  transitivity (if decide (i' = i) then if decide (j ∈ tile n j0)
    then flat_map (fun kk => [kk]) (tile k k0) else [] else []); [| by rewrite flat_map_single].
  rewrite <- (flat_map_if (j ∈ tile n j0)), <- (flat_map_if (i' = i)).
  apply flat_map_ext_in. intros kk _.
  rewrite flat_map_flat_map, <- pick_range, <- (flat_map_if (i' = i)). apply flat_map_ext_in. intros j' _.
  apply app_nil_r.
Qed.

End matmul_lemmas.

Section transpose_lemmas.
Context {P : Profile} {F32 : Type} {f32 : FloatOps F32}.
Context (rows cols : nat) (f : nat -> nat -> F32) (Hrc : usize (rows * cols)).

(** The cells of the rows before [i] and of row [i] before column [j] are in place. *)
Definition moved (i j : nat) (d : list F32) : Prop :=
  length d = (cols * rows)%nat /\
  forall i' j', (i' < rows)%nat -> (j' < cols)%nat -> (i' < i \/ i' = i /\ j' < j)%nat ->
    d !! (j' * rows + i')%nat = Some (f i' j').

Lemma moved_step i j d :
  (i < rows)%nat -> (j < cols)%nat -> moved i j d ->
  moved i (S j) (<[(j * rows + i)%nat := f i j]> d).
Proof.
  intros Hi Hj [Hl Hd]. split; [by rewrite length_insert |].
  intros i' j' Hi' Hj' Hlt. destruct (decide (j = j' /\ i = i')) as [[<- <-] | Hne].
  - apply list_lookup_insert_eq. rewrite Hl. by apply cell_lt.
  - rewrite list_lookup_insert_ne by (intros E; apply Hne; by apply (cell_inj rows)).
    apply Hd; [done | done | lia].
Qed.

Lemma transpose_loops d :
  length d = (cols * rows)%nat ->
  for_each (range 0 rows) (fun i =>
    for_each (range 0 cols) (fun j dst =>
      row ← usize_mul i cols; si ← usize_add row j;
      x ← index (mat rows cols f) si;
      col ← usize_mul j rows; di ← usize_add col i;
      index_set dst di x)) d = Ret (mat cols rows (fun j i => f i j)).
Proof using Hrc.
  intros Hl. unfold range. rewrite !Nat.sub_0_r.
  destruct (for_range rows (fun i => for_each (seq 0 cols) (fun j dst =>
      row ← usize_mul i cols; si ← usize_add row j;
      x ← index (mat rows cols f) si;
      col ← usize_mul j rows; di ← usize_add col i;
      index_set dst di x)) (fun i => moved i 0) d) as (r & -> & Hr & Hcells).
  - split; [done | intros; lia].
  - intros i s Hi Hs.
    apply (returns_mono _ (moved i cols)).
    + apply (for_range cols); [exact Hs |]. intros j s' Hj Hs'.
      rewrite (cell_index rows cols) by done.
      rewrite (index_lookup _ _ (f i j)) by (by apply mat_lookup). rewrite bind_ret.
      rewrite (cell_index cols rows) by (done || by rewrite Nat.mul_comm).
      unfold index_set. destruct Hs' as [Hl' Hs'].
      rewrite decide_True by (rewrite Hl'; by apply cell_lt).
      by apply returns_ret, moved_step.
    + intros s' [Hl' Hs']. split; [done |]. intros; apply Hs'; [done | done | lia].
  - f_equal. apply mat_ext; [done |]. intros; apply Hcells; [done | done | lia].
Qed.

End transpose_lemmas.

Lemma assert_length {F A : Type} (l : list F) (p : nat) (r : comp A) :
  (_ ← assert (bool_decide (length l = p)); r) = if decide (length l = p) then r else Panic.
Proof. case_bool_decide; by case_decide. Qed.

Section matrix_theorems.
Context {P : Profile} {F32 : Type} {f32 : FloatOps F32}.

(** Dimensions of slices in memory: at most [isize::MAX], with a product that fits. *)
Definition dims (m n : nat) : Prop :=
  Z.of_nat m < 2 ^ 63 /\ Z.of_nat n < 2 ^ 63 /\ usize (m * n).

Lemma matmul_product (self : MatrixOps) (m k n : nat) (f g : nat -> nat -> F32) (c : list F32) :
  dims m k -> dims k n -> dims m n -> length c = (m * n)%nat ->
  matmul_f32 self (mat m k f) (mat k n g) c m k n =
  Ret (mat m n (fun i j =>
    foldl (fun acc kk => fadd acc (fmul (f i kk) (g kk j))) fzero (seq 0 k))).
Proof.
  intros (Hm & Hk & Hmk) (_ & Hn & Hkn) (_ & _ & Hmn) Hc. unfold matmul_f32.
  rewrite (usize_mul_ok m k), (usize_mul_ok k n), (usize_mul_ok m n) by done.
  rewrite !bind_ret, !assert_length, !length_mat, !decide_True by done.
  rewrite fill_ok by lia. rewrite bind_ret. rewrite matmul_loops by done.
  assert (take 0 c ++ replicate (length c - 0) fzero ++ drop (length c) c
          = partial m n f g []) as ->.
  { rewrite drop_ge, app_nil_r, Nat.sub_0_r by done. rewrite take_0, app_nil_l. apply mat_ext.
    - by rewrite length_replicate.
    - intros i j Hi Hj. apply lookup_replicate_2. rewrite Hc. by apply cell_lt. }
  rewrite updates_partial, app_nil_l by apply matmul_steps_in_range.
  f_equal. apply mat_ext; [apply length_mat |].
  intros i j Hi Hj. unfold partial. rewrite mat_lookup by done. f_equal.
  by rewrite matmul_terms.
Qed.

Lemma matmul_wrong_length (self : MatrixOps) (m k n : nat) (a b c : list F32) :
  dims m k -> dims k n -> dims m n ->
  (length a, length b, length c) <> (m * k, k * n, m * n)%nat ->
  matmul_f32 self a b c m k n = Panic.
Proof using f32.
  intros (Hm & Hk & Hmk) (_ & Hn & Hkn) (_ & _ & Hmn) Hl. unfold matmul_f32.
  rewrite (usize_mul_ok m k), (usize_mul_ok k n), (usize_mul_ok m n) by done.
  rewrite !bind_ret, !assert_length. repeat case_decide; congruence.
Qed.

(** C19. The tiled multiplication is the matrix product: every cell is the
    fold, from [0.0] and in increasing [kk], of [A(i,kk) * B(kk,j)], in the
    given arithmetic, so the tiling changes no bit of the naive triple loop;
    the previous content of the output is ignored, no index leaves a slice,
    and a slice of the wrong size panics. *)
Theorem matmul_spec (self : MatrixOps) (m k n : nat) :
  dims m k -> dims k n -> dims m n ->
  (forall (f g : nat -> nat -> F32) (c : list F32),
     length c = (m * n)%nat ->
     matmul_f32 self (mat m k f) (mat k n g) c m k n =
     Ret (mat m n (fun i j =>
       foldl (fun acc kk => fadd acc (fmul (f i kk) (g kk j))) fzero (seq 0 k)))) /\
  (forall a b c : list F32,
     (length a, length b, length c) <> (m * k, k * n, m * n)%nat ->
     matmul_f32 self a b c m k n = Panic).
Proof.
  intros Hmk Hkn Hmn. split; intros.
  - by apply matmul_product.
  - by apply matmul_wrong_length.
Qed.

(** [transpose_f32] moves entry [(i, j)] to [(j, i)], whatever the output
    held, so transposing twice gives the source back; a slice of the wrong
    size panics. *)
Theorem transpose_spec (self : MatrixOps) (rows cols : nat) :
  dims rows cols ->
  (forall (f : nat -> nat -> F32) (dst : list F32),
     length dst = (rows * cols)%nat ->
     transpose_f32 self (mat rows cols f) dst rows cols = Ret (mat cols rows (fun j i => f i j))) /\
  (forall src dst back : list F32,
     length src = (rows * cols)%nat -> length dst = (rows * cols)%nat ->
     length back = (rows * cols)%nat ->
     (t ← transpose_f32 self src dst rows cols; transpose_f32 self t back cols rows) = Ret src) /\
  (forall src dst : list F32,
     (length src, length dst) <> (rows * cols, rows * cols)%nat ->
     transpose_f32 self src dst rows cols = Panic).
Proof using f32.
  intros (Hr & Hc & Hrc).
  assert (Hcr : usize (cols * rows)) by by rewrite Nat.mul_comm.
  assert (forall r c (f : nat -> nat -> F32) dst, usize (r * c) -> length dst = (r * c)%nat ->
    transpose_f32 self (mat r c f) dst r c = Ret (mat c r (fun j i => f i j))) as Ht.
  { intros r c f dst H Hd. unfold transpose_f32. rewrite !usize_mul_ok by done.
    rewrite !bind_ret, !assert_length, length_mat, !decide_True by done.
    apply transpose_loops; [done | lia]. }
  split; [by intros; apply Ht |]. split.
  - intros src dst back Hs Hd Hb.
    assert (src = mat rows cols (fun i j => default fzero (src !! (i * cols + j)%nat))) as ->.
    { apply mat_ext; [done |]. intros i j Hi Hj.
      destruct (lookup_lt_is_Some_2 src (i * cols + j)) as [x ->]; [| done].
      rewrite Hs. by apply cell_lt. }
    by rewrite Ht, bind_ret, Ht by (done || lia).
  - intros src dst Hl. unfold transpose_f32. rewrite !usize_mul_ok by done.
    rewrite !bind_ret, !assert_length. repeat case_decide; congruence.
Qed.

End matrix_theorems.

(** ** Witnesses: integer arithmetic in place of a float's *)

#[export] Instance int_ops : FloatOps Z := mkFloatOps Z 0 0 Z.add Z.mul.

Definition avx2_machine : Machine :=
  mkMachine x86_64 (fun f => bool_decide (f ∈ ["sse4.1"; "sse4.2"; "avx"; "avx2"]%string)).

Definition count_to (n : nat) : list Z := Z.of_nat <$> seq 1 n.

Lemma elementwise_witness :
  vadd_f32 (M := avx2_machine) (with_caps (detect (H := avx2_machine)))
    (count_to 11) (count_to 11) (replicate 11 0) = Ret (zip_with Z.add (count_to 11) (count_to 11)).
Proof.
  destruct (elementwise_spec (M := avx2_machine) (F32 := Z) (F64 := Z)) as [Hs H].
  exact (proj1 (proj1 (H (with_caps (detect (H := avx2_machine))) Hs) (count_to 11) (count_to 11)
    (replicate 11 0))).
Defined.

Lemma dot_exact_witness :
  exists r, dot_f32 (M := avx2_machine) (f32 := binary32) (SimdOps_new (H := avx2_machine))
      (f32_of_int <$> count_to 10) (f32_of_int <$> count_to 10) = Ret r /\ holds_f32 r 385.
Proof.
  assert (H : Forall2 holds_f32 (f32_of_int <$> count_to 10) (count_to 10)).
  { apply Forall2_fmap_l, Forall_Forall2_diag, Forall_forall. intros z Hz.
    apply of_int_holds; [done | done |]. unfold count_to in Hz.
    apply list_elem_of_fmap in Hz as (i & -> & Hi%elem_of_seq). lia. }
  exact (dot_exact (M := avx2_machine) (SimdOps_new (H := avx2_machine))
    (f32_of_int <$> count_to 10) (f32_of_int <$> count_to 10) (count_to 10) (count_to 10)
    (detect_supported (H := avx2_machine)) H H ltac:(discriminate)).
Defined.

Lemma matmul_witness :
  matmul_f32 (P := dev) (MatrixOps_new (H := avx2_machine)) [1; 2; 3; 4] [5; 6; 7; 8] [9; 9; 9; 9]
    2 2 2 = Ret [19; 22; 43; 50].
Proof.
  assert (Hd : dims 2 2) by (unfold dims, usize; split; [lia |]; split; [lia | by vm_compute]).
  exact (proj1 (matmul_spec (P := dev) (MatrixOps_new (H := avx2_machine)) 2 2 2 Hd Hd Hd)
    (fun i j => Z.of_nat (2 * i + j + 1)) (fun i j => Z.of_nat (2 * i + j + 5)) [9; 9; 9; 9] eq_refl).
Defined.

Lemma transpose_witness :
  transpose_f32 (P := dev) (MatrixOps_new (H := avx2_machine)) [1; 2; 3; 4; 5; 6] (replicate 6 0)
    2 3 = Ret [1; 4; 2; 5; 3; 6].
Proof.
  assert (Hd : dims 2 3) by (unfold dims, usize; split; [lia |]; split; [lia | by vm_compute]).
  exact (proj1 (transpose_spec (P := dev) (MatrixOps_new (H := avx2_machine)) 2 3 Hd)
    (fun i j => Z.of_nat (3 * i + j + 1)) (replicate 6 0) eq_refl).
Defined.
