(* ===== verification/SimdError.v ===== *)
(** * SimdError: the accuracy of dot products and of matrix products ([simd.rs])

    The error bounds of [Rounding], for IEEE 754 [f32], of [dot_f32] with every
    kernel and of [matmul_f32]; and the obligation "SIMD matches naive" of
    contracts/matmul-v1.yaml. *)

From Stdlib Require Import SpecFloat Reals Lra.
From S2P Require Import Prelude Float Rounding Simd.

#[local] Existing Instance binary32.
#[local] Open Scope R_scope.

(** The unit roundoff of [f32] and half its least positive number. *)
Definition f32_u : R := / 2 ^ 24.
Definition f32_eta : R := / 2 ^ 150.

(** The error of a sum of [n] products of total magnitude [m], each below at most
    [h] additions. *)
Definition error_bound (h n : nat) (m : R) : R :=
  ((1 + f32_u) ^ S h - 1) * m + INR n * f32_eta * (1 + f32_u) ^ h.

Lemma pow2_inv n : pow2 (- Z.of_nat n) = / 2 ^ n.
Proof. unfold pow2. by rewrite powerRZ_neg', <- pow_powerRZ. Qed.

Lemma f32_sum_error h l s :
  sum_of_products h l s -> is_finite s = true ->
  Forall (fun p => is_finite p.1 = true /\ is_finite p.2 = true) l /\
  Rabs (F2R s - dot_real l) <= error_bound h (length l) (dot_magnitude l).
Proof.
  intros Hs Hf. destruct (sum_error 24 128 ltac:(done) ltac:(done) h l s Hs Hf) as (_ & Hl & He).
  split; [done |]. unfold unit_roundoff, underflow in He.
  change (emin 24 128 - 1)%Z with (- Z.of_nat 150)%Z in He.
  change (-24)%Z with (- Z.of_nat 24)%Z in He. rewrite !pow2_inv in He. exact He.
Qed.

Lemma f32_u_pos : 0 < f32_u.
Proof. apply Rinv_0_lt_compat, pow_lt. lra. Qed.

Lemma f32_eta_pos : 0 < f32_eta.
Proof. apply Rinv_0_lt_compat, pow_lt. lra. Qed.

Lemma error_bound_mono h k n m : (h <= k)%nat -> 0 <= m -> error_bound h n m <= error_bound k n m.
Proof.
  intros Hk Hm. pose proof f32_u_pos. pose proof f32_eta_pos.
  apply (bound_weaken f32_u _ _ _ h k); try done.
  apply Rmult_le_pos; [apply pos_INR | lra].
Qed.

(** [(1 + u)^k <= 1 / (1 - k u)]. *)
Lemma pow_bernoulli u k : 0 <= u -> (1 + u) ^ k * (1 - INR k * u) <= 1.
Proof.
  intros Hu. induction k as [|k IH]; [cbn; lra |].
  rewrite S_INR. cbn [pow]. pose proof (pos_INR k).
  assert (0 <= (1 + u) ^ k) by (apply pow_le; lra).
  assert ((1 + u) * (1 - (INR k + 1) * u) <= 1 - INR k * u) by nra. nra.
Qed.

(** Below 80 products of numbers in [[-1, 1]] the error is within half the
    tolerance of the contract. *)
Lemma error_bound_small h n m :
  (h <= 80)%nat -> 0 <= m <= INR n -> 2 * error_bound h n m <= INR n / 10 ^ 5.
Proof.
  intros Hh Hm. pose proof f32_u_pos as Hu. pose proof f32_eta_pos as He.
  assert (Hle : error_bound h n m <= error_bound 80 n m) by (apply error_bound_mono; [lia | lra]).
  unfold error_bound in Hle at 2.
  assert (HP : (1 + f32_u) ^ 81 <= 1 + 49 / 10 ^ 7).
  { pose proof (pow_bernoulli f32_u 81 ltac:(lra)) as H. revert H.
    rewrite INR_IZR_INZ. change (Z.of_nat 81) with 81%Z.
    generalize ((1 + f32_u) ^ 81) as P. intros P. unfold f32_u. lra. }
  assert (HQ : (1 + f32_u) ^ 80 <= (1 + f32_u) ^ 81) by (apply Rle_pow; [lra | lia]).
  assert (Heta : f32_eta <= / 10 ^ 8).
  { apply Rinv_le_contravar; [apply pow_lt; lra |]. apply Rle_trans with (2 ^ 30); [lra |].
    apply Rle_pow; [lra | lia]. }
  assert (H1 : ((1 + f32_u) ^ 81 - 1) * m <= 49 / 10 ^ 7 * INR n).
  { apply Rmult_le_compat; try lra.
    enough (1 <= (1 + f32_u) ^ 81) by lra. apply pow_R1_Rle. lra. }
  assert (H2 : INR n * f32_eta * (1 + f32_u) ^ 80 <= INR n * (/ 10 ^ 8 * 2)).
  { rewrite Rmult_assoc. apply Rmult_le_compat_l; [lra |].
    apply Rmult_le_compat; try lra. apply pow_le; lra. }
  lra.
Qed.

Lemma dot_depth_le {M : Machine} self n : (dot_depth self n <= n)%nat.
Proof.
  unfold dot_depth, avx2_depth. destruct (on_arch _ && _) eqn:E; [| done].
  apply andb_true_iff in E as [_ [_ E%Nat.leb_le]%andb_true_iff].
  pose proof (Nat.div_mod n 8 ltac:(done)).
  assert (1 <= n / 8)%nat by by apply Nat.div_le_lower_bound. lia.
Qed.

Lemma unit_magnitude l :
  Forall (fun p => Rabs (F2R p.1) <= 1 /\ Rabs (F2R p.2) <= 1) l ->
  0 <= dot_magnitude l <= INR (length l).
Proof.
  intros Hl. split; [apply dot_bounded |]. unfold dot_magnitude.
  induction Hl as [|[x y] l [Hx Hy] _ IH]; [cbn; lra |]. cbn [foldr length fst snd] in *.
  rewrite S_INR, Rabs_mult. pose proof (Rabs_pos (F2R x)). pose proof (Rabs_pos (F2R y)). nra.
Qed.

(** C20. The accuracy of [dot_f32] on any [f32] vectors of equal length [n]: it
    returns, and a finite result differs from the exact sum of the products by at
    most [((1 + u)^(h + 1) - 1)] times the sum of their absolute values, plus
    [n eta (1 + u)^h] for underflow, where [u] is [2^-24], [eta] is [2^-150] and
    [h] is the number of additions a product can be below: [n] in the scalar
    loop, [n/8 + 3 + n mod 8] in the AVX2 kernel, which is never more.  So the
    kernels differ by at most twice the bound of the scalar loop; for up to 80
    products of numbers in [[-1, 1]] by at most [n / 10^5], the tolerance of
    contracts/matmul-v1.yaml. *)
Theorem dot_error {M : Machine} (self : SimdOps) (a b : list spec_float) :
  supported (caps self) -> length a = length b ->
  exists r, dot_f32 self a b = Ret r /\ (is_finite r = true ->
  let n := length a in
  Forall (fun p => is_finite p.1 = true /\ is_finite p.2 = true) (zip a b) /\
  Rabs (F2R r - dot_real (zip a b)) <= error_bound (dot_depth self n) n (dot_magnitude (zip a b)) /\
  (dot_depth self n <= n)%nat /\
  (is_finite (dot_f32_scalar a b) = true ->
   Rabs (F2R r - F2R (dot_f32_scalar a b)) <= 2 * error_bound n n (dot_magnitude (zip a b)) /\
   ((n <= 80)%nat ->
    Forall (fun p => Rabs (F2R p.1) <= 1 /\ Rabs (F2R p.2) <= 1) (zip a b) ->
    Rabs (F2R r - F2R (dot_f32_scalar a b)) <= INR n / 10 ^ 5))).
Proof.
  intros Hs E. pose proof (dot_f32_sum self a b Hs) as H. unfold same_length in H.
  rewrite bool_decide_eq_true_2 in H by done.
  destruct H as (r & Hr & Hsum). exists r. split; [done |]. intros Hf n.
  assert (Hl : length (zip a b) = n) by (rewrite length_zip_with; lia).
  destruct (f32_sum_error _ _ _ Hsum Hf) as [Hfin Herr]. rewrite Hl in Herr. fold n in Herr.
  split; [done |]. split; [done |]. split; [apply dot_depth_le |]. intros Hf'.
  destruct (f32_sum_error _ _ _ (dot_scalar_sum a b E) Hf') as [_ Herr']. rewrite Hl in Herr'.
  fold n in Herr'. pose proof (dot_bounded (zip a b)) as [Hm _].
  pose proof (error_bound_mono _ _ n _ (dot_depth_le self n) Hm).
  assert (Hd : Rabs (F2R r - F2R (dot_f32_scalar a b)) <= 2 * error_bound n n (dot_magnitude (zip a b))).
  { pose proof (Rabs_triang (F2R r - dot_real (zip a b))
      (- (F2R (dot_f32_scalar a b) - dot_real (zip a b)))) as Ht. rewrite Rabs_Ropp in Ht.
    replace (F2R r - F2R (dot_f32_scalar a b)) with (F2R r - dot_real (zip a b) +
      - (F2R (dot_f32_scalar a b) - dot_real (zip a b))) by lra. lra. }
  split; [exact Hd |]. intros Hn Hone. eapply Rle_trans; [exact Hd |].
  apply error_bound_small; [done |]. rewrite <- Hl. by apply unit_magnitude.
Qed.

(** C29. The accuracy of [matmul_f32]: into a buffer of the right length it returns
    the product of an [m] by [k] and a [k] by [n] matrix of [f32] numbers, and every
    finite entry is within the same bound, with [k] additions, of the exact inner
    product of its row and its column. *)
Theorem matmul_error {P : Profile} (self : MatrixOps) m k n (f g : nat -> nat -> spec_float) c :
  dims m k -> dims k n -> dims m n -> length c = (m * n)%nat ->
  exists r, matmul_f32 self (mat m k f) (mat k n g) c m k n = Ret r /\ length r = (m * n)%nat /\
  forall i j x, (i < m)%nat -> (j < n)%nat -> r !! (i * n + j)%nat = Some x -> is_finite x = true ->
  let row_column := (fun kk => (f i kk, g kk j)) <$> seq 0 k in
  Rabs (F2R x - dot_real row_column) <= error_bound k k (dot_magnitude row_column).
Proof.
  intros Hmk Hkn Hmn Hc. rewrite matmul_product by done. eexists. split; [done |].
  split; [apply length_mat |]. intros i j x Hi Hj Hx Hf row_column.
  rewrite mat_lookup in Hx by done. injection Hx as <-.
  pose proof (sum_foldl (f i) (fun kk => g kk j) (seq 0 k) fzero 0 [] sum_fzero) as H.
  cbn [app] in H. rewrite length_seq in H.
  destruct (f32_sum_error _ _ _ H Hf) as [_ Herr]. unfold row_column.
  by rewrite length_fmap, length_seq in Herr.
Qed.

(** ** Witnesses *)

Lemma dot_error_witness :
  let a := f32_of_int <$> count_to 10 in
  Rabs (F2R (f32_of_int 385) - dot_real (zip a a)) <= error_bound 6 10 (dot_magnitude (zip a a)).
Proof.
  set (a := f32_of_int <$> count_to 10).
  assert (Hd : dot_f32 (M := avx2_machine) (SimdOps_new (H := avx2_machine)) a a = Ret (f32_of_int 385))
    by (vm_compute; reflexivity).
  destruct (dot_error (M := avx2_machine) (SimdOps_new (H := avx2_machine)) a a
    (detect_supported (H := avx2_machine)) eq_refl) as (r & Hr & He).
  rewrite Hd in Hr. injection Hr as <-. exact (proj1 (proj2 (He eq_refl))).
Defined.

Definition quarter_turn (i j : nat) : spec_float :=
  f32_of_int (if decide (i = j) then 0 else if decide (i < j)%nat then 1 else (-1)).

Lemma matmul_error_witness :
  let row_column := (fun kk => (quarter_turn 0 kk, quarter_turn kk 0)) <$> seq 0 2 in
  Rabs (F2R (f32_of_int (-1)) - dot_real row_column) <=
    error_bound 2 2 (dot_magnitude row_column).
Proof.
  assert (Hd : dims 2 2) by (unfold dims, usize; split; [lia |]; split; [lia | by vm_compute]).
  assert (Hm : matmul_f32 (P := dev) (MatrixOps_new (H := avx2_machine)) (mat 2 2 quarter_turn)
    (mat 2 2 quarter_turn) (replicate 4 (f32_of_int 0)) 2 2 2 =
    Ret (f32_of_int <$> [-1; 0; 0; -1]%Z)) by (vm_compute; reflexivity).
  destruct (matmul_error (P := dev) (MatrixOps_new (H := avx2_machine)) 2 2 2 quarter_turn
    quarter_turn (replicate 4 (f32_of_int 0)) Hd Hd Hd eq_refl) as (r & Hr & _ & He).
  rewrite Hm in Hr. injection Hr as <-.
  exact (He 0%nat 0%nat (f32_of_int (-1)) ltac:(lia) ltac:(lia) eq_refl eq_refl).
Defined.
