(* ===== verification/Abi.v ===== *)
(** * Abi: the structures shared with the kernel ([io_uring.rs], [ublk.rs])

    The submission and completion entries of io_uring and the control
    command, I/O descriptor and I/O command of ublk, with their accessors, and
    their fields for the memory images of [Layout]. *)

From S2P Require Import Prelude Bytes Layout.

(** ** io_uring: opcodes and flags *)

Definition ioring_ops : list (string * Z) :=
  [("NOP", 0); ("READV", 1); ("WRITEV", 2); ("FSYNC", 3);
   ("READ_FIXED", 4); ("WRITE_FIXED", 5); ("POLL_ADD", 6); ("POLL_REMOVE", 7);
   ("SYNC_FILE_RANGE", 8); ("SENDMSG", 9); ("RECVMSG", 10); ("TIMEOUT", 11);
   ("TIMEOUT_REMOVE", 12); ("ACCEPT", 13); ("ASYNC_CANCEL", 14); ("LINK_TIMEOUT", 15);
   ("CONNECT", 16); ("FALLOCATE", 17); ("OPENAT", 18); ("CLOSE", 19);
   ("FILES_UPDATE", 20); ("STATX", 21); ("READ", 22); ("WRITE", 23);
   ("FADVISE", 24); ("MADVISE", 25); ("SEND", 26); ("RECV", 27);
   ("OPENAT2", 28); ("EPOLL_CTL", 29); ("SPLICE", 30); ("PROVIDE_BUFFERS", 31);
   ("REMOVE_BUFFERS", 32); ("TEE", 33); ("SHUTDOWN", 34); ("RENAMEAT", 35);
   ("UNLINKAT", 36); ("MKDIRAT", 37); ("SYMLINKAT", 38); ("LINKAT", 39);
   ("MSG_RING", 40); ("FGETXATTR", 41); ("FSETXATTR", 42); ("GETXATTR", 43);
   ("SETXATTR", 44); ("SOCKET", 45); ("URING_CMD", 46); ("SEND_ZC", 47);
   ("SENDMSG_ZC", 48)]%string.
Definition IORING_OP_LAST : Z := 49.
Definition IORING_OP_NOP : Z := 0.
Definition IORING_OP_READ : Z := 22.
Definition IORING_OP_WRITE : Z := 23.
Definition IORING_OP_URING_CMD : Z := 46.

Definition IOSQE_FIXED_FILE : Z := Z.shiftl 1 0.
Definition IOSQE_IO_LINK : Z := Z.shiftl 1 2.
Definition IOSQE_ASYNC : Z := Z.shiftl 1 4.
Definition IORING_CQE_F_MORE : Z := Z.shiftl 1 1.

(** Every flag of a submission and of a completion, in declaration order. *)
Definition iosqe_flags : list (string * Z) :=
  [("FIXED_FILE", Z.shiftl 1 0); ("IO_DRAIN", Z.shiftl 1 1); ("IO_LINK", Z.shiftl 1 2);
   ("IO_HARDLINK", Z.shiftl 1 3); ("ASYNC", Z.shiftl 1 4); ("BUFFER_SELECT", Z.shiftl 1 5);
   ("CQE_SKIP_SUCCESS", Z.shiftl 1 6)]%string.
Definition cqe_f_flags : list (string * Z) :=
  [("MORE", Z.shiftl 1 1); ("SOCK_NONEMPTY", Z.shiftl 1 2); ("NOTIF", Z.shiftl 1 3)]%string.

(** ** Submission queue entry *)

Record IoUringSqe := mkSqe {
  opcode : Z; sqe_flags : Z; ioprio : Z; fd : Z; off : Z; sqe_addr : Z; sqe_len : Z;
  sqe_op_flags : Z; sqe_user_data : Z; buf_index : Z; personality : Z; splice_fd_in : Z;
  addr3 : Z; pad2 : Z }.

Definition IoUringSqe_new : IoUringSqe := mkSqe 0 0 0 (-1) 0 0 0 0 0 0 0 0 0 0.
Definition IoUringSqe_default : IoUringSqe := IoUringSqe_new.

Definition nop (user_data : Z) : IoUringSqe :=
  mkSqe IORING_OP_NOP 0 0 (-1) 0 0 0 0 user_data 0 0 0 0 0.

Definition uring_cmd (fd cmd_op user_data : Z) : IoUringSqe :=
  mkSqe IORING_OP_URING_CMD 0 0 fd 0 0 0 cmd_op user_data 0 0 0 0 0.

Definition read (fd buf len offset user_data : Z) : IoUringSqe :=
  mkSqe IORING_OP_READ 0 0 fd offset buf len 0 user_data 0 0 0 0 0.

Definition write (fd buf len offset user_data : Z) : IoUringSqe :=
  mkSqe IORING_OP_WRITE 0 0 fd offset buf len 0 user_data 0 0 0 0 0.

Definition or_flags (s : IoUringSqe) (bit : Z) : IoUringSqe :=
  mkSqe (opcode s) (Z.lor (sqe_flags s) bit) (ioprio s) (fd s) (off s) (sqe_addr s) (sqe_len s)
    (sqe_op_flags s) (sqe_user_data s) (buf_index s) (personality s) (splice_fd_in s)
    (addr3 s) (pad2 s).

Definition set_async (s : IoUringSqe) : IoUringSqe := or_flags s IOSQE_ASYNC.
Definition set_link (s : IoUringSqe) : IoUringSqe := or_flags s IOSQE_IO_LINK.
Definition set_fixed_file (s : IoUringSqe) : IoUringSqe := or_flags s IOSQE_FIXED_FILE.

Definition is_uring_cmd (s : IoUringSqe) : bool := opcode s =? IORING_OP_URING_CMD.
Definition is_nop (s : IoUringSqe) : bool := opcode s =? IORING_OP_NOP.

(** The fields with their types' widths, in declaration order. *)
Definition sqe_fields (s : IoUringSqe) : list (nat * Z) :=
  [(1%nat, opcode s); (1%nat, sqe_flags s); (2%nat, ioprio s); (4%nat, fd s); (8%nat, off s);
   (8%nat, sqe_addr s); (4%nat, sqe_len s); (4%nat, sqe_op_flags s); (8%nat, sqe_user_data s);
   (2%nat, buf_index s); (2%nat, personality s); (4%nat, splice_fd_in s); (8%nat, addr3 s);
   (8%nat, pad2 s)].

(** ** Completion queue entry *)

Record IoUringCqe := mkCqe { cqe_user_data : Z; res : Z; cqe_flags : Z }.

Definition IoUringCqe_new (user_data res flags : Z) : IoUringCqe := mkCqe user_data res flags.
Definition IoUringCqe_default : IoUringCqe := IoUringCqe_new 0 0 0.

Definition cqe_is_success (c : IoUringCqe) : bool := 0 <=? res c.
Definition is_error (c : IoUringCqe) : bool := res c <? 0.
Definition errno {P : Profile} (c : IoUringCqe) : comp Z :=
  if res c <? 0 then neg_w 32 (res c) else Ret 0.
Definition result (c : IoUringCqe) : option Z :=
  if 0 <=? res c then Some (wrap 32 (res c)) else None.
Definition has_more (c : IoUringCqe) : bool :=
  negb (Z.land (cqe_flags c) IORING_CQE_F_MORE =? 0).

Definition cqe_fields (c : IoUringCqe) : list (nat * Z) :=
  [(8%nat, cqe_user_data c); (4%nat, res c); (4%nat, cqe_flags c)].

(** ** ublk: opcodes *)

Definition ublk_ctrl_cmds : list (string * Z) :=
  [("ADD_DEV", 0xc0207504); ("DEL_DEV", 0xc0207505); ("START_DEV", 0xc0207506);
   ("STOP_DEV", 0xc0207507); ("SET_PARAMS", 0xc0207508); ("GET_PARAMS", 0x80207509);
   ("GET_QUEUE_AFFINITY", 0x8020750a); ("GET_DEV_INFO", 0x8020750b)]%string.
Definition ublk_io_cmds : list (string * Z) :=
  [("FETCH_REQ", 0xc0107520); ("COMMIT_AND_FETCH_REQ", 0xc0107521);
   ("NEED_GET_DATA", 0xc0107522)]%string.
Definition ublk_features : list (string * Z) :=
  [("SUPPORT_ZERO_COPY", Z.shiftl 1 0); ("URING_CMD_COMP_IN_TASK", Z.shiftl 1 1);
   ("NEED_GET_DATA", Z.shiftl 1 2); ("USER_COPY", Z.shiftl 1 7);
   ("CMD_IOCTL_ENCODE", Z.shiftl 1 6); ("UNPRIVILEGED_DEV", Z.shiftl 1 5)]%string.
Definition ublk_io_ops : list (string * Z) :=
  [("READ", 0); ("WRITE", 1); ("FLUSH", 2); ("DISCARD", 3); ("WRITE_ZEROES", 4)]%string.

Definition UBLK_IO_OP_READ : Z := 0.
Definition UBLK_IO_OP_WRITE : Z := 1.
Definition UBLK_IO_OP_FLUSH : Z := 2.
Definition UBLK_IO_F_FUA : Z := Z.shiftl 1 8.

(** ** Control command *)

Record UblkCtrlCmd := mkCtrlCmd {
  dev_id : Z; queue_id : Z; ctrl_len : Z; ctrl_addr : Z; data : Z; dev_path_len : Z; pad : Z;
  reserved : Z }.

Definition UblkCtrlCmd_new (dev_id : Z) : UblkCtrlCmd := mkCtrlCmd dev_id 0 0 0 0 0 0 0.
Definition with_queue (dev_id queue_id : Z) : UblkCtrlCmd := mkCtrlCmd dev_id queue_id 0 0 0 0 0 0.
Definition set_data (c : UblkCtrlCmd) (addr len : Z) : UblkCtrlCmd :=
  mkCtrlCmd (dev_id c) (queue_id c) len addr (data c) (dev_path_len c) (pad c) (reserved c).
Definition set_extra_data (c : UblkCtrlCmd) (d : Z) : UblkCtrlCmd :=
  mkCtrlCmd (dev_id c) (queue_id c) (ctrl_len c) (ctrl_addr c) d (dev_path_len c) (pad c)
    (reserved c).
Definition UblkCtrlCmd_default : UblkCtrlCmd := UblkCtrlCmd_new 0.

Definition ctrl_fields (c : UblkCtrlCmd) : list (nat * Z) :=
  [(4%nat, dev_id c); (2%nat, queue_id c); (2%nat, ctrl_len c); (8%nat, ctrl_addr c);
   (8%nat, data c); (2%nat, dev_path_len c); (2%nat, pad c); (4%nat, reserved c)].

(** ** I/O descriptor *)

Record UblkIoDesc := mkIoDesc {
  op_flags : Z; nr_sectors : Z; start_sector : Z; desc_addr : Z }.

Definition UblkIoDesc_new (op start_sector nr_sectors : Z) : UblkIoDesc :=
  mkIoDesc op nr_sectors start_sector 0.
Definition op (d : UblkIoDesc) : Z := Z.land (op_flags d) 0xFF.
Definition flags (d : UblkIoDesc) : Z := Z.land (op_flags d) (wrap 32 (Z.lnot 0xFF)).
Definition is_read (d : UblkIoDesc) : bool := op d =? UBLK_IO_OP_READ.
Definition is_write (d : UblkIoDesc) : bool := op d =? UBLK_IO_OP_WRITE.
Definition is_flush (d : UblkIoDesc) : bool := op d =? UBLK_IO_OP_FLUSH.
Definition is_fua (d : UblkIoDesc) : bool := negb (Z.land (op_flags d) UBLK_IO_F_FUA =? 0).
Definition desc_set_addr (d : UblkIoDesc) (addr : Z) : UblkIoDesc :=
  mkIoDesc (op_flags d) (nr_sectors d) (start_sector d) addr.
Definition byte_offset {P : Profile} (d : UblkIoDesc) : comp Z := mul_w 64 (start_sector d) 512.
Definition byte_len {P : Profile} (d : UblkIoDesc) : comp Z := mul_w 64 (nr_sectors d) 512.
Definition UblkIoDesc_default : UblkIoDesc := UblkIoDesc_new UBLK_IO_OP_READ 0 0.

Definition desc_fields (d : UblkIoDesc) : list (nat * Z) :=
  [(4%nat, op_flags d); (4%nat, nr_sectors d); (8%nat, start_sector d); (8%nat, desc_addr d)].

(** ** I/O command *)

Record UblkIoCmd := mkIoCmd { q_id : Z; tag : Z; cmd_result : Z; cmd_addr : Z }.

Definition UblkIoCmd_new (q_id tag : Z) : UblkIoCmd := mkIoCmd q_id tag 0 0.
Definition completed (q_id tag result : Z) : UblkIoCmd := mkIoCmd q_id tag result 0.
Definition set_result (c : UblkIoCmd) (r : Z) : UblkIoCmd := mkIoCmd (q_id c) (tag c) r (cmd_addr c).
Definition cmd_set_addr (c : UblkIoCmd) (a : Z) : UblkIoCmd :=
  mkIoCmd (q_id c) (tag c) (cmd_result c) a.
Definition cmd_is_success (c : UblkIoCmd) : bool := 0 <=? cmd_result c.
Definition UblkIoCmd_default : UblkIoCmd := UblkIoCmd_new 0 0.

Definition cmd_fields (c : UblkIoCmd) : list (nat * Z) :=
  [(2%nat, q_id c); (2%nat, tag c); (4%nat, cmd_result c); (8%nat, cmd_addr c)].

(** ** Layout and commands *)

(** Each structure has the documented layout: its size is the one the
    kernel expects (64, 16, 32, 24 and 16 bytes) with 8-byte alignment and no
    padding byte, and in its memory image every field, the [user_data] cookie
    among them, is at the documented offset with its value, little endian.
    The opcodes of io_uring number 0 to 48, and each ublk command number
    carries the size of the structure it passes; the flags of each word are
    distinct single bits of its width, and a ublk operation fits the low byte
    that [op] reads. *)
Theorem struct_images :
  (forall gaps s, length (image gaps (sqe_fields s)) = 64%nat /\ align_of (sqe_fields s).*1 = 8%nat /\
     sum_list (sqe_fields s).*1 = 64%nat /\
     holds_at (image gaps (sqe_fields s))
       [(0, (1, opcode s)); (1, (1, sqe_flags s)); (2, (2, ioprio s)); (4, (4, fd s));
        (8, (8, off s)); (16, (8, sqe_addr s)); (24, (4, sqe_len s)); (28, (4, sqe_op_flags s));
        (32, (8, sqe_user_data s)); (40, (2, buf_index s)); (42, (2, personality s));
        (44, (4, splice_fd_in s)); (48, (8, addr3 s)); (56, (8, pad2 s))]%nat) /\
  (forall gaps c, length (image gaps (cqe_fields c)) = 16%nat /\ align_of (cqe_fields c).*1 = 8%nat /\
     sum_list (cqe_fields c).*1 = 16%nat /\
     holds_at (image gaps (cqe_fields c))
       [(0, (8, cqe_user_data c)); (8, (4, res c)); (12, (4, cqe_flags c))]%nat) /\
  (forall gaps c, length (image gaps (ctrl_fields c)) = 32%nat /\ align_of (ctrl_fields c).*1 = 8%nat /\
     sum_list (ctrl_fields c).*1 = 32%nat /\
     holds_at (image gaps (ctrl_fields c))
       [(0, (4, dev_id c)); (4, (2, queue_id c)); (6, (2, ctrl_len c)); (8, (8, ctrl_addr c));
        (16, (8, data c)); (24, (2, dev_path_len c)); (26, (2, pad c)); (28, (4, reserved c))]%nat) /\
  (forall gaps d, length (image gaps (desc_fields d)) = 24%nat /\ align_of (desc_fields d).*1 = 8%nat /\
     sum_list (desc_fields d).*1 = 24%nat /\
     holds_at (image gaps (desc_fields d))
       [(0, (4, op_flags d)); (4, (4, nr_sectors d)); (8, (8, start_sector d));
        (16, (8, desc_addr d))]%nat) /\
  (forall gaps c, length (image gaps (cmd_fields c)) = 16%nat /\ align_of (cmd_fields c).*1 = 8%nat /\
     sum_list (cmd_fields c).*1 = 16%nat /\
     holds_at (image gaps (cmd_fields c))
       [(0, (2, q_id c)); (2, (2, tag c)); (4, (4, cmd_result c)); (8, (8, cmd_addr c))]%nat) /\
  ioring_ops.*2 = seqZ 0 IORING_OP_LAST /\
  (forall c, Forall (fun z => ioc_size z = Z.of_nat (size_of (ctrl_fields c).*1) /\
     ioc_type z = 0x75) ublk_ctrl_cmds.*2) /\
  (forall c, Forall (fun z => ioc_size z = Z.of_nat (size_of (cmd_fields c).*1) /\
     ioc_type z = 0x75) ublk_io_cmds.*2) /\
  NoDup (ublk_ctrl_cmds.*2 ++ ublk_io_cmds.*2) /\
  flag_set 8 iosqe_flags.*2 /\ flag_set 32 cqe_f_flags.*2 /\ flag_set 64 ublk_features.*2 /\
  Forall (fun o => forall d, 0 <= o < 256 /\ op (UblkIoDesc_new (Z.lor o UBLK_IO_F_FUA) 0 d) = o)
    ublk_io_ops.*2.
Proof.
  do 5 (split; [intros ? ?; split_and!;
    [rewrite length_image; [done | by repeat constructor | by vm_compute; lia] | done | done
    | by apply image_holds; repeat constructor; cbn; lia] |]).
  split; [by vm_compute |].
  do 2 (split; [by intros ?; repeat constructor |]).
  split; [apply (bool_decide_unpack _); by vm_compute |].
  do 3 (split; [by apply flag_set_true |]).
  cbn. repeat (apply Forall_cons; split; [intros d; split; [lia | reflexivity] |]). done.
Qed.

(** A completion is a success or an error, never both, as [res >= 0] says; a
    success carries [res] and errno 0; an error carries no result and the
    positive errno [-res], except that [i32::MIN] has none. *)
Lemma cqe_outcome {P : Profile} (c : IoUringCqe) :
  i32 (res c) ->
  cqe_is_success c = negb (is_error c) /\
  match result c with
  | Some r => cqe_is_success c = true /\ r = res c /\ u32 r /\ errno c = Ret 0
  | None => is_error c = true /\
      errno c = if res c =? - 2 ^ 31 then (if overflow_checks then Panic else Ret (res c))
                else Ret (- res c)
  end.
Proof.
  unfold cqe_is_success, is_error, result, errno, neg_w, schecked. intros Hr.
  assert (swrap 32 (- - 2 ^ 31) = - 2 ^ 31) by reflexivity.
  destruct (Z.leb_spec 0 (res c)), (Z.ltb_spec (res c) 0); try lia; (split; [done |]).
  - split; [done |]. unfold wrap. rewrite Z.mod_small by width.
    split; [done |]. split; [width | done].
  - split; [done |]. destruct (Z.eqb_spec (res c) (- 2 ^ 31)) as [E | E].
    + rewrite decide_False; [by rewrite E | rewrite E; intros [_ Hlt]; by vm_compute in Hlt].
    + rewrite decide_True; [done |]. change (- 2 ^ 31) with (-2147483648) in E. width.
Qed.

(** The two parts of the operation word of a descriptor. *)
Lemma op_flags_split x :
  u32 x -> Z.land x 0xFF + Z.land x (wrap 32 (Z.lnot 0xFF)) = x /\
  Z.land x 0xFF = x mod 256 /\ Z.land x (wrap 32 (Z.lnot 0xFF)) mod 256 = 0.
Proof.
  intros Hx. assert (Hop : Z.land x 0xFF = x mod 256)
    by (change 0xFF with (Z.ones 8); by rewrite Z.land_ones).
  assert (Hfl : Z.land x (wrap 32 (Z.lnot 0xFF)) = 256 * (x / 256)).
  { change (wrap 32 (Z.lnot 0xFF)) with (Z.shiftl (Z.ones 24) 8).
    apply Z.bits_inj'. intros n Hn. rewrite Z.land_spec, Z.shiftl_spec by done.
    rewrite Z.mul_comm. change 256 with (2 ^ 8). rewrite <- Z.shiftl_mul_pow2, <- Z.shiftr_div_pow2 by done.
    rewrite Z.shiftl_spec by done. destruct (Z.ltb_spec n 8).
    - rewrite !(Z.testbit_neg_r _ (n - 8)) by lia. apply andb_false_r.
    - rewrite Z.shiftr_spec by lia. replace (n - 8 + 8) with n by lia.
      rewrite Z.testbit_ones by lia. destruct (Z.ltb_spec (n - 8) 24).
      + replace (0 <=? n - 8) with true by lia. apply andb_true_r.
      + replace (Z.testbit x n) with false; [done |]. symmetry.
        destruct (decide (x = 0)) as [-> | Hne]; [apply Z.bits_0 |].
        apply Z.bits_above_log2; [apply Hx |]. unfold uint in Hx.
        assert (Z.log2 x < 32) by (apply Z.log2_lt_pow2; lia). lia. }
  rewrite Hop, Hfl. split_and!; [| done |].
  - pose proof (Z.div_mod x 256 ltac:(done)). lia.
  - rewrite Z.mul_comm. by apply Z.mod_mul.
Qed.

(** What the words of the two interfaces say, on every input.  A
    completion is a success or an error, never both; a success carries its
    result and errno 0, an error no result and the positive errno, except that
    [i32::MIN] has none: it panics with overflow checks and is its own
    negation without.  The operation word of a ublk descriptor is the sum of its
    operation, below 256, and its flags, a multiple of 256, and FUA is bit 8;
    the byte length is exact for every descriptor, the byte offset for
    sectors below 2^55, while beyond it panics with overflow checks and is the
    offset of another sector without.  Each setter of a submission entry
    sets its own bit of the flags and keeps every other bit. *)
Theorem words_decode (P : Profile) (c : IoUringCqe) (d : UblkIoDesc) (s : IoUringSqe) :
  i32 (res c) -> u32 (op_flags d) -> u32 (nr_sectors d) -> u64 (start_sector d) ->
  (cqe_is_success c = negb (is_error c) /\
   match result c with
   | Some r => cqe_is_success c = true /\ r = res c /\ u32 r /\ errno c = Ret 0
   | None => is_error c = true /\
       errno c = if res c =? - 2 ^ 31 then (if overflow_checks then Panic else Ret (res c))
                 else Ret (- res c)
   end) /\
  (op d + flags d = op_flags d /\ 0 <= op d < 256 /\ flags d mod 256 = 0 /\
   is_fua d = Z.testbit (op_flags d) 8 /\
   byte_len d = Ret (nr_sectors d * 512) /\
   byte_offset d =
     if start_sector d <? 2 ^ 55 then Ret (start_sector d * 512)
     else if overflow_checks then Panic else Ret (start_sector d mod 2 ^ 55 * 512)) /\
  (forall i, Z.testbit (sqe_flags (set_fixed_file s)) i = Z.testbit (sqe_flags s) i || (i =? 0) /\
     Z.testbit (sqe_flags (set_link s)) i = Z.testbit (sqe_flags s) i || (i =? 2) /\
     Z.testbit (sqe_flags (set_async s)) i = Z.testbit (sqe_flags s) i || (i =? 4)).
Proof.
  intros Hr Hw Hn Hs. split; [by apply cqe_outcome |]. split.
  - destruct (op_flags_split (op_flags d) Hw) as (Hsum & Hop & Hfl). unfold op, flags.
    split; [done |]. split; [rewrite Hop; by apply Z.mod_pos_bound |]. split; [done |].
    split; [by apply bit_set |].
    split; [unfold byte_len, mul_w; apply checked_in; unfold uint in *; lia |].
    by apply sector_offset.
  - intros i. split_and!; by apply set_bit.
Qed.

(** A failed completion, a FUA write of sector 2^55. *)
Lemma words_decode_witness :
  errno (P := dev) (IoUringCqe_new 7 (-5) 0) = Ret 5 /\
  is_fua (mkIoDesc 257 8 (2 ^ 55) 0) = true /\
  byte_offset (P := dev) (mkIoDesc 257 8 (2 ^ 55) 0) = Panic.
Proof.
  destruct (words_decode dev (IoUringCqe_new 7 (-5) 0) (mkIoDesc 257 8 (2 ^ 55) 0) IoUringSqe_new
    ltac:(by vm_compute) ltac:(by vm_compute) ltac:(by vm_compute) ltac:(by vm_compute))
    as ((_ & _ & He) & (_ & _ & _ & Hf & _ & Ho) & _).
  split; [exact He |]. split; [exact Hf | exact Ho].
Defined.
