(* ===== verification/Memory.v ===== *)
(** * Memory: addresses, page frames and flags ([memory.rs])

    Physical and virtual addresses and page frame numbers are [u64] newtypes:
    a record with one field each, so that they cannot be confused.  The
    arithmetic is the code's, overflow included. *)

From S2P Require Import Prelude.

Definition PAGE_SIZE : Z := 4096.
Definition PAGE_SHIFT : Z := 12.
(** [!(PAGE_SIZE as u64 - 1)]. *)
Definition PAGE_MASK : Z := wrap 64 (Z.lnot (PAGE_SIZE - 1)).

Definition wrapping_add (a b : Z) : Z := wrap 64 (a + b).
Definition wrapping_sub (a b : Z) : Z := wrap 64 (a - b).

(** ** Physical addresses *)

Record PhysAddr := mkPhys { phys_as_u64 : Z }.

Definition phys_new (addr : Z) : PhysAddr := mkPhys addr.
Definition phys_null : PhysAddr := mkPhys 0.
Definition phys_is_null (a : PhysAddr) : bool := phys_as_u64 a =? 0.
Definition phys_is_page_aligned (a : PhysAddr) : bool :=
  Z.land (phys_as_u64 a) (PAGE_SIZE - 1) =? 0.
Definition phys_page_align_down (a : PhysAddr) : PhysAddr :=
  mkPhys (Z.land (phys_as_u64 a) PAGE_MASK).
Definition phys_page_align_up {P : Profile} (a : PhysAddr) : comp PhysAddr :=
  s ← add_w 64 (phys_as_u64 a) PAGE_SIZE;
  s ← sub_w 64 s 1;
  Ret (mkPhys (Z.land s PAGE_MASK)).
Definition phys_page_offset (a : PhysAddr) : Z := Z.land (phys_as_u64 a) (PAGE_SIZE - 1).
Definition phys_add (a : PhysAddr) (offset : Z) : PhysAddr :=
  mkPhys (wrapping_add (phys_as_u64 a) offset).
Definition phys_sub (a : PhysAddr) (offset : Z) : PhysAddr :=
  mkPhys (wrapping_sub (phys_as_u64 a) offset).
Definition is_in_range (a start stop : PhysAddr) : bool :=
  (phys_as_u64 start <=? phys_as_u64 a) && (phys_as_u64 a <? phys_as_u64 stop).

(** ** Virtual addresses *)

Record VirtAddr := mkVirt { virt_as_u64 : Z }.

Definition virt_new (addr : Z) : VirtAddr := mkVirt addr.
Definition virt_null : VirtAddr := mkVirt 0.
(** A raw pointer is its address. *)
Definition from_ptr (ptr : Z) : VirtAddr := mkVirt ptr.
Definition virt_is_null (a : VirtAddr) : bool := virt_as_u64 a =? 0.
Definition virt_is_page_aligned (a : VirtAddr) : bool :=
  Z.land (virt_as_u64 a) (PAGE_SIZE - 1) =? 0.
Definition virt_page_align_down (a : VirtAddr) : VirtAddr :=
  mkVirt (Z.land (virt_as_u64 a) PAGE_MASK).
Definition virt_page_align_up {P : Profile} (a : VirtAddr) : comp VirtAddr :=
  s ← add_w 64 (virt_as_u64 a) PAGE_SIZE;
  s ← sub_w 64 s 1;
  Ret (mkVirt (Z.land s PAGE_MASK)).
Definition virt_page_offset (a : VirtAddr) : Z := Z.land (virt_as_u64 a) (PAGE_SIZE - 1).
Definition virt_add (a : VirtAddr) (offset : Z) : VirtAddr :=
  mkVirt (wrapping_add (virt_as_u64 a) offset).
Definition virt_sub (a : VirtAddr) (offset : Z) : VirtAddr :=
  mkVirt (wrapping_sub (virt_as_u64 a) offset).

(** ** Page frame numbers *)

Record Pfn := mkPfn { pfn_as_u64 : Z }.

Definition pfn_new (pfn : Z) : Pfn := mkPfn pfn.
Definition pfn_null : Pfn := mkPfn 0.
Definition from_addr (addr : PhysAddr) : Pfn := mkPfn (Z.shiftr (phys_as_u64 addr) PAGE_SHIFT).
(** [<<] drops the bits it shifts out. *)
Definition to_addr (p : Pfn) : PhysAddr := phys_new (wrap 64 (Z.shiftl (pfn_as_u64 p) PAGE_SHIFT)).
Definition pfn_is_null (p : Pfn) : bool := pfn_as_u64 p =? 0.
Definition pfn_add (p : Pfn) (pages : Z) : Pfn := mkPfn (wrapping_add (pfn_as_u64 p) pages).
Definition pfn_sub (p : Pfn) (pages : Z) : Pfn := mkPfn (wrapping_sub (pfn_as_u64 p) pages).

(** ** DMA buffers *)

Inductive DmaDirection := ToDevice | FromDevice | Bidirectional | NoDirection.

Definition to_device (d : DmaDirection) : bool :=
  match d with ToDevice | Bidirectional => true | _ => false end.
Definition from_device (d : DmaDirection) : bool :=
  match d with FromDevice | Bidirectional => true | _ => false end.

Record DmaBuffer := mkDmaBuffer {
  dma_phys : PhysAddr; dma_virt : VirtAddr; dma_size : Z; dma_direction : DmaDirection }.

Definition DmaBuffer_new (phys : PhysAddr) (virt : VirtAddr) (size : Z) (direction : DmaDirection) :
    DmaBuffer := mkDmaBuffer phys virt size direction.
Definition dma_is_valid (b : DmaBuffer) : bool :=
  negb (phys_is_null (dma_phys b)) && negb (virt_is_null (dma_virt b)) && (0 <? dma_size b).
Definition dma_is_page_aligned (b : DmaBuffer) : bool :=
  phys_is_page_aligned (dma_phys b) && virt_is_page_aligned (dma_virt b).
Definition page_count {P : Profile} (b : DmaBuffer) : comp Z :=
  s ← add_w 64 (dma_size b) PAGE_SIZE;
  s ← sub_w 64 s 1;
  Ret (s / PAGE_SIZE).

(** ** Allocation flags and protection *)

Record AllocFlags := mkAllocFlags { alloc_bits : Z }.

Definition ALLOC_NONE : AllocFlags := mkAllocFlags 0.
Definition ALLOC_WAIT : AllocFlags := mkAllocFlags (Z.shiftl 1 0).
Definition ALLOC_ZERO : AllocFlags := mkAllocFlags (Z.shiftl 1 1).
Definition ALLOC_DMA : AllocFlags := mkAllocFlags (Z.shiftl 1 2).
Definition ALLOC_HIGHMEM : AllocFlags := mkAllocFlags (Z.shiftl 1 3).
Definition alloc_new : AllocFlags := ALLOC_NONE.
Definition with_wait (f : AllocFlags) : AllocFlags :=
  mkAllocFlags (Z.lor (alloc_bits f) (alloc_bits ALLOC_WAIT)).
Definition with_zero (f : AllocFlags) : AllocFlags :=
  mkAllocFlags (Z.lor (alloc_bits f) (alloc_bits ALLOC_ZERO)).
Definition with_dma (f : AllocFlags) : AllocFlags :=
  mkAllocFlags (Z.lor (alloc_bits f) (alloc_bits ALLOC_DMA)).
Definition can_wait (f : AllocFlags) : bool :=
  negb (Z.land (alloc_bits f) (alloc_bits ALLOC_WAIT) =? 0).
Definition should_zero (f : AllocFlags) : bool :=
  negb (Z.land (alloc_bits f) (alloc_bits ALLOC_ZERO) =? 0).
Definition needs_dma (f : AllocFlags) : bool :=
  negb (Z.land (alloc_bits f) (alloc_bits ALLOC_DMA) =? 0).

Record Protection := mkProtection { prot_bits : Z }.

Definition PROT_NONE : Protection := mkProtection 0.
Definition PROT_READ : Protection := mkProtection (Z.shiftl 1 0).
Definition PROT_WRITE : Protection := mkProtection (Z.shiftl 1 1).
Definition PROT_EXEC : Protection := mkProtection (Z.shiftl 1 2).
Definition READ_WRITE : Protection :=
  mkProtection (Z.lor (prot_bits PROT_READ) (prot_bits PROT_WRITE)).
Definition is_readable (p : Protection) : bool :=
  negb (Z.land (prot_bits p) (prot_bits PROT_READ) =? 0).
Definition is_writable (p : Protection) : bool :=
  negb (Z.land (prot_bits p) (prot_bits PROT_WRITE) =? 0).
Definition is_executable (p : Protection) : bool :=
  negb (Z.land (prot_bits p) (prot_bits PROT_EXEC) =? 0).

(** ** Page arithmetic *)

Lemma land_page_offset a : Z.land a (PAGE_SIZE - 1) = a mod PAGE_SIZE.
Proof. change (PAGE_SIZE - 1) with (Z.ones 12). by rewrite Z.land_ones. Qed.

Lemma land_page_mask a : u64 a -> Z.land a PAGE_MASK = PAGE_SIZE * (a / PAGE_SIZE).
Proof.
  intros Ha. unfold PAGE_MASK, wrap. rewrite <- Z.land_ones by lia.
  rewrite (Z.land_comm (Z.lnot _)), Z.land_assoc, Z.land_ones by lia.
  rewrite Z.mod_small by exact Ha.
  change (PAGE_SIZE - 1) with (Z.ones 12).
  rewrite <- Z.ldiff_land, Z.ldiff_ones_r, Z.shiftl_mul_pow2, Z.shiftr_div_pow2 by lia.
  apply Z.mul_comm.
Qed.

(** The sum of the round-up, [x + PAGE_SIZE - 1], as each profile computes it. *)
Lemma round_up_sum {P : Profile} {A} x (k : Z -> comp A) :
  u64 x ->
  (s ← add_w 64 x PAGE_SIZE; s ← sub_w 64 s 1; k s) =
  if x <? 2 ^ 64 - PAGE_SIZE then k (x + PAGE_SIZE - 1)
  else if overflow_checks then Panic else k (wrap 64 (x + PAGE_SIZE - 1)).
Proof.
  intros Hx. unfold add_w, sub_w, PAGE_SIZE.
  destruct (Z.ltb_spec x (2 ^ 64 - 4096)).
  - rewrite checked_in by width. rewrite bind_ret. by rewrite checked_in by width.
  - destruct overflow_checks eqn:E.
    + by rewrite checked_out, E by width.
    + rewrite !checked_wraps, !bind_ret by done. unfold wrap.
      rewrite checked_wraps, bind_ret by done. unfold wrap.
      by rewrite Zminus_mod_idemp_l.
Qed.

Lemma round_down_up x : PAGE_SIZE * ((x + PAGE_SIZE - 1) / PAGE_SIZE) = x + (- x) mod PAGE_SIZE.
Proof.
  unfold PAGE_SIZE. pose proof (Z.div_mod (x + 4096 - 1) 4096 ltac:(done)).
  pose proof (Z.mod_pos_bound (x + 4096 - 1) 4096 ltac:(done)).
  pose proof (Z.div_mod (- x) 4096 ltac:(done)).
  pose proof (Z.mod_pos_bound (- x) 4096 ltac:(done)). lia.
Qed.

Lemma last_page_round_up x :
  u64 x -> 2 ^ 64 - PAGE_SIZE <= x ->
  Z.land (wrap 64 (x + PAGE_SIZE - 1)) PAGE_MASK = if x mod PAGE_SIZE =? 0 then x else 0.
Proof.
  intros Hx Hlast. rewrite land_page_mask by (apply wrap_uint; lia).
  unfold PAGE_SIZE in *. set (r := x - (2 ^ 64 - 4096)).
  assert (Hr : 0 <= r < 4096) by (subst r; unfold uint in Hx; lia).
  assert (x mod 4096 = r) as ->.
  { replace x with (r + (2 ^ 52 - 1) * 4096) by (subst r; lia).
    rewrite Z.mod_add by done. by apply Z.mod_small. }
  unfold wrap. destruct (Z.eqb_spec r 0) as [E | E].
  - rewrite Z.mod_small by (subst r; unfold uint in Hx; lia).
    replace x with (2 ^ 64 - 4096) by (subst r; lia). done.
  - replace (x + 4096 - 1) with (r - 1 + 1 * 2 ^ 64) by (subst r; lia).
    rewrite Z.mod_add by done. rewrite Z.mod_small by lia. rewrite Z.div_small by lia. done.
Qed.

Lemma page_down x : PAGE_SIZE * (x / PAGE_SIZE) = x - x mod PAGE_SIZE.
Proof. pose proof (Z.div_mod x PAGE_SIZE ltac:(done)). lia. Qed.

(** Page arithmetic on any address: aligning down gives the greatest
    multiple of the page size below it, the page offset is the rest, and an
    address is aligned when the offset is 0; aligning up gives the least
    multiple above it for every address under the last page, while from the
    last page's first byte on the sum overflows: a panic with overflow checks
    (even where the answer is the address itself), and without them the
    address itself when it is aligned and the null address otherwise.
    Virtual addresses behave alike. *)
Lemma page_rounding {P : Profile} (a : Z) :
  u64 a ->
  phys_page_align_down (phys_new a) = phys_new (a - a mod PAGE_SIZE) /\
  phys_page_offset (phys_new a) = a mod PAGE_SIZE /\
  phys_is_page_aligned (phys_new a) = (a mod PAGE_SIZE =? 0) /\
  phys_page_align_up (phys_new a) =
    (if a <? 2 ^ 64 - PAGE_SIZE then Ret (phys_new (a + (- a) mod PAGE_SIZE))
     else if overflow_checks then Panic
     else Ret (if a mod PAGE_SIZE =? 0 then phys_new a else phys_null)) /\
  virt_page_align_down (virt_new a) = virt_new (a - a mod PAGE_SIZE) /\
  virt_page_offset (virt_new a) = phys_page_offset (phys_new a) /\
  virt_is_page_aligned (virt_new a) = phys_is_page_aligned (phys_new a) /\
  virt_page_align_up (virt_new a) = (virt_new ∘ phys_as_u64 <$> phys_page_align_up (phys_new a)).
Proof.
  intros Ha.
  assert (phys_page_align_up (phys_new a) =
    (if a <? 2 ^ 64 - PAGE_SIZE then Ret (phys_new (a + (- a) mod PAGE_SIZE))
     else if overflow_checks then Panic
     else Ret (if a mod PAGE_SIZE =? 0 then phys_new a else phys_null))) as Hup.
  { unfold phys_page_align_up. cbn [phys_new phys_as_u64]. rewrite round_up_sum by done.
    destruct (Z.ltb_spec a (2 ^ 64 - PAGE_SIZE)) as [Hlt | Hge].
    - rewrite land_page_mask by (unfold PAGE_SIZE in *; width). by rewrite round_down_up.
    - destruct overflow_checks; [done |]. rewrite last_page_round_up by done. by case_match. }
  split_and!; try done.
  - unfold phys_page_align_down. cbn. by rewrite land_page_mask, page_down.
  - apply land_page_offset.
  - unfold phys_is_page_aligned. by rewrite land_page_offset.
  - unfold virt_page_align_down. cbn. by rewrite land_page_mask, page_down.
  - unfold virt_page_align_up, phys_page_align_up. cbn [phys_new phys_as_u64 virt_new virt_as_u64].
    rewrite !round_up_sum by done. by repeat case_match.
Qed.

(** Page frames: the frame of an address starts at the address aligned
    down; a frame number and its address correspond for frame numbers below
    [2^52], and a larger one loses the bits the shift drops. *)
Lemma page_frames (a : Z) :
  u64 a ->
  to_addr (from_addr (phys_new a)) = phys_page_align_down (phys_new a) /\
  from_addr (to_addr (pfn_new a)) = pfn_new (a mod 2 ^ 52) /\
  (from_addr (to_addr (pfn_new a)) = pfn_new a <-> a < 2 ^ 52).
Proof.
  intros Ha.
  assert (from_addr (to_addr (pfn_new a)) = pfn_new (a mod 2 ^ 52)) as Hf.
  { unfold from_addr, to_addr, pfn_new. cbn [pfn_as_u64 phys_new phys_as_u64]. f_equal.
    unfold wrap, PAGE_SHIFT. rewrite Z.shiftl_mul_pow2, Z.shiftr_div_pow2 by lia.
    replace (2 ^ 64) with (2 ^ 52 * 2 ^ 12) by done.
    rewrite Z.mul_mod_distr_r by done. by rewrite Z.div_mul. }
  split_and!; [| done |].
  - unfold to_addr, from_addr, phys_page_align_down. cbn [pfn_as_u64 phys_new phys_as_u64].
    rewrite land_page_mask by done. unfold phys_new, PAGE_SHIFT. f_equal.
    rewrite Z.shiftl_mul_pow2, Z.shiftr_div_pow2 by lia. change (2 ^ 12) with PAGE_SIZE.
    rewrite wrap_id by (pose proof (page_down a); pose proof (Z.mod_pos_bound a PAGE_SIZE ltac:(done));
      pose proof (Z.mod_le a PAGE_SIZE ltac:(apply Ha) ltac:(done)); width).
    apply Z.mul_comm.
  - rewrite Hf. unfold pfn_new. split; intros H.
    + injection H as <-. by apply Z.mod_pos_bound.
    + f_equal. apply Z.mod_small. unfold uint in Ha. lia.
Qed.

(** ** The pages of a DMA buffer *)

(** The buffer has a byte in frame [k]. *)
Definition in_frame (b : DmaBuffer) (k : Z) : Prop :=
  exists x, phys_as_u64 (dma_phys b) <= x < phys_as_u64 (dma_phys b) + dma_size b /\
    from_addr (phys_new x) = pfn_new k.

(** A buffer that starts inside a page may reach one page more than its size
    fills: when what precedes it in its first page and its size do not fit in
    [n] pages. *)
Definition reaches_over (b : DmaBuffer) (n : Z) : bool :=
  (0 <? dma_size b) && (n * PAGE_SIZE <? phys_page_offset (dma_phys b) + dma_size b).

Lemma page_count_value {P : Profile} b :
  u64 (dma_size b) ->
  page_count b =
    if dma_size b <? 2 ^ 64 - PAGE_SIZE then Ret ((dma_size b + PAGE_SIZE - 1) / PAGE_SIZE)
    else if overflow_checks then Panic
    else Ret (if dma_size b =? 2 ^ 64 - PAGE_SIZE then 2 ^ 52 - 1 else 0).
Proof.
  intros Hb. unfold page_count. rewrite round_up_sum by done.
  destruct (Z.ltb_spec (dma_size b) (2 ^ 64 - PAGE_SIZE)) as [| Hge]; [done |].
  destruct overflow_checks; [done |]. f_equal.
  destruct (Z.eqb_spec (dma_size b) (2 ^ 64 - PAGE_SIZE)) as [-> | Hne]; [done |].
  apply Z.div_small. replace (dma_size b + PAGE_SIZE - 1)
    with (dma_size b - (2 ^ 64 - PAGE_SIZE) - 1 + 1 * 2 ^ 64) by lia.
  unfold wrap. rewrite Z.mod_add, Z.mod_small by done || (unfold uint, PAGE_SIZE in *; lia).
  unfold uint, PAGE_SIZE in *; lia.
Qed.

Lemma from_addr_frame x k : from_addr (phys_new x) = pfn_new k <-> x / PAGE_SIZE = k.
Proof.
  unfold from_addr, pfn_new. cbn [phys_new phys_as_u64]. rewrite Z.shiftr_div_pow2 by done.
  split; [by intros [= <-] | by intros <-].
Qed.

Lemma buffer_frames b n k :
  u64 (phys_as_u64 (dma_phys b)) -> 0 <= dma_size b ->
  dma_size b <= n * PAGE_SIZE < dma_size b + PAGE_SIZE ->
  let first := phys_as_u64 (dma_phys b) / PAGE_SIZE in
  in_frame b k <-> first <= k < first + n + (if reaches_over b n then 1 else 0).
Proof.
  intros Hp Hs Hn first. unfold in_frame, reaches_over, phys_page_offset.
  rewrite land_page_offset.
  unfold PAGE_SIZE in *. set (p := phys_as_u64 (dma_phys b)) in *. set (sz := dma_size b) in *.
  pose proof (Z.div_mod p 4096 ltac:(done)) as Hd.
  pose proof (Z.mod_pos_bound p 4096 ltac:(done)) as Hm.
  fold first in Hd. set (off := p mod 4096) in *. setoid_rewrite from_addr_frame.
  transitivity (0 < sz /\ first <= k /\ k * 4096 < p + sz).
  - split.
    + intros (x & Hx & Hk). unfold PAGE_SIZE in Hk.
      pose proof (Z.div_mod x 4096 ltac:(done)). pose proof (Z.mod_pos_bound x 4096 ltac:(done)).
      pose proof (Z.div_le_mono p x 4096 ltac:(done)). unfold first. lia.
    + intros (Hpos & Hk & Hend). exists (Z.max p (k * 4096)). split; [lia |]. unfold PAGE_SIZE.
      symmetry. apply (Z.div_unique _ _ _ (Z.max p (k * 4096) - k * 4096)); lia.
  - destruct (Z.ltb_spec 0 sz); cbn [andb]; [destruct (Z.ltb_spec (n * 4096) (off + sz)) |]; lia.
Qed.

(** The flags compose: each builder sets its own bit and keeps the others. *)
Lemma alloc_flags_spec f :
  can_wait (with_wait f) = true /\ can_wait (with_zero f) = can_wait f /\
  can_wait (with_dma f) = can_wait f /\ should_zero (with_zero f) = true /\
  should_zero (with_dma f) = should_zero f /\ needs_dma (with_dma f) = true.
Proof.
  unfold can_wait, should_zero, needs_dma, with_wait, with_zero, with_dma.
  cbn [alloc_bits ALLOC_WAIT ALLOC_ZERO ALLOC_DMA]. rewrite !Z.land_lor_distr_l.
  change (Z.land (Z.shiftl 1 1) (Z.shiftl 1 0)) with 0.
  change (Z.land (Z.shiftl 1 2) (Z.shiftl 1 0)) with 0.
  change (Z.land (Z.shiftl 1 2) (Z.shiftl 1 1)) with 0. rewrite !Z.lor_0_r.
  assert (forall x b, b <> 0 -> negb (Z.lor x b =? 0) = true) as H.
  { intros x b Hb. apply negb_true_iff, Z.eqb_neq. intros [_ ?]%Z.lor_eq_0_iff. done. }
  split_and!; try done; by apply H.
Qed.

(** C40. Page arithmetic on any address: aligning down gives the greatest
    multiple of the page size below it, the page offset is the rest, and an
    address is aligned when the offset is 0; aligning up gives the least
    multiple above it for every address under the last page, while from the
    last page's first byte on the sum overflows: a panic with overflow checks
    (even where the answer is the address itself), and without them the
    address itself when it is aligned and the null address otherwise.
    Virtual addresses behave alike.  The frame of an address starts at the
    address aligned down; a frame number and its address correspond for frame
    numbers below [2^52], and a larger one loses the bits the shift drops.
    The page count of a DMA buffer is the least number of pages that holds its
    size, below the overflow of the round-up (from there on it panics with
    overflow checks, and without them it is 0 above the least such size);
    the buffer's bytes lie in exactly that many frames from its first when it
    starts on a page, and when it starts inside one they lie in one frame more
    exactly if what precedes it in the first page and its size need it: the
    count leaves that frame out. *)
Theorem page_arithmetic (P : Profile) (a : Z) (b : DmaBuffer) :
  u64 a -> u64 (dma_size b) -> u64 (phys_as_u64 (dma_phys b)) ->
  (phys_page_align_down (phys_new a) = phys_new (a - a mod PAGE_SIZE) /\
   phys_page_offset (phys_new a) = a mod PAGE_SIZE /\
   phys_is_page_aligned (phys_new a) = (a mod PAGE_SIZE =? 0) /\
   phys_page_align_up (phys_new a) =
     (if a <? 2 ^ 64 - PAGE_SIZE then Ret (phys_new (a + (- a) mod PAGE_SIZE))
      else if overflow_checks then Panic
      else Ret (if a mod PAGE_SIZE =? 0 then phys_new a else phys_null)) /\
   virt_page_align_down (virt_new a) = virt_new (a - a mod PAGE_SIZE) /\
   virt_page_offset (virt_new a) = phys_page_offset (phys_new a) /\
   virt_is_page_aligned (virt_new a) = phys_is_page_aligned (phys_new a) /\
   virt_page_align_up (virt_new a) = (virt_new ∘ phys_as_u64 <$> phys_page_align_up (phys_new a))) /\
  (to_addr (from_addr (phys_new a)) = phys_page_align_down (phys_new a) /\
   from_addr (to_addr (pfn_new a)) = pfn_new (a mod 2 ^ 52) /\
   (from_addr (to_addr (pfn_new a)) = pfn_new a <-> a < 2 ^ 52) /\
   (dma_size b < 2 ^ 64 - PAGE_SIZE ->
    exists n, page_count b = Ret n /\ dma_size b <= n * PAGE_SIZE < dma_size b + PAGE_SIZE /\
      let first := phys_as_u64 (dma_phys b) / PAGE_SIZE in
      (phys_is_page_aligned (dma_phys b) = true ->
       forall k, in_frame b k <-> first <= k < first + n) /\
      (forall k, in_frame b k <-> first <= k < first + n + (if reaches_over b n then 1 else 0))) /\
   (2 ^ 64 - PAGE_SIZE <= dma_size b ->
    page_count b = if overflow_checks then Panic
      else Ret (if dma_size b =? 2 ^ 64 - PAGE_SIZE then 2 ^ 52 - 1 else 0))).
Proof.
  intros Ha Hb Hp. split; [by apply page_rounding |].
  destruct (page_frames a Ha) as (H1 & H2 & H3). rewrite page_count_value by done.
  split_and!; [done | done | done | |]; intros Hs.
  2: { rewrite (proj2 (Z.ltb_ge _ _)); done. }
  rewrite (proj2 (Z.ltb_lt _ _)) by done. eexists; split; [done |].
  set (n := (dma_size b + PAGE_SIZE - 1) / PAGE_SIZE).
  assert (Hn : dma_size b <= n * PAGE_SIZE < dma_size b + PAGE_SIZE).
  { unfold n, PAGE_SIZE. pose proof (Z.div_mod (dma_size b + 4096 - 1) 4096 ltac:(done)).
    pose proof (Z.mod_pos_bound (dma_size b + 4096 - 1) 4096 ltac:(done)). lia. }
  split; [exact Hn |]. assert (Hs0 : 0 <= dma_size b) by apply Hb.
  split; [| intros k; by apply buffer_frames].
  intros Hal k. rewrite (buffer_frames b n k) by done. unfold reaches_over.
  unfold phys_is_page_aligned in Hal. apply Z.eqb_eq in Hal.
  unfold phys_page_offset. rewrite Hal, Z.add_0_l.
  rewrite (proj2 (Z.ltb_ge (n * PAGE_SIZE) (dma_size b))) by lia. by rewrite andb_false_r, Z.add_0_r.
Qed.

(** Two bytes across a page boundary. *)
Definition unaligned : DmaBuffer := DmaBuffer_new (phys_new 0xfff) (virt_new 0xfff) 2 ToDevice.

Lemma page_arithmetic_witness :
  phys_page_align_up (P := dev) (phys_new (2 ^ 64 - 4096)) = Panic /\
  from_addr (to_addr (pfn_new (2 ^ 64 - 4096))) = pfn_new (2 ^ 52 - 4096) /\
  page_count (P := dev) unaligned = Ret 1 /\ (forall k, in_frame unaligned k <-> 0 <= k < 2).
Proof.
  destruct (page_arithmetic dev (2 ^ 64 - 4096) unaligned
    ltac:(by vm_compute) ltac:(by vm_compute) ltac:(by vm_compute))
    as ((_ & _ & _ & Hup & _) & _ & Hf & _ & Hc & _).
  split; [exact Hup |]. split; [exact Hf |].
  destruct (Hc eq_refl) as (n & Hn & _ & _ & Hk). split; [reflexivity |].
  injection Hn as <-. exact Hk.
Defined.
