(* ===== verification/BlkMq.v ===== *)
(** * BlkMq: block requests and tag sets ([blk_mq.rs])

    Request operations, flags, buffers and requests with their accessors, and
    the configuration of a tag set.  The trait [BlockOps] declares the
    operations a driver provides and the crate neither implements nor calls
    it. *)

From S2P Require Import Prelude KernelError.

Definition BLK_MQ_MAX_DEPTH : Z := 32768.
Definition BLK_MQ_MAX_HW_QUEUES : Z := 128.

(** ** Operations *)

Inductive RequestOp :=
| Read | Write | Flush | Discard | WriteZeroes | SecureErase
| ZoneReset | ZoneOpen | ZoneClose | ZoneFinish.

#[export] Instance RequestOp_eq_dec : EqDecision RequestOp.
Proof. solve_decision. Defined.

(** The discriminants of [#[repr(u8)]]. *)
Definition op_code (o : RequestOp) : Z :=
  match o with
  | Read => 0 | Write => 1 | Flush => 2 | Discard => 3 | WriteZeroes => 4 | SecureErase => 5
  | ZoneReset => 6 | ZoneOpen => 7 | ZoneClose => 8 | ZoneFinish => 9
  end.

Definition is_read (o : RequestOp) : bool := match o with Read => true | _ => false end.
Definition is_write (o : RequestOp) : bool := match o with Write => true | _ => false end.
Definition has_data (o : RequestOp) : bool := match o with Read | Write => true | _ => false end.
Definition is_zone_op (o : RequestOp) : bool :=
  match o with ZoneReset | ZoneOpen | ZoneClose | ZoneFinish => true | _ => false end.

Definition op_from_u8 (v : Z) : option RequestOp :=
  if v =? 0 then Some Read
  else if v =? 1 then Some Write
  else if v =? 2 then Some Flush
  else if v =? 3 then Some Discard
  else if v =? 4 then Some WriteZeroes
  else if v =? 5 then Some SecureErase
  else if v =? 6 then Some ZoneReset
  else if v =? 7 then Some ZoneOpen
  else if v =? 8 then Some ZoneClose
  else if v =? 9 then Some ZoneFinish
  else None.

(** ** Flags *)

Record RequestFlags := mkFlags { bits : Z }.

Definition FLAGS_NONE : RequestFlags := mkFlags 0.
Definition FUA : RequestFlags := mkFlags (Z.shiftl 1 0).
Definition META : RequestFlags := mkFlags (Z.shiftl 1 1).
Definition SYNC : RequestFlags := mkFlags (Z.shiftl 1 2).
Definition NOWAIT : RequestFlags := mkFlags (Z.shiftl 1 3).
Definition RequestFlags_new : RequestFlags := FLAGS_NONE.
Definition with_fua (f : RequestFlags) : RequestFlags := mkFlags (Z.lor (bits f) (bits FUA)).
Definition with_sync (f : RequestFlags) : RequestFlags := mkFlags (Z.lor (bits f) (bits SYNC)).
Definition with_nowait (f : RequestFlags) : RequestFlags := mkFlags (Z.lor (bits f) (bits NOWAIT)).
Definition is_fua (f : RequestFlags) : bool := negb (Z.land (bits f) (bits FUA) =? 0).
Definition is_sync (f : RequestFlags) : bool := negb (Z.land (bits f) (bits SYNC) =? 0).
Definition is_nowait (f : RequestFlags) : bool := negb (Z.land (bits f) (bits NOWAIT) =? 0).

(** ** Buffers *)

Record BioVec := mkBioVec { bv_addr : Z; bv_len : Z; bv_offset : Z }.

Definition BioVec_new (addr len : Z) : BioVec := mkBioVec addr len 0.
Definition with_offset (addr len offset : Z) : BioVec := mkBioVec addr len offset.
Definition effective_addr {P : Profile} (v : BioVec) : comp Z := add_w 64 (bv_addr v) (bv_offset v).
Definition bv_is_empty (v : BioVec) : bool := bv_len v =? 0.
Definition BioVec_default : BioVec := BioVec_new 0 0.

(** ** Requests *)

Record Request := mkRequest {
  tag : Z; queue_id : Z; op : RequestOp; rq_flags : RequestFlags; sector : Z; nr_sectors : Z;
  bio_vec : BioVec }.

Definition Request_new (tag queue_id : Z) (op : RequestOp) : Request :=
  mkRequest tag queue_id op FLAGS_NONE 0 0 (BioVec_new 0 0).
Definition Request_read (tag queue_id sector nr_sectors : Z) : Request :=
  mkRequest tag queue_id Read FLAGS_NONE sector nr_sectors (BioVec_new 0 0).
Definition Request_write (tag queue_id sector nr_sectors : Z) : Request :=
  mkRequest tag queue_id Write FLAGS_NONE sector nr_sectors (BioVec_new 0 0).
Definition set_sector_range (r : Request) (s n : Z) : Request :=
  mkRequest (tag r) (queue_id r) (op r) (rq_flags r) s n (bio_vec r).
Definition set_bio_vec (r : Request) (v : BioVec) : Request :=
  mkRequest (tag r) (queue_id r) (op r) (rq_flags r) (sector r) (nr_sectors r) v.
Definition set_flags (r : Request) (f : RequestFlags) : Request :=
  mkRequest (tag r) (queue_id r) (op r) f (sector r) (nr_sectors r) (bio_vec r).
Definition byte_offset {P : Profile} (r : Request) : comp Z := mul_w 64 (sector r) 512.
Definition byte_len {P : Profile} (r : Request) : comp Z := mul_w 64 (nr_sectors r) 512.

(** ** Tag sets *)

Record TagSetConfig := mkTagSetConfig {
  nr_hw_queues : Z; queue_depth : Z; numa_node : Z; ts_flags : Z }.

Definition TagSetConfig_new (nr_hw_queues queue_depth : Z) : TagSetConfig :=
  mkTagSetConfig nr_hw_queues queue_depth (-1) 0.
Definition with_numa_node (c : TagSetConfig) (node : Z) : TagSetConfig :=
  mkTagSetConfig (nr_hw_queues c) (queue_depth c) node (ts_flags c).
Definition validate (c : TagSetConfig) : result KernelError () :=
  if nr_hw_queues c =? 0 then Err InvalidArgument
  else if nr_hw_queues c >? BLK_MQ_MAX_HW_QUEUES then Err InvalidArgument
  else if queue_depth c =? 0 then Err InvalidArgument
  else if queue_depth c >? BLK_MQ_MAX_DEPTH then Err InvalidArgument
  else Ok tt.
Definition total_tags {P : Profile} (c : TagSetConfig) : comp Z :=
  mul_w 32 (nr_hw_queues c) (queue_depth c).
Definition TagSetConfig_default : TagSetConfig := TagSetConfig_new 1 128.

(** ** Properties *)

(** A tag set is accepted exactly with 1 to 128 queues of depth 1 to 32768;
    the number of tags never overflows, validated or not. *)
Lemma tag_set_spec {P : Profile} (c : TagSetConfig) :
  u16 (nr_hw_queues c) -> u16 (queue_depth c) ->
  validate c =
    (if bool_decide (1 <= nr_hw_queues c <= BLK_MQ_MAX_HW_QUEUES /\
                     1 <= queue_depth c <= BLK_MQ_MAX_DEPTH)
     then Ok tt else Err InvalidArgument) /\
  total_tags c = Ret (nr_hw_queues c * queue_depth c) /\
  (validate c = Ok tt -> 1 <= nr_hw_queues c * queue_depth c <= 2 ^ 22).
Proof.
  intros Hq Hd. unfold BLK_MQ_MAX_HW_QUEUES, BLK_MQ_MAX_DEPTH.
  assert (validate c = (if bool_decide (1 <= nr_hw_queues c <= 128 /\ 1 <= queue_depth c <= 32768)
    then Ok tt else Err InvalidArgument)) as Hv.
  { unfold validate, BLK_MQ_MAX_HW_QUEUES, BLK_MQ_MAX_DEPTH, uint in *.
    case_bool_decide as H; repeat case_match; to_prop; try done; lia. }
  split_and!; [done | |].
  - unfold total_tags, mul_w. apply checked_in. unfold uint in *.
    change (2 ^ 16) with 65536 in *. change (2 ^ 32) with 4294967296. nia.
  - rewrite Hv. case_bool_decide as H; [intros _ | done]. change (2 ^ 22) with (128 * 32768). nia.
Qed.

(** The code of an operation decodes to it and no other byte decodes. *)
Lemma op_code_inv v o : op_from_u8 v = Some o <-> v = op_code o.
Proof.
  unfold op_from_u8. split.
  - intros H. repeat case_match; simplify_eq; by apply Z.eqb_eq.
  - by intros ->; destruct o.
Qed.

Lemma data_zone_ops o :
  has_data o = is_read o || is_write o /\ (is_zone_op o = true <-> 6 <= op_code o) /\
  has_data o && is_zone_op o = false.
Proof. destruct o; cbn; split_and!; try done; lia. Qed.

(** A sequence of flag builders: each flag reads as set exactly when it was set
    at the start or by one of the builders. *)
Inductive FlagOp := OpFua | OpSync | OpNowait.
#[export] Instance FlagOp_eq_dec : EqDecision FlagOp.
Proof. solve_decision. Defined.
Definition flag_step (f : RequestFlags) (o : FlagOp) : RequestFlags :=
  match o with OpFua => with_fua f | OpSync => with_sync f | OpNowait => with_nowait f end.

Lemma flag_step_read f o :
  is_fua (flag_step f o) = is_fua f || bool_decide (o = OpFua) /\
  is_sync (flag_step f o) = is_sync f || bool_decide (o = OpSync) /\
  is_nowait (flag_step f o) = is_nowait f || bool_decide (o = OpNowait).
Proof.
  unfold is_fua, is_sync, is_nowait, flag_step, with_fua, with_sync, with_nowait.
  destruct o; cbn [bits FUA SYNC NOWAIT]; by rewrite !bit_set, !set_bit by done.
Qed.

Lemma flag_run_read os f :
  is_fua (fold_left flag_step os f) = is_fua f || bool_decide (OpFua ∈ os) /\
  is_sync (fold_left flag_step os f) = is_sync f || bool_decide (OpSync ∈ os) /\
  is_nowait (fold_left flag_step os f) = is_nowait f || bool_decide (OpNowait ∈ os).
Proof.
  revert f; induction os as [| o os IH]; intros f; cbn [fold_left].
  { rewrite !bool_decide_false by apply not_elem_of_nil. by rewrite !orb_false_r. }
  destruct (IH (flag_step f o)) as (-> & -> & ->).
  destruct (flag_step_read f o) as (-> & -> & ->).
  rewrite <- !orb_assoc. split_and!; f_equal; 
    (match goal with |- bool_decide ?A || bool_decide ?B = _ =>
       rewrite <- (bool_decide_or A B); apply bool_decide_ext; rewrite elem_of_cons; intuition congruence end).
Qed.

(** Requests and tag sets, on every input.  Building a request in any
    way gives back the values it was built from, with its byte length exact
    and its byte offset exact for sectors below [2^55]; from there on the
    product overflows: a panic with overflow checks, the offset of another
    sector without.  A byte decodes to an operation exactly when it is its
    code, the zone operations are the codes from 6 on and carry no data.  A
    flag reads as set exactly when some builder of the sequence set it.  A tag
    set is accepted exactly with 1 to 128 queues of depth 1 to 32768, its
    number of tags never overflows, and a valid set has at most [2^22]. *)
Theorem requests_and_tag_sets (P : Profile) (r : Request) (v s n : Z) (os : list FlagOp)
    (b : BioVec) (c : TagSetConfig) :
  u64 s -> u32 n -> u16 (nr_hw_queues c) -> u16 (queue_depth c) ->
  let f := fold_left flag_step os RequestFlags_new in
  let r' := set_flags (set_bio_vec (set_sector_range r s n) b) f in
  r' = mkRequest (tag r) (queue_id r) (op r) f s n b /\
  byte_len r' = Ret (n * 512) /\
  byte_offset r' =
    (if s <? 2 ^ 55 then Ret (s * 512)
     else if overflow_checks then Panic else Ret (s mod 2 ^ 55 * 512)) /\
  set_sector_range (Request_new (tag r) (queue_id r) Read) s n =
    Request_read (tag r) (queue_id r) s n /\
  (forall o, (op_from_u8 v = Some o <-> v = op_code o) /\
     (is_zone_op o = true <-> 6 <= op_code o) /\ has_data o && is_zone_op o = false) /\
  (is_fua f = bool_decide (OpFua ∈ os) /\ is_sync f = bool_decide (OpSync ∈ os) /\
   is_nowait f = bool_decide (OpNowait ∈ os)) /\
  validate c =
    (if bool_decide (1 <= nr_hw_queues c <= BLK_MQ_MAX_HW_QUEUES /\
                     1 <= queue_depth c <= BLK_MQ_MAX_DEPTH)
     then Ok tt else Err InvalidArgument) /\
  total_tags c = Ret (nr_hw_queues c * queue_depth c) /\
  (validate c = Ok tt -> 1 <= nr_hw_queues c * queue_depth c <= 2 ^ 22).
Proof.
  intros Hs Hn Hq Hd f r'. split; [done |].
  split; [unfold byte_len, mul_w; apply checked_in; unfold uint in *; cbn; lia |].
  split; [by apply sector_offset |]. split; [done |].
  split; [intros o; split; [apply op_code_inv | apply data_zone_ops] |].
  split; [destruct (flag_run_read os RequestFlags_new) as (Hf & Hsy & Hnw); done |].
  by apply tag_set_spec.
Qed.

Lemma requests_and_tag_sets_witness :
  byte_offset (P := release) (set_flags (set_bio_vec (set_sector_range
    (Request_new 3 1 Write) (2 ^ 55 + 2) 8) BioVec_default) FLAGS_NONE) = Ret 1024 /\
  total_tags (P := release) (TagSetConfig_new 4 128) = Ret 512.
Proof.
  destruct (requests_and_tag_sets release (Request_new 3 1 Write) 0 (2 ^ 55 + 2) 8 [] BioVec_default
    (TagSetConfig_new 4 128) ltac:(by vm_compute) ltac:(by vm_compute) ltac:(by vm_compute)
    ltac:(by vm_compute)) as (_ & _ & Ho & _ & _ & _ & _ & Ht & _).
  split; [exact Ho | exact Ht].
Defined.
