(* ===== verification/Gpu.v ===== *)
(** * Gpu: the compute device and its buffers ([gpu.rs])

    The device is the crate's mock: buffers live in memory, a dispatch is
    validated and counted.  [GpuDevice] keeps atomic counters only, so its
    methods are functions that return the next device; a client owns the
    buffers. *)

From S2P Require Import Prelude Bytes KernelError.

(** ** Enumerations and usage flags *)

Inductive GpuBackend := BackendNone | Vulkan | Metal | Dx12 | OpenGL | WebGpu.

Definition GpuBackend_default : GpuBackend := BackendNone.
Definition GpuBackend_name (b : GpuBackend) : string :=
  match b with
  | BackendNone => "none" | Vulkan => "vulkan" | Metal => "metal" | Dx12 => "dx12"
  | OpenGL => "opengl" | WebGpu => "webgpu"
  end.
Definition is_native (b : GpuBackend) : bool :=
  match b with Vulkan | Metal | Dx12 => true | _ => false end.
Definition backend_is_available (b : GpuBackend) : bool :=
  match b with BackendNone => false | _ => true end.

Inductive GpuDeviceType := DiscreteGpu | IntegratedGpu | VirtualGpu | Cpu | OtherType.
Inductive ShaderStage := Vertex | Fragment | Compute.

Record BufferUsage := mkUsage { usage_bits : Z }.

#[export] Instance BufferUsage_eq_dec : EqDecision BufferUsage.
Proof. solve_decision. Defined.

Definition MAP_READ : BufferUsage := mkUsage (Z.shiftl 1 0).
Definition MAP_WRITE : BufferUsage := mkUsage (Z.shiftl 1 1).
Definition COPY_SRC : BufferUsage := mkUsage (Z.shiftl 1 2).
Definition COPY_DST : BufferUsage := mkUsage (Z.shiftl 1 3).
Definition INDEX : BufferUsage := mkUsage (Z.shiftl 1 4).
Definition VERTEX : BufferUsage := mkUsage (Z.shiftl 1 5).
Definition UNIFORM : BufferUsage := mkUsage (Z.shiftl 1 6).
Definition STORAGE : BufferUsage := mkUsage (Z.shiftl 1 7).
Definition INDIRECT : BufferUsage := mkUsage (Z.shiftl 1 8).
Definition usage_empty : BufferUsage := mkUsage 0.
Definition usage_union (a b : BufferUsage) : BufferUsage :=
  mkUsage (Z.lor (usage_bits a) (usage_bits b)).
Definition contains (a b : BufferUsage) : bool :=
  Z.land (usage_bits a) (usage_bits b) =? usage_bits b.

(** ** Limits and device information *)

Record GpuLimits := mkGpuLimits {
  max_buffer_size : Z;
  max_storage_buffer_binding_size : Z;
  max_uniform_buffer_binding_size : Z;
  max_compute_workgroup_size_x : Z;
  max_compute_workgroup_size_y : Z;
  max_compute_workgroup_size_z : Z;
  max_compute_workgroups_per_dimension : Z;
  max_bind_groups : Z }.

Definition GpuLimits_default : GpuLimits :=
  mkGpuLimits (256 * 1024 * 1024) (128 * 1024 * 1024) (64 * 1024) 256 256 64 65535 4.

Record GpuDeviceInfo := mkGpuDeviceInfo {
  info_name : string; vendor : string; info_backend : GpuBackend; device_type : GpuDeviceType;
  limits : GpuLimits }.

Definition GpuDeviceInfo_default : GpuDeviceInfo :=
  mkGpuDeviceInfo "Mock GPU" "Pepita" BackendNone OtherType GpuLimits_default.

(** ** Buffers *)

Record Buffer := mkBuffer { b_id : Z; b_size : Z; b_usage : BufferUsage; b_data : bytes }.

Definition Buffer_new (id size : Z) (usage : BufferUsage) : Buffer :=
  mkBuffer id size usage (replicate (Z.to_nat size) 0).
Definition Buffer_with_data (id : Z) (data : bytes) (usage : BufferUsage) : Buffer :=
  mkBuffer id (Z.of_nat (length data)) usage data.
(** [data_mut] hands out the slice: its elements can change, its length cannot. *)
Definition data_mut (b : Buffer) (data : bytes) : Buffer :=
  mkBuffer (b_id b) (b_size b) (b_usage b) data.
Definition map_read (b : Buffer) : Result bytes :=
  if negb (contains (b_usage b) MAP_READ) then Err InvalidRequest else Ok (b_data b).
(** The slice to write, and the buffer once the client has written it. *)
Definition map_write (b : Buffer) : Result (bytes * (bytes -> Buffer)) :=
  if negb (contains (b_usage b) MAP_WRITE) then Err InvalidRequest
  else Ok (b_data b, data_mut b).

(** ** Shaders and pipelines *)

Record ComputeShader := mkShader {
  shader_id : Z; shader_source : string; entry_point : string; workgroup_size : Z * Z * Z }.

(** The counter is the function's static [SHADER_ID]. *)
Definition from_wgsl (counter : Z) (source : string) : Result ComputeShader * Z :=
  (Ok (mkShader counter source "main" (64, 1, 1)), wrap 64 (counter + 1)).
Definition with_entry_point (s : ComputeShader) (name : string) : ComputeShader :=
  mkShader (shader_id s) (shader_source s) name (workgroup_size s).
Definition with_workgroup_size (s : ComputeShader) (x y z : Z) : ComputeShader :=
  mkShader (shader_id s) (shader_source s) (entry_point s) (x, y, z).

Record ComputePipeline := mkPipeline { pipeline_shader : ComputeShader; bind_groups : Z }.
Definition ComputePipeline_new (s : ComputeShader) : ComputePipeline := mkPipeline s 1.
Definition with_bind_groups (p : ComputePipeline) (count : Z) : ComputePipeline :=
  mkPipeline (pipeline_shader p) count.

(** ** The device *)

Record GpuDevice := mkGpuDevice {
  info : GpuDeviceInfo; available : bool; buffer_counter : Z; dispatch_count : Z }.

Definition mock : GpuDevice := mkGpuDevice GpuDeviceInfo_default true 1 0.
Definition default_device : Result GpuDevice := Ok mock.
Definition is_available (d : GpuDevice) : bool := available d.

(** [buffer_counter.fetch_add(1)]. *)
Definition next_buffer (d : GpuDevice) : GpuDevice :=
  mkGpuDevice (info d) (available d) (wrap 64 (buffer_counter d + 1)) (dispatch_count d).

Definition create_buffer (d : GpuDevice) (data : bytes) (usage : BufferUsage) :
    Result Buffer * GpuDevice :=
  if negb (is_available d) then (Err DeviceNotReady, d)
  else if Z.of_nat (length data) >? max_buffer_size (limits (info d)) then (Err OutOfMemory, d)
  else
    let id := buffer_counter d in
    (Ok (Buffer_with_data id data usage), next_buffer d).

Definition create_buffer_uninit (d : GpuDevice) (size : Z) (usage : BufferUsage) :
    Result Buffer * GpuDevice :=
  if negb (is_available d) then (Err DeviceNotReady, d)
  else if size >? max_buffer_size (limits (info d)) then (Err OutOfMemory, d)
  else
    let id := buffer_counter d in
    (Ok (Buffer_new id size usage), next_buffer d).

Definition dispatch (d : GpuDevice) (shader : ComputeShader) (buffers : list Buffer)
    (workgroups : Z * Z * Z) : Result () * GpuDevice :=
  if negb (is_available d) then (Err DeviceNotReady, d)
  else
    let limit := max_compute_workgroups_per_dimension (limits (info d)) in
    let '(x, y, z) := workgroups in
    if (x >? limit) || (y >? limit) || (z >? limit) then (Err InvalidArgument, d)
    else (Ok tt, mkGpuDevice (info d) (available d) (buffer_counter d)
                   (wrap 64 (dispatch_count d + 1))).

Definition copy_buffer (d : GpuDevice) (src dst : Buffer) : comp (Result () * Buffer) :=
  if negb (is_available d) then Ret (Err DeviceNotReady, dst)
  else if negb (contains (b_usage src) COPY_SRC) then Ret (Err InvalidRequest, dst)
  else if negb (contains (b_usage dst) COPY_DST) then Ret (Err InvalidRequest, dst)
  else
    let len := Z.to_nat (Z.min (b_size src) (b_size dst)) in
    part ← slice (b_data src) 0 len;
    data ← copy_from_slice (b_data dst) 0 len part;
    Ret (Ok tt, data_mut dst data).

Definition submit_and_wait (d : GpuDevice) : Result () :=
  if negb (is_available d) then Err DeviceNotReady else Ok tt.

(** ** Clients

    A client keeps the buffers it was given and calls the device; a handle is
    the buffer's position.  A copy borrows two different buffers, and a mapped
    slice is overwritten by as many bytes as it has. *)

Inductive GpuOp :=
| OpCreate (data : bytes) (usage : BufferUsage)
| OpUninit (size : Z) (usage : BufferUsage)
| OpCopy (src dst : nat)
| OpMapRead (i : nat)
| OpMapWrite (i : nat) (data : bytes)
| OpDispatch (shader : ComputeShader) (workgroups : Z * Z * Z)
| OpWait.

Inductive GpuOut :=
| OutId (r : Result Z)
| OutUnit (r : Result ())
| OutBytes (r : Result bytes)
| OutNoHandle.

Definition gpu_step (st : GpuDevice * list Buffer) (o : GpuOp) :
    comp (GpuOut * (GpuDevice * list Buffer)) :=
  let '(d, bs) := st in
  match o with
  | OpCreate data usage =>
      match create_buffer d data usage with
      | (Ok b, d) => Ret (OutId (Ok (b_id b)), (d, bs ++ [b]))
      | (Err e, d) => Ret (OutId (Err e), (d, bs))
      end
  | OpUninit size usage =>
      match create_buffer_uninit d size usage with
      | (Ok b, d) => Ret (OutId (Ok (b_id b)), (d, bs ++ [b]))
      | (Err e, d) => Ret (OutId (Err e), (d, bs))
      end
  | OpCopy i j =>
      match bs !! i, bs !! j with
      | Some src, Some dst =>
          if decide (i = j) then Ret (OutNoHandle, (d, bs))
          else
            '(r, dst) ← copy_buffer d src dst;
            Ret (OutUnit r, (d, <[j := dst]> bs))
      | _, _ => Ret (OutNoHandle, (d, bs))
      end
  | OpMapRead i =>
      match bs !! i with
      | Some b => Ret (OutBytes (map_read b), (d, bs))
      | None => Ret (OutNoHandle, (d, bs))
      end
  | OpMapWrite i data =>
      match bs !! i with
      | Some b =>
          match map_write b with
          | Ok (old, put) =>
              if decide (length data = length old)
              then Ret (OutUnit (Ok tt), (d, <[i := put data]> bs))
              else Ret (OutNoHandle, (d, bs))
          | Err e => Ret (OutUnit (Err e), (d, bs))
          end
      | None => Ret (OutNoHandle, (d, bs))
      end
  | OpDispatch s w => let '(r, d) := dispatch d s bs w in Ret (OutUnit r, (d, bs))
  | OpWait => Ret (OutUnit (submit_and_wait d), (d, bs))
  end.

Fixpoint gpu_run (st : GpuDevice * list Buffer) (ops : list GpuOp) :
    comp (list GpuOut * (GpuDevice * list Buffer)) :=
  match ops with
  | [] => Ret ([], st)
  | o :: ops =>
      '(out, st) ← gpu_step st o;
      '(outs, st) ← gpu_run st ops;
      Ret (out :: outs, st)
  end.

(** ** What a client sees: contents and usages, numbered from 1 *)

Definition MemSpec : Type := list (BufferUsage * bytes) * Z.

Definition allocate (m : MemSpec) (usage : BufferUsage) (data : bytes) (size : Z) : GpuOut * MemSpec :=
  let '(bs, n) := m in
  if size >? 256 * 1024 * 1024 then (OutId (Err OutOfMemory), m)
  else (OutId (Ok (wrap 64 (Z.of_nat (length bs) + 1))), (bs ++ [(usage, data)], n)).

Definition mem_step (m : MemSpec) (o : GpuOp) : GpuOut * MemSpec :=
  let '(bs, n) := m in
  match o with
  | OpCreate data usage => allocate m usage data (Z.of_nat (length data))
  | OpUninit size usage => allocate m usage (replicate (Z.to_nat size) 0) size
  | OpCopy i j =>
      match bs !! i, bs !! j with
      | Some (us, s), Some (ud, d) =>
          if decide (i = j) then (OutNoHandle, m)
          else if contains us COPY_SRC && contains ud COPY_DST
          then (OutUnit (Ok tt), (<[j := (ud, take (length d) s ++ drop (length s) d)]> bs, n))
          else (OutUnit (Err InvalidRequest), m)
      | _, _ => (OutNoHandle, m)
      end
  | OpMapRead i =>
      match bs !! i with
      | Some (u, d) => (OutBytes (if contains u MAP_READ then Ok d else Err InvalidRequest), m)
      | None => (OutNoHandle, m)
      end
  | OpMapWrite i data =>
      match bs !! i with
      | Some (u, d) =>
          if contains u MAP_WRITE
          then if decide (length data = length d) then (OutUnit (Ok tt), (<[i := (u, data)]> bs, n))
               else (OutNoHandle, m)
          else (OutUnit (Err InvalidRequest), m)
      | None => (OutNoHandle, m)
      end
  | OpDispatch _ (x, y, z) =>
      if (x <=? 65535) && (y <=? 65535) && (z <=? 65535) then (OutUnit (Ok tt), (bs, n + 1))
      else (OutUnit (Err InvalidArgument), m)
  | OpWait => (OutUnit (Ok tt), m)
  end.

Fixpoint mem_run (m : MemSpec) (ops : list GpuOp) : list GpuOut * MemSpec :=
  match ops with
  | [] => ([], m)
  | o :: ops =>
      let '(out, m) := mem_step m o in
      let '(outs, m) := mem_run m ops in
      (out :: outs, m)
  end.

(** The device and the buffers stand for a memory. *)
Definition stands_for (st : GpuDevice * list Buffer) (m : MemSpec) : Prop :=
  let '(d, bs) := st in
  d = mkGpuDevice GpuDeviceInfo_default true (wrap 64 (Z.of_nat (length bs) + 1)) (wrap 64 m.2) /\
  (fun b => (b_usage b, b_data b)) <$> bs = m.1 /\
  Forall (fun b => b_size b = Z.of_nat (length (b_data b))) bs /\
  b_id <$> bs = (fun i => wrap 64 (Z.of_nat i)) <$> seq 1 (length bs).

Definition wf_op (o : GpuOp) : Prop :=
  match o with OpUninit size _ => u64 size | _ => True end.

(** ** Simulation *)

Lemma stands_lookup (bs : list Buffer) (ms : list (BufferUsage * bytes)) i :
  (fun b => (b_usage b, b_data b)) <$> bs = ms ->
  ms !! i = (fun b => (b_usage b, b_data b)) <$> bs !! i.
Proof. intros <-. apply list_lookup_fmap. Qed.

Lemma fetch_add_wrap n : wrap 64 (wrap 64 n + 1) = wrap 64 (n + 1).
Proof. unfold wrap. apply Zplus_mod_idemp_l. Qed.

(** A buffer added under the next id. *)
Lemma stands_for_add d bs m u data size :
  stands_for (d, bs) m -> size = Z.of_nat (length data) ->
  stands_for (next_buffer d, bs ++ [mkBuffer (buffer_counter d) size u data])
    (m.1 ++ [(u, data)], m.2).
Proof.
  intros (-> & <- & Hs & Hi) ->. unfold stands_for, next_buffer.
  cbn [info available buffer_counter dispatch_count fst snd].
  rewrite length_app. cbn [length]. split_and!.
  - f_equal. rewrite fetch_add_wrap. f_equal; lia.
  - by rewrite fmap_app.
  - apply Forall_app. split; [done | by constructor].
  - rewrite fmap_app, Hi, Nat.add_1_r, seq_S, fmap_app. cbn [fmap list_fmap b_id].
    do 3 f_equal. lia.
Qed.

(** New contents of the same length under an existing handle. *)
Lemma stands_for_put d bs m i b data :
  stands_for (d, bs) m -> bs !! i = Some b -> length data = length (b_data b) ->
  stands_for (d, <[i := data_mut b data]> bs) (<[i := (b_usage b, data)]> m.1, m.2).
Proof.
  intros (-> & <- & Hs & Hi) Hb Hl. unfold stands_for. rewrite length_insert.
  cbn [fst snd]. split_and!; [done | | |].
  - by rewrite list_fmap_insert.
  - apply Forall_insert; [done |]. cbn. rewrite Hl.
    exact (Forall_lookup_1 _ _ _ _ Hs Hb).
  - rewrite list_fmap_insert. cbn. rewrite list_insert_id; [done |].
    by rewrite list_lookup_fmap, Hb.
Qed.

Lemma copy_buffer_spec d src dst :
  is_available d = true ->
  b_size src = Z.of_nat (length (b_data src)) -> b_size dst = Z.of_nat (length (b_data dst)) ->
  copy_buffer d src dst =
  Ret (if contains (b_usage src) COPY_SRC && contains (b_usage dst) COPY_DST
       then (Ok tt, data_mut dst (take (length (b_data dst)) (b_data src) ++
                                  drop (length (b_data src)) (b_data dst)))
       else (Err InvalidRequest, dst)).
Proof.
  intros Ha Hs Hd. unfold copy_buffer. rewrite Ha. cbn [negb].
  destruct (contains (b_usage src) COPY_SRC); [| done].
  destruct (contains (b_usage dst) COPY_DST); [| done]. cbn [negb andb].
  rewrite Hs, Hd. set (ls := length (b_data src)). set (ld := length (b_data dst)).
  rewrite slice_ok by lia. rewrite bind_ret.
  rewrite copy_from_slice_ok by (rewrite ?length_take, ?length_drop; lia).
  rewrite bind_ret, take_0, drop_0, app_nil_l, Nat.sub_0_r. do 4 f_equal.
  - destruct (Nat.le_ge_cases ls ld).
    + rewrite !take_ge by lia. done.
    + f_equal. lia.
  - destruct (Nat.le_ge_cases ls ld).
    + f_equal. lia.
    + rewrite !drop_ge by lia. done.
Qed.

Lemma gpu_step_spec st m o :
  stands_for st m -> wf_op o ->
  exists st', gpu_step st o = Ret ((mem_step m o).1, st') /\ stands_for st' (mem_step m o).2.
Proof.
  destruct st as [d bs], m as [ms n]. intros Hst Hwf. pose proof Hst as (Hd & Hms & Hsz & Hid).
  cbn [fst snd] in *.
  assert (Hav : is_available d = true) by by rewrite Hd.
  assert (Hlim : limits (info d) = GpuLimits_default) by by rewrite Hd.
  assert (Hct : buffer_counter d = wrap 64 (Z.of_nat (length ms) + 1))
    by (rewrite Hd, <- Hms, length_fmap; done).
  destruct o as [data u | size u | i j | i | i data | s [[x y] z] |]; cbn [gpu_step mem_step].
  - unfold create_buffer, allocate. rewrite Hav, Hlim. cbn [negb max_buffer_size GpuLimits_default].
    destruct (_ >? _); [by eauto |]. cbn [fst snd Buffer_with_data b_id]. rewrite <- Hct.
    eexists; split; [done |]. by apply (stands_for_add d bs (ms, n)).
  - unfold create_buffer_uninit, allocate. rewrite Hav, Hlim.
    cbn [negb max_buffer_size GpuLimits_default].
    destruct (_ >? _); [by eauto |]. cbn [fst snd Buffer_new b_id]. rewrite <- Hct.
    eexists; split; [done |]. apply (stands_for_add d bs (ms, n)); [done |].
    rewrite length_replicate. cbn in Hwf. unfold uint in Hwf. lia.
  - rewrite !(stands_lookup bs ms) by done.
    destruct (bs !! i) as [src |] eqn:Ei; [| by eauto].
    destruct (bs !! j) as [dst |] eqn:Ej; [| by eauto]. cbn [fmap option_fmap option_map].
    destruct (decide (i = j)); [by eauto |].
    rewrite copy_buffer_spec by (try done; by eapply Forall_lookup_1 in Hsz).
    destruct (_ && _); cbn [fst snd]; (eexists; split; [done |]).
    + apply (stands_for_put d bs (ms, n)); [done | done |].
      rewrite length_app, length_take, length_drop. lia.
    + by rewrite list_insert_id.
  - rewrite (stands_lookup bs ms) by done.
    destruct (bs !! i) as [b |]; [| by eauto]. cbn. eexists; split; [| done].
    unfold map_read. by destruct (contains _ _).
  - rewrite (stands_lookup bs ms) by done.
    destruct (bs !! i) as [b |] eqn:Ei; [| by eauto]. cbn. unfold map_write.
    destruct (contains _ _); cbn; [| by eauto]. destruct (decide _); [| by eauto].
    cbn. eexists; split; [done |]. by apply (stands_for_put d bs (ms, n)).
  - unfold dispatch. rewrite Hav, Hlim. cbn [negb GpuLimits_default max_compute_workgroups_per_dimension].
    rewrite !Z.gtb_ltb, !Z.ltb_antisym.
    destruct (x <=? 65535), (y <=? 65535), (z <=? 65535); cbn [negb orb andb]; [| by eauto ..].
    eexists; split; [done |]. cbn [fst snd]. rewrite Hd. cbn [info available buffer_counter dispatch_count].
    split_and!; try done. f_equal. apply fetch_add_wrap.
  - unfold submit_and_wait. rewrite Hav. by eauto.
Qed.

Lemma gpu_run_spec ops st m :
  stands_for st m -> Forall wf_op ops ->
  exists st', gpu_run st ops = Ret ((mem_run m ops).1, st') /\ stands_for st' (mem_run m ops).2.
Proof.
  intros Hst Hops; revert st m Hst; induction Hops as [|o ops Ho Hops IH]; intros st m Hst; cbn.
  - by eauto.
  - destruct (gpu_step_spec st m o Hst Ho) as (st1 & E1 & Hst1). rewrite E1.
    destruct (mem_step m o) as [out m1]. cbn [fst snd] in *. rewrite bind_ret.
    destruct (IH st1 m1 Hst1) as (st2 & E2 & Hst2). rewrite E2.
    destruct (mem_run m1 ops) as [outs m2]. by eauto.
Qed.

(** C21. Any sequence of client calls on a new device returns, without a
    panic, what a memory of numbered buffers returns: a copy transfers the
    first bytes up to the shorter buffer's length and keeps the rest, usages
    guard copies and mappings, sizes above 256 MiB and dispatches above 65535
    workgroups in a dimension are refused and change nothing.  An accepted
    dispatch only counts: no shader runs and no buffer changes, although the
    comment of [dispatch] says that it performs the computation on the CPU.
    Afterwards the device holds the memory's contents, every buffer's size is
    its contents' length, ids are distinct, and the dispatch counter is the
    number of accepted dispatches (modulo [2^64]). *)
Theorem device_refines_memory (ops : list GpuOp) :
  Forall wf_op ops ->
  let '(outs, (contents, dispatches)) := mem_run ([], 0) ops in
  exists d bs, gpu_run (mock, []) ops = Ret (outs, (d, bs)) /\
    (fun b => (b_usage b, b_data b)) <$> bs = contents /\
    dispatch_count d = wrap 64 dispatches /\
    Forall (fun b => b_size b = Z.of_nat (length (b_data b))) bs /\
    (Z.of_nat (length bs) < 2 ^ 64 -> NoDup (b_id <$> bs)).
Proof.
  intros Hops.
  destruct (gpu_run_spec ops (mock, []) ([], 0)) as ([d bs] & Hrun & Hd & Hms & Hsz & Hid);
    [by split_and! | done |].
  destruct (mem_run ([], 0) ops) as [outs [contents n]]. cbn [fst snd] in *.
  exists d, bs. split_and!; [done | done | by rewrite Hd | done |].
  intros Hlen. rewrite Hid. apply NoDup_fmap_2_strong; [| apply NoDup_seq].
  intros i j Hi%elem_of_seq Hj%elem_of_seq E. unfold wrap in E.
  destruct (decide (Z.of_nat i < 2 ^ 64)), (decide (Z.of_nat j < 2 ^ 64)).
  - rewrite !Z.mod_small in E by lia. lia.
  - assert (Z.of_nat j = 2 ^ 64) as Ej by lia. rewrite Ej, Z.mod_same, Z.mod_small in E by lia. lia.
  - assert (Z.of_nat i = 2 ^ 64) as Ei by lia. rewrite Ei, Z.mod_same, Z.mod_small in E by lia. lia.
  - lia.
Qed.

Definition demo_gpu_ops : list GpuOp :=
  [OpCreate [1; 2; 3] COPY_SRC; OpUninit 5 (usage_union COPY_DST MAP_READ); OpCopy 0 1; OpCopy 1 0;
   OpMapRead 1; OpMapRead 0].

Lemma device_refines_witness :
  exists d bs, gpu_run (mock, []) demo_gpu_ops =
    Ret ([OutId (Ok 1); OutId (Ok 2); OutUnit (Ok tt); OutUnit (Err InvalidRequest);
          OutBytes (Ok [1; 2; 3; 0; 0]); OutBytes (Err InvalidRequest)], (d, bs)).
Proof.
  destruct (device_refines_memory demo_gpu_ops) as (d & bs & H & _).
  - repeat constructor; cbn; by vm_compute.
  - exists d, bs. exact H.
Defined.
