(* ===== verification/DebugFmt.v ===== *)
(** * DebugFmt: the hand-written [Debug] output ([impl Debug] of src/)

    What [{:?}] prints for the types that implement [Debug] by hand, with the
    format of the standard library's [DebugStruct]: the executor registry, the
    pool, the GPU device and pipeline, the virtio devices, the machine with its
    vCPUs and jailer, and the zram device.  Derived implementations are included
    for the enumerations these print. *)

From Stdlib Require Import Ascii.
From stdpp Require Import pretty.
From S2P Require Import Prelude KernelError.
From S2P Require Executor Pool Gpu Virtio Vmm Zram.

(** ** The format *)

(** [{:?}] of a value. *)
Class Debug (A : Type) := debug : A -> string.

#[export] Instance debug_Z : Debug Z := pretty.
#[export] Instance debug_bool : Debug bool := fun b => if b then "true"%string else "false"%string.

(** [debug_struct(name).field(..)....finish()]. *)
Fixpoint debug_fields (fields : list (string * string)) : string :=
  match fields with
  | [] => EmptyString
  | [(name, value)] => name +:+ ": " +:+ value
  | (name, value) :: fields => name +:+ ": " +:+ value +:+ ", " +:+ debug_fields fields
  end%string.

Definition debug_struct (name : string) (fields : list (string * string)) : string :=
  match fields with
  | [] => name
  | _ => name +:+ " { " +:+ debug_fields fields +:+ " }"
  end%string.

Definition field {A} `{Debug A} (name : string) (value : A) : string * string := (name, debug value).

(** [{:?}] of a string: quotes, backslashes and control characters of ASCII are
    escaped, everything else is taken to be printable. *)
Definition quote : ascii := ascii_of_nat 34.
Definition backslash : ascii := ascii_of_nat 92.
Definition hex (n : nat) : ascii := ascii_of_nat (if (n <? 10)%nat then 48 + n else 87 + n).
Definition escape (a : ascii) : list ascii :=
  let n := nat_of_ascii a in
  if decide (a = quote \/ a = backslash) then [backslash; a]
  else if decide (n = 0%nat) then [backslash; "0"%char]
  else if decide (n = 9%nat) then [backslash; "t"%char]
  else if decide (n = 10%nat) then [backslash; "n"%char]
  else if decide (n = 13%nat) then [backslash; "r"%char]
  else if decide (n < 16)%nat then [backslash; "u"; "{"; hex n; "}"]%char
  else if decide (n < 32 \/ n = 127)%nat
  then [backslash; "u"; "{"; hex (n / 16); hex (n mod 16); "}"]%char
  else [a].
#[export] Instance debug_string : Debug string := fun s =>
  String.string_of_list_ascii (quote :: flat_map escape (String.list_ascii_of_string s) ++ [quote]).

(** ** The types *)

Definition ExecutorRegistry_debug {E} (r : Executor.ExecutorRegistry E) : string :=
  debug_struct "ExecutorRegistry"
    [field "num_executors" (Z.of_nat (length (Executor.executors r)))].

#[export] Instance GpuBackend_debug : Debug Gpu.GpuBackend := fun b =>
  match b with
  | Gpu.BackendNone => "None" | Gpu.Vulkan => "Vulkan" | Gpu.Metal => "Metal"
  | Gpu.Dx12 => "Dx12" | Gpu.OpenGL => "OpenGL" | Gpu.WebGpu => "WebGpu"
  end%string.

Definition GpuDevice_debug (d : Gpu.GpuDevice) : string :=
  debug_struct "GpuDevice"
    [field "name" (Gpu.info_name (Gpu.info d)); field "backend" (Gpu.info_backend (Gpu.info d));
     field "available" (Gpu.is_available d)].

Definition ComputePipeline_debug (p : Gpu.ComputePipeline) : string :=
  debug_struct "ComputePipeline"
    [field "shader_id" (Gpu.shader_id (Gpu.pipeline_shader p)); field "bind_groups" (Gpu.bind_groups p)].

Definition Pool_debug {prof : Profile} {E} {W} {ex : Executor.Executor W E} (p : Pool.Pool E) : comp string :=
  workers ← Pool.pool_num_workers p;
  pending ← Pool.pool_pending_tasks p;
  Ret (debug_struct "Pool"
    [field "num_workers" workers; field "pending_tasks" pending;
     field "running" (Pool.pool_is_running p)]).

Definition VirtioVsock_debug (d : Virtio.VirtioVsock) : string :=
  debug_struct "VirtioVsock"
    [field "cid" (Virtio.vs_cid d); field "ready" (Virtio.vs_ready d);
     field "connections" (Virtio.connection_count d)].

Definition VirtioBlock_debug {prof : Profile} (d : Virtio.VirtioBlock) : comp string :=
  capacity ← Virtio.capacity_bytes d;
  Ret (debug_struct "VirtioBlock"
    [field "capacity_mib" (capacity / 1024 / 1024); field "read_only" (Virtio.is_read_only d);
     field "ready" (Virtio.block_is_ready d); field "reads" (Virtio.read_count d);
     field "writes" (Virtio.write_count d)]).

Definition Vcpu_debug (v : Vmm.Vcpu) : string :=
  debug_struct "Vcpu" [field "id" (Vmm.vcpu_id v); field "running" (Vmm.vcpu_running v)].

#[export] Instance VmState_debug : Debug Vmm.VmState := fun s =>
  match s with
  | Vmm.Created => "Created" | Vmm.Running => "Running" | Vmm.Paused => "Paused"
  | Vmm.Stopped => "Stopped" | Vmm.Error => "Error"
  end%string.

Definition MicroVm_debug (vm : Vmm.MicroVm) : comp string :=
  state ← Vmm.state vm;
  Ret (debug_struct "MicroVm"
    [field "vcpus" (Vmm.vcpu_count vm); field "memory_mb" (Vmm.memory_mb (Vmm.vm_config vm));
     field "state" state]).

Definition Jailer_debug (j : Vmm.Jailer) : string :=
  debug_struct "Jailer"
    [field "active" (Vmm.jailer_is_active j); field "seccomp" (Vmm.seccomp (Vmm.j_config j))].

#[export] Instance ZramCompressor_debug : Debug Zram.ZramCompressor := fun c =>
  match c with Zram.Lz4 => "Lz4" | Zram.NoCompression => "None" end%string.

Definition ZramDevice_debug (d : Zram.ZramDevice) : string :=
  debug_struct "ZramDevice"
    [field "size_bytes" (Zram.size_bytes (Zram.config d));
     field "compressor" (Zram.compressor (Zram.config d));
     field "stored_pages" (Z.of_nat (Zram.stored_pages d))].

(** ** The output names the type *)

Lemma prefix_app s t : String.prefix s (s +:+ t) = true.
Proof.
  induction s as [| a s IH]; [by destruct t |]. simpl.
  destruct (ascii_dec a a); [exact IH | congruence].
Qed.

Lemma prefix_refl s : String.prefix s s = true.
Proof.
  induction s as [| a s IH]; [done |]. simpl.
  destruct (ascii_dec a a); [exact IH | congruence].
Qed.

Lemma debug_struct_named name fields : String.prefix name (debug_struct name fields) = true.
Proof. destruct fields; [apply prefix_refl | apply prefix_app]. Qed.
