(* ===== verification/DeviceAbi.v ===== *)
(** * DeviceAbi: the memory layout of the virtio and KVM structures
    (src/virtio.rs, src/vmm.rs), and the constants of src/lib.rs

    The [#[repr(C)]] structures of the device side as [CType]s, the fields of
    the wire headers with their values, and the [ioctl] numbers of KVM, which
    carry the size of the structure they pass. *)

From S2P Require Import Prelude Bytes Layout Vmm Virtio Zram Memory BlkMq.

(** ** virtio *)

Definition desc_fields (d : VirtqDesc) : list (nat * Z) :=
  [(8, d_addr d); (4, d_len d); (2, d_flags d); (2, d_next d)]%nat.
(** The arrays of length 0 still count for the alignment. *)
Definition avail_type : CType := CStruct [CInt 2; CInt 2; CArray (CInt 2) 0].
Definition used_elem_type : CType := CStruct [CInt 4; CInt 4].
Definition used_type : CType := CStruct [CInt 2; CInt 2; CArray used_elem_type 0].

Definition header_fields (h : VsockPacketHeader) : list (nat * Z) :=
  [(8, src_cid h); (8, dst_cid h); (4, src_port h); (4, dst_port h); (4, h_len h);
   (2, packet_type h); (2, h_op h); (4, h_flags h); (4, h_buf_alloc h); (4, h_fwd_cnt h)]%nat.
Definition request_fields (h : BlockRequestHeader) : list (nat * Z) :=
  [(4, request_type h); (4, rq_reserved h); (8, rq_sector h)]%nat.

(** ** KVM *)

Definition regs_type : CType := CStruct (replicate 18 (CInt 8)).
Definition segment_type : CType :=
  CStruct ([CInt 8; CInt 4; CInt 2] ++ replicate 10 (CInt 1)).
Definition dtable_type : CType := CStruct [CInt 8; CInt 2; CArray (CInt 2) 3].
Definition sregs_type : CType :=
  CStruct (replicate 8 segment_type ++ replicate 2 dtable_type ++ replicate 7 (CInt 8) ++
    [CArray (CInt 8) 4]).

Definition KVM_GET_API_VERSION : Z := 0xAE00.
Definition KVM_CREATE_VM : Z := 0xAE01.
Definition KVM_CHECK_EXTENSION : Z := 0xAE03.
Definition KVM_GET_VCPU_MMAP_SIZE : Z := 0xAE04.
Definition KVM_CREATE_VCPU : Z := 0xAE41.
Definition KVM_SET_USER_MEMORY_REGION : Z := 0x4020AE46.
Definition KVM_RUN : Z := 0xAE80.
Definition KVM_GET_REGS : Z := 0x8090AE81.
Definition KVM_SET_REGS : Z := 0x4090AE82.
Definition KVM_GET_SREGS : Z := 0x8138AE83.
Definition KVM_SET_SREGS : Z := 0x4138AE84.

(** An [ioctl] number: direction, size of the argument. *)
Definition passes (z dir : Z) (size : nat) : Prop :=
  ioc_type z = 0xAE /\ ioc_dir z = dir /\ ioc_size z = Z.of_nat size.

(** ** Crate constants (src/lib.rs) *)

Definition SECTOR_SIZE : Z := 512.
Definition PAGE_SIZE : Z := 4096.
Definition MAX_QUEUE_DEPTH : Z := 32768.
Definition MAX_HW_QUEUES : Z := 128.

(** ** Properties *)

(** C39. The layout of the device structures.  A virtqueue descriptor and a block
    request header are 16 bytes without padding, every field at its documented
    offset, and the ring headers are 4 bytes; KVM's register structures have no
    padding and exactly the sizes that the [ioctl] numbers passing them carry,
    in the direction of the command, while the commands without an argument
    carry none.  The vsock packet header, declared as 44 bytes, occupies 48:
    its fields end at byte 44 and alignment adds four bytes after them, whose
    contents are unspecified (every statement holds for all of them).  The
    address types written in a packet header are read back, and a header built
    from a packet or request type gives that type back.  The crate-level
    constants agree with those of the modules. *)
Theorem device_layouts :
  (forall gaps d, length (image gaps (desc_fields d)) = 16%nat /\
     holds_at (image gaps (desc_fields d))
       [(0, (8, d_addr d)); (8, (4, d_len d)); (12, (2, d_flags d)); (14, (2, d_next d))]%nat) /\
  (forall gaps h, Z.of_nat (length (image gaps (request_fields h))) = BlockRequestHeader_SIZE /\
     holds_at (image gaps (request_fields h))
       [(0, (4, request_type h)); (4, (4, rq_reserved h)); (8, (8, rq_sector h))]%nat) /\
  (forall gaps h, length (image gaps (header_fields h)) = 48%nat /\
     Z.of_nat (end_of 0 (header_fields h).*1) = VsockPacketHeader_SIZE /\
     drop 44 (image gaps (header_fields h)) = gaps <$> [44; 45; 46; 47]%nat /\
     holds_at (image gaps (header_fields h))
       [(0, (8, src_cid h)); (8, (8, dst_cid h)); (16, (4, src_port h)); (20, (4, dst_port h));
        (24, (4, h_len h)); (28, (2, packet_type h)); (30, (2, h_op h)); (32, (4, h_flags h));
        (36, (4, h_buf_alloc h)); (40, (4, h_fwd_cnt h))]%nat) /\
  ((c_size avail_type, c_align avail_type) = (4, 2)%nat /\
   (c_size used_type, c_align used_type) = (4, 4)%nat /\ c_size used_elem_type = 8%nat) /\
  (passes KVM_GET_REGS 2 (c_size regs_type) /\ passes KVM_SET_REGS 1 (c_size regs_type) /\
   passes KVM_GET_SREGS 2 (c_size sregs_type) /\ passes KVM_SET_SREGS 1 (c_size sregs_type) /\
   passes KVM_SET_USER_MEMORY_REGION 1 32 /\
   Forall (fun z => passes z 0 0) [KVM_GET_API_VERSION; KVM_CREATE_VM; KVM_CHECK_EXTENSION;
     KVM_GET_VCPU_MMAP_SIZE; KVM_CREATE_VCPU; KVM_RUN] /\
   Forall (fun t => c_size t = c_data t /\ c_align t = 8%nat)
     [regs_type; segment_type; dtable_type; sregs_type]) /\
  (forall src dst t, let h := VsockPacketHeader_new src dst t in
     get_type h = t /\ header_src h = src /\ header_dst h = dst) /\
  (forall s, request_get_type (request_read s) = BIn /\ request_get_type (request_write s) = BOut /\
     request_get_type request_flush = BFlush) /\
  (forall t, request_from (request_code t) = t) /\
  (NoDup device_types.*2 /\ flag_set 8 status_bits.*2) /\
  (PAGE_SIZE = Memory.PAGE_SIZE /\ PAGE_SIZE = Z.of_nat Zram.PAGE_SIZE /\
   MAX_QUEUE_DEPTH = BLK_MQ_MAX_DEPTH /\ MAX_HW_QUEUES = BLK_MQ_MAX_HW_QUEUES /\
   PAGE_SIZE mod SECTOR_SIZE = 0).
Proof.
  assert (Hlen : forall gaps fields, Forall (fun f => 0 < f.1)%nat fields ->
    (end_of 0 fields.*1 <= size_of fields.*1)%nat -> length (image gaps fields) = size_of fields.*1)
    by apply length_image.
  split_and!.
  - intros gaps d. split; [rewrite Hlen; [done | by repeat constructor | by vm_compute; lia]
      | by apply image_holds; repeat constructor; cbn; lia].
  - intros gaps h. split; [rewrite Hlen; [done | by repeat constructor | by vm_compute; lia]
      | by apply image_holds; repeat constructor; cbn; lia].
  - intros gaps h. split; [rewrite Hlen; [done | by repeat constructor | by vm_compute; lia] |].
    split; [done |]. split; [| by apply image_holds; repeat constructor; cbn; lia].
    unfold image. pose proof (length_fields_image gaps 0 (header_fields h) ltac:(by repeat constructor)) as Hl.
    change (end_of 0 (header_fields h).*1) with 44%nat in Hl.
    change (size_of (header_fields h).*1) with 48%nat.
    rewrite drop_app_ge by lia. replace (length (fields_image gaps 0 (header_fields h))) with 44%nat by lia.
    done.
  - done.
  - done.
  - done.
  - by vm_compute.
  - by vm_compute.
  - by vm_compute.
  - by vm_compute.
  - by vm_compute.
  - repeat constructor.
  - repeat constructor.
  - intros [] [] []; by repeat split.
  - done.
  - by intros [].
  - apply (bool_decide_unpack _). by vm_compute.
  - by apply flag_set_true.
  - done.
  - done.
  - done.
  - done.
  - done.
Qed.
