(* ===== verification/Main.v ===== *)
(** * Main: the command line tool (src/main.rs)

    The arguments, the report with its ABI checks over the layouts of [Abi], and
    the exit status.  Each element of [stdout] and [stderr] is the text of one
    [println!] or [eprintln!].  The version comes from the build, and the size
    of [Request], a structure without [repr(C)], from the compiler: both are
    parameters. *)

From stdpp Require Import pretty.
From S2P Require Import Prelude KernelError Layout Abi Memory BlkMq.

#[local] Abbreviation Request_new := BlkMq.Request_new.

(** ** Text *)

(** [{:08x}] of a [u32]. *)
Definition hex_digit (d : Z) : string :=
  default EmptyString (["0"; "1"; "2"; "3"; "4"; "5"; "6"; "7"; "8"; "9"; "a"; "b"; "c"; "d"; "e"; "f"]%string
                !! Z.to_nat d).
Definition hex08 (z : Z) : string :=
  foldr (fun i s => hex_digit (Z.shiftr z (4 * i) mod 16) +:+ s) EmptyString [7; 6; 5; 4; 3; 2; 1; 0].
Definition newline : string := String (Ascii.ascii_of_nat 10) EmptyString.
Definition show (n : nat) : string := pretty (Z.of_nat n).

(** [#[derive(Debug)]]. *)
Definition op_debug (o : RequestOp) : string :=
  match o with
  | Read => "Read" | Write => "Write" | Flush => "Flush" | Discard => "Discard"
  | WriteZeroes => "WriteZeroes" | SecureErase => "SecureErase" | ZoneReset => "ZoneReset"
  | ZoneOpen => "ZoneOpen" | ZoneClose => "ZoneClose" | ZoneFinish => "ZoneFinish"
  end.

Definition usage (version : string) : string :=
  foldr (fun l s => match s with EmptyString => l | _ => l +:+ newline +:+ s end) EmptyString
    [("pepita " +:+ version +:+ " — Sovereign AI kernel interface verification")%string;
     EmptyString; "Usage: pepita [OPTIONS]"; EmptyString; "Options:";
     "  -V, --version  Print version"; "  -h, --help     Print help"; EmptyString;
     "Run without arguments to perform full ABI verification."]%string.

(** ** The report *)

Section report.
(** [size_of::<Request>()]. *)
Context (request_size : nat).

Definition ctrl_size : nat := size_of (ctrl_fields UblkCtrlCmd_default).*1.
Definition desc_size : nat := size_of (desc_fields UblkIoDesc_default).*1.
Definition cmd_size : nat := size_of (cmd_fields UblkIoCmd_default).*1.
Definition sqe_size : nat := size_of (sqe_fields IoUringSqe_default).*1.
Definition cqe_size : nat := size_of (cqe_fields IoUringCqe_default).*1.
(** [PhysAddr] and [VirtAddr] are [#[repr(transparent)]] over [u64]. *)
Definition addr_widths : list nat := [8%nat].

Definition print_struct_info : list string :=
  ["Struct Sizes (ABI Verification):";
   "  UblkCtrlCmd:  " +:+ show ctrl_size +:+ " bytes (expected: 32)";
   "  UblkIoDesc:   " +:+ show desc_size +:+ " bytes (expected: 24)";
   "  UblkIoCmd:    " +:+ show cmd_size +:+ " bytes (expected: 16)";
   "  IoUringSqe:   " +:+ show sqe_size +:+ " bytes (expected: 64)";
   "  IoUringCqe:   " +:+ show cqe_size +:+ " bytes (expected: 16)";
   "  Request:      " +:+ show request_size +:+ " bytes";
   "  PhysAddr:     " +:+ show (size_of addr_widths) +:+ " bytes";
   "  VirtAddr:     " +:+ show (size_of addr_widths) +:+ " bytes"; EmptyString]%string.

Definition UBLK_U_CMD_ADD_DEV : Z := default 0 (snd <$> head ublk_ctrl_cmds).

Definition print_constants : list string :=
  ["Kernel Constants:";
   "  PAGE_SIZE:          " +:+ pretty PAGE_SIZE;
   "  BLK_MQ_MAX_DEPTH:   " +:+ pretty BLK_MQ_MAX_DEPTH;
   "  BLK_MQ_MAX_HW_QUEUES: " +:+ pretty BLK_MQ_MAX_HW_QUEUES;
   "  IORING_OP_NOP:      " +:+ pretty IORING_OP_NOP;
   "  IORING_OP_READ:     " +:+ pretty IORING_OP_READ;
   "  IORING_OP_URING_CMD: " +:+ pretty IORING_OP_URING_CMD;
   "  UBLK_U_CMD_ADD_DEV: 0x" +:+ hex08 UBLK_U_CMD_ADD_DEV; EmptyString]%string.

Definition verdict (ok : bool) : string := if ok then "OK" else "FAIL".

(** The report's lines and the exit status. *)
Definition verify_abi : list string * Z :=
  let ublk_ctrl_ok := (ctrl_size =? 32)%nat in
  let ublk_io_desc_ok := (desc_size =? 24)%nat in
  let ublk_io_cmd_ok := (cmd_size =? 16)%nat in
  let sqe_ok := (sqe_size =? 64)%nat in
  let cqe_ok := (cqe_size =? 16)%nat in
  let phys_align_ok := (align_of addr_widths =? 8)%nat in
  let virt_align_ok := (align_of addr_widths =? 8)%nat in
  let sqe_align_ok := (align_of (sqe_fields IoUringSqe_default).*1 =? 8)%nat in
  let ctrl := UblkCtrlCmd_new 0 in
  let sqe := nop 0 in
  let req := Request_new 0 0 Read in
  let config := TagSetConfig_new 4 128 in
  let all_ok := ublk_ctrl_ok && ublk_io_desc_ok && ublk_io_cmd_ok && sqe_ok && cqe_ok
    && phys_align_ok && virt_align_ok && sqe_align_ok in
  (["ABI Verification:";
    "  UblkCtrlCmd size: " +:+ verdict ublk_ctrl_ok;
    "  UblkIoDesc size:  " +:+ verdict ublk_io_desc_ok;
    "  UblkIoCmd size:   " +:+ verdict ublk_io_cmd_ok;
    "  IoUringSqe size:  " +:+ verdict sqe_ok;
    "  IoUringCqe size:  " +:+ verdict cqe_ok; EmptyString;
    "Alignment Verification:";
    "  PhysAddr align:   " +:+ verdict phys_align_ok;
    "  VirtAddr align:   " +:+ verdict virt_align_ok;
    "  IoUringSqe align: " +:+ verdict sqe_align_ok; EmptyString;
    "Construction Tests:";
    "  UblkCtrlCmd: dev_id=" +:+ pretty (dev_id ctrl);
    "  IoUringSqe::nop: opcode=" +:+ pretty (opcode sqe);
    "  Request: op=" +:+ op_debug (BlkMq.op req) +:+ ", tag=" +:+ pretty (BlkMq.tag req);
    match validate config with
    | Ok _ => "  TagSetConfig: valid"
    | Err e => "  TagSetConfig: invalid - " +:+ KernelError_fmt e
    end; EmptyString;
    if all_ok then "All ABI checks passed!" else "WARNING: Some ABI checks failed!"]%string,
   if all_ok then 0 else 1).

(** ** [main] *)

Record Exit : Type := mkExit { stdout : list string; stderr : list string; status : Z }.

(** An argument that is not Unicode is [None]: [std::env::args] panics on it. *)
Definition main (version : string) (argv : list (option string)) : comp Exit :=
  match mapM id argv with
  | None => Panic
  | Some (_ :: arg :: _) =>
      if decide (arg = "--version" \/ arg = "-V")%string
      then Ret (mkExit [("pepita " +:+ version)%string] [] 0)
      else if decide (arg = "--help" \/ arg = "-h")%string
      then Ret (mkExit [usage version] [] 0)
      else Ret (mkExit []
        [("pepita: unrecognised argument '" +:+ arg +:+ "'")%string; EmptyString; usage version] 2)
  | Some _ =>
      let '(lines, code) := verify_abi in
      Ret (mkExit
        (["Pepita - Tiny First-Principles Rust Kernel Interfaces";
          "======================================================"; EmptyString]%string
         ++ print_struct_info ++ print_constants ++ lines) [] code)
  end.

(** The tool on any command line.  Arguments that are not Unicode panic.
    Otherwise it succeeds, writing nothing to stderr, exactly when it has no
    argument or the first one asks for the version or the help, and answers
    any other first argument with status 2, nothing on stdout and the
    diagnostic on stderr; without an argument it prints the report, every
    check of which passes, and it never exits with status 1. *)
Theorem main_status version argv :
  (main version argv = Panic <-> None ∈ argv) /\
  forall args x, argv = Some <$> args -> main version argv = Ret x ->
    (status x = 0 \/ status x = 2) /\
    (status x = 0 <-> stderr x = []) /\ (status x = 2 <-> stdout x = []) /\
    (status x = 0 <-> forall arg, args !! 1%nat = Some arg ->
       arg ∈ ["--version"; "-V"; "--help"; "-h"]%string) /\
    (args !! 1%nat = None ->
       last (stdout x) = Some "All ABI checks passed!"%string /\
       "  TagSetConfig: valid"%string ∈ stdout x /\
       Forall (fun l => ~ l ∈ ["  UblkCtrlCmd size: FAIL"; "  UblkIoDesc size:  FAIL";
         "  UblkIoCmd size:   FAIL"; "  IoUringSqe size:  FAIL"; "  IoUringCqe size:  FAIL";
         "  PhysAddr align:   FAIL"; "  VirtAddr align:   FAIL"; "  IoUringSqe align: FAIL"]%string)
         verify_abi.1).
Proof.
  split.
  - unfold main. destruct (mapM id argv) as [args |] eqn:Hm.
    + apply mapM_Some in Hm. split.
      * destruct args as [| ? [| arg ?]]; [done | done |]. by repeat case_decide.
      * intros Hin. exfalso. apply list_elem_of_lookup in Hin as [i Hi].
        destruct (Forall2_lookup_l _ _ _ _ _ Hm Hi) as (? & _ & ?). done.
    + apply mapM_None in Hm. apply Exists_exists in Hm as ([a |] & Hin & Ha); [done |]. by split.
  - intros args x -> Hx. unfold main in Hx. rewrite mapM_fmap_Some in Hx by done.
    destruct args as [| a0 [| arg args]]; cbn [lookup list_lookup].
    1,2: injection Hx as <-; split_and!; try done; try (by left); try (by split; intros);
      intros _; split_and!; [done | apply (bool_decide_unpack _); by vm_compute
        | apply (bool_decide_unpack _); by vm_compute].
    case_decide as Hv; [| case_decide as Hh]; injection Hx as <-; cbn [stdout stderr status].
    + split_and!; try done; [by left |]. split; [| done]. intros _ ? [= <-]. set_solver.
    + split_and!; try done; [by left |]. split; [| done]. intros _ ? [= <-]. set_solver.
    + split_and!; try done; [by right |]. split; [done |]. intros H. specialize (H arg eq_refl). set_solver.
Qed.

End report.
