(* ===== verification/Build.v ===== *)
(** * Build: the build script (build.rs)

    The script reads the bindings of the project's contracts and prints one
    instruction to cargo per line.  The file system, the YAML parser and the
    Unicode part of [str::to_uppercase] are parameters; the lines are in the order
    they are printed. *)

From Stdlib Require Import Ascii.
From stdpp Require Import pretty.
From S2P Require Import Prelude.

(** ** The binding file *)

Record Binding : Type := mkBinding { contract : string; equation : string; status : string }.
Record BindingFile : Type :=
  mkBindingFile { version : string; target_crate : string; bindings : list Binding }.

#[export] Instance Binding_eq_dec : EqDecision Binding.
Proof. solve_decision. Defined.

(** ** Text *)

Definition ascii_map (f : Ascii.ascii -> Ascii.ascii) (s : string) : string :=
  String.string_of_list_ascii (f <$> String.list_ascii_of_string s).

(** [replace('-', "_")]. *)
Definition underscore (a : Ascii.ascii) : Ascii.ascii := if decide (a = "-"%char) then "_"%char else a.

(** [trim_end_matches(".yaml")]: drops the suffix as often as it is there. *)
Fixpoint trim_front (fuel : nat) (l : list Ascii.ascii) : list Ascii.ascii :=
  match fuel, l with
  | S fuel, "l"%char :: "m"%char :: "a"%char :: "y"%char :: "."%char :: l => trim_front fuel l
  | _, _ => l
  end.
Definition trim_end_yaml (s : string) : string :=
  let l := String.list_ascii_of_string s in
  String.string_of_list_ascii (reverse (trim_front (length l) (reverse l))).

(** [Path::join] with a relative component: a separator unless there is one. *)
Definition join (path component : string) : string :=
  match last (String.list_ascii_of_string path) with
  | None | Some "/"%char => path +:+ component
  | _ => path +:+ "/" +:+ component
  end%string.

Definition is_implemented (b : Binding) : bool := String.eqb (status b) "implemented".
Definition count (bs : list Binding) : Z := Z.of_nat (length (List.filter is_implemented bs)).

Lemma count_le bs : 0 <= count bs <= Z.of_nat (length bs).
Proof. unfold count. pose proof (List.filter_length_le is_implemented bs). lia. Qed.

Section script.
Context {prof : Profile}.
Context (to_uppercase : string -> string).

Definition constant_case (s : string) : string := ascii_map underscore (to_uppercase s).

Definition variable (b : Binding) : string :=
  ("CONTRACT_" +:+ constant_case (trim_end_yaml (contract b)) +:+ "_" +:+
   constant_case (equation b))%string.

Definition set_env (name value : string) : string :=
  ("cargo:rustc-env=" +:+ name +:+ "=" +:+ value)%string.

(** The loop over the bindings: the count so far and the lines printed. *)
Definition emit (b : Binding) '((implemented, out) : Z * list string) : comp (Z * list string) :=
  let out := out ++ [set_env (variable b) (status b)] in
  if String.eqb (status b) "implemented"
  then implemented ← add_w 32 implemented 1; Ret (implemented, out)
  else Ret (implemented, out).

Lemma emit_eq b n out :
  emit b (n, out) =
  (n ← (if is_implemented b then add_w 32 n 1 else Ret n);
   Ret (n, out ++ [set_env (variable b) (status b)])).
Proof. unfold emit, is_implemented. by destruct (String.eqb _ _). Qed.

Lemma emit_all bs n out :
  0 <= n -> n + Z.of_nat (length bs) < 2 ^ 32 ->
  for_each bs emit (n, out) =
  Ret (n + count bs, out ++ ((fun b => set_env (variable b) (status b)) <$> bs)).
Proof.
  revert n out. induction bs as [| b bs IH]; intros n out Hn Hle.
  { unfold count; cbn. by rewrite Z.add_0_r, app_nil_r. }
  cbn [length] in Hle. cbn [for_each]. rewrite emit_eq. unfold count. cbn [List.filter].
  destruct (is_implemented b).
  - unfold add_w. rewrite checked_in by (unfold uint; lia). rewrite !bind_ret, IH by lia.
    unfold count. cbn [length fmap list_fmap]. rewrite <- app_assoc.
    replace (n + 1 + Z.of_nat (length (List.filter is_implemented bs))) with
      (n + Z.of_nat (S (length (List.filter is_implemented bs)))) by lia. done.
  - rewrite !bind_ret, IH by lia. cbn [fmap list_fmap]. by rewrite <- app_assoc.
Qed.

(** ** The script *)

Context (manifest_dir : string) (exists_ : string -> bool) (read_to_string : string -> option string)
  (from_str : string -> option BindingFile).

Definition binding_path : string :=
  foldl join manifest_dir [".."; "provable-contracts"; "contracts"; "pepita"; "binding.yaml"]%string.

Definition main : comp (list string) :=
  let out := [("cargo:rerun-if-changed=" +:+ binding_path)%string] in
  let none := out ++ ["cargo:rustc-env=CONTRACT_BINDING_SOURCE=none"%string] in
  if negb (exists_ binding_path) then Ret none
  else match read_to_string binding_path with
  | None => Ret none
  | Some yaml =>
      match from_str yaml with
      | None => Ret none
      | Some file =>
          let total := wrap 32 (Z.of_nat (length (bindings file))) in
          '(implemented, out) ← for_each (bindings file) emit (0, out);
          Ret (out ++ ["cargo:rustc-env=CONTRACT_BINDING_SOURCE=binding.yaml"%string;
            set_env "CONTRACT_TOTAL" (pretty total);
            set_env "CONTRACT_IMPLEMENTED" (pretty implemented)])
      end
  end.

(** With fewer than [2^32] bindings the script prints one variable per binding, in
    order, then their number and how many are implemented, never more; without
    a readable, well-formed file it says so; it never panics. *)
Lemma main_spec :
  match (if exists_ binding_path then read_to_string binding_path ≫= from_str else None) with
  | None => main = Ret [("cargo:rerun-if-changed=" +:+ binding_path)%string;
                        "cargo:rustc-env=CONTRACT_BINDING_SOURCE=none"%string]
  | Some file =>
      let bs := bindings file in
      Z.of_nat (length bs) < 2 ^ 32 ->
      main = Ret (("cargo:rerun-if-changed=" +:+ binding_path)%string ::
        ((fun b => set_env (variable b) (status b)) <$> bs) ++
        ["cargo:rustc-env=CONTRACT_BINDING_SOURCE=binding.yaml"%string;
         set_env "CONTRACT_TOTAL" (pretty (Z.of_nat (length bs)));
         set_env "CONTRACT_IMPLEMENTED" (pretty (count bs))]) /\
      0 <= count bs <= Z.of_nat (length bs)
  end.
Proof.
  unfold main. destruct (exists_ binding_path); [| done]. cbn [negb].
  destruct (read_to_string binding_path) as [yaml |]; [| done]. cbn [mbind option_bind].
  destruct (from_str yaml) as [file |]; [| done]. cbn zeta. intros Hn.
  split; [| apply count_le]. rewrite emit_all by lia.
  rewrite bind_ret, wrap_id by (unfold uint; lia). by rewrite Z.add_0_l.
Qed.

End script.

(** ** Names that meet *)

(** [to_uppercase] of text without letters beyond ASCII. *)
Definition ascii_upper (a : Ascii.ascii) : Ascii.ascii :=
  let n := Ascii.nat_of_ascii a in
  if ((97 <=? n) && (n <=? 122))%nat then Ascii.ascii_of_nat (n - 32) else a.

(** Two different bindings may set the same variable; cargo keeps the later value. *)
Example variables_meet :
  variable (ascii_map ascii_upper) (mkBinding "io-uring.yaml" "roundtrip" "implemented") =
    "CONTRACT_IO_URING_ROUNDTRIP"%string /\
  variable (ascii_map ascii_upper) (mkBinding "io.yaml" "uring-roundtrip" "planned") =
    "CONTRACT_IO_URING_ROUNDTRIP"%string.
Proof. vm_compute. done. Qed.

(** A project with two bindings, one of them implemented. *)
Example build_prints :
  main (prof := dev) (ascii_map ascii_upper) "/src/pepita" (fun _ => true) (fun _ => Some "version: 1"%string)
    (fun _ => Some (mkBindingFile "1.0" "pepita"
      [mkBinding "matmul-v1.yaml" "matmul" "implemented"; mkBinding "dispatch-v1" "dispatch" "planned"])) =
  Ret ["cargo:rerun-if-changed=/src/pepita/../provable-contracts/contracts/pepita/binding.yaml";
       "cargo:rustc-env=CONTRACT_MATMUL_V1_MATMUL=implemented";
       "cargo:rustc-env=CONTRACT_DISPATCH_V1_DISPATCH=planned";
       "cargo:rustc-env=CONTRACT_BINDING_SOURCE=binding.yaml";
       "cargo:rustc-env=CONTRACT_TOTAL=2"; "cargo:rustc-env=CONTRACT_IMPLEMENTED=1"]%string.
Proof. vm_compute. reflexivity. Qed.
