(* ===== verification/VerificationSpecs.v ===== *)
(** * VerificationSpecs: the contracts of verification_specs.rs

    The functions of src/verification_specs.rs with the pre- and
    postconditions their comments and attributes declare ([requires],
    [ensures]).  The file is documentation in the form of code: lib.rs does not
    declare it, and its second half is compiled only under [cfg(verus)].  The
    theorems say for which inputs each contract holds of the code as Rust
    executes it.  [debug_assert] is active in the [dev] profile only. *)

From Stdlib Require Import SpecFloat.
From S2P Require Import Prelude Float.

Definition debug_assert {P : Profile} (b : bool) : comp () :=
  if overflow_checks then (if b then Ret tt else Panic) else Ret tt.

(** ** [config_contracts] *)

Definition validate_size (size max : Z) : bool := size <=? max.
Definition validate_index (index len : Z) : bool := index <? len.
Definition validated_len {P : Profile} {A} (data : list A) : comp nat :=
  _ ← debug_assert (negb (length data =? 0)%nat);
  Ret (length data).

(** ** [numeric_contracts] *)

(** [u64::checked_add]. *)
Definition checked_add (a b : Z) : option Z := Prelude.checked_add 64 a b.

Definition is_nan (x : spec_float) : bool :=
  match x with S754_nan => true | _ => false end.
Definition is_infinite (x : spec_float) : bool :=
  match x with S754_infinity _ => true | _ => false end.

Definition is_valid_float (val : spec_float) : bool := is_finite val.

Definition f64_0 : spec_float := f64_of_int 0.
Definition f64_1 : spec_float := f64_of_int 1.

(** [f64::clamp]: a NaN stays a NaN. *)
Definition clamp (x lo hi : spec_float) : spec_float :=
  if SFltb x lo then lo else if SFltb hi x then hi else x.

Definition normalize {P : Profile} (val min max : spec_float) : comp spec_float :=
  _ ← debug_assert (SFltb min max);
  Ret (clamp (f64_div (f64_sub val min) (f64_sub max min)) f64_0 f64_1).

(** ** [verus_specs] *)

Section verus.
Context {P : Profile}.

Definition verify_syscall_bounds (syscall_nr max_syscall : Z) : bool := syscall_nr <=? max_syscall.
Definition verify_valid_syscall_nr (nr : Z) : Z := nr.
Definition verify_buffer_size (buf_size max_buf_size : Z) : Z :=
  if buf_size >? max_buf_size then max_buf_size else buf_size.
Definition verify_remaining_buffer (buf_len offset : Z) : comp Z := sub_w 64 buf_len offset.
Definition verify_total_buffer_size (count element_size : Z) : comp Z := mul_w 64 count element_size.
Definition verify_fd_bounds (fd max_fd : Z) : bool := fd <? max_fd.
Definition verify_stdio_fd (fd : Z) : bool := (fd >=? 0) && (fd <=? 2).
(** [/] and [%] panic on a zero divisor in every profile. *)
Definition verify_page_count (size page_size : Z) : comp Z :=
  s ← add_w 64 size page_size;
  s ← sub_w 64 s 1;
  if page_size =? 0 then Panic else Ret (s / page_size).
Definition verify_page_aligned (addr page_size : Z) : comp bool :=
  if page_size =? 0 then Panic else Ret (addr mod page_size =? 0).
Definition verify_page_allocation (num_pages : Z) : comp Z := mul_w 64 num_pages 4096.
Definition verify_signal_number (signum : Z) : bool := signum <=? 64.
Definition verify_file_mode (mode : Z) : Z := mode.
Definition verify_read_permission (rwx : Z) : bool := negb (Z.land rwx 4 =? 0).
Definition verify_pid_bounds (pid max_pid : Z) : bool := pid <=? max_pid.
Definition verify_ioctl_cmd (cmd : Z) : Z := cmd.
Definition verify_timeout_bounds (timeout_ms max_timeout : Z) : Z :=
  if timeout_ms >? max_timeout then max_timeout else timeout_ms.
Definition verify_time_conversion (seconds millis : Z) : comp Z :=
  s ← mul_w 64 seconds 1000;
  add_w 64 s millis.

End verus.

(** ** Contracts *)

(** The number is in [[0, 1]]. *)
Definition in_unit (x : spec_float) : bool := SFleb f64_0 x && SFleb x f64_1.

Lemma ltb_nan_l x : SFltb S754_nan x = false.
Proof. done. Qed.

(** Comparison is total off the NaNs. *)
Lemma not_ltb_leb x y : is_nan x = false -> is_nan y = false -> SFltb x y = false -> SFleb y x = true.
Proof.
  unfold SFltb, SFleb, SFcompare. intros Hx Hy.
  destruct x as [[] | [] | | [] mx ex], y as [[] | [] | | [] my ey]; try done.
  - rewrite (Z.compare_antisym ex ey). destruct (ex ?= ey); cbn [CompOpp]; try done.
    change (Pos.compare_cont Eq mx my) with (mx ?= my)%positive.
    change (Pos.compare_cont Eq my mx) with (my ?= mx)%positive.
    rewrite (Pos.compare_antisym mx my). by destruct (mx ?= my)%positive.
  - rewrite (Z.compare_antisym ex ey). destruct (ex ?= ey); cbn [CompOpp]; try done.
    change (Pos.compare_cont Eq mx my) with (mx ?= my)%positive.
    change (Pos.compare_cont Eq my mx) with (my ?= mx)%positive.
    rewrite (Pos.compare_antisym mx my). by destruct (mx ?= my)%positive.
Qed.

Lemma clamp_unit x : in_unit (clamp x f64_0 f64_1) = negb (is_nan x).
Proof.
  unfold clamp. destruct (is_nan x) eqn:Hx; [by destruct x |].
  destruct (SFltb x f64_0) eqn:H0; [reflexivity |].
  destruct (SFltb f64_1 x) eqn:H1; [reflexivity |].
  unfold in_unit. by rewrite !not_ltb_leb.
Qed.

(** The contracts of the configuration and numeric functions hold as
    written: the validators are the comparisons, [checked_add] returns the
    exact sum or nothing, [is_valid_float] is finiteness.  [normalize] on
    finite numbers with [min < max] returns a number of [[0, 1]] unless the
    quotient is not a number; that happens, for [-MAX], [MAX] and [MAX], where
    the declared postcondition fails. *)
Theorem config_and_numeric_contracts (P : Profile) (size max index len a b : Z)
    (val lo hi : spec_float) :
  u64 a -> u64 b -> SFltb lo hi = true ->
  (validate_size size max = true <-> size <= max) /\
  (validate_index index len = true <-> index < len) /\
  (forall A (data : list A), data <> [] -> validated_len data = Ret (length data)) /\
  match checked_add a b with
  | Some s => s = a + b /\ a <= s /\ b <= s /\ u64 s
  | None => 2 ^ 64 <= a + b
  end /\
  is_valid_float val = negb (is_nan val) && negb (is_infinite val) /\
  (exists r, normalize val lo hi = Ret r /\
     in_unit r = negb (is_nan (f64_div (f64_sub val lo) (f64_sub hi lo)))) /\
  (let max := SFmax_float 53 1024 in let min := SFopp max in
   SFltb min max = true /\ is_finite max = true /\ is_finite min = true /\
   normalize max min max = Ret S754_nan).
Proof.
  intros Ha Hb Hlt. split_and!.
  - apply Z.leb_le.
  - apply Z.ltb_lt.
  - intros A [| x data]; [done |]. unfold validated_len, debug_assert. by destruct overflow_checks.
  - unfold checked_add, Prelude.checked_add. case_decide as H; unfold uint in *; lia.
  - by destruct val.
  - unfold normalize, debug_assert. rewrite Hlt. eexists; split; [by destruct overflow_checks |].
    apply clamp_unit.
  - split_and!; try reflexivity. unfold normalize, debug_assert. by destruct overflow_checks.
Qed.

(** The system contracts: bounds, modes, permissions, signals and
    timeouts hold on every input.  The arithmetic ones hold exactly below
    overflow: the remaining buffer always, sizes and conversions while the
    mathematical result fits 64 bits (a panic with overflow checks, a wrapped
    result without, otherwise), the page count while [size + page_size] fits;
    an alignment test on page size 0, which its precondition allows, panics. *)
Theorem system_contracts (P : Profile) (a b : Z) :
  u64 a -> u64 b ->
  verify_syscall_bounds a b = (a <=? b) /\ verify_fd_bounds a b = (a <? b) /\
  verify_pid_bounds a b = (a <=? b) /\ verify_signal_number a = (a <=? 64) /\
  (verify_valid_syscall_nr a, verify_file_mode a, verify_ioctl_cmd a) = (a, a, a) /\
  verify_buffer_size a b <= b /\ verify_timeout_bounds a b <= b /\
  (a <= 7 -> verify_read_permission a = (4 <=? a)) /\
  (b <= a -> verify_remaining_buffer a b = Ret (a - b)) /\
  (verify_total_buffer_size a b =
     if a * b <? 2 ^ 64 then Ret (a * b)
     else if overflow_checks then Panic else Ret (wrap 64 (a * b))) /\
  (a <= 1048576 -> verify_page_allocation a = Ret (a * 4096)) /\
  (a * 1000 + b < 2 ^ 64 -> verify_time_conversion a b = Ret (a * 1000 + b)) /\
  (0 < b -> a + b < 2 ^ 64 ->
     exists n, verify_page_count a b = Ret n /\ a <= n * b < a + b) /\
  verify_page_aligned a b = (if b =? 0 then Panic else Ret (a mod b =? 0)).
Proof.
  intros Ha Hb. split_and!; try done.
  - unfold verify_buffer_size. destruct (Z.gtb_spec a b); lia.
  - unfold verify_timeout_bounds. destruct (Z.gtb_spec a b); lia.
  - intros Ha7. unfold verify_read_permission.
    assert (a ∈ seqZ 0 8) as Hin by (apply elem_of_seqZ; unfold uint in Ha; lia).
    repeat (apply elem_of_cons in Hin as [-> | Hin]; [reflexivity |]). by apply elem_of_nil in Hin.
  - intros Hle. unfold verify_remaining_buffer, sub_w. apply checked_in. unfold uint in *; lia.
  - unfold verify_total_buffer_size, mul_w. unfold uint in *. destruct (Z.ltb_spec (a * b) (2 ^ 64)).
    + apply checked_in. unfold uint; nia.
    + apply checked_out. unfold uint; nia.
  - intros Hle. unfold verify_page_allocation, mul_w. apply checked_in. width.
  - intros Hlt. unfold verify_time_conversion, mul_w, add_w. unfold uint in *.
    rewrite checked_in by (unfold uint; lia). rewrite bind_ret. apply checked_in. unfold uint; lia.
  - intros Hb0 Hlt. unfold verify_page_count, add_w, sub_w. unfold uint in *.
    rewrite checked_in by (unfold uint; lia). rewrite bind_ret.
    rewrite checked_in by (unfold uint; lia). rewrite bind_ret.
    destruct (Z.eqb_spec b 0); [lia |]. eexists; split; [done |].
    pose proof (Z.div_mod (a + b - 1) b ltac:(done)).
    pose proof (Z.mod_pos_bound (a + b - 1) b Hb0). lia.
Qed.

Lemma config_and_numeric_witness :
  checked_add 1 2 = Some 3 /\
  exists r, normalize (P := dev) (f64_of_int 5) (f64_of_int 0) (f64_of_int 10) = Ret r /\ in_unit r = true.
Proof.
  destruct (config_and_numeric_contracts dev 0 0 0 0 1 2 (f64_of_int 5) (f64_of_int 0) (f64_of_int 10)
    ltac:(by vm_compute) ltac:(by vm_compute) eq_refl) as (_ & _ & _ & _ & _ & H & _).
  split; [reflexivity | exact H].
Defined.

Lemma system_contracts_witness :
  exists n, verify_page_count (P := dev) 4097 4096 = Ret n /\ 4097 <= n * 4096 < 4097 + 4096.
Proof.
  destruct (system_contracts dev 4097 4096 ltac:(by vm_compute) ltac:(by vm_compute))
    as (_ & _ & _ & _ & _ & _ & _ & _ & _ & _ & _ & _ & H & _).
  exact (H eq_refl eq_refl).
Defined.
