(* ===== verification/Contracts.v ===== *)
(** * Contracts: what the files under contracts/ promise, against the code

    contracts/*.yaml state equations and proof obligations for parts of the
    crate.  [Simd] and [Abi] have most of them; here are the law on identity
    matrices, which needs IEEE 754 arithmetic, the tests of
    tests/contract_io_uring_roundtrip.rs, and examples of the obligations the
    code does not meet. *)

From Stdlib Require Import SpecFloat.
From S2P Require Import Prelude KernelError Float Simd.
From S2P Require Task Executor Gpu Abi.

#[local] Existing Instance binary32.

(** ** [matmul_identity] *)

Definition f32_identity (i j : nat) : spec_float :=
  if decide (i = j) then f32_of_int 1 else S754_zero false.

(** A product is accumulated from [+0.0], so [-0.0] becomes [+0.0]. *)
Definition unsigned_zero (x : spec_float) : spec_float :=
  match x with S754_zero _ => S754_zero false | _ => x end.

Definition is_zero (x : spec_float) : Prop := exists s, x = S754_zero s.

Section accumulate.
Context (term : nat -> spec_float).

#[local] Abbreviation accumulated x l := (foldl (fun acc kk => fadd acc (term kk)) x l).

(** Zeros change nothing but the sign of a zero. *)
Lemma accumulate_zeros l x :
  Forall (fun kk => is_zero (term kk)) l -> accumulated (unsigned_zero x) l = unsigned_zero x.
Proof.
  intros Hl. induction Hl as [|kk l [s Hs] _ IH]; [done |]. cbn [foldl]. rewrite Hs.
  replace (fadd (unsigned_zero x) (S754_zero s)) with (unsigned_zero x); [done |].
  by destruct x, s.
Qed.

(** A NaN stays. *)
Lemma accumulate_nan l : accumulated S754_nan l = S754_nan.
Proof. by induction l. Qed.

Lemma accumulate_one n j :
  (j < n)%nat -> (forall kk, (kk < n)%nat -> kk <> j -> is_zero (term kk)) ->
  accumulated fzero (seq 0 n) = unsigned_zero (term j).
Proof.
  intros Hj Hz. replace n with (j + S (n - S j))%nat by lia.
  rewrite seq_app, foldl_app, Nat.add_0_l. cbn [seq foldl].
  change fzero with (unsigned_zero (S754_zero false)).
  rewrite accumulate_zeros by (apply Forall_seq; intros kk ?; apply Hz; lia).
  replace (fadd (unsigned_zero (S754_zero false)) (term j)) with (unsigned_zero (term j))
    by by destruct (term j) as [[] | | |].
  apply accumulate_zeros, Forall_seq. intros kk ?. apply Hz; lia.
Qed.

Lemma accumulate_spoilt n j :
  (j < n)%nat -> term j = S754_nan -> accumulated fzero (seq 0 n) = S754_nan.
Proof.
  intros Hj Hn. replace n with (j + S (n - S j))%nat by lia.
  rewrite seq_app, foldl_app, Nat.add_0_l. cbn [seq foldl]. rewrite Hn.
  match goal with |- context [fadd ?a S754_nan] =>
    replace (fadd a S754_nan) with S754_nan by by destruct a end.
  apply accumulate_nan.
Qed.

End accumulate.

Lemma f32_of_one : f32_of_int 1 = S754_finite false 8388608 (1 - 24).
Proof. reflexivity. Qed.

Lemma identity_term_r x i j :
  is_number 24 128 x ->
  (i = j -> fmul x (f32_identity i j) = x) /\ (i <> j -> is_zero (fmul x (f32_identity i j))).
Proof.
  intros Hx. unfold f32_identity. split; intros; [rewrite decide_True by done | rewrite decide_False by done].
  - rewrite f32_of_one. by apply (mul_one_r 24 128).
  - by apply (mul_zero 24 128).
Qed.

Lemma identity_term_l x i j :
  is_number 24 128 x ->
  (i = j -> fmul (f32_identity i j) x = x) /\ (i <> j -> is_zero (fmul (f32_identity i j) x)).
Proof.
  intros Hx. unfold f32_identity. split; intros; [rewrite decide_True by done | rewrite decide_False by done].
  - rewrite f32_of_one. by apply (mul_one_l 24 128).
  - by apply (mul_zero 24 128).
Qed.

(** C23. The contract [matmul_identity] (contracts/matmul-v1.yaml) in IEEE 754
    [f32]: multiplied by an identity matrix on either side, a matrix of numbers
    comes back bit for bit, a negative zero as the positive one.  The numbers
    must be finite: from the right, one infinity or NaN turns the rest of its
    row into NaN. *)
Theorem matmul_identity {P : Profile} (self : MatrixOps) m n (f : nat -> nat -> spec_float) c :
  dims m n -> dims m m -> dims n n -> length c = (m * n)%nat ->
  ((forall i j, (i < m)%nat -> (j < n)%nat -> is_number 24 128 (f i j)) ->
   matmul_f32 self (mat m n f) (mat n n f32_identity) c m n n =
     Ret (mat m n (fun i j => unsigned_zero (f i j))) /\
   matmul_f32 self (mat m m f32_identity) (mat m n f) c m m n =
     Ret (mat m n (fun i j => unsigned_zero (f i j)))) /\
  exists r, matmul_f32 self (mat m n f) (mat n n f32_identity) c m n n = Ret r /\
    forall i j j', (i < m)%nat -> (j < n)%nat -> (j' < n)%nat -> j <> j' ->
      ~ is_number 24 128 (f i j) -> valid_binary 24 128 (f i j) = true ->
      r !! (i * n + j')%nat = Some S754_nan.
Proof.
  intros Hmn Hmm Hnn Hc. split.
  - intros Hf. split; rewrite matmul_product by done; f_equal; apply mat_ext; try apply length_mat;
      intros i j Hi Hj; rewrite mat_lookup by done; f_equal.
    + rewrite (accumulate_one _ n j).
      * f_equal. by apply identity_term_r; [apply Hf |].
      * done.
      * intros kk Hk Hne. by apply identity_term_r; [apply Hf |].
    + rewrite (accumulate_one _ m i).
      * f_equal. by apply identity_term_l; [apply Hf |].
      * done.
      * intros kk Hk Hne. apply identity_term_l; [by apply Hf | by apply not_eq_sym].
  - eexists. rewrite matmul_product by done. split; [done |].
    intros i j j' Hi Hj Hj' Hne Hnum Hval. rewrite mat_lookup by done. f_equal.
    apply (accumulate_spoilt _ n j); [done |]. unfold f32_identity. rewrite decide_False by done.
    by destruct (f i j).
Qed.

(** ** Obligations the code does not meet *)

(** contracts/matmul-v1.yaml: slices that do not fit the dimensions are to give
    an error; [matmul_f32] asserts. *)
Example mismatch_panics :
  matmul_f32 (P := release) (MatrixOps_new (H := avx2_machine)) [] (replicate 4 fzero)
    (replicate 4 fzero) 2 2 2 = Panic.
Proof. reflexivity. Qed.

(** contracts/dispatch-v1.yaml: with a CPU executor dispatch is never to fail;
    a shader is refused. *)

Module Dispatch.
Import Task Executor.

Example cpu_is_no_fallback :
  registry_execute 0 (mkRegistry [DCpu demo_cpu]) (build (Task_shader [3; 2; 35; 7])) demo_w =
  Ret (Err NotSupported, mkRegistry [DCpu demo_cpu], demo_w).
Proof. reflexivity. Qed.

End Dispatch.

(** contracts/kernel-scheduling-v1.yaml: a block is to stay within the device's
    limit; a dispatch does not look at the shader's workgroup size. *)
Lemma oversized_block_is_dispatched shader x y z buffers :
  (Gpu.dispatch Gpu.mock (Gpu.with_workgroup_size shader x y z) buffers (1, 1, 1)).1 = Ok tt.
Proof. reflexivity. Qed.

Definition two_by_two (a b c d : spec_float) (i j : nat) : spec_float :=
  match i, j with 0%nat, 0%nat => a | 0%nat, _ => b | _, 0%nat => c | _, _ => d end.

Lemma matmul_identity_witness :
  matmul_f32 (P := dev) (MatrixOps_new (H := avx2_machine)) (f32_of_int <$> [1; 2; 3; 4])
    (f32_of_int <$> [1; 0; 0; 1]) (replicate 4 (f32_of_int 0)) 2 2 2 =
  Ret (f32_of_int <$> [1; 2; 3; 4]).
Proof.
  assert (Hd : dims 2 2) by (unfold dims, usize; split; [lia |]; split; [lia | by vm_compute]).
  destruct (matmul_identity (P := dev) (MatrixOps_new (H := avx2_machine)) 2 2
    (two_by_two (f32_of_int 1) (f32_of_int 2) (f32_of_int 3) (f32_of_int 4))
    (replicate 4 (f32_of_int 0)) Hd Hd Hd ltac:(reflexivity)) as [H _].
  refine (proj1 (H _)). intros [|[|i]] [|[|j]] ? ?; (reflexivity || lia).
Defined.
