(* ===== verification/Testing.v ===== *)
(** * Testing: how the crate's unit tests are run on the model

    The [...Tests] files translate the [#[test]] functions of src/, assertion by
    assertion, into propositions over the model's definitions, and check them
    by evaluation, or with the components' lemmas where a test has threads or
    pages of data.  They validate the definitions against the expectations the
    project itself keeps; the theorems are in the other files.  Left out are
    tests that start processes and tests of derived [Debug], [Clone] and [Copy]. *)

From S2P Require Import Prelude KernelError.

(** The assertions of a test evaluate to equations and inequations of values. *)
Ltac run_test := vm_compute; repeat split; first [reflexivity | intros ?; discriminate].

Definition is_some {A} (o : option A) : bool := match o with Some _ => true | None => false end.
Definition is_ok {A} (r : Result A) : bool := match r with Ok _ => true | Err _ => false end.
Definition is_err {A} (r : Result A) : bool := negb (is_ok r).

(** [str::contains]. *)
Definition contains (s pattern : string) : bool := is_some (String.index 0 pattern s).

(** The code before the assertions does not panic. *)
Definition ensure (m : comp Prop) : Prop := match m with Ret P => P | _ => False end.

(** [unwrap] of a result. *)
Definition unwrap {A} (r : Result A) : comp A := match r with Ok a => Ret a | Err _ => Panic end.
Definition unwrap_or_panic {A} (m : comp (Result A)) : comp A := r ← m; unwrap r.

(** Overflow checks are on in tests. *)
#[export] Existing Instance dev.
