(* ===== verification/CoreTests.v ===== *)
(** * CoreTests: the unit tests of src/error.rs, src/scheduler.rs, src/task.rs *)

From S2P Require Import Prelude Bytes KernelError Scheduler SchedulerSteps Task Fault Testing.

(** ** src/error.rs *)

Definition test_errno_roundtrip_common_errors : Prop :=
  let errors := [OutOfMemory; IoTimeout; DeviceNotReady; KernelError.Cancelled; UblkDeviceBusy;
    IoUringCqOverflow; BlockError; NotSupported; Interrupted; WouldBlock] in
  (fun e => to_errno (from_errno (to_errno e))) <$> errors = to_errno <$> errors.

Definition test_errno_values_are_negative : Prop :=
  let errors := [OutOfMemory; InvalidAddress; IoTimeout; UblkQueueFull; IoUringSubmitFull;
    BlockError] in
  forallb (fun e => to_errno e <? 0) errors = true.

Definition test_errno_specific_values : Prop :=
  to_errno OutOfMemory = -12 /\ to_errno InvalidAddress = -14 /\ to_errno IoTimeout = -110 /\
  to_errno UblkDeviceBusy = -16 /\ to_errno NotSupported = -95.

Definition test_unknown_errno_returns_invalid_argument : Prop :=
  from_errno (-9999) = InvalidArgument /\ from_errno 0 = InvalidArgument /\
  from_errno 100 = InvalidArgument.

Definition test_retriable_errors : Prop :=
  forallb is_retriable
    [WouldBlock; UblkQueueFull; IoUringSubmitFull; NoTagsAvailable; UblkDeviceBusy] = true.

Definition test_non_retriable_errors : Prop :=
  existsb is_retriable
    [OutOfMemory; InvalidAddress; InvalidRequest; UblkDeviceNotFound; NotSupported] = false.

Definition test_resource_errors : Prop :=
  is_resource_error OutOfMemory = true /\ is_resource_error UblkQueueFull = true /\
  is_resource_error NoTagsAvailable = true.

Definition test_non_resource_errors : Prop :=
  is_resource_error InvalidAddress = false /\ is_resource_error IoTimeout = false /\
  is_resource_error NotSupported = false.

Definition test_display_not_empty : Prop :=
  let errors := [OutOfMemory; InvalidAddress; IoTimeout; UblkQueueFull; IoUringSubmitFull;
    BlockError] in
  forallb (fun e => (0 <? String.length (KernelError_fmt e))%nat &&
                    negb (contains (KernelError_fmt e) "KernelError")) errors = true.

Definition test_all_errors_have_errno : Prop :=
  let errors := [OutOfMemory; InvalidAddress; AlignmentError; OverlappingRegion; IoTimeout;
    DeviceNotReady; InvalidRequest; KernelError.Cancelled; UblkQueueFull; UblkInvalidTag; UblkDeviceBusy;
    UblkDeviceNotFound; UblkInvalidDeviceId; UblkNotPermitted; IoUringSubmitFull;
    IoUringCqOverflow; IoUringInvalidOpcode; BlockError; NoTagsAvailable; InvalidQueueId;
    NotSupported; InvalidArgument; WouldBlock; Interrupted; ResourceBusy] in
  forallb (fun e => (to_errno e <? 0) && (to_errno e >? -256)) errors = true.

Definition test_error_equality : Prop :=
  OutOfMemory = OutOfMemory /\ OutOfMemory <> InvalidAddress.

(** Rendered into a buffer of 128 bytes. *)
Definition test_display_writes_human_readable : Prop :=
  let errors := [OutOfMemory; InvalidAddress; IoTimeout; UblkQueueFull; IoUringSubmitFull;
    BlockError] in
  forallb (fun e => (length (as_bytes (KernelError_fmt e)) <=? 128)%nat &&
    (0 <? String.length (KernelError_fmt e))%nat &&
    negb (contains (KernelError_fmt e) "KernelError")) errors = true.

(** ** src/scheduler.rs *)

Definition test_worker_id_new : Prop := WorkerId_as_u32 (WorkerId_new 42) = 42.

Definition test_worker_id_equality : Prop :=
  let a := mkWorkerId 1 in let b := mkWorkerId 1 in let c := mkWorkerId 2 in a = b /\ a <> c.

Definition test_worker_id_hash : Prop :=
  size (list_to_set [mkWorkerId 1; mkWorkerId 2; mkWorkerId 1] : gset WorkerId) = 2%nat.

Definition test_task_id_new : Prop := TaskId_as_u64 (TaskId_new 100) = 100.

Definition test_task_id_equality : Prop :=
  let a := mkTaskId 1 in let b := mkTaskId 1 in let c := mkTaskId 2 in a = b /\ a <> c.

Definition test_deque_new : Prop :=
  let deque := deque_new (T := Z) 100 in
  deque_capacity deque = 100 /\ deque_length deque = 0 /\ deque_is_empty deque = true.

Definition pushes (d : WorkStealingDeque Z) (items : list Z) : WorkStealingDeque Z :=
  fold_left (fun d item => (deque_push d item).2) items d.

Definition test_deque_push_pop : Prop :=
  let deque := pushes (deque_new 100) [1; 2; 3] in
  deque_length deque = 3 /\
  let '(a, deque) := deque_pop deque in
  let '(b, deque) := deque_pop deque in
  let '(c, deque) := deque_pop deque in
  (a, b, c, (deque_pop deque).1) = (Some 3, Some 2, Some 1, None).

Definition test_deque_steal : Prop :=
  let deque := pushes (deque_new 100) [1; 2; 3] in
  let '(a, deque) := deque_steal deque in
  let '(b, deque) := deque_steal deque in
  let '(c, deque) := deque_steal deque in
  (a, b, c, (deque_steal deque).1) = (Some 1, Some 2, Some 3, None).

Definition test_deque_steal_half : Prop :=
  let deque := pushes (deque_new 100) (seqZ 0 10) in
  let '(stolen, deque) := deque_steal_half deque in
  length stolen = 5%nat /\ deque_length deque = 5 /\ stolen = [0; 1; 2; 3; 4].

Definition test_deque_capacity_limit : Prop :=
  let '(a, deque) := deque_push (deque_new 3) 1 in
  let '(b, deque) := deque_push deque 2 in
  let '(c, deque) := deque_push deque 3 in
  let '(d, deque) := deque_push deque 4 in
  (is_ok a, is_ok b, is_ok c, is_err d) = (true, true, true, true).

Definition test_deque_default : Prop := deque_capacity (deque_default (T := Z)) = 1024.

Definition test_scheduler_new : Prop :=
  let scheduler := scheduler_new (T := Z) 4 in
  num_workers scheduler = 4 /\ is_running scheduler = true /\ pending_tasks scheduler = Ret 0.

Definition test_scheduler_submit : Prop :=
  let '(task_id, scheduler) := submit (scheduler_new 4) 42 in
  is_some task_id = true /\ pending_tasks scheduler = Ret 1.

(** A run of submissions, and whether all succeeded. *)
Definition submits (s : Scheduler Z) (items : list Z) : bool * Scheduler Z :=
  fold_left (fun '(ok, s) item => let '(r, s) := submit s item in (ok && is_some r, s))
    items (true, s).

Definition test_scheduler_submit_multiple : Prop :=
  let '(ok, scheduler) := submits (scheduler_new 4) (seqZ 0 100) in
  ok = true /\ pending_tasks scheduler = Ret 100.

Definition test_scheduler_pop : Prop :=
  let scheduler := (submit (scheduler_new 4) 42).2 in
  match list_find (fun l => 0 < l) (worker_loads scheduler) with
  | Some (worker_idx, _) => (pop scheduler (mkWorkerId (Z.of_nat worker_idx))).1 = Some 42
  | None => False
  end.

Definition test_scheduler_steal : Prop :=
  let scheduler := (submits (scheduler_new 2) (seqZ 0 10)).2 in
  is_some (steal scheduler (mkWorkerId 1)).1 = true.

Definition test_scheduler_steal_batch : Prop :=
  let scheduler := (submits (scheduler_new 2) (seqZ 0 20)).2 in
  (steal_batch scheduler (mkWorkerId 1)).1 <> [].

Definition test_scheduler_worker_loads : Prop :=
  let loads := worker_loads (submits (scheduler_new 4) (seqZ 0 20)).2 in
  length loads = 4%nat /\ total loads = 20.

Definition test_scheduler_stop : Prop :=
  let scheduler := scheduler_new (T := Z) 4 in
  is_running scheduler = true /\
  let scheduler := stop scheduler in
  is_running scheduler = false /\ (submit scheduler 42).1 = None.

Definition test_scheduler_add_worker : Prop :=
  let scheduler := scheduler_new (T := Z) 2 in
  num_workers scheduler = 2 /\
  let '(new_id, scheduler) := add_worker scheduler in
  new_id = Some (mkWorkerId 2) /\ num_workers scheduler = 3.

Definition test_scheduler_deactivate_worker : Prop :=
  let scheduler := scheduler_new (T := Z) 2 in
  is_worker_active scheduler (mkWorkerId 0) = true /\
  let '(done, scheduler) := deactivate_worker scheduler (mkWorkerId 0) in
  done = true /\ is_worker_active scheduler (mkWorkerId 0) = false.

Definition test_scheduler_deactivate_invalid_worker : Prop :=
  (deactivate_worker (scheduler_new (T := Z) 2) (mkWorkerId 99)).1 = false.

Definition test_scheduler_pop_invalid_worker : Prop :=
  (pop (submit (scheduler_new 2) 42).2 (mkWorkerId 99)).1 = None.

Definition test_scheduler_default : Prop := num_workers (scheduler_default (T := Z)) = 4.

(** [while let Some(task) = scheduler.pop(worker)], or with [steal]. *)
Fixpoint drain (fuel : nat) (take : Scheduler Z -> option Z * Scheduler Z) (s : Scheduler Z)
    (collected : list Z) : list Z * Scheduler Z :=
  match fuel with
  | O => (collected, s)
  | S fuel =>
      match take s with
      | (Some task, s) => drain fuel take s (collected ++ [task])
      | (None, s) => (collected, s)
      end
  end.

Definition test_scheduler_work_stealing_correctness : Prop :=
  let scheduler := (submits (scheduler_new 2) (replicate 10 42)).2 in
  total (worker_loads scheduler) = 10 /\
  let '(consumed, scheduler) := drain 11 (fun s => pop s (mkWorkerId 0)) scheduler [] in
  let '(consumed, scheduler) := drain 11 (fun s => pop s (mkWorkerId 1)) scheduler consumed in
  pending_tasks scheduler = Ret 0 /\ length consumed = 10%nat.

Definition test_invariant_task_count_preserved : Prop :=
  let scheduler := (submits (scheduler_new 4) (seqZ 0 50)).2 in
  let '(popped, _) := fold_left (fun '(popped, s) w => drain 51 (fun s => pop s (mkWorkerId w)) s popped)
    (seqZ 0 4) ([], scheduler) in
  length popped = 50%nat.

Definition test_invariant_steal_does_not_duplicate : Prop :=
  let scheduler := (submits (scheduler_new 2) (seqZ 0 10)).2 in
  let '(collected, scheduler) :=
    fold_left (fun '(collected, s) w => drain 11 (fun s => pop s (mkWorkerId w)) s collected)
      (seqZ 0 2) ([], scheduler) in
  let '(collected, _) := drain 11 (fun s => steal s (mkWorkerId 0)) scheduler collected in
  length (remove_dups collected) = length collected.

Lemma error_tests_pass :
  test_errno_roundtrip_common_errors /\ test_errno_values_are_negative /\
  test_errno_specific_values /\ test_unknown_errno_returns_invalid_argument /\
  test_retriable_errors /\ test_non_retriable_errors /\ test_resource_errors /\
  test_non_resource_errors /\ test_display_not_empty /\ test_all_errors_have_errno /\
  test_error_equality /\ test_display_writes_human_readable.
Proof. run_test. Qed.

Lemma deque_tests_pass :
  test_worker_id_new /\ test_worker_id_equality /\ test_worker_id_hash /\ test_task_id_new /\
  test_task_id_equality /\ test_deque_new /\ test_deque_push_pop /\ test_deque_steal /\
  test_deque_steal_half /\ test_deque_capacity_limit /\ test_deque_default.
Proof. run_test. Qed.

Lemma scheduler_tests_pass :
  test_scheduler_new /\ test_scheduler_submit /\ test_scheduler_submit_multiple /\
  test_scheduler_pop /\ test_scheduler_steal /\ test_scheduler_steal_batch /\
  test_scheduler_worker_loads /\ test_scheduler_stop /\ test_scheduler_add_worker /\
  test_scheduler_deactivate_worker /\ test_scheduler_deactivate_invalid_worker /\
  test_scheduler_pop_invalid_worker /\ test_scheduler_default /\
  test_scheduler_work_stealing_correctness /\ test_invariant_task_count_preserved /\
  test_invariant_steal_does_not_duplicate.
Proof. run_test. Qed.

(** The two tests with threads, over every interleaving of what the threads do.
    Four threads submit 100 tasks each, and nothing else happens. *)
Definition test_scheduler_concurrent_submit : Prop :=
  forall y, rtc sys_step (quiet (scheduler_new 4) [] [] [] []) y ->
  in_scheduler y = 0%nat ->
  accepted y ++ refused y ≡ₚ flat_map (fun t => (fun i => t * 100 + i) <$> seqZ 0 100) (seqZ 0 4) ->
  delivered y = [] -> running (sched y) = true -> Forall (eq true) (actives (sched y)) ->
  pending_tasks (sched y) = Ret 400.

(** Each of the four workers pops until it gets nothing; 100 tasks were submitted. *)
Definition test_scheduler_concurrent_pop : Prop :=
  forall y, rtc sys_step (quiet (scheduler_new 4) [] [] [] []) y ->
  accepted y ≡ₚ seqZ 0 100 -> length (queues (sched y)) = 4%nat ->
  (forall w, 0 <= w < 4 -> (pop (sched y) (WorkerId_new w)).1 = None) ->
  length (delivered y) = 100%nat.

Lemma default_capacity : uint 64 1024.
Proof. split; [discriminate | reflexivity]. Qed.

Lemma pending_is_queued {T} (s : Scheduler T) :
  sched_inv s -> Z.of_nat (length (concat (queues s))) < 2 ^ 64 ->
  pending_tasks s = Ret (Z.of_nat (length (concat (queues s)))).
Proof.
  intros Hs. destruct (loads_spec dev s Hs) as [Hl Hp]. rewrite Hl in Hp.
  assert (total ((fun q => Z.of_nat (length q)) <$> queues s) = Z.of_nat (length (concat (queues s)))) as E.
  { clear. induction (queues s) as [| q l IH]; [done |]. cbn [concat fmap list_fmap total fold_right].
    rewrite length_app. unfold total in IH. cbn in IH. lia. }
  rewrite E in Hp. exact Hp.
Qed.

Lemma concurrent_submit_passes : test_scheduler_concurrent_submit.
Proof.
  intros y Hr Hq Hall Hd Hrun Hact.
  pose proof (sys_reach_inv 4 1024 y default_capacity Hr) as Hy.
  apply Permutation_length in Hall. rewrite length_app in Hall.
  change (length (flat_map _ _)) with (Z.to_nat 400) in Hall.
  assert (Hample : ample 1024 y)
    by (split; [done | split; [done |]]; unfold submissions, in_scheduler in *; lia).
  destruct (sys_reach_unrefused 4 1024 y default_capacity ltac:(done) Hr Hample) as [Hf _].
  pose proof (Permutation_length (sys_conserved _ Hy)) as Hc.
  rewrite Hf in Hall. rewrite Hd, app_nil_r in Hc. cbn [length] in Hall.
  rewrite pending_is_queued by (apply Hy || lia). f_equal. lia.
Qed.

Lemma concurrent_pop_passes : test_scheduler_concurrent_pop.
Proof.
  intros y Hr Hall Hn Hpop.
  pose proof (sys_reach_inv 4 1024 y default_capacity Hr) as Hy.
  pose proof (Permutation_length (sys_conserved _ Hy)) as Hc.
  rewrite Hall, length_seqZ, length_app in Hc.
  assert (concat (queues (sched y)) = []) as E; [| rewrite E in Hc; cbn in Hc; lia].
  apply concat_nil_Forall, Forall_lookup. intros i q Hq.
  pose proof (lookup_lt_Some _ _ _ Hq) as Hi.
  pose proof (pop_spec (sched y) (WorkerId_new (Z.of_nat i)) (sys_sched _ Hy)) as Hp.
  specialize (Hpop (Z.of_nat i) ltac:(lia)). destruct (pop _ _) as [r s']. cbn in Hpop, Hp. subst r.
  rewrite Nat2Z.id in Hp. destruct Hp as (_ & _ & _ & _ & [Hp | Hp]); congruence.
Qed.

(** ** src/task.rs *)

Definition test_priority_ordering : Prop :=
  TaskPriority_lt Low Normal = true /\ TaskPriority_lt Normal High = true /\
  TaskPriority_lt High Critical = true.

Definition test_priority_default : Prop := TaskPriority_default = Normal.

Definition test_priority_as_u8 : Prop :=
  TaskPriority_as_u8 <$> [Low; Normal; High; Critical] = [0; 1; 2; 3].

Definition test_priority_from_u8 : Prop :=
  TaskPriority_from_u8 <$> [0; 1; 2; 3; 4] =
  [Some Low; Some Normal; Some High; Some Critical; None].

Definition test_affinity_any : Prop :=
  allows_core AnyCore 0 = true /\ allows_core AnyCore 100 = true.

Definition test_affinity_core : Prop :=
  allows_core (Core 2) <$> [0; 2; 3] = [false; true; false].

Definition test_affinity_cores : Prop :=
  allows_core (Cores [0; 2; 4]) <$> [0; 1; 2; 3; 4] = [true; false; true; false; true].

Definition test_affinity_default : Prop := CpuAffinity_default = AnyCore.

Definition test_state_is_terminal : Prop :=
  is_terminal <$> [Pending; Queued; Running; Completed; Failed; Cancelled; TimedOut] =
  [false; false; false; true; true; true; true].

Definition test_state_is_active : Prop :=
  is_active <$> [Pending; Queued; Running; Completed; Failed] = [true; true; true; false; false].

Definition test_state_default : Prop := TaskState_default = Pending.

Definition test_backend_is_local : Prop :=
  is_local <$> [Cpu; Gpu; Remote; AnyBackend] = [true; true; false; false].

Definition test_backend_default : Prop := Backend_default = Cpu.

Definition test_binary_task_new : Prop :=
  let task := BinaryTask_new "./worker" in
  bt_path task = "./worker"%string /\ bt_args task = [] /\ bt_env task = ∅.

Definition test_binary_task_with_args : Prop :=
  let task := with_args (BinaryTask_new "./worker") ["--input"; "data.bin"]%string in
  bt_args task = ["--input"; "data.bin"]%string.

Definition test_binary_task_with_env : Prop :=
  let env : gmap string string := <["KEY"%string := "VALUE"%string]> ∅ in
  bt_env (with_env (BinaryTask_new "./worker") env) !! "KEY"%string = Some "VALUE"%string.

Definition test_binary_task_with_working_dir : Prop :=
  bt_working_dir (with_working_dir (BinaryTask_new "./worker") "/tmp") = Some "/tmp"%string.

Definition test_binary_task_with_stdin : Prop :=
  bt_stdin (with_stdin (BinaryTask_new "./worker") [1; 2; 3]) = Some [1; 2; 3].

Definition test_shader_task_new : Prop :=
  let task := ShaderTask_new [3; 2; 35; 7] in
  shader_binary task = [3; 2; 35; 7] /\ workgroups task = (1, 1, 1).

Definition test_shader_task_with_workgroups : Prop :=
  workgroups (with_workgroups (ShaderTask_new []) 64 64 1) = (64, 64, 1).

Definition test_shader_task_total_workgroups : Prop :=
  total_workgroups (with_workgroups (ShaderTask_new []) 8 8 4) = Ret 256.

Definition test_shader_task_with_inputs_outputs : Prop :=
  let task := with_outputs (with_inputs (ShaderTask_new []) [1024; 2048]) [4096] in
  input_sizes task = [1024; 2048] /\ output_sizes task = [4096].

Definition test_pipeline_task_new : Prop :=
  let task := PipelineTask_new in
  PipelineTask_is_empty task = true /\ num_stages task = 0 /\ pipe_output task = true.

Definition test_pipeline_task_add_stage : Prop :=
  let task := PipelineTask_add_stage
    (PipelineTask_add_stage PipelineTask_new (BinaryTask_new "./stage1")) (BinaryTask_new "./stage2") in
  num_stages task = 2 /\ PipelineTask_is_empty task = false.

Definition test_pipeline_task_with_pipe_output : Prop :=
  pipe_output (with_pipe_output PipelineTask_new false) = false.

Definition test_task_binary_builder : Prop :=
  let b := builder_args (Task_binary "./worker") ["--input"; "data.bin"]%string in
  let task := build (builder_priority (builder_backend b Cpu) High) in
  is_binary task = true /\ is_shader task = false /\ is_pipeline task = false /\
  backend task = Cpu /\ priority task = High.

Definition test_task_shader_builder : Prop :=
  let task := build (builder_backend (Task_shader [3; 2; 35; 7]) Gpu) in
  is_shader task = true /\ backend task = Gpu.

Definition test_task_pipeline_builder : Prop :=
  let task := build (builder_add_stage (builder_add_stage Task_pipeline (BinaryTask_new "./stage1"))
    (BinaryTask_new "./stage2")) in
  is_pipeline task = true /\ num_stages <$> as_pipeline task = Some 2.

Definition test_task_as_binary : Prop :=
  bt_path <$> as_binary (build (Task_binary "./worker")) = Some "./worker"%string.

Definition test_task_retry : Prop :=
  let task := build (builder_max_retries (Task_binary "./worker") 3) in
  can_retry task = true /\ retry_count task = 0 /\
  match increment_retry task with
  | Ret task =>
      can_retry task = true /\ retry_count task = 1 /\
      match (task ← increment_retry task; increment_retry task) with
      | Ret task => can_retry task = false /\ retry_count task = 3
      | _ => False
      end
  | _ => False
  end.

Definition test_task_timeout : Prop :=
  timeout (build (builder_timeout (Task_binary "./worker") (from_secs 30))) = Some (from_secs 30).

Definition test_task_metadata : Prop :=
  let task := build (builder_metadata (builder_metadata (Task_binary "./worker") "key1" "value1")
    "key2" "value2") in
  metadata task !! "key1"%string = Some "value1"%string /\
  metadata task !! "key2"%string = Some "value2"%string.

Definition test_execution_result_success : Prop :=
  let result := ExecutionResult_success (mkTaskId 1) (from_secs 5) in
  is_success result = true /\ is_failure result = false /\ er_exit_code result = Some 0 /\
  er_error result = None.

Definition test_execution_result_failure : Prop :=
  let result := ExecutionResult_failure (mkTaskId 1) "Task failed" (from_secs 1) in
  is_success result = false /\ is_failure result = true /\
  er_error result = Some "Task failed"%string.

Definition test_execution_result_stdout_string : Prop :=
  let result := mkExecutionResult (mkTaskId 1) (Some 0) (as_bytes "Hello, World!") [] []
    (from_secs 1) Completed None in
  stdout_string result = "Hello, World!"%string.

Definition test_execution_result_stderr_string : Prop :=
  let result := mkExecutionResult (mkTaskId 1) (Some 0) [] (as_bytes "Error message") []
    (from_secs 1) Completed None in
  stderr_string result = "Error message"%string.

Lemma task_vocabulary_tests_pass :
  test_priority_ordering /\ test_priority_default /\ test_priority_as_u8 /\
  test_priority_from_u8 /\ test_affinity_any /\ test_affinity_core /\ test_affinity_cores /\
  test_affinity_default /\ test_state_is_terminal /\ test_state_is_active /\ test_state_default /\
  test_backend_is_local /\ test_backend_default.
Proof. run_test. Qed.

Lemma task_tests_pass :
  test_binary_task_new /\ test_binary_task_with_args /\ test_binary_task_with_env /\
  test_binary_task_with_working_dir /\ test_binary_task_with_stdin /\ test_shader_task_new /\
  test_shader_task_with_workgroups /\ test_shader_task_total_workgroups /\
  test_shader_task_with_inputs_outputs /\ test_pipeline_task_new /\
  test_pipeline_task_add_stage /\ test_pipeline_task_with_pipe_output /\
  test_task_binary_builder /\ test_task_shader_builder /\ test_task_pipeline_builder /\
  test_task_as_binary /\ test_task_retry /\ test_task_timeout /\ test_task_metadata /\
  test_execution_result_success /\ test_execution_result_failure /\
  test_execution_result_stdout_string /\ test_execution_result_stderr_string.
Proof. run_test. Qed.
