(* ===== verification/FaultTests.v ===== *)
(** * FaultTests: the unit tests of src/fault.rs

    [sleep] is a later time for the calls that follow. *)

From S2P Require Import Prelude Float Scheduler Fault Testing.

(** ** src/fault.rs *)

Definition test_retry_policy_default : Prop :=
  let policy := RetryPolicy_default in
  rp_max_retries policy = 3 /\ policy_should_retry policy <$> [0; 2; 3] = [true; true; false].

Definition test_retry_policy_no_retry : Prop :=
  rp_max_retries no_retry = 0 /\ policy_should_retry no_retry 0 = false.

Definition test_retry_policy_critical : Prop :=
  rp_max_retries critical = 10 /\ policy_should_retry critical <$> [9; 10] = [true; false].

(** A helper the tests add to [RetryPolicy]. *)
Definition with_backoff_factor (p : RetryPolicy) (factor : Z) : RetryPolicy :=
  mkRetryPolicy (rp_max_retries p) (initial_delay p) (max_delay p) factor (use_jitter p).

Definition test_retry_policy_delay : Prop :=
  let policy := with_backoff_factor (with_initial_delay RetryPolicy_new (from_millis 100)) 2 in
  delay_for_attempt policy <$> [0; 1; 2; 3] =
  Ret <$> [0; from_millis 100; from_millis 200; from_millis 400].

Definition test_retry_policy_delay_capped : Prop :=
  let policy := with_backoff_factor (with_max_delay
    (with_initial_delay RetryPolicy_new (from_secs 1)) (from_secs 5)) 2 in
  delay_for_attempt policy 4 = Ret (from_secs 5).

Definition test_retry_state_new : Prop :=
  let state := RetryState_new in
  attempts state = 0 /\ last_failure state = None /\ last_error state = None.

Definition test_retry_state_record_failure : Prop :=
  ensure (state ← retry_record_failure 1 RetryState_new "Error 1";
    state' ← retry_record_failure 2 state "Error 2";
    Ret (attempts state = 1 /\ is_some (last_failure state) = true /\
         last_error state = Some "Error 1"%string /\
         attempts state' = 2 /\ last_error state' = Some "Error 2"%string)).

Definition test_retry_state_reset : Prop :=
  ensure (state ← retry_record_failure 1 RetryState_new "Error";
    let state := retry_reset state in
    Ret (attempts state = 0 /\ last_failure state = None)).

Definition test_retry_state_should_retry : Prop :=
  let policy := with_max_retries RetryPolicy_new 2 in
  ensure (let state := RetryState_new in
    state1 ← retry_record_failure 1 state "Error";
    state2 ← retry_record_failure 2 state1 "Error";
    Ret (should_retry state policy = true /\ should_retry state1 policy = true /\
         should_retry state2 policy = false)).

Definition test_worker_health_new : Prop :=
  let health := WorkerHealth_new (mkWorkerId 1) in
  wh_worker_id health = mkWorkerId 1 /\ status health = Unknown /\ last_heartbeat health = None.

Definition test_worker_health_record_heartbeat : Prop :=
  let health := health_record_heartbeat 5 (WorkerHealth_new (mkWorkerId 1)) in
  status health = Healthy /\ is_some (last_heartbeat health) = true.

Definition test_worker_health_task_completion : Prop :=
  ensure (health ← record_task_completion (WorkerHealth_new (mkWorkerId 1)) true;
    health' ← record_task_completion health false;
    Ret (tasks_completed health = 1 /\ tasks_failed health = 0 /\
         tasks_completed health' = 1 /\ tasks_failed health' = 1)).

(** [(rate - 0.666).abs() < 0.01]; the decimal constants are quotients, rounded
    to the nearest [f64] as literals are. *)
Definition test_worker_health_success_rate : Prop :=
  let decimal n d := f64_div (f64_of_int n) (f64_of_int d) in
  ensure (let health := WorkerHealth_new (mkWorkerId 1) in
    rate0 ← success_rate health;
    health ← record_task_completion health true;
    health ← record_task_completion health true;
    health ← record_task_completion health false;
    rate ← success_rate health;
    Ret (rate0 = f64_of_int 1 /\
         SpecFloat.SFltb (SpecFloat.SFabs (f64_sub rate (decimal 666 1000))) (decimal 1 100) = true)).

Definition test_health_status_is_available : Prop :=
  status_is_available <$> [Healthy; Unknown; Suspected; HFailed] = [true; true; false; false].

Definition test_failure_detector_new : Prop := detector_is_running detector_new = true.

Definition test_failure_detector_register : Prop :=
  ensure (detector ← register_worker detector_new (mkWorkerId 1);
    s ← get_status detector (mkWorkerId 1); Ret (s = Unknown)).

Definition test_failure_detector_heartbeat : Prop :=
  ensure (detector ← register_worker detector_new (mkWorkerId 1);
    detector ← record_heartbeat 5 detector (mkWorkerId 1);
    s ← get_status detector (mkWorkerId 1); Ret (s = Healthy)).

(** Only a worker that sent a heartbeat is [Healthy]. *)
Definition test_failure_detector_healthy_workers : Prop :=
  ensure (detector ← register_worker detector_new (mkWorkerId 1);
    detector ← register_worker detector (mkWorkerId 2);
    detector ← record_heartbeat 5 detector (mkWorkerId 1);
    healthy ← healthy_workers detector; Ret (healthy = [mkWorkerId 1])).

Definition test_failure_detector_auto_register : Prop :=
  ensure (detector ← record_heartbeat 5 detector_new (mkWorkerId 99);
    s ← get_status detector (mkWorkerId 99); Ret (s = Healthy)).

Definition test_failure_detector_deregister : Prop :=
  ensure (detector ← register_worker detector_new (mkWorkerId 1);
    detector ← deregister_worker detector (mkWorkerId 1);
    s ← get_status detector (mkWorkerId 1); Ret (s = Unknown)).

Definition test_circuit_breaker_initial_state : Prop :=
  ensure (s ← breaker_state breaker_default; '(allowed, _) ← allows_execution 0 breaker_default;
    Ret (s = Closed /\ allowed = true)).

Definition test_circuit_breaker_opens_on_failures : Prop :=
  ensure (cb ← record_failure 1 (breaker_new 3 2 (from_secs 1));
    cb ← record_failure 2 cb; s ← breaker_state cb;
    cb ← record_failure 3 cb; s' ← breaker_state cb;
    '(allowed, _) ← allows_execution 4 cb;
    Ret (s = Closed /\ s' = Open /\ allowed = false)).

Definition test_circuit_breaker_success_resets_count : Prop :=
  ensure (cb ← record_failure 1 (breaker_new 3 2 (from_secs 1));
    cb ← record_failure 2 cb; cb ← record_success cb;
    cb ← record_failure 3 cb; cb ← record_failure 4 cb;
    s ← breaker_state cb; Ret (s = Closed)).

Definition test_circuit_breaker_half_open_closes : Prop :=
  ensure (cb ← record_failure 0 (breaker_new 1 2 (from_millis 10)); s ← breaker_state cb;
    '(allowed, cb) ← allows_execution (from_millis 20) cb;
    cb ← record_success cb; cb ← record_success cb; s' ← breaker_state cb;
    Ret (s = Open /\ allowed = true /\ s' = Closed)).

Definition test_circuit_breaker_half_open_reopens_on_failure : Prop :=
  ensure (cb ← record_failure 0 (breaker_new 1 2 (from_millis 10));
    '(_, cb) ← allows_execution (from_millis 20) cb;
    cb ← record_failure (from_millis 20) cb; s ← breaker_state cb; Ret (s = Open)).

Definition test_circuit_breaker_reset : Prop :=
  ensure (cb ← record_failure 0 (breaker_new 1 2 (from_secs 100)); s ← breaker_state cb;
    cb ← breaker_reset cb; s' ← breaker_state cb; '(allowed, _) ← allows_execution 1 cb;
    Ret (s = Open /\ s' = Closed /\ allowed = true)).

Lemma retry_tests_pass :
  test_retry_policy_default /\ test_retry_policy_no_retry /\ test_retry_policy_critical /\
  test_retry_policy_delay /\ test_retry_policy_delay_capped /\ test_retry_state_new /\
  test_retry_state_record_failure /\ test_retry_state_reset /\ test_retry_state_should_retry.
Proof. run_test. Qed.

Lemma detector_tests_pass :
  test_worker_health_new /\ test_worker_health_record_heartbeat /\
  test_worker_health_task_completion /\ test_worker_health_success_rate /\
  test_health_status_is_available /\ test_failure_detector_new /\
  test_failure_detector_register /\ test_failure_detector_heartbeat /\
  test_failure_detector_healthy_workers /\ test_failure_detector_auto_register /\
  test_failure_detector_deregister.
Proof. run_test. Qed.

Lemma breaker_tests_pass :
  test_circuit_breaker_initial_state /\ test_circuit_breaker_opens_on_failures /\
  test_circuit_breaker_success_resets_count /\ test_circuit_breaker_half_open_closes /\
  test_circuit_breaker_half_open_reopens_on_failure /\ test_circuit_breaker_reset.
Proof. run_test. Qed.
