(* ===== verification/TransportTests.v ===== *)
(** * TransportTests: the unit tests of src/transport.rs

    The system time is an argument; it is after 1970, as the tests assume. *)

From S2P Require Import Prelude Bytes KernelError Scheduler Task Fault Transport Testing.

(** ** src/transport.rs *)

Definition test_message_type_roundtrip : Prop :=
  let types := [MTaskSubmit; MTaskResult; MHeartbeat; MTaskCancel; MAck; MError; MShutdown;
    MRegister; MDeregister; MStatus] in
  (fun t => MessageType_from_u8 (MessageType_as_u8 t)) <$> types = Some <$> types.

Definition test_message_type_invalid : Prop := MessageType_from_u8 255 = None.

Definition some_time : Z := 1700000000000.

Definition test_heartbeat_payload_new : Prop :=
  let payload := HeartbeatPayload_new some_time 42 in
  hb_worker_id payload = 42 /\ hb_timestamp payload > 0 /\ hb_pending_tasks payload = 0.

Definition test_heartbeat_payload_builders : Prop :=
  let payload := with_memory_usage (with_cpu_load (with_pending_tasks
    (HeartbeatPayload_new some_time 1) 10) 75) 50 in
  hb_pending_tasks payload = 10 /\ hb_cpu_load payload = 75 /\ hb_memory_usage payload = 50.

(** The fields compared are all the fields. *)
Definition test_heartbeat_payload_roundtrip : Prop :=
  let original := with_memory_usage (with_cpu_load (with_pending_tasks
    (HeartbeatPayload_new some_time 42) 100) 80) 60 in
  HeartbeatPayload_from_bytes (HeartbeatPayload_to_bytes original) = Ret (Ok original).

Definition test_heartbeat_payload_invalid : Prop :=
  ensure (result ← HeartbeatPayload_from_bytes (replicate 5 0); Ret (is_err result = true)).

Definition test_task_result_payload_new : Prop :=
  let payload := TaskResultPayload_new (TaskId_new 123) Completed (from_secs 5) in
  tr_task_id payload = 123 /\ tr_state payload = Completed /\ tr_duration_ms payload = 5000 /\
  tr_exit_code payload = None /\ tr_error payload = None.

Definition test_task_result_payload_with_exit_code : Prop :=
  tr_exit_code (with_exit_code (TaskResultPayload_new (TaskId_new 1) Failed (from_secs 1)) 1) = Some 1.

Definition test_task_result_payload_with_error : Prop :=
  tr_error (with_error (TaskResultPayload_new (TaskId_new 1) Failed (from_secs 1)) "Task failed") =
  Some "Task failed"%string.

Definition test_task_result_payload_roundtrip : Prop :=
  let original := with_error (with_exit_code
    (TaskResultPayload_new (TaskId_new 12345) Failed (from_millis 1234)) 42) "Test error" in
  TaskResultPayload_from_bytes (TaskResultPayload_to_bytes original) = Ret (Ok original).

Definition test_register_payload_new : Prop :=
  let payload := RegisterPayload_new 1 Cpu 4 in
  rg_worker_id payload = 1 /\ rg_backend payload = Cpu /\ rg_num_workers payload = 4.

Definition test_register_payload_with_name : Prop :=
  rg_name (with_name (RegisterPayload_new 1 Cpu 4) "worker-1") = "worker-1"%string.

Definition test_register_payload_roundtrip : Prop :=
  let original := with_name (RegisterPayload_new 42 Gpu 8) "gpu-worker" in
  RegisterPayload_from_bytes (RegisterPayload_to_bytes original) = Ret (Ok original).

Definition test_message_heartbeat : Prop :=
  let msg := heartbeat some_time 42 in
  message_type msg = MHeartbeat /\
  ensure (payload ← unwrap_or_panic (as_heartbeat msg); Ret (hb_worker_id payload = 42)).

Definition test_message_ack : Prop := message_type ack = MAck /\ payload ack = [].

Definition test_message_error : Prop :=
  let msg := error "Something went wrong" in
  message_type msg = MError /\ as_error msg = Some "Something went wrong"%string.

Definition test_message_shutdown : Prop := message_type shutdown = MShutdown.

Definition test_message_task_cancel : Prop :=
  let msg := task_cancel (TaskId_new 12345) in
  message_type msg = MTaskCancel /\ be_value (take 8 (payload msg)) = 12345.

Definition test_message_roundtrip : Prop :=
  let original := heartbeat some_time 42 in
  ensure (bytes ← Message_to_bytes original; recovered ← unwrap_or_panic (Message_from_bytes bytes);
    Ret (message_type recovered = message_type original /\ payload recovered = payload original)).

Definition test_message_size : Prop := size ack = 5 /\ size (error "test") = 9.

Definition test_message_from_bytes_invalid : Prop :=
  ensure (result ← Message_from_bytes (replicate 3 0);
    result' ← Message_from_bytes (be_bytes 4 1 ++ [255]);
    Ret (is_err result = true /\ is_err result' = true)).

Definition test_message_register : Prop :=
  let payload := with_name (RegisterPayload_new 1 Cpu 8) "test-worker" in
  let msg := register payload in
  message_type msg = MRegister /\
  ensure (recovered ← unwrap_or_panic (as_register msg);
    Ret (rg_worker_id recovered = rg_worker_id payload /\
         rg_backend recovered = rg_backend payload /\ rg_name recovered = rg_name payload)).

Definition test_message_task_result : Prop :=
  let payload := TaskResultPayload_new (TaskId_new 100) Completed (from_secs 10) in
  let msg := task_result payload in
  message_type msg = MTaskResult /\
  ensure (recovered ← unwrap_or_panic (as_task_result msg);
    Ret (tr_task_id recovered = tr_task_id payload /\ tr_state recovered = tr_state payload)).

Definition test_message_wrong_type_heartbeat : Prop :=
  ensure (result ← as_heartbeat ack; Ret (is_err result = true)).

Definition test_message_wrong_type_result : Prop :=
  ensure (result ← as_task_result ack; Ret (is_err result = true)).

Definition test_message_wrong_type_register : Prop :=
  ensure (result ← as_register ack; Ret (is_err result = true)).

Definition test_message_wrong_type_error : Prop := as_error ack = None.

Lemma payload_tests_pass :
  test_message_type_roundtrip /\ test_message_type_invalid /\ test_heartbeat_payload_new /\
  test_heartbeat_payload_builders /\ test_heartbeat_payload_roundtrip /\
  test_heartbeat_payload_invalid /\ test_task_result_payload_new /\
  test_task_result_payload_with_exit_code /\ test_task_result_payload_with_error /\
  test_task_result_payload_roundtrip /\ test_register_payload_new /\
  test_register_payload_with_name /\ test_register_payload_roundtrip.
Proof. run_test. Qed.

Lemma message_tests_pass :
  test_message_heartbeat /\ test_message_ack /\ test_message_error /\ test_message_shutdown /\
  test_message_task_cancel /\ test_message_roundtrip /\ test_message_size /\
  test_message_from_bytes_invalid /\ test_message_register /\ test_message_task_result /\
  test_message_wrong_type_heartbeat /\ test_message_wrong_type_result /\
  test_message_wrong_type_register /\ test_message_wrong_type_error.
Proof. run_test. Qed.
