(* ===== verification/ExecutionTests.v ===== *)
(** * ExecutionTests: the unit tests of src/executor.rs and src/pool.rs

    They run on a world with the programs the tests call, a clock that [sleep]
    advances, and eight processors. *)

From S2P Require Import Prelude Float Bytes KernelError Scheduler Task Fault Executor Pool Testing.
From S2P Require DebugFmt.

(** ** The world of the tests *)

(** [echo], [printf %s %s], [sh -c 'echo $TEST_VAR'], [true], [false]. *)
Definition unix_sem (c : Command) : ExitStatus * bytes * bytes :=
  let words l := as_bytes (String.concat " " l) in
  if decide (cmd_path c = "echo") then (Some 0, words (cmd_args c) ++ [10], [])
  else if decide (cmd_path c = "printf") then (Some 0, words (tail (cmd_args c)), [])
  else if decide (cmd_path c = "sh") then
    (Some 0, as_bytes (default "" (cmd_env c !! "TEST_VAR")) ++ [10], [])
  else if decide (cmd_path c = "true") then (Some 0, [], [])
  else (Some 1, [], []).

Definition unix_programs : list string := ["echo"; "printf"; "sh"; "true"; "false"; "sleep"].

#[local] Instance unix : Os Z := {|
  clock w := (w, w);
  sleep d w := w + d;
  Child := Command;
  spawn c w := (if decide (cmd_path c ∈ unix_programs) then Ok c else Err true, w);
  write_stdin c data w := Some w;
  try_wait c w := (Ok (if decide (cmd_path c = "sleep") then None else Some (unix_sem c).1.1), w);
  wait_with_output c w := Some (Ok (unix_sem c), w);
  kill c w := w;
  available_parallelism := Some 8 |}.

(** ** src/executor.rs *)

Definition test_cpu_executor_new : Prop :=
  let executor := CpuExecutor_new 4 in
  ex_num_workers (W := Z) executor = 4 /\ ex_is_healthy (W := Z) executor = true.

Definition test_cpu_executor_default : Prop :=
  (ex_num_workers (W := Z) default_workers >=? 1) = true.

Definition test_cpu_executor_min_workers : Prop :=
  ex_num_workers (W := Z) (CpuExecutor_new 0) = 1.

Definition test_cpu_executor_with_limits : Prop :=
  let executor := with_max_cpu_time (with_max_memory (CpuExecutor_new 4) (1024 * 1024 * 100))
    (from_secs 60) in
  max_memory executor = Some (1024 * 1024 * 100) /\ max_cpu_time executor = Some (from_secs 60).

Definition test_cpu_executor_backend : Prop := ex_backend (W := Z) (CpuExecutor_new 4) = Cpu.

Definition test_cpu_executor_can_execute_binary : Prop :=
  ex_can_execute (W := Z) (CpuExecutor_new 4)
    (Task.build (builder_backend (Task_binary "./worker") Cpu)) = true.

Definition test_cpu_executor_cannot_execute_shader : Prop :=
  ex_can_execute (W := Z) (CpuExecutor_new 4)
    (Task.build (builder_backend (Task_shader []) Gpu)) = false.

Definition test_cpu_executor_shutdown : Prop :=
  let executor := CpuExecutor_new 4 in
  ex_is_healthy (W := Z) executor = true /\
  let executor := ex_shutdown (W := Z) executor in
  ex_is_healthy (W := Z) executor = false /\
  ex_can_execute (W := Z) executor (Task.build (Task_binary "./worker")) = false.

Definition test_cpu_executor_running_tasks : Prop := running_tasks (CpuExecutor_new 4) = 0.

(** A program with its arguments, for the CPU, executed alone. *)
Definition program (path : string) (args : list string) : TaskBuilder :=
  builder_backend (builder_args (Task_binary path) args) Cpu.
Definition executed (task : Task) : comp (Result ExecutionResult) :=
  '(r, _, _) ← ex_execute_sync 12 (CpuExecutor_new 4) task 0; Ret r.

Definition test_cpu_executor_execute_echo : Prop :=
  ensure (result ← unwrap_or_panic (executed (Task.build (program "echo" ["Hello, World!"])));
    Ret (is_success result = true /\ contains (stdout_string result) "Hello" = true)).

Definition test_cpu_executor_execute_not_found : Prop :=
  ensure (result ← executed (Task.build (program "/nonexistent/binary" []));
    Ret (is_err result = true)).

Definition test_cpu_executor_execute_with_args : Prop :=
  ensure (result ← unwrap_or_panic (executed (Task.build (program "printf" ["%s %s"; "foo"; "bar"])));
    Ret (is_success result = true /\ stdout_string result = "foo bar"%string)).

Definition test_cpu_executor_execute_with_env : Prop :=
  let env : gmap string string := <["TEST_VAR"%string := "test_value"%string]> ∅ in
  ensure (result ← unwrap_or_panic (executed (Task.build
      (builder_backend (builder_env (builder_args (Task_binary "sh") ["-c"; "echo $TEST_VAR"]) env)
        Cpu)));
    Ret (is_success result = true /\ contains (stdout_string result) "test_value" = true)).

Definition test_cpu_executor_execute_false : Prop :=
  ensure (result ← unwrap_or_panic (executed (Task.build (program "false" [])));
    Ret (is_failure result = true /\ er_exit_code result <> Some 0)).

Definition test_cpu_executor_execute_timeout : Prop :=
  ensure (result ← unwrap_or_panic (executed (Task.build
      (builder_timeout (program "sleep" ["10"]) (from_millis 100))));
    Ret (er_state result = TimedOut)).

Definition test_gpu_executor_new : Prop :=
  ex_backend (W := Z) GpuExecutor_new = Gpu /\ ex_num_workers (W := Z) GpuExecutor_new = 0.

Definition test_gpu_executor_not_available : Prop := gpu_is_available = false.

Definition test_gpu_executor_cannot_execute : Prop :=
  ex_can_execute (W := Z) GpuExecutor_new (Task.build (Task_shader [])) = false.

Definition test_remote_executor_new : Prop :=
  ex_backend (W := Z) RemoteExecutor_new = Remote /\ ex_num_workers (W := Z) RemoteExecutor_new = 0.

Definition test_remote_executor_add_worker : Prop :=
  let executor := remote_add_worker RemoteExecutor_new "localhost:9000" in
  let executor := remote_add_worker executor "localhost:9001" in
  ex_num_workers (W := Z) executor = 2.

Definition test_remote_executor_not_connected : Prop :=
  ex_can_execute (W := Z) RemoteExecutor_new
    (Task.build (builder_backend (Task_binary "./worker") Remote)) = false.

Definition test_registry_new : Prop :=
  total_workers (W := Z) (registry_new (E := DynExecutor)) = Ret 0.

Definition cpu_registry : ExecutorRegistry DynExecutor :=
  register registry_new (DCpu (CpuExecutor_new 4)).

Definition test_registry_register : Prop := total_workers (W := Z) cpu_registry = Ret 4.

Definition test_registry_find_executor : Prop :=
  let task := Task.build (builder_backend (Task_binary "./worker") Cpu) in
  (fun '(_, e) => ex_backend (W := Z) e) <$> find_executor (W := Z) cpu_registry task = Some Cpu.

Definition test_registry_execute : Prop :=
  ensure ('(result, _, _) ← registry_execute 1 cpu_registry (Task.build (program "echo" ["test"])) 0;
    result ← unwrap result; Ret (is_success result = true)).

Definition test_registry_no_executor : Prop :=
  let task := Task.build (builder_backend (Task_binary "./worker") Cpu) in
  ensure ('(result, _, _) ← registry_execute 1 (registry_new (E := DynExecutor)) task 0;
    Ret (is_err result = true)).

(** The executor is shared with the registry, which holds it here. *)
Definition test_registry_shutdown : Prop :=
  ex_is_healthy (W := Z) <$> executors cpu_registry = [true] /\
  ex_is_healthy (W := Z) <$> executors (registry_shutdown (W := Z) cpu_registry) = [false].

Definition test_registry_multiple_backends : Prop :=
  let registry := register (register cpu_registry (DGpu GpuExecutor_new)) (DRemote RemoteExecutor_new) in
  total_workers (W := Z) registry = Ret 4.

(** ** src/pool.rs *)

Definition test_pool_config_default : Prop :=
  let config := PoolConfig_default in
  pc_cpu_workers config = 0 /\ pc_enable_gpu config = false /\ pc_remote_workers config = [].

(** The pool a builder builds, in the tests' world. *)
Definition built (b : PoolBuilder) : comp (Pool DynExecutor) :=
  r ← Pool.build (W := Z) b; unwrap r.
Definition builder (workers : Z) : PoolBuilder := builder_cpu_workers PoolBuilder_new workers.
Definition submit_to (p : Pool DynExecutor) (b : TaskBuilder) :
  comp (Result ExecutionResult * Pool DynExecutor) :=
  '(r, p, _) ← submit 1 5 p (Task.build b) 0; Ret (r, p).

Definition test_pool_builder_cpu_workers : Prop :=
  ensure (pool ← built (builder 4); n ← pool_num_workers (W := Z) pool; Ret (n = 4)).

Definition test_pool_builder_auto_workers : Prop :=
  ensure (pool ← built (builder 0); n ← pool_num_workers (W := Z) pool; Ret ((n >=? 1) = true)).

Definition test_pool_builder_queue_capacity : Prop :=
  ensure (pool ← built (builder_queue_capacity (builder 2) 100); Ret (pool_is_running pool = true)).

Definition test_pool_builder_retry_policy : Prop :=
  ensure (pool ← built (builder_retry_policy (builder 2) no_retry); Ret (pool_is_running pool = true)).

Definition test_pool_builder : Prop :=
  ensure (pool ← Pool.build (W := Z) (builder 4); Ret (is_ok pool = true)).

Definition test_pool_submit_echo : Prop :=
  ensure (pool ← built (builder 2);
    '(result, _) ← submit_to pool (builder_args (Task_binary "echo") ["Hello, Pool!"]);
    result ← unwrap result;
    Ret (is_success result = true /\ contains (stdout_string result) "Hello" = true)).

Definition test_pool_submit_multiple : Prop :=
  let labels := ["0"; "1"; "2"; "3"; "4"; "5"; "6"; "7"; "8"; "9"]%string in
  ensure (pool ← built (builder 4);
    '(ok, pool) ← for_each labels (fun i '(ok, pool) =>
      '(result, pool) ← submit_to pool (builder_args (Task_binary "echo") ["Task " +:+ i]);
      result ← unwrap result; Ret (ok && is_success result, pool)) (true, pool);
    stats ← pool_stats pool;
    Ret (ok = true /\ ps_submitted stats = 10 /\ ps_completed stats = 10)).

Definition test_pool_stats : Prop :=
  ensure (pool ← built (builder 2);
    '(_, pool) ← submit_to pool (Task_binary "true");
    '(_, pool) ← submit_to pool (Task_binary "false");
    stats ← pool_stats pool;
    Ret (ps_submitted stats = 2 /\ ps_completed stats = 1 /\ ps_failed stats = 1)).

(** [(rate - 0.8).abs() < 0.001], the constants as quotients. *)
Definition test_pool_stats_success_rate : Prop :=
  let decimal n d := f64_div (f64_of_int n) (f64_of_int d) in
  ensure (rate0 ← success_rate (mkPoolStats 0 0 0 0 0);
    rate ← success_rate (mkPoolStats 0 8 2 0 0);
    Ret (rate0 = f64_of_int 1 /\
         SpecFloat.SFltb (SpecFloat.SFabs (f64_sub rate (decimal 8 10))) (decimal 1 1000) = true)).

Definition test_pool_shutdown : Prop :=
  ensure (pool ← built (builder 2);
    let stopped := shutdown (W := Z) pool in
    '(result, _) ← submit_to stopped (builder_args (Task_binary "echo") ["test"]);
    Ret (pool_is_running pool = true /\ pool_is_running stopped = false /\ is_err result = true)).

Definition test_pool_worker_loads : Prop :=
  ensure (pool ← built (builder 4); Ret (length (pool_worker_loads pool) = 4%nat)).

Definition test_pool_pending_tasks : Prop :=
  ensure (pool ← built (builder 2); n ← pool_pending_tasks pool; Ret (n = 0)).

Definition test_pool_retry : Prop :=
  ensure (pool ← built (builder_retry_policy (builder 2) (with_max_retries RetryPolicy_new 2));
    '(result, pool) ← submit_to pool (Task_binary "false");
    stats ← pool_stats pool;
    Ret (is_ok result = true /\ (ps_retries stats >? 0) || (ps_failed stats =? 1) = true)).

Definition test_pool_submit_async : Prop :=
  ensure (pool ← built (builder 2);
    let '(task_id, _) := submit_async pool (Task.build (builder_args (Task_binary "echo") ["async"])) in
    Ret (is_ok task_id = true)).

Definition test_pool_with_priority : Prop :=
  ensure (pool ← built (builder 2);
    '(result, _) ← submit_to pool
      (builder_priority (builder_args (Task_binary "echo") ["high priority"]) High);
    result ← unwrap result; Ret (is_success result = true)).

Definition test_pool_debug : Prop :=
  ensure (pool ← built (builder 2); debug ← DebugFmt.Pool_debug (W := Z) pool;
    Ret (contains debug "Pool" = true /\ contains debug "num_workers" = true)).

Lemma cpu_executor_tests_pass :
  test_cpu_executor_new /\ test_cpu_executor_default /\ test_cpu_executor_min_workers /\
  test_cpu_executor_with_limits /\ test_cpu_executor_backend /\
  test_cpu_executor_can_execute_binary /\ test_cpu_executor_cannot_execute_shader /\
  test_cpu_executor_shutdown /\ test_cpu_executor_running_tasks.
Proof. run_test. Qed.

Lemma execution_tests_pass :
  test_cpu_executor_execute_echo /\ test_cpu_executor_execute_not_found /\
  test_cpu_executor_execute_with_args /\ test_cpu_executor_execute_with_env /\
  test_cpu_executor_execute_false /\ test_cpu_executor_execute_timeout.
Proof. run_test. Qed.

Lemma registry_tests_pass :
  test_gpu_executor_new /\ test_gpu_executor_not_available /\ test_gpu_executor_cannot_execute /\
  test_remote_executor_new /\ test_remote_executor_add_worker /\
  test_remote_executor_not_connected /\ test_registry_new /\ test_registry_register /\
  test_registry_find_executor /\ test_registry_execute /\ test_registry_no_executor /\
  test_registry_shutdown /\ test_registry_multiple_backends.
Proof. run_test. Qed.

Lemma pool_tests_pass :
  test_pool_config_default /\ test_pool_builder_cpu_workers /\ test_pool_builder_auto_workers /\
  test_pool_builder_queue_capacity /\ test_pool_builder_retry_policy /\ test_pool_builder /\
  test_pool_submit_echo /\ test_pool_submit_multiple /\ test_pool_stats /\
  test_pool_stats_success_rate /\ test_pool_shutdown /\ test_pool_worker_loads /\
  test_pool_pending_tasks /\ test_pool_retry /\ test_pool_submit_async /\ test_pool_with_priority /\
  test_pool_debug.
Proof. run_test. Qed.
