(* ===== verification/VirtioTests.v ===== *)
(** * VirtioTests: the unit tests of src/virtio.rs

    A block device of one mebibyte is not evaluated: its tests are proved with
    the refinement of [Virtio], whose disk is. *)

From S2P Require Import Prelude Lts Bytes KernelError Virtio Testing.
From S2P Require DebugFmt.

(** ** src/virtio.rs *)

Definition test_virtq_desc_new : Prop :=
  let desc := VirtqDesc_new 0x1000 4096 F_NEXT 1 in
  d_addr desc = 0x1000 /\ d_len desc = 4096 /\ has_next desc = true /\ d_next desc = 1.

Definition test_virtq_desc_flags : Prop :=
  let desc := VirtqDesc_new 0 0 F_WRITE 0 in
  is_write_only desc = true /\ has_next desc = false /\ is_indirect desc = false /\
  is_indirect (VirtqDesc_new 0 0 F_INDIRECT 0) = true.

Definition test_virtqueue_new : Prop :=
  let queue := VirtQueue_new VirtQueueConfig_default in
  queue_is_ready queue = false /\ queue_size queue = DEFAULT_QUEUE_SIZE.

Definition test_virtqueue_with_size : Prop := queue_size (with_size 128) = 128.

Definition test_virtqueue_ready : Prop :=
  let queue := with_size 64 in
  let ready := set_ready queue true in
  queue_is_ready queue = false /\ queue_is_ready ready = true /\
  queue_is_ready (set_ready ready false) = false.

Definition test_virtqueue_pending : Prop :=
  let queue := (add_pending (add_pending (add_pending (with_size 64) 0).2 1).2 2).2 in
  pending_count queue = 3 /\
  let '(a, queue) := pop_pending queue in
  let '(b, queue) := pop_pending queue in
  let '(c, queue) := pop_pending queue in
  (a, b, c, (pop_pending queue).1) = (Ok (Some 2), Ok (Some 1), Ok (Some 0), Ok None).

Definition test_virtqueue_notify_not_ready : Prop := is_err (notify (with_size 64)) = true.

Definition test_virtqueue_notify_ready : Prop :=
  is_ok (notify (set_ready (with_size 64) true)) = true.

Definition test_vsock_addr_new : Prop :=
  let addr := VsockAddr_new 3 1234 in cid addr = 3 /\ port addr = 1234.

Definition test_vsock_addr_host : Prop :=
  let addr := host 8080 in is_host addr = true /\ cid addr = HOST_CID /\ port addr = 8080.

Definition test_vsock_addr_display : Prop := VsockAddr_fmt (VsockAddr_new 3 1234) = "3:1234"%string.

Definition test_vsock_packet_header : Prop :=
  let src := VsockAddr_new 3 1000 in let dst := host 2000 in
  let header := VsockPacketHeader_new src dst PRequest in
  header_src header = src /\ header_dst header = dst /\ get_type header = PRequest.

Definition test_vsock_packet_type_from : Prop :=
  packet_from <$> [1; 5; 99] = [PRequest; PRw; PInvalid].

Definition test_vsock_connection_new : Prop :=
  let local := VsockAddr_new 3 1000 in let remote := host 2000 in
  let conn := VsockConnection_new local remote in
  c_local conn = local /\ c_remote conn = remote /\ c_state conn = Disconnected /\
  is_connected conn = false.

Definition some_connection : VsockConnection := VsockConnection_new (VsockAddr_new 3 1000) (host 2000).

Definition test_vsock_connection_credit : Prop := available_credit some_connection > 0.

Definition test_vsock_connection_tx_buffer : Prop :=
  let conn := queue_tx some_connection (as_bytes "hello") in
  pending_tx some_connection = 0 /\ pending_tx conn = 5 /\
  pending_tx (queue_tx conn (as_bytes " world")) = 11.

Definition test_vsock_connection_forward_count : Prop :=
  let conn := acknowledge some_connection 100 in
  fwd_cnt some_connection = 0 /\ fwd_cnt conn = 100 /\ fwd_cnt (acknowledge conn 50) = 150.

Definition test_virtio_vsock_new : Prop :=
  let vsock := VirtioVsock_new 3 in
  vs_cid vsock = 3 /\ vs_ready vsock = false /\ connection_count vsock = 0.

Definition test_virtio_vsock_activate : Prop :=
  let vsock := VirtioVsock_new 3 in
  let active := vsock_activate vsock in
  vs_ready vsock = false /\ vs_ready active = true /\ vs_ready (vsock_deactivate active) = false.

Definition test_virtio_vsock_connect : Prop :=
  let '(result, vsock) := vsock_connect (vsock_activate (VirtioVsock_new 3)) (host 8080) in
  is_ok result = true /\ connection_count vsock = 1.

Definition test_virtio_vsock_connect_not_ready : Prop :=
  is_err (vsock_connect (VirtioVsock_new 3) (host 8080)).1 = true.

Definition test_virtio_vsock_send : Prop :=
  send (vsock_activate (VirtioVsock_new 3)) (host 8080) (as_bytes "hello") = Ok 5.

Definition test_block_request_read : Prop :=
  let req := request_read 100 in request_get_type req = BIn /\ rq_sector req = 100.

Definition test_block_request_write : Prop :=
  let req := request_write 200 in request_get_type req = BOut /\ rq_sector req = 200.

Definition test_block_request_flush : Prop := request_get_type request_flush = BFlush.

Lemma queue_tests_pass :
  test_virtq_desc_new /\ test_virtq_desc_flags /\ test_virtqueue_new /\
  test_virtqueue_with_size /\ test_virtqueue_ready /\ test_virtqueue_pending /\
  test_virtqueue_notify_not_ready /\ test_virtqueue_notify_ready.
Proof. run_test. Qed.

Definition test_virtio_vsock_debug : Prop :=
  let debug := DebugFmt.VirtioVsock_debug (VirtioVsock_new 3) in
  contains debug "VirtioVsock" = true /\ contains debug "cid" = true.

Lemma vsock_tests_pass :
  test_vsock_addr_new /\ test_vsock_addr_host /\ test_vsock_addr_display /\
  test_vsock_packet_header /\ test_vsock_packet_type_from /\ test_vsock_connection_new /\
  test_vsock_connection_credit /\ test_vsock_connection_tx_buffer /\
  test_vsock_connection_forward_count /\ test_virtio_vsock_new /\ test_virtio_vsock_activate /\
  test_virtio_vsock_connect /\ test_virtio_vsock_connect_not_ready /\ test_virtio_vsock_send /\
  test_virtio_vsock_debug.
Proof. run_test. Qed.

Lemma request_tests_pass :
  test_block_request_read /\ test_block_request_write /\ test_block_request_flush.
Proof. run_test. Qed.

(** Blocks. *)
Definition test_virtio_block_new : Prop :=
  ensure (block ← VirtioBlock_new (mkBlockConfig 2048 512 false);
    bytes ← capacity_bytes block;
    Ret (capacity block = 2048 /\ bytes = 2048 * 512 /\ block_is_ready block = false)).

Definition test_virtio_block_with_capacity : Prop :=
  ensure (block ← with_capacity_mib 1; bytes ← capacity_bytes block; Ret (bytes = 1024 * 1024)).

Definition test_virtio_block_activate : Prop :=
  ensure (block ← with_capacity_mib 1;
    let active := block_activate block in
    Ret (block_is_ready block = false /\ block_is_ready active = true /\
         block_is_ready (block_deactivate active) = false)).

Definition test_virtio_block_read_write : Prop :=
  let data := replicate 512 0xAB in
  ensure (block ← with_capacity_mib 1;
    '(outs, block) ← block_run (block_activate block) [BWrite 0 data; BRead 0 (replicate 512 0)];
    Ret (outs = [OWrite (Ok 512); ORead (Ok 512) data] /\
         write_count block = 1 /\ read_count block = 1)).

Definition test_virtio_block_read_not_ready : Prop :=
  ensure (block ← with_capacity_mib 1; '(result, _, _) ← read block 0 (replicate 512 0);
    Ret (is_err result = true)).

Definition test_virtio_block_write_not_ready : Prop :=
  ensure (block ← with_capacity_mib 1; '(result, _) ← write block 0 (replicate 512 0);
    Ret (is_err result = true)).

Definition test_virtio_block_read_only : Prop :=
  ensure (block ← VirtioBlock_new (mkBlockConfig 2048 512 true);
    let block := block_activate block in
    '(result, _) ← write block 0 (replicate 512 0);
    Ret (is_read_only block = true /\ is_err result = true)).

Definition test_virtio_block_out_of_bounds : Prop :=
  ensure (block ← with_capacity_mib 1;
    '(outs, _) ← block_run (block_activate block) [BRead 1000000 (replicate 512 0)];
    Ret (outs = [ORead (Err InvalidArgument) (replicate 512 0)])).

Definition test_virtio_block_flush : Prop :=
  ensure (block ← with_capacity_mib 1; Ret (is_ok (flush (block_activate block)) = true)).

(** Sector [i] is written with bytes [i], for ten sectors, then read back. *)
Definition test_virtio_block_multiple_sectors : Prop :=
  let sectors := seqZ 0 10 in
  ensure (block ← with_capacity_mib 1;
    '(outs, block) ← block_run (block_activate block)
      (((fun s => BWrite s (replicate 512 s)) <$> sectors) ++
       ((fun s => BRead s (replicate 512 0)) <$> sectors));
    Ret (outs = ((fun _ => OWrite (Ok 512)) <$> sectors) ++
                ((fun s => ORead (Ok 512) (replicate 512 s)) <$> sectors) /\
         read_count block = 10 /\ write_count block = 10)).

(** A device of a mebibyte, with what the refinement says of its requests. *)
Lemma one_mebibyte : with_capacity_mib 1 = VirtioBlock_new (mkBlockConfig 2048 512 false).
Proof. reflexivity. Qed.

Lemma one_mebibyte_runs (P : list BlockOut -> VirtioBlock -> Prop) ops :
  Forall addressable ops ->
  (forall d, let outs := (disk_run 1048576 false (fun _ => 0) ops).1 in
     read_count d = wrap 64 (over read_done outs) -> write_count d = wrap 64 (over write_done outs) ->
     P outs d) ->
  ensure (block ← with_capacity_mib 1; '(outs, block) ← block_run (block_activate block) ops;
    Ret (P outs block)).
Proof.
  intros Hops HP. rewrite one_mebibyte.
  set (config := mkBlockConfig 2048 512 false).
  assert (Hnew : exists d, VirtioBlock_new config = Ret d).
  { apply (block_new_ok config ltac:(discriminate) ltac:(reflexivity)). }
  destruct Hnew as [d Hd]. rewrite Hd, bind_ret.
  pose proof (block_run_spec _ _ _ _ ops 0 0
    (block_new_presents config d Hd ltac:(discriminate) ltac:(reflexivity))
    (block_new_counts config d Hd) ltac:(split; [discriminate | reflexivity]) Hops) as H.
  change (bc_capacity config * 512) with 1048576 in H. change (bc_read_only config) with false in H.
  destruct (disk_run 1048576 false (fun _ => 0) ops) as [outs disk].
  destruct H as (d' & Hrun & _ & Hr & Hw). rewrite Hrun, bind_ret. by apply HP.
Qed.

Definition test_virtio_block_debug : Prop :=
  ensure (block ← with_capacity_mib 1; debug ← DebugFmt.VirtioBlock_debug block;
    Ret (contains debug "VirtioBlock" = true /\ contains debug "capacity_mib" = true)).

(** The tests that only look at the outside of a device. *)
Lemma block_new_tests_pass :
  test_virtio_block_new /\ test_virtio_block_with_capacity /\ test_virtio_block_activate /\
  test_virtio_block_read_not_ready /\ test_virtio_block_write_not_ready /\
  test_virtio_block_read_only /\ test_virtio_block_flush /\ test_virtio_block_debug.
Proof.
  unfold test_virtio_block_new, test_virtio_block_with_capacity, test_virtio_block_activate,
    test_virtio_block_read_not_ready, test_virtio_block_write_not_ready,
    test_virtio_block_read_only, test_virtio_block_flush, test_virtio_block_debug.
  rewrite one_mebibyte. unfold VirtioBlock_new. cbn [bc_capacity].
  replace (mul_w 64 2048 512) with (Ret 1048576) by reflexivity.
  replace (allocate_bytes 1048576) with (Ret tt) by reflexivity. rewrite !bind_ret.
  split_and!; done.
Qed.

Ltac addressed := repeat (apply Forall_cons; split; [split; [discriminate | reflexivity] |]);
  constructor.

Lemma block_read_write_test_passes : test_virtio_block_read_write.
Proof.
  apply (one_mebibyte_runs (fun outs d =>
    outs = [OWrite (Ok 512); ORead (Ok 512) (replicate 512 0xAB)] /\
    write_count d = 1 /\ read_count d = 1)); [addressed |].
  intros d outs Hr Hw. rewrite Hr, Hw. vm_compute. done.
Qed.

Lemma block_out_of_bounds_test_passes : test_virtio_block_out_of_bounds.
Proof.
  apply (one_mebibyte_runs (fun outs _ =>
    outs = [ORead (Err InvalidArgument) (replicate 512 0)])); [addressed |].
  intros d outs _ _. vm_compute. done.
Qed.

Lemma block_multiple_sectors_test_passes : test_virtio_block_multiple_sectors.
Proof.
  apply (one_mebibyte_runs (fun outs d =>
    outs = ((fun _ => OWrite (Ok 512)) <$> seqZ 0 10) ++
           ((fun s => ORead (Ok 512) (replicate 512 s)) <$> seqZ 0 10) /\
    read_count d = 10 /\ write_count d = 10)).
  - change (seqZ 0 10) with [0; 1; 2; 3; 4; 5; 6; 7; 8; 9]. cbn [fmap list_fmap app]. addressed.
  - intros d outs Hr Hw. rewrite Hr, Hw. vm_compute. done.
Qed.
