(* ===== verification/MachineTests.v ===== *)
(** * MachineTests: the unit tests of src/vmm.rs and src/gpu.rs *)

From S2P Require Import Prelude Bytes KernelError Vmm Testing.
From S2P Require Gpu DebugFmt.

(** ** src/vmm.rs *)

Definition test_vm_state_default : Prop := VmState_default = Created.

Definition test_vm_state_can_start : Prop :=
  can_start <$> [Created; Paused; Running; Stopped] = [true; true; false; false].

Definition test_vm_state_is_active : Prop :=
  is_active <$> [Running; Paused; Created; Stopped] = [true; true; false; false].

Definition test_config_default : Prop :=
  let config := VmConfig_default in
  vcpus config = 1 /\ memory_mb config = 128 /\ enable_kvm config = true.

Definition test_config_builder : Prop :=
  let b := with_memory_mb (with_vcpus VmConfigBuilder_new 4) 512 in
  let b := with_kernel_cmdline (with_kernel_path b "/boot/vmlinux") "console=ttyS0" in
  ensure (config ← unwrap (build b);
    Ret (vcpus config = 4 /\ memory_mb config = 512 /\
         kernel_path config = Some "/boot/vmlinux"%string)).

Definition test_config_validate_zero_vcpus : Prop :=
  is_err (build (with_memory_mb (with_vcpus VmConfigBuilder_new 0) 128)) = true.

Definition test_config_validate_too_many_vcpus : Prop :=
  is_err (build (with_memory_mb (with_vcpus VmConfigBuilder_new 255) 128)) = true.

Definition test_config_memory_bytes : Prop :=
  ensure (config ← unwrap (build (with_memory_mb VmConfigBuilder_new 256));
    n ← memory_bytes config; Ret (n = 256 * 1024 * 1024)).

Definition test_vcpu_regs_default : Prop :=
  let regs := VcpuRegs_default in rax regs = 0 /\ rip regs = 0.

Definition test_exit_reason_from : Prop := ExitReason_from <$> [6; 9; 999] = [Io; Hlt; ExUnknown].

Definition test_memory_region_new : Prop :=
  let region := MemoryRegion_new 0 0x1000 4096 0x7f0000 in
  mr_slot region = 0 /\ mr_guest_phys_addr region = 0x1000 /\ mr_memory_size region = 4096 /\
  mr_flags region = 0.

Definition test_memory_region_readonly : Prop := mr_flags (readonly (MemoryRegion_new 0 0 4096 0)) = 1.

Definition test_vcpu_new : Prop :=
  ensure (vcpu ← unwrap (Vcpu_new 0); Ret (vcpu_id vcpu = 0 /\ vcpu_running vcpu = false)).

Definition test_vcpu_get_set_regs : Prop :=
  ensure (vcpu ← unwrap (Vcpu_new 0); regs ← unwrap (get_regs vcpu);
    Ret (is_ok (set_regs vcpu regs) = true)).

Definition test_vcpu_run : Prop :=
  ensure (vcpu ← unwrap (Vcpu_new 0); exit ← unwrap (vcpu_run vcpu).1; Ret (exit = Halt)).

(** [MicroVm::create(config.build().expect(..)).unwrap()]. *)
Definition created (b : VmConfigBuilder) : comp MicroVm :=
  config ← unwrap (build b); unwrap_or_panic (create config).

Definition test_microvm_create : Prop :=
  ensure (vm ← created (with_memory_mb (with_vcpus VmConfigBuilder_new 2) 256); s ← state vm;
    Ret (vcpu_count vm = 2 /\ memory_size vm = 256 * 1024 * 1024 /\ s = Created)).

Definition test_microvm_run : Prop :=
  ensure (vm ← created VmConfigBuilder_new;
    let '(r, vm) := run vm in
    exit ← unwrap r; s ← state vm; Ret (exit = Halt /\ s = Stopped /\ exit_count vm = 1)).

Definition test_microvm_add_memory_region : Prop :=
  ensure (vm ← created VmConfigBuilder_new;
    Ret (is_ok (add_memory_region vm (MemoryRegion_new 0 0 4096 0x7f0000)).1 = true)).

Definition test_microvm_pause_resume : Prop :=
  ensure (vm ← created VmConfigBuilder_new;
    let '(paused, vm) := pause vm in
    let '(r, vm) := run vm in
    _ ← unwrap r; s ← state vm; Ret (is_err paused = true /\ s = Stopped)).

Definition test_jailer_config_default : Prop :=
  let config := JailerConfig_default in chroot_dir config = None /\ seccomp config = false.

Definition test_jailer_config_minimal : Prop :=
  let config := minimal in
  is_some (chroot_dir config) = true /\ seccomp config = true /\ netns config = true.

Definition test_jailer_config_production : Prop :=
  let config := production "/var/lib/jailer" in
  chroot_dir config = Some "/var/lib/jailer"%string /\ seccomp config = true.

Definition test_jailer_new : Prop := jailer_is_active (Jailer_new minimal) = false.

Definition test_jailer_enter_exit : Prop :=
  let '(entered, jailer) := enter (Jailer_new minimal) in
  let '(exited, jailer') := exit jailer in
  is_ok entered = true /\ jailer_is_active jailer = true /\ is_ok exited = true /\
  jailer_is_active jailer' = false.

Definition test_microvm_debug : Prop :=
  ensure (vm ← created (with_memory_mb (with_vcpus VmConfigBuilder_new 2) 128);
    debug ← DebugFmt.MicroVm_debug vm;
    Ret (contains debug "MicroVm" = true /\ contains debug "vcpus" = true)).

Definition test_jailer_debug : Prop :=
  let debug := DebugFmt.Jailer_debug (Jailer_new minimal) in
  contains debug "Jailer" = true /\ contains debug "seccomp" = true.

Lemma vmm_data_tests_pass :
  test_vm_state_default /\ test_vm_state_can_start /\ test_vm_state_is_active /\
  test_config_default /\ test_config_builder /\ test_config_validate_zero_vcpus /\
  test_config_validate_too_many_vcpus /\ test_config_memory_bytes /\ test_vcpu_regs_default /\
  test_exit_reason_from /\ test_memory_region_new /\ test_memory_region_readonly.
Proof. run_test. Qed.

Lemma vmm_tests_pass :
  test_vcpu_new /\ test_vcpu_get_set_regs /\ test_vcpu_run /\ test_microvm_create /\
  test_microvm_run /\ test_microvm_add_memory_region /\ test_microvm_pause_resume /\
  test_jailer_config_default /\ test_jailer_config_minimal /\ test_jailer_config_production /\
  test_jailer_new /\ test_jailer_enter_exit /\ test_microvm_debug /\ test_jailer_debug.
Proof. run_test. Qed.

(** ** src/gpu.rs *)

Definition test_gpu_backend_default : Prop := Gpu.GpuBackend_default = Gpu.BackendNone.

Definition test_gpu_backend_name : Prop :=
  Gpu.GpuBackend_name <$> [Gpu.Vulkan; Gpu.Metal; Gpu.BackendNone] = ["vulkan"; "metal"; "none"]%string.

Definition test_gpu_backend_is_native : Prop :=
  Gpu.is_native <$> [Gpu.Vulkan; Gpu.Metal; Gpu.Dx12; Gpu.OpenGL; Gpu.WebGpu] =
  [true; true; true; false; false].

Definition test_gpu_backend_is_available : Prop :=
  Gpu.backend_is_available <$> [Gpu.Vulkan; Gpu.BackendNone] = [true; false].

Definition test_buffer_usage_empty : Prop := Gpu.usage_bits Gpu.usage_empty = 0.

Definition test_buffer_usage_union : Prop :=
  let usage := Gpu.usage_union Gpu.STORAGE Gpu.COPY_SRC in
  Gpu.contains usage <$> [Gpu.STORAGE; Gpu.COPY_SRC; Gpu.UNIFORM] = [true; true; false].

Definition test_buffer_usage_contains : Prop :=
  Gpu.contains Gpu.STORAGE <$> [Gpu.STORAGE; Gpu.UNIFORM] = [true; false].

Definition test_gpu_limits_default : Prop :=
  let limits := Gpu.GpuLimits_default in
  Gpu.max_buffer_size limits > 0 /\ Gpu.max_compute_workgroup_size_x limits > 0.

Definition test_gpu_device_info_default : Prop :=
  let info := Gpu.GpuDeviceInfo_default in
  Gpu.info_name info <> ""%string /\ Gpu.info_backend info = Gpu.BackendNone.

Definition test_buffer_new : Prop :=
  let buffer := Gpu.Buffer_new 1 1024 Gpu.STORAGE in
  Gpu.b_id buffer = 1 /\ Gpu.b_size buffer = 1024 /\ length (Gpu.b_data buffer) = 1024%nat.

Definition test_buffer_with_data : Prop :=
  let buffer := Gpu.Buffer_with_data 1 [1; 2; 3; 4] Gpu.STORAGE in
  Gpu.b_size buffer = 4 /\ Gpu.b_data buffer = [1; 2; 3; 4].

Definition test_buffer_map_read : Prop :=
  ensure (data ← unwrap (Gpu.map_read (Gpu.Buffer_new 1 64 Gpu.MAP_READ));
    Ret (length data = 64%nat)).

Definition test_buffer_map_read_invalid : Prop :=
  is_err (Gpu.map_read (Gpu.Buffer_new 1 64 Gpu.STORAGE)) = true.

(** The mapping lends the bytes; the buffer has them when it ends. *)
Definition test_buffer_map_write : Prop :=
  ensure ('(data, unmap) ← unwrap (Gpu.map_write (Gpu.Buffer_new 1 64 Gpu.MAP_WRITE));
    Ret (Gpu.b_data (unmap (<[0%nat := 42]> data)) !! 0%nat = Some 42)).

(** The static counter of shader ids starts at 1. *)
Definition shader_of (source : string) : comp Gpu.ComputeShader := unwrap (Gpu.from_wgsl 1 source).1.

Definition test_compute_shader_from_wgsl : Prop :=
  ensure (shader ← shader_of "@compute fn main() {}";
    Ret (Gpu.shader_source shader <> ""%string /\ Gpu.entry_point shader = "main"%string)).

Definition test_compute_shader_with_entry_point : Prop :=
  ensure (shader ← shader_of "";
    Ret (Gpu.entry_point (Gpu.with_entry_point shader "compute_main") = "compute_main"%string)).

Definition test_compute_shader_with_workgroup_size : Prop :=
  ensure (shader ← shader_of "";
    Ret (Gpu.workgroup_size (Gpu.with_workgroup_size shader 128 1 1) = (128, 1, 1))).

Definition test_gpu_device_mock : Prop := Gpu.is_available Gpu.mock = true.

Definition test_gpu_device_default : Prop :=
  ensure (device ← unwrap Gpu.default_device; Ret (Gpu.is_available device = true)).

Definition test_gpu_device_create_buffer : Prop :=
  ensure (buffer ← unwrap (Gpu.create_buffer Gpu.mock [1; 2; 3; 4] Gpu.STORAGE).1;
    Ret (Gpu.b_size buffer = 4)).

Definition test_gpu_device_create_buffer_uninit : Prop :=
  ensure (buffer ← unwrap (Gpu.create_buffer_uninit Gpu.mock 1024 Gpu.STORAGE).1;
    Ret (Gpu.b_size buffer = 1024)).

Definition test_gpu_device_dispatch : Prop :=
  ensure (shader ← shader_of "";
    let '(r, device) := Gpu.dispatch Gpu.mock shader [] (64, 1, 1) in
    _ ← unwrap r; Ret (Gpu.dispatch_count device = 1)).

Definition test_gpu_device_dispatch_invalid_workgroups : Prop :=
  ensure (shader ← shader_of "";
    Ret (is_err (Gpu.dispatch Gpu.mock shader [] (100000, 1, 1)).1 = true)).

Definition test_gpu_device_copy_buffer : Prop :=
  let '(src, device) := Gpu.create_buffer Gpu.mock [1; 2; 3; 4] Gpu.COPY_SRC in
  let '(dst, device) := Gpu.create_buffer_uninit device 4 Gpu.COPY_DST in
  ensure (src ← unwrap src; dst ← unwrap dst; '(r, dst) ← Gpu.copy_buffer device src dst;
    _ ← unwrap r; Ret (Gpu.b_data dst = [1; 2; 3; 4])).

Definition test_compute_pipeline_new : Prop :=
  ensure (shader ← shader_of "";
    Ret (Gpu.shader_id (Gpu.pipeline_shader (Gpu.ComputePipeline_new shader)) > 0)).

Definition test_gpu_device_debug : Prop :=
  contains (DebugFmt.GpuDevice_debug Gpu.mock) "GpuDevice" = true.

Definition test_compute_pipeline_with_bind_groups : Prop :=
  ensure (shader ← shader_of "";
    let pipeline := Gpu.with_bind_groups (Gpu.ComputePipeline_new shader) 2 in
    Ret (contains (DebugFmt.ComputePipeline_debug pipeline) "bind_groups: 2" = true)).

Lemma gpu_data_tests_pass :
  test_gpu_backend_default /\ test_gpu_backend_name /\ test_gpu_backend_is_native /\
  test_gpu_backend_is_available /\ test_buffer_usage_empty /\ test_buffer_usage_union /\
  test_buffer_usage_contains /\ test_gpu_limits_default /\ test_gpu_device_info_default /\
  test_buffer_new /\ test_buffer_with_data /\ test_buffer_map_read /\
  test_buffer_map_read_invalid /\ test_buffer_map_write.
Proof. run_test. Qed.

Lemma gpu_tests_pass :
  test_compute_shader_from_wgsl /\ test_compute_shader_with_entry_point /\
  test_compute_shader_with_workgroup_size /\ test_gpu_device_mock /\ test_gpu_device_default /\
  test_gpu_device_create_buffer /\ test_gpu_device_create_buffer_uninit /\
  test_gpu_device_dispatch /\ test_gpu_device_dispatch_invalid_workgroups /\
  test_gpu_device_copy_buffer /\ test_compute_pipeline_new /\ test_gpu_device_debug /\
  test_compute_pipeline_with_bind_groups.
Proof. run_test. Qed.
