(* ===== verification/KernelTests.v ===== *)
(** * KernelTests: the unit tests of src/memory.rs, src/blk_mq.rs, src/io_uring.rs, src/ublk.rs,
    and those of tests/contract_io_uring_roundtrip.rs

    The tests of the types shared with the kernel: their arithmetic, their
    constants and the places of their fields. *)

From S2P Require Import Prelude KernelError Layout Testing.
From S2P Require Memory BlkMq Abi.

(** ** src/memory.rs *)

Module MemoryTests.
Import Memory.

Definition abi_page_size : Prop := PAGE_SIZE = 4096.

Definition abi_page_shift : Prop := PAGE_SHIFT = 12 /\ Z.shiftl 1 PAGE_SHIFT = PAGE_SIZE.

Definition abi_page_mask : Prop := PAGE_MASK = wrap 64 (Z.lnot 0xFFF).

Definition test_phys_addr_new : Prop := phys_as_u64 (phys_new 0x12345678) = 0x12345678.

Definition test_phys_addr_null : Prop :=
  let addr := phys_null in phys_is_null addr = true /\ phys_as_u64 addr = 0.

Definition test_phys_addr_page_aligned : Prop :=
  phys_is_page_aligned ∘ phys_new <$> [0x1000; 0x0; 0x1001; 0xFFF] = [true; true; false; false].

Definition test_phys_addr_align_down : Prop :=
  phys_page_align_down (phys_new 0x1234) = phys_new 0x1000 /\
  phys_page_align_down (phys_new 0x1000) = phys_new 0x1000.

Definition test_phys_addr_align_up : Prop :=
  phys_page_align_up (phys_new 0x1001) = Ret (phys_new 0x2000) /\
  phys_page_align_up (phys_new 0x1000) = Ret (phys_new 0x1000).

Definition test_phys_addr_page_offset : Prop :=
  phys_page_offset (phys_new 0x1234) = 0x234 /\ phys_page_offset (phys_new 0x1000) = 0.

Definition test_phys_addr_arithmetic : Prop :=
  let addr := phys_new 0x1000 in
  phys_add addr 0x100 = phys_new 0x1100 /\ phys_sub addr 0x100 = phys_new 0x0F00.

Definition test_phys_addr_range : Prop :=
  let addr := phys_new 0x1500 in
  is_in_range addr (phys_new 0x1000) (phys_new 0x2000) = true /\
  is_in_range addr (phys_new 0x2000) (phys_new 0x3000) = false.

Definition test_virt_addr_new : Prop :=
  virt_as_u64 (virt_new 0xFFFF800000000000) = 0xFFFF800000000000.

Definition test_virt_addr_null : Prop := virt_is_null virt_null = true.

Definition test_virt_addr_page_aligned : Prop :=
  virt_is_page_aligned (virt_new 0x1000) = true /\ virt_is_page_aligned (virt_new 0x1001) = false.

Definition test_pfn_new : Prop := pfn_as_u64 (pfn_new 100) = 100.

Definition test_pfn_from_addr : Prop := pfn_as_u64 (from_addr (phys_new 0x100000)) = 0x100.

Definition test_pfn_to_addr : Prop := phys_as_u64 (to_addr (pfn_new 0x100)) = 0x100000.

Definition test_pfn_roundtrip : Prop :=
  let original := phys_new 0x12340000 in
  to_addr (from_addr original) = phys_page_align_down original.

Definition test_pfn_arithmetic : Prop :=
  let pfn := pfn_new 100 in pfn_add pfn 10 = pfn_new 110 /\ pfn_sub pfn 10 = pfn_new 90.

Definition test_dma_direction : Prop :=
  to_device <$> [ToDevice; FromDevice; Bidirectional] = [true; false; true] /\
  from_device <$> [ToDevice; FromDevice; Bidirectional] = [false; true; true].

Definition test_dma_buffer_new : Prop :=
  let buf := DmaBuffer_new (phys_new 0x1000) (virt_new 0xFFFF800000001000) 4096 Bidirectional in
  dma_is_valid buf = true /\ dma_is_page_aligned buf = true /\ page_count buf = Ret 1.

Definition test_dma_buffer_invalid : Prop :=
  dma_is_valid (DmaBuffer_new phys_null virt_null 0 NoDirection) = false.

Definition test_dma_buffer_page_count : Prop :=
  let buf size := DmaBuffer_new (phys_new 0x1000) (virt_new 0x1000) size ToDevice in
  page_count (buf 4096) = Ret 1 /\ page_count (buf 4097) = Ret 2 /\ page_count (buf 8192) = Ret 2.

Definition test_alloc_flags_default : Prop :=
  let flags := ALLOC_NONE in
  can_wait flags = false /\ should_zero flags = false /\ needs_dma flags = false.

Definition test_alloc_flags_builders : Prop :=
  let flags := with_dma (with_zero (with_wait alloc_new)) in
  can_wait flags = true /\ should_zero flags = true /\ needs_dma flags = true.

Definition test_protection_none : Prop :=
  let prot := PROT_NONE in
  is_readable prot = false /\ is_writable prot = false /\ is_executable prot = false.

Definition test_protection_read_write : Prop :=
  let prot := READ_WRITE in
  is_readable prot = true /\ is_writable prot = true /\ is_executable prot = false.

Lemma addr_tests_pass :
  abi_page_size /\ abi_page_shift /\ abi_page_mask /\ test_phys_addr_new /\
  test_phys_addr_null /\ test_phys_addr_page_aligned /\ test_phys_addr_align_down /\
  test_phys_addr_align_up /\ test_phys_addr_page_offset /\ test_phys_addr_arithmetic /\
  test_phys_addr_range /\ test_virt_addr_new /\ test_virt_addr_null /\
  test_virt_addr_page_aligned /\ test_pfn_new /\ test_pfn_from_addr /\ test_pfn_to_addr /\
  test_pfn_roundtrip /\ test_pfn_arithmetic.
Proof. run_test. Qed.

Lemma dma_tests_pass :
  test_dma_direction /\ test_dma_buffer_new /\ test_dma_buffer_invalid /\
  test_dma_buffer_page_count /\ test_alloc_flags_default /\ test_alloc_flags_builders /\
  test_protection_none /\ test_protection_read_write.
Proof. run_test. Qed.

End MemoryTests.

(** ** src/blk_mq.rs *)

Module BlkMqTests.
Import BlkMq.

Definition test_request_op_is_read : Prop := is_read <$> [Read; Write; Flush] = [true; false; false].

Definition test_request_op_is_write : Prop :=
  is_write <$> [Write; Read; Discard] = [true; false; false].

Definition test_request_op_has_data : Prop :=
  has_data <$> [Read; Write; Flush; Discard] = [true; true; false; false].

Definition test_request_op_is_zone_op : Prop :=
  is_zone_op <$> [ZoneReset; ZoneOpen; Read; Write] = [true; true; false; false].

Definition test_request_op_from_u8 : Prop :=
  op_from_u8 <$> [0; 1; 2; 100] = [Some Read; Some Write; Some Flush; None].

Definition test_request_op_repr : Prop := op_code <$> [Read; Write; Flush] = [0; 1; 2].

Definition test_request_flags_default : Prop :=
  let flags := FLAGS_NONE in is_fua flags = false /\ is_sync flags = false /\ is_nowait flags = false.

Definition test_request_flags_builders : Prop :=
  let flags := with_sync (with_fua RequestFlags_new) in
  is_fua flags = true /\ is_sync flags = true /\ is_nowait flags = false.

Definition test_request_flags_bits : Prop := bits FLAGS_NONE = 0 /\ bits FUA <> 0 /\ bits SYNC <> 0.

Definition test_bio_vec_new : Prop :=
  let bv := BioVec_new 0x1000 4096 in bv_addr bv = 0x1000 /\ bv_len bv = 4096 /\ bv_offset bv = 0.

Definition test_bio_vec_with_offset : Prop :=
  effective_addr (with_offset 0x1000 4096 512) = Ret (0x1000 + 512).

Definition test_bio_vec_is_empty : Prop :=
  bv_is_empty (BioVec_new 0 0) = true /\ bv_is_empty (BioVec_new 0x1000 1) = false.

Definition test_request_new : Prop :=
  let req := Request_new 10 0 Read in tag req = 10 /\ queue_id req = 0 /\ op req = Read.

Definition test_request_read : Prop :=
  let req := Request_read 5 1 1000 8 in
  tag req = 5 /\ queue_id req = 1 /\ op req = Read /\ sector req = 1000 /\ nr_sectors req = 8.

Definition test_request_write : Prop :=
  let req := Request_write 6 2 2000 16 in
  op req = Write /\ sector req = 2000 /\ nr_sectors req = 16.

Definition test_request_byte_calculations : Prop :=
  let req := Request_read 0 0 100 8 in byte_offset req = Ret (100 * 512) /\ byte_len req = Ret (8 * 512).

Definition test_request_setters : Prop :=
  let req := set_sector_range (Request_new 0 0 Read) 500 32 in
  let req' := set_bio_vec req (BioVec_new 0x2000 16384) in
  let req'' := set_flags req' FUA in
  sector req = 500 /\ nr_sectors req = 32 /\ bv_addr (bio_vec req') = 0x2000 /\
  is_fua (rq_flags req'') = true.

Definition test_tag_set_config_new : Prop :=
  let config := TagSetConfig_new 4 128 in
  nr_hw_queues config = 4 /\ queue_depth config = 128 /\ numa_node config = -1.

Definition test_tag_set_config_with_numa : Prop :=
  numa_node (with_numa_node (TagSetConfig_new 2 64) 0) = 0.

Definition test_tag_set_config_validate : Prop :=
  let ok q d := is_ok (validate (TagSetConfig_new q d)) in
  ok 1 1 = true /\ ok 128 32768 = true /\ ok 0 128 = false /\ ok 129 128 = false /\
  ok 1 0 = false /\ ok 1 32769 = false.

Definition test_tag_set_config_total_tags : Prop :=
  total_tags (TagSetConfig_new 4 128) = Ret (4 * 128).

Definition test_tag_set_config_default : Prop :=
  let config := TagSetConfig_default in
  nr_hw_queues config = 1 /\ queue_depth config = 128 /\ is_ok (validate config) = true.

Definition abi_max_queue_depth : Prop := BLK_MQ_MAX_DEPTH = 32768.

Definition abi_tag_width : Prop := (BLK_MQ_MAX_DEPTH <=? 2 ^ 16 - 1) = true.

Definition abi_queue_id_width : Prop := (BLK_MQ_MAX_HW_QUEUES <=? 2 ^ 16 - 1) = true.

Lemma blk_mq_tests_pass :
  test_request_op_is_read /\ test_request_op_is_write /\ test_request_op_has_data /\
  test_request_op_is_zone_op /\ test_request_op_from_u8 /\ test_request_op_repr /\
  test_request_flags_default /\ test_request_flags_builders /\ test_request_flags_bits /\
  test_bio_vec_new /\ test_bio_vec_with_offset /\ test_bio_vec_is_empty /\ test_request_new /\
  test_request_read /\ test_request_write /\ test_request_byte_calculations /\
  test_request_setters.
Proof. run_test. Qed.

Lemma tag_set_tests_pass :
  test_tag_set_config_new /\ test_tag_set_config_with_numa /\ test_tag_set_config_validate /\
  test_tag_set_config_total_tags /\ test_tag_set_config_default /\ abi_max_queue_depth /\
  abi_tag_width /\ abi_queue_id_width.
Proof. run_test. Qed.

End BlkMqTests.

(** ** The constants and the layouts of io_uring and ublk *)

(** The constant of a table with this name. *)
Definition named (table : list (string * Z)) (name : string) : option Z :=
  snd <$> List.find (fun row => String.eqb row.1 name) table.
Definition all_named (table : list (string * Z)) (names : list string) : list Z :=
  omap (named table) names.

(** [is_power_of_two], and that values are pairwise different. *)
Definition is_power_of_two (z : Z) : bool := (0 <? z) && (Z.land z (z - 1) =? 0).
Fixpoint distinct (l : list Z) : bool :=
  match l with [] => true | z :: l => forallb (fun y => negb (z =? y)) l && distinct l end.

(** The offsets of a structure's fields, in declaration order. *)
Definition field_offsets (fields : list (nat * Z)) : list nat := offsets 0 fields.*1.

(** ** src/io_uring.rs *)

Module IoUringTests.
Import Abi.

Definition abi_io_uring_sqe_size : Prop := size_of (sqe_fields IoUringSqe_new).*1 = 64%nat.

Definition abi_io_uring_cqe_size : Prop := size_of (cqe_fields IoUringCqe_default).*1 = 16%nat.

Definition abi_io_uring_sqe_alignment : Prop :=
  (8 <=? align_of (sqe_fields IoUringSqe_new).*1)%nat = true.

Definition abi_io_uring_cqe_alignment : Prop :=
  (8 <=? align_of (cqe_fields IoUringCqe_default).*1)%nat = true.

Definition abi_sqe_offsets : Prop :=
  take 13 (field_offsets (sqe_fields IoUringSqe_new)) =
  [0; 1; 2; 4; 8; 16; 24; 28; 32; 40; 42; 44; 48]%nat.

Definition abi_cqe_offsets : Prop :=
  field_offsets (cqe_fields IoUringCqe_default) = [0; 8; 12]%nat.

Definition abi_uring_cmd_opcode : Prop := IORING_OP_URING_CMD = 46.

Definition abi_opcodes_are_distinct : Prop :=
  let opcodes := all_named ioring_ops
    ["NOP"; "READV"; "WRITEV"; "READ"; "WRITE"; "URING_CMD"; "FSYNC"; "CLOSE"; "SEND"; "RECV"]%string in
  length opcodes = 10%nat /\ distinct opcodes = true.

Definition abi_opcodes_within_range : Prop :=
  forallb (fun op => op <? IORING_OP_LAST)
    [IORING_OP_NOP; IORING_OP_READ; IORING_OP_WRITE; IORING_OP_URING_CMD] = true.

Definition abi_sqe_flags_are_powers_of_two : Prop :=
  let flags := all_named iosqe_flags
    ["FIXED_FILE"; "IO_DRAIN"; "IO_LINK"; "IO_HARDLINK"; "ASYNC"; "BUFFER_SELECT";
     "CQE_SKIP_SUCCESS"]%string in
  length flags = 7%nat /\ forallb is_power_of_two flags = true.

Definition test_sqe_new : Prop :=
  let sqe := IoUringSqe_new in opcode sqe = 0 /\ fd sqe = -1 /\ sqe_user_data sqe = 0.

Definition test_sqe_nop : Prop :=
  let sqe := nop 12345 in is_nop sqe = true /\ sqe_user_data sqe = 12345.

Definition test_sqe_uring_cmd : Prop :=
  let sqe := uring_cmd 10 0x1234 42 in
  is_uring_cmd sqe = true /\ fd sqe = 10 /\ sqe_op_flags sqe = 0x1234 /\ sqe_user_data sqe = 42.

Definition test_sqe_read : Prop :=
  let sqe := read 5 0x1000 4096 0 100 in
  opcode sqe = IORING_OP_READ /\ fd sqe = 5 /\ sqe_addr sqe = 0x1000 /\ sqe_len sqe = 4096 /\
  off sqe = 0 /\ sqe_user_data sqe = 100.

Definition test_sqe_write : Prop :=
  let sqe := write 5 0x2000 8192 512 200 in
  opcode sqe = IORING_OP_WRITE /\ fd sqe = 5 /\ sqe_addr sqe = 0x2000 /\ sqe_len sqe = 8192 /\
  off sqe = 512 /\ sqe_user_data sqe = 200.

Definition test_sqe_flags : Prop :=
  let sqe := IoUringSqe_new in
  let sqe1 := set_async sqe in
  let sqe2 := set_link sqe1 in
  let sqe3 := set_fixed_file sqe2 in
  sqe_flags sqe = 0 /\ Z.land (sqe_flags sqe1) IOSQE_ASYNC = IOSQE_ASYNC /\
  Z.land (sqe_flags sqe2) IOSQE_IO_LINK = IOSQE_IO_LINK /\
  Z.land (sqe_flags sqe3) IOSQE_FIXED_FILE = IOSQE_FIXED_FILE.

Definition test_cqe_success : Prop :=
  let cqe := IoUringCqe_new 42 4096 0 in
  cqe_is_success cqe = true /\ is_error cqe = false /\ result cqe = Some 4096 /\ errno cqe = Ret 0.

Definition test_cqe_error : Prop :=
  let cqe := IoUringCqe_new 42 (-5) 0 in
  cqe_is_success cqe = false /\ is_error cqe = true /\ result cqe = None /\ errno cqe = Ret 5.

Definition test_cqe_zero_result : Prop :=
  let cqe := IoUringCqe_new 0 0 0 in cqe_is_success cqe = true /\ result cqe = Some 0.

Definition test_cqe_has_more : Prop :=
  has_more (IoUringCqe_new 0 0 0) = false /\ has_more (IoUringCqe_new 0 0 IORING_CQE_F_MORE) = true.

Definition test_sqe_default : Prop :=
  let sqe := IoUringSqe_default in opcode sqe = 0 /\ fd sqe = -1.

Definition test_cqe_default : Prop :=
  let cqe := IoUringCqe_default in cqe_user_data cqe = 0 /\ res cqe = 0 /\ cqe_flags cqe = 0.

Lemma io_uring_abi_tests_pass :
  abi_io_uring_sqe_size /\ abi_io_uring_cqe_size /\ abi_io_uring_sqe_alignment /\
  abi_io_uring_cqe_alignment /\ abi_sqe_offsets /\ abi_cqe_offsets /\ abi_uring_cmd_opcode /\
  abi_opcodes_are_distinct /\ abi_opcodes_within_range /\ abi_sqe_flags_are_powers_of_two.
Proof. run_test. Qed.

Lemma io_uring_tests_pass :
  test_sqe_new /\ test_sqe_nop /\ test_sqe_uring_cmd /\ test_sqe_read /\ test_sqe_write /\
  test_sqe_flags /\ test_cqe_success /\ test_cqe_error /\ test_cqe_zero_result /\
  test_cqe_has_more /\ test_sqe_default /\ test_cqe_default.
Proof. run_test. Qed.

End IoUringTests.

(** ** src/ublk.rs *)

Module UblkTests.
Import Abi.

Definition abi_ublk_ctrl_cmd_size : Prop := size_of (ctrl_fields UblkCtrlCmd_default).*1 = 32%nat.

Definition abi_ublk_io_desc_size : Prop := size_of (desc_fields UblkIoDesc_default).*1 = 24%nat.

Definition abi_ublk_io_cmd_size : Prop := size_of (cmd_fields UblkIoCmd_default).*1 = 16%nat.

Definition abi_ublk_ctrl_cmd_alignment : Prop :=
  (4 <=? align_of (ctrl_fields UblkCtrlCmd_default).*1)%nat = true.

Definition abi_ublk_io_desc_alignment : Prop :=
  (4 <=? align_of (desc_fields UblkIoDesc_default).*1)%nat = true.

Definition abi_ublk_io_cmd_alignment : Prop :=
  (2 <=? align_of (cmd_fields UblkIoCmd_default).*1)%nat = true.

Definition abi_ublk_ctrl_cmd_offsets : Prop :=
  take 4 (field_offsets (ctrl_fields UblkCtrlCmd_default)) = [0; 4; 6; 8]%nat.

Definition abi_ublk_io_desc_offsets : Prop :=
  field_offsets (desc_fields UblkIoDesc_default) = [0; 4; 8; 16]%nat.

Definition abi_ublk_io_cmd_offsets : Prop :=
  field_offsets (cmd_fields UblkIoCmd_default) = [0; 2; 4; 8]%nat.

Definition abi_ioctl_cmd_add_dev : Prop := named ublk_ctrl_cmds "ADD_DEV" = Some 0xc0207504.

Definition abi_ioctl_cmd_del_dev : Prop := named ublk_ctrl_cmds "DEL_DEV" = Some 0xc0207505.

Definition abi_ioctl_cmd_start_dev : Prop := named ublk_ctrl_cmds "START_DEV" = Some 0xc0207506.

Definition abi_ioctl_cmd_stop_dev : Prop := named ublk_ctrl_cmds "STOP_DEV" = Some 0xc0207507.

Definition abi_ioctl_cmd_set_params : Prop := named ublk_ctrl_cmds "SET_PARAMS" = Some 0xc0207508.

Definition abi_ioctl_cmd_get_params : Prop := named ublk_ctrl_cmds "GET_PARAMS" = Some 0x80207509.

Definition abi_ioctl_io_fetch_req : Prop := named ublk_io_cmds "FETCH_REQ" = Some 0xc0107520.

Definition abi_ioctl_io_commit_and_fetch : Prop :=
  named ublk_io_cmds "COMMIT_AND_FETCH_REQ" = Some 0xc0107521.

Definition abi_flags_are_powers_of_two : Prop :=
  let flags := all_named ublk_features
    ["SUPPORT_ZERO_COPY"; "URING_CMD_COMP_IN_TASK"; "NEED_GET_DATA"; "USER_COPY";
     "CMD_IOCTL_ENCODE"; "UNPRIVILEGED_DEV"]%string in
  length flags = 6%nat /\ forallb is_power_of_two flags = true.

Definition abi_io_op_flags_are_distinct : Prop :=
  let ops := all_named ublk_io_ops ["READ"; "WRITE"; "FLUSH"; "DISCARD"; "WRITE_ZEROES"]%string in
  length ops = 5%nat /\ distinct ops = true.

Definition test_ctrl_cmd_new : Prop :=
  let cmd := UblkCtrlCmd_new 42 in
  dev_id cmd = 42 /\ queue_id cmd = 0 /\ ctrl_len cmd = 0 /\ ctrl_addr cmd = 0.

Definition test_ctrl_cmd_with_queue : Prop :=
  let cmd := with_queue 10 5 in dev_id cmd = 10 /\ queue_id cmd = 5.

Definition test_ctrl_cmd_set_data : Prop :=
  let cmd := set_data (UblkCtrlCmd_new 0) 0x12345678 100 in
  ctrl_addr cmd = 0x12345678 /\ ctrl_len cmd = 100.

Definition test_io_desc_new : Prop :=
  let desc := UblkIoDesc_new UBLK_IO_OP_WRITE 1000 8 in
  op desc = UBLK_IO_OP_WRITE /\ start_sector desc = 1000 /\ nr_sectors desc = 8.

Definition test_io_desc_op_detection : Prop :=
  let read := UblkIoDesc_new UBLK_IO_OP_READ 0 0 in
  let write := UblkIoDesc_new UBLK_IO_OP_WRITE 0 0 in
  let flush := UblkIoDesc_new UBLK_IO_OP_FLUSH 0 0 in
  is_read read = true /\ is_write read = false /\ is_write write = true /\
  is_read write = false /\ is_flush flush = true.

Definition test_io_desc_fua_flag : Prop :=
  is_fua (UblkIoDesc_new UBLK_IO_OP_WRITE 0 0) = false /\
  is_fua (UblkIoDesc_new (Z.lor UBLK_IO_OP_WRITE UBLK_IO_F_FUA) 0 0) = true.

Definition test_io_desc_byte_calculations : Prop :=
  let desc := UblkIoDesc_new UBLK_IO_OP_READ 100 8 in
  byte_offset desc = Ret (100 * 512) /\ byte_len desc = Ret (8 * 512).

Definition test_io_cmd_new : Prop :=
  let cmd := UblkIoCmd_new 3 42 in q_id cmd = 3 /\ tag cmd = 42 /\ cmd_result cmd = 0.

Definition test_io_cmd_completed : Prop :=
  let success := completed 0 1 4096 in
  let error := completed 0 1 (-5) in
  cmd_is_success success = true /\ cmd_result success = 4096 /\
  cmd_is_success error = false /\ cmd_result error = -5.

Definition test_io_cmd_set_result : Prop := cmd_result (set_result (UblkIoCmd_new 0 0) 1024) = 1024.

Definition test_defaults : Prop :=
  dev_id UblkCtrlCmd_default = 0 /\ is_read UblkIoDesc_default = true /\
  q_id UblkIoCmd_default = 0 /\ tag UblkIoCmd_default = 0.

Lemma ublk_abi_tests_pass :
  abi_ublk_ctrl_cmd_size /\ abi_ublk_io_desc_size /\ abi_ublk_io_cmd_size /\
  abi_ublk_ctrl_cmd_alignment /\ abi_ublk_io_desc_alignment /\ abi_ublk_io_cmd_alignment /\
  abi_ublk_ctrl_cmd_offsets /\ abi_ublk_io_desc_offsets /\ abi_ublk_io_cmd_offsets /\
  abi_ioctl_cmd_add_dev /\ abi_ioctl_cmd_del_dev /\ abi_ioctl_cmd_start_dev /\
  abi_ioctl_cmd_stop_dev /\ abi_ioctl_cmd_set_params /\ abi_ioctl_cmd_get_params /\
  abi_ioctl_io_fetch_req /\ abi_ioctl_io_commit_and_fetch /\ abi_flags_are_powers_of_two /\
  abi_io_op_flags_are_distinct.
Proof. run_test. Qed.

Lemma ublk_tests_pass :
  test_ctrl_cmd_new /\ test_ctrl_cmd_with_queue /\ test_ctrl_cmd_set_data /\ test_io_desc_new /\
  test_io_desc_op_detection /\ test_io_desc_fua_flag /\ test_io_desc_byte_calculations /\
  test_io_cmd_new /\ test_io_cmd_completed /\ test_io_cmd_set_result /\ test_defaults.
Proof. run_test. Qed.

End UblkTests.

(** ** tests/contract_io_uring_roundtrip.rs *)

Module IoUringContract.
Import Abi.

(** The kernel copies [user_data] into the completion. *)
Definition contract_io_uring_user_data_roundtrip : Prop :=
  Forall (fun u =>
    let sqe := read 3 0x1000 4096 0 u in
    let cqe := IoUringCqe_new (sqe_user_data sqe) 4096 0 in
    cqe_user_data cqe = sqe_user_data sqe)
    [0; 1; 42; 0xDEADBEEF; 2 ^ 64 - 1; 2 ^ 64 - 2].

(** [i32::checked_neg]. *)
Definition i32_checked_neg (res : Z) : option Z :=
  if res =? - 2 ^ 31 then None else Some (- res).

Definition contract_io_uring_result_partition : Prop :=
  Forall (fun res =>
    let cqe := IoUringCqe_new 7 res 0 in
    cqe_is_success cqe <> is_error cqe /\
    if 0 <=? res then errno cqe = Ret 0 /\ result cqe = Some res
    else result cqe = None /\
      match i32_checked_neg res with Some expected => errno cqe = Ret expected | None => True end)
    [- 2 ^ 31; -5; -1; 0; 1; 4096; 2 ^ 31 - 1].

Lemma contract_tests_pass :
  contract_io_uring_user_data_roundtrip /\ contract_io_uring_result_partition.
Proof. split; repeat constructor; first [reflexivity | discriminate]. Qed.

End IoUringContract.
