(* ===== verification/StorageTests.v ===== *)
(** * StorageTests: the unit tests of src/zram.rs, src/simd.rs, src/verification_specs.rs, src/lib.rs,
    and the command line's of tests/smoke_test.rs

    The tests that store pages of varying bytes and the one that multiplies 64 by
    64 matrices are checked with the components' lemmas, the others by evaluation.
    Left out are two tests that compress a page of 4096 bytes with LZ4 alone. *)

From Stdlib Require Import SpecFloat.
From S2P Require Import Prelude Float KernelError Testing.
From S2P Require Bytes Zram ZramCounters DebugFmt Simd DeviceAbi VerificationSpecs Main.

(** [(a - b).abs() < 1 / n] on [f32] and on [f64]; the literals of the tests
    are such quotients, correctly rounded. *)
Definition f32_near (a b : spec_float) (n : Z) : bool :=
  SFltb (SFabs (SFsub 24 128 a b)) (SFdiv 24 128 (f32_of_int 1) (f32_of_int n)).
Definition f64_near (a b : spec_float) (n : Z) : bool :=
  SFltb (SFabs (f64_sub a b)) (f64_ratio 1 n).

(** ** src/zram.rs *)

Module ZramTests.
Import Bytes Zram.

Definition test_compressor_name : Prop :=
  ZramCompressor_name Lz4 = "lz4"%string /\ ZramCompressor_name NoCompression = "none"%string.

Definition test_compressor_default : Prop := ZramCompressor_default = Lz4.

Definition test_config_default : Prop :=
  let config := ZramConfig_default in
  size_bytes config = 4 * 1024 * 1024 * 1024 /\ compressor config = Lz4 /\ mem_limit config = None.

Definition test_config_builder : Prop :=
  let config := with_compressor (with_size (1024 * 1024)) NoCompression in
  let config := with_num_streams (with_mem_limit config (512 * 1024)) 8 in
  size_bytes config = 1024 * 1024 /\ compressor config = NoCompression /\
  mem_limit config = Some (512 * 1024) /\ num_streams config = 8.

(** [ZramConfig::with_size(PAGE_SIZE as u64 * n)]. *)
Definition with_pages (n : Z) : ZramConfig := with_size (Z.of_nat PAGE_SIZE * n).

Definition test_config_max_pages : Prop := max_pages (with_pages 100) = 100.

Definition test_stats_compression_ratio : Prop :=
  let stats := ZramStats_default in
  let stats' := mkZramStats 1000 500 0 0 0 0 0 0 0 0 0 in
  compression_ratio stats = f64_of_int 1 /\
  f64_near (compression_ratio stats') (f64_of_int 2) 1000 = true.

Definition test_stats_special_pages : Prop :=
  special_pages (mkZramStats 0 0 0 0 10 5 0 0 0 0 0) = Ret 15.

Definition test_compress_decompress_none : Prop :=
  let input := as_bytes "Hello, World!" in
  let stream := CompressionStream_new NoCompression in
  ensure (r ← compress stream input;
    compressed ← unwrap r;
    '(n, output) ← decompress stream compressed (replicate 64 0);
    len ← unwrap n;
    Ret (compressed = input /\ take len output = input)).

Definition test_compress_empty : Prop :=
  ensure (compressed ← unwrap_or_panic (compress (CompressionStream_new Lz4) []);
    Ret (length compressed = 0%nat)).

Definition test_compress_small : Prop :=
  let input := as_bytes "tiny" in
  ensure (compressed ← unwrap_or_panic (compress (CompressionStream_new Lz4) input);
    Ret (compressed = input)).

Definition test_page_table_basic : Prop :=
  let table := PageTable_new in
  let '(w, table1) := PageTable_set table 0 Zero in
  let '(removed, table2) := PageTable_remove table1 0 in
  ensure (_ ← unwrap w;
    entry ← unwrap (PageTable_get table1 0);
    old ← unwrap removed;
    Ret (PageTable_is_empty table = true /\ PageTable_len table1 = 1%nat /\ entry = Zero /\
         is_some old = true /\ PageTable_is_empty table2 = true)).

Definition test_page_table_empty_read : Prop := PageTable_get PageTable_new 42 = Ok Empty.

Definition test_device_create : Prop :=
  ensure (device ← unwrap (ZramDevice_new (with_pages 100)); Ret (stored_pages device = 0%nat)).

(** [device.write_page(i, &data).unwrap()] and [device.read_page(i, &mut buffer).unwrap()]. *)
Definition written (device : ZramDevice) (i : Z) (data : bytes) : comp ZramDevice :=
  '(r, device) ← write_page device i data; _ ← unwrap r; Ret device.
Definition read (device : ZramDevice) (i : Z) (buffer : bytes) : comp (bytes * ZramDevice) :=
  '(r, device, buffer) ← read_page device i buffer; _ ← unwrap r; Ret (buffer, device).

Definition page (b : Z) : bytes := replicate PAGE_SIZE b.

Definition test_device_write_read_zero_page : Prop :=
  ensure (device ← unwrap (ZramDevice_new (with_pages 100));
    device ← written device 0 (page 0);
    '(buffer, device) ← read device 0 (page 0);
    Ret (buffer = page 0 /\ zero_pages (stats device) = 1)).

Definition test_device_write_read_same_page : Prop :=
  ensure (device ← unwrap (ZramDevice_new (with_pages 100));
    device ← written device 0 (page 0xAB);
    '(buffer, device) ← read device 0 (page 0);
    Ret (buffer = page 0xAB /\ same_pages (stats device) = 1)).

Definition test_device_read_unwritten : Prop :=
  ensure (device ← unwrap (ZramDevice_new (with_pages 100));
    '(buffer, _) ← read device 42 (page 0xFF); Ret (buffer = page 0)).

Definition test_device_discard : Prop :=
  ensure (device ← unwrap (ZramDevice_new (with_pages 100));
    device1 ← written device 0 (page 0xAB);
    let '(r, device2) := discard_page device1 0 in
    _ ← unwrap r; Ret (stored_pages device1 = 1%nat /\ stored_pages device2 = 0%nat)).

Definition test_device_out_of_bounds : Prop :=
  ensure (device ← unwrap (ZramDevice_new (with_pages 10));
    '(r, _) ← write_page device 100 (page 0); Ret (is_err r = true)).

Definition test_device_stats : Prop :=
  ensure (device ← unwrap (ZramDevice_new (with_pages 100));
    device ← written device 0 (page 0);
    device ← written device 1 (page 0xAB);
    let s := stats device in
    Ret (zero_pages s = 1 /\ same_pages s = 1 /\ (2 <=? num_writes s) = true)).

Definition test_device_debug : Prop :=
  ensure (device ← unwrap (ZramDevice_new (with_pages 100));
    Ret (contains (DebugFmt.ZramDevice_debug device) "ZramDevice" = true)).

Lemma zram_data_tests_pass :
  test_compressor_name /\ test_compressor_default /\ test_config_default /\ test_config_builder /\
  test_config_max_pages /\ test_stats_compression_ratio /\ test_stats_special_pages /\
  test_compress_decompress_none /\ test_compress_empty /\ test_compress_small /\
  test_page_table_basic /\ test_page_table_empty_read.
Proof. run_test. Qed.

Lemma zram_device_tests_pass :
  test_device_create /\ test_device_write_read_zero_page /\ test_device_write_read_same_page /\
  test_device_read_unwritten /\ test_device_discard /\ test_device_out_of_bounds /\
  test_device_stats /\ test_device_debug.
Proof. run_test. Qed.

(** [for i in 0..10], with a page of its own for each [i]. *)
Definition write_ten (data : Z -> bytes) (device : ZramDevice) : comp ZramDevice :=
  for_each (seqZ 0 10) (fun i device => written device i (data i)) device.

Definition test_device_write_read_compressed : Prop :=
  let data := (fun i => Z.of_nat (i / 16) mod 256) <$> seq 0 PAGE_SIZE in
  ensure (device ← unwrap (ZramDevice_new (with_pages 100));
    device ← written device 0 data;
    '(buffer, device) ← read device 0 (page 0);
    Ret (buffer = data /\ 1 <= pages_stored (stats device))).

Definition test_device_multiple_pages : Prop :=
  ensure (device ← unwrap (ZramDevice_new (with_pages 100));
    device ← write_ten page device;
    '(_, all) ← for_each (seqZ 0 10) (fun i '(device, all) =>
      '(buffer, device) ← read device i (page 0);
      Ret (device, all && forallb (fun b => b =? i) buffer)) (device, true);
    Ret (all = true)).

Definition test_device_compression_ratio : Prop :=
  ensure (device ← unwrap (ZramDevice_new (with_pages 100));
    device ← write_ten
      (fun i => (fun j => (Z.of_nat (j / 64) + i) mod 256) <$> seq 0 PAGE_SIZE) device;
    Ret (SFleb (f64_of_int 1) (compression_ratio (stats device)) = true)).

(** A device of 100 pages that holds [m] after [w] writes and [r] reads. *)
Definition holds (m : Store) (w r : Z) (d : ZramDevice) : Prop :=
  simulates d m /\ config d = with_pages 100 /\ ZramCounters.tally w r (stats_counters d).

Lemma holds_new : returns (unwrap (ZramDevice_new (with_pages 100))) (holds ∅ 0 0).
Proof.
  destruct (ZramDevice_new (with_pages 100)) as [d |] eqn:E; [| done]. apply returns_ret.
  destruct (simulates_new _ _ E) as [Hs Hc]. split; [done |]. split; [done |].
  injection E as <-. apply ZramCounters.tally_new.
Qed.

Lemma written_holds m w r d i data :
  holds m w r d -> 0 <= i < 100 -> length data = PAGE_SIZE ->
  returns (written d i data) (holds (<[i := data]> m) (w + 1) r).
Proof.
  intros (Hs & Hc & Ht) Hi Hl. unfold written.
  destruct (write_page_simulates d m i data Hs ltac:(lia)) as (d' & Hw & Hs' & Hc').
  pose proof (ZramCounters.write_page_records _ _ _ _ _ Hw) as Hrec. revert Hw Hs' Hrec.
  cbn [spec_step]. rewrite Hl, Nat.ltb_irrefl, Hc. change (max_pages (with_pages 100)) with 100.
  replace (i >=? 100) with false by lia. cbn [orb fst snd ZramCounters.is_ok].
  intros -> Hs' (record & Hrec & E). rewrite !bind_ret. apply returns_ret.
  rewrite take_ge in Hs' by lia. split; [done |]. split; [congruence |].
  rewrite E. by apply ZramCounters.tally_write.
Qed.

Lemma read_holds m w r d i buffer :
  holds m w r d -> 0 <= i < 100 -> length buffer = PAGE_SIZE ->
  returns (read d i buffer) (fun p => p.1 = default zero_page (m !! i) /\ holds m w (r + 1) p.2).
Proof.
  intros (Hs & Hc & Ht) Hi Hl. unfold read.
  destruct (read_page_simulates d m i buffer Hs) as (d' & Hr & Hs' & Hc').
  pose proof (ZramCounters.read_page_records _ _ _ _ _ _ Hr) as Hrec. revert Hr Hrec.
  cbn [spec_step]. rewrite Hl, Nat.ltb_irrefl, Hc. change (max_pages (with_pages 100)) with 100.
  replace (i >=? 100) with false by lia. cbn [orb fst snd ZramCounters.is_ok].
  intros -> E. rewrite !bind_ret. apply returns_ret. cbn [fst snd].
  rewrite drop_ge, app_nil_r by lia. split; [done |]. split; [done |]. split; [congruence |].
  rewrite E. by apply ZramCounters.tally_read.
Qed.

Lemma write_ten_holds data d :
  holds ∅ 0 0 d -> (forall i, length (data i) = PAGE_SIZE) ->
  returns (write_ten data d) (fun d' => exists m, holds m 10 0 d' /\
    forall i, 0 <= i < 10 -> m !! i = Some (data i)).
Proof.
  intros Hd Hl. unfold write_ten.
  enough (forall l m w d, holds m w 0 d -> Forall (fun i => 0 <= i < 100) l ->
    returns (for_each l (fun i device => written device i (data i)) d) (fun d' => exists m',
      holds m' (w + Z.of_nat (length l)) 0 d' /\
      forall i, m' !! i = if decide (i ∈ l) then Some (data i) else m !! i)) as H.
  { eapply returns_mono; [apply (H (seqZ 0 10) ∅ 0 d Hd) |].
    - by apply Forall_seqZ; lia.
    - intros d' (m' & Hm' & Hl'). exists m'. split; [exact Hm' |]. intros i Hi.
      rewrite Hl', decide_True by (apply elem_of_seqZ; lia). done. }
  clear d Hd. induction l as [| i l IH]; intros m w d Hd Hf; cbn [for_each].
  - apply returns_ret. exists m. cbn [length]. rewrite Z.add_0_r. split; [done |].
    intros i. by rewrite decide_False by (apply not_elem_of_nil).
  - inversion Hf as [| ? ? Hi Hf']; subst.
    eapply returns_bind; [by apply (written_holds m w 0) |]. intros d' Hd'.
    eapply returns_mono; [by apply (IH _ _ d' Hd') |]. intros d'' (m' & Hm' & Hl').
    exists m'. cbn [length]. replace (w + Z.of_nat (S (length l))) with (w + 1 + Z.of_nat (length l)) by lia.
    split; [done |]. intros j. rewrite Hl'. destruct (decide (j = i)) as [-> | Hne].
    + rewrite lookup_insert_eq, (decide_True (P := i ∈ i :: l)) by left. by case_decide.
    + rewrite lookup_insert_ne by done. destruct (decide (j ∈ l)).
      * by rewrite decide_True by by right.
      * rewrite decide_False; [done |]. by intros [|]%elem_of_cons.
Qed.

(** Running the code of a test to its assertions. *)
Lemma ensure_step {A} (m : comp A) (k : A -> comp Prop) (Q : A -> Prop) :
  returns m Q -> (forall a, Q a -> ensure (k a)) -> ensure (m ≫= k).
Proof. intros (a & -> & Ha) Hk. by apply Hk. Qed.

Lemma length_page b : length (page b) = PAGE_SIZE.
Proof. apply length_replicate. Qed.

Lemma length_data (f : nat -> Z) : length (f <$> seq 0 PAGE_SIZE) = PAGE_SIZE.
Proof. by rewrite length_fmap, length_seq. Qed.

Lemma pages_stored_holds m w r d : holds m w r d -> 0 <= w < 2 ^ 64 -> pages_stored (stats d) = w.
Proof.
  intros (_ & _ & _ & _ & Hp & _) Hw. unfold stats, snapshot. cbn. rewrite Hp. by apply wrap_id.
Qed.

Lemma write_read_compressed_passes : test_device_write_read_compressed.
Proof.
  eapply ensure_step; [apply holds_new |]. intros d Hd.
  eapply ensure_step; [apply (written_holds _ _ _ _ _ _ Hd); [lia | apply length_data] |].
  intros d1 Hd1.
  eapply ensure_step; [apply (read_holds _ _ _ _ 0 _ Hd1); [lia | apply length_page] |].
  intros [buffer d2] [Hb Hd2]. cbn [fst snd] in *. rewrite lookup_insert_eq in Hb.
  split; [exact Hb |]. rewrite (pages_stored_holds _ _ _ _ Hd2); lia.
Qed.

Lemma multiple_pages_passes : test_device_multiple_pages.
Proof.
  eapply ensure_step; [apply holds_new |]. intros d Hd.
  eapply ensure_step; [apply (write_ten_holds page d Hd), length_page |].
  intros d1 (m & Hd1 & Hm). apply (ensure_step _ _ (fun p => p.2 = true)); [| by intros [? all] H].
  enough (forall l r d, holds m 10 r d -> Forall (fun i => 0 <= i < 10) l ->
    returns (for_each l (fun i '(device, all) =>
      '(buffer, device) ← read device i (page 0);
      Ret (device, all && forallb (fun b => b =? i) buffer)) (d, true)) (fun p => p.2 = true)) as H
    by (apply (H _ 0); [done | apply Forall_seqZ; lia]).
  clear d Hd d1 Hd1. induction l as [| i l IH]; intros r d Hd Hf; cbn [for_each].
  - by apply returns_ret.
  - inversion Hf as [| ? ? Hi Hf']; subst.
    eapply returns_bind; [| intros p Hp; exact Hp].
    destruct (read_holds m 10 r d i (page 0) Hd ltac:(lia) (length_page 0)) as ([b d'] & -> & Hb & Hd').
    cbv beta iota. rewrite bind_ret. cbn [fst snd] in *. rewrite Hm in Hb by done. cbn [default] in Hb. subst b.
    apply returns_ret. replace (forallb _ (page i)) with true; [by apply (IH (r + 1)) |].
    symmetry. unfold page. apply forallb_forall. intros b [-> _]%list_elem_of_In%elem_of_replicate. lia.
Qed.

Lemma compression_ratio_passes : test_device_compression_ratio.
Proof.
  eapply ensure_step; [apply holds_new |]. intros d Hd.
  eapply ensure_step; [apply (write_ten_holds _ d Hd); intros i; apply length_data |].
  intros d1 (m & (_ & _ & _ & _ & _ & _ & _ & _ & Hs) & _). unfold stats.
  replace (snapshot (stats_counters d1)) with (stats_counters d1) by (by destruct (stats_counters d1)).
  by apply (ZramCounters.sizes_ratio 10); [| apply Hs].
Qed.

End ZramTests.

(** ** src/simd.rs *)

Module SimdTests.
Import Simd.

#[local] Existing Instance binary32.

(** The machines the kernels are chosen for. *)
Definition plain_machine : Machine := mkMachine x86_64 (fun _ => false).
Definition sse_machine : Machine := mkMachine x86_64 (fun f => (f =? "sse4.1")%string).
Definition avx512_machine : Machine := mkMachine x86_64 (fun _ => true).
Definition neon_machine : Machine := mkMachine aarch64 (fun _ => false).
Definition on_machines (test : Machine -> Prop) : Prop :=
  test plain_machine /\ test sse_machine /\ test avx2_machine /\ test avx512_machine /\
  test neon_machine.

Definition f32s (l : list Z) : list spec_float := f32_of_int <$> l.
Definition repeated (n : nat) (z : Z) : list spec_float := replicate n (f32_of_int z).
(** Every element is within [1 / n] of [z]. *)
Definition all_near (l : list spec_float) (z n : Z) : bool :=
  forallb (fun x => f32_near x (f32_of_int z) n) l.

Definition test_capabilities_width : Prop :=
  let caps1 := mkSimdCapabilities false false false false false true false false in
  let caps2 := mkSimdCapabilities false false false true false false false false in
  let caps3 := mkSimdCapabilities false true false false false false false false in
  best_vector_width caps1 = 512 /\ best_f32_width caps1 = 16 /\ best_f64_width caps1 = 8 /\
  best_vector_width caps2 = 256 /\ best_f32_width caps2 = 8 /\
  best_vector_width caps3 = 128 /\ best_f32_width caps3 = 4.

Definition test_capabilities_has_simd : Prop :=
  has_simd SimdCapabilities_default = false /\
  has_simd (mkSimdCapabilities true false false false false false false false) = true /\
  has_simd (mkSimdCapabilities false false false false false false false true) = true.

Definition test_vadd_f32 : Prop :=
  on_machines (fun _ => ensure (
    c ← vadd_f32 SimdOps_new (repeated 1024 1) (repeated 1024 2) (repeated 1024 0);
    Ret (all_near c 3 1000000 = true))).

(** [f64] has 53 bits of significand. *)
Definition test_vadd_f64 : Prop :=
  let repeated n z := replicate n (f64_of_int z) in
  on_machines (fun _ => ensure (
    c ← vadd_f64 (f64 := binary 53 1024) SimdOps_new (repeated 256%nat 1) (repeated 256%nat 2) (repeated 256%nat 0);
    Ret (forallb (fun x => f64_near x (f64_of_int 3) 10000000000) c = true))).

Definition test_vadd_f32_odd_size : Prop :=
  on_machines (fun _ => ensure (
    c ← vadd_f32 SimdOps_new (repeated 33 1) (repeated 33 2) (repeated 33 0);
    Ret (all_near c 3 1000000 = true))).

Definition test_vmul_f32 : Prop :=
  on_machines (fun _ => ensure (
    c ← vmul_f32 SimdOps_new (repeated 512 2) (repeated 512 3) (repeated 512 0);
    Ret (all_near c 6 1000000 = true))).

Definition test_dot_f32 : Prop :=
  on_machines (fun _ => ensure (
    result ← dot_f32 SimdOps_new (repeated 100 1) (repeated 100 2);
    Ret (f32_near result (f32_of_int 200) 10000 = true))).

Definition test_dot_f32_varying : Prop :=
  let a := f32s (Z.of_nat <$> seq 0 100) in
  let expected := foldl (SFadd 24 128) (f32_of_int 0) a in
  on_machines (fun _ => ensure (
    result ← dot_f32 SimdOps_new a (repeated 100 1);
    Ret (f32_near result expected 1000 = true))).

(** Each element of [c] is within [1 / n] of the expected one. *)
Definition near_all (c : list spec_float) (expected : list Z) (n : Z) : bool :=
  (length c =? length expected)%nat &&
  forallb (fun p => f32_near p.1 (f32_of_int p.2) n) (zip c expected).

Definition test_matmul_identity : Prop :=
  on_machines (fun _ => ensure (
    c ← matmul_f32 MatrixOps_new (f32s [1; 0; 0; 1]) (f32s [1; 2; 3; 4]) (repeated 4 0) 2 2 2;
    Ret (near_all c [1; 2; 3; 4] 1000000 = true))).

Definition test_matmul_simple : Prop :=
  on_machines (fun _ => ensure (
    c ← matmul_f32 MatrixOps_new (f32s [1; 2; 3; 4]) (f32s [5; 6; 7; 8]) (repeated 4 0) 2 2 2;
    Ret (near_all c [19; 22; 43; 50] 100000 = true))).

Definition test_transpose : Prop :=
  on_machines (fun _ => ensure (
    dst ← transpose_f32 MatrixOps_new (f32s [1; 2; 3; 4; 5; 6]) (repeated 6 0) 2 3;
    Ret (near_all dst [1; 4; 2; 5; 3; 6] 1000000 = true))).

Lemma simd_tests_pass :
  test_capabilities_width /\ test_capabilities_has_simd /\ test_vadd_f32_odd_size /\
  test_vmul_f32 /\ test_dot_f32 /\ test_dot_f32_varying.
Proof. run_test. Qed.

Definition test_matmul_larger : Prop :=
  on_machines (fun _ => ensure (
    c ← matmul_f32 MatrixOps_new (repeated (64 * 64) 1) (repeated (64 * 64) 1)
      (repeated (64 * 64) 0) 64 64 64;
    Ret (all_near c 64 10000 = true))).

(** A product of two constant matrices is constant. *)
Lemma mat_const {F} m n (x : F) : mat m n (fun _ _ => x) = replicate (m * n) x.
Proof.
  unfold mat. induction m as [| m IH] using nat_ind; [done |].
  rewrite seq_S, flat_map_app, IH. cbn [flat_map]. rewrite app_nil_r.
  replace (S m * n)%nat with (m * n + n)%nat by lia. rewrite replicate_add. f_equal.
  rewrite <- (length_seq n 0) at 2. by apply const_fmap.
Qed.

Lemma matmul_const {P : Profile} self n (x y z : spec_float) :
  dims n n ->
  matmul_f32 self (replicate (n * n) x) (replicate (n * n) y) (replicate (n * n) z) n n n =
  Ret (replicate (n * n) (foldl (fun acc _ => fadd acc (fmul x y)) fzero (seq 0 n))).
Proof.
  intros Hd. rewrite <- (mat_const n n x), <- (mat_const n n y).
  rewrite matmul_product by (exact Hd || apply length_replicate). by rewrite mat_const.
Qed.

Lemma all_near_const m x z n : f32_near x (f32_of_int z) n = true -> all_near (replicate m x) z n = true.
Proof. intros H. apply forallb_forall. by intros y [-> _]%list_elem_of_In%elem_of_replicate. Qed.

Lemma vadd_passes : test_vadd_f32 /\ test_vadd_f64.
Proof.
  assert (Hadd : forall M : Machine,
    (forall n (x y z : spec_float), vadd_f32 (M := M) SimdOps_new (replicate n x) (replicate n y) (replicate n z) =
       Ret (replicate n (fadd x y))) /\
    (forall n (x y z : spec_float), vadd_f64 (M := M) (f64 := binary 53 1024) SimdOps_new (replicate n x) (replicate n y) (replicate n z) =
       Ret (replicate n (SFadd 53 1024 x y)))).
  { intros M. destruct (elementwise (f64 := binary 53 1024) SimdOps_new (detect_supported (H := M))) as [H32 H64].
    unfold same_length in *. split; intros n x y z; [rewrite (proj1 (H32 _ _ _)) | rewrite H64];
      rewrite !length_replicate, !bool_decide_eq_true_2, zip_with_replicate by done; done. }
  split; unfold test_vadd_f32, test_vadd_f64, repeated, on_machines, ensure; split_and!;
    (rewrite (proj1 (Hadd _)) || rewrite (proj2 (Hadd _))); rewrite bind_ret.
  1-5: apply all_near_const; vm_compute; reflexivity.
  all: apply forallb_forall; intros r [-> _]%list_elem_of_In%elem_of_replicate; vm_compute; reflexivity.
Qed.

Lemma matmul_larger_passes : test_matmul_larger.
Proof.
  assert (Hd : dims 64 64) by (split; [done |]; split; [done |]; by vm_compute).
  unfold test_matmul_larger, on_machines, repeated.
  rewrite !matmul_const by exact Hd. rewrite !bind_ret. unfold ensure.
  split_and!; apply all_near_const; vm_compute; reflexivity.
Qed.

Lemma matrix_tests_pass : test_matmul_identity /\ test_matmul_simple /\ test_transpose.
Proof. run_test. Qed.

End SimdTests.

(** ** src/verification_specs.rs *)

Module SpecsTests.
Import VerificationSpecs.

Definition test_validate_size : Prop :=
  validate_size 5 10 = true /\ validate_size 11 10 = false /\ validate_size 10 10 = true.

Definition test_validate_index : Prop :=
  validate_index 0 5 = true /\ validate_index 4 5 = true /\ validate_index 5 5 = false.

Definition test_validated_len : Prop := validated_len [1; 2; 3] = Ret 3%nat.

Definition test_checked_add : Prop := checked_add 1 2 = Some 3 /\ checked_add (2 ^ 64 - 1) 1 = None.

Definition test_is_valid_float : Prop :=
  is_valid_float (f64_of_int 1) = true /\ is_valid_float S754_nan = false /\
  is_valid_float (S754_infinity false) = false.

(** [x.abs() < f64::EPSILON], the distance of 1 to the next number: 2^-52. *)
Definition below_epsilon (x : spec_float) : bool := SFltb (SFabs x) (f64_ratio 1 (2 ^ 52)).

Definition test_normalize : Prop :=
  let num := f64_of_int in
  ensure (result ← normalize (num 5) (num 0) (num 10);
    low ← normalize (num 0) (num 0) (num 10);
    high ← normalize (num 10) (num 0) (num 10);
    Ret (below_epsilon (f64_sub result (f64_ratio 1 2)) = true /\ below_epsilon low = true /\
         below_epsilon (f64_sub high (num 1)) = true)).

Lemma specs_tests_pass :
  test_validate_size /\ test_validate_index /\ test_validated_len /\ test_checked_add /\
  test_is_valid_float /\ test_normalize.
Proof. run_test. Qed.

(** The harnesses of the model checker ([kani_proofs]): any values that meet the
    assumptions, all of them. *)
Definition checked_mul (w a b : Z) : option Z := if decide (uint w (a * b)) then Some (a * b) else None.

Definition verify_config_bounds : Prop := forall val, uint 32 val -> val <= 1000 -> val <= 1000.

Definition verify_index_safety : Prop :=
  forall len idx, uint 64 len -> 0 < len /\ len <= 1024 -> uint 64 idx -> idx < len -> idx < len.

Definition verify_no_overflow_add : Prop :=
  forall a b, uint 32 a -> uint 32 b -> a <= 10000 -> b <= 10000 ->
  Testing.is_some (Prelude.checked_add 32 a b) = true.

Definition verify_no_overflow_mul : Prop :=
  forall a b, uint 32 a -> uint 32 b -> a <= 1000 -> b <= 1000 ->
  Testing.is_some (checked_mul 32 a b) = true.

Definition verify_division_nonzero : Prop :=
  forall numerator denominator, uint 64 numerator -> uint 64 denominator -> 0 < denominator ->
  numerator / denominator <= numerator.

Lemma kani_proofs_hold :
  verify_config_bounds /\ verify_index_safety /\ verify_no_overflow_add /\
  verify_no_overflow_mul /\ verify_division_nonzero.
Proof.
  split_and!; [by intros val | by intros len idx | | |].
  - intros a b [? _] [? _] ? ?. unfold Prelude.checked_add, uint. by rewrite decide_True by lia.
  - intros a b [? _] [? _] ? ?. unfold checked_mul, uint. by rewrite decide_True by nia.
  - intros n d [Hn _] _ Hd. apply Z.div_le_upper_bound; [lia | nia].
Qed.

End SpecsTests.

(** ** src/lib.rs *)

Definition test_constants : Prop :=
  DeviceAbi.SECTOR_SIZE = 512 /\ DeviceAbi.PAGE_SIZE = 4096 /\ DeviceAbi.MAX_QUEUE_DEPTH = 32768.

Lemma lib_tests_pass : test_constants.
Proof. run_test. Qed.

(** ** tests/smoke_test.rs

    The tests of the command line, for the version of Cargo.toml and any size
    the compiler gives to [Request]. *)

Module SmokeTests.
Import Main.

Section smoke.
Context (request_size : nat).

Definition pepita (args : list string) : comp Exit :=
  main request_size "0.1.1" (Some <$> "pepita"%string :: args).
Definition prints (lines : list string) (pattern : string) : bool :=
  existsb (fun line => contains line pattern) lines.

Definition unknown_argument_is_a_usage_error : Prop :=
  ensure (out ← pepita ["zzz-notacommand"%string];
    Ret (status out = 2 /\ stdout out = [] /\ prints (stderr out) "zzz-notacommand" = true)).

Definition version_and_help_still_succeed : Prop :=
  Forall (fun flag => ensure (out ← pepita [flag];
    Ret (status out = 0 /\ prints (stdout out) "0.1.1" = true))) ["--version"; "-V"]%string /\
  Forall (fun flag => ensure (out ← pepita [flag];
    Ret (status out = 0 /\ prints (stdout out) "Usage: pepita" = true))) ["--help"; "-h"]%string.

Definition no_arguments_still_runs_the_verification : Prop :=
  ensure (out ← pepita [];
    Ret (status out = 0 /\ prints (stdout out) "ABI Verification" = true)).

Lemma usage_tests_pass : unknown_argument_is_a_usage_error /\ version_and_help_still_succeed.
Proof. split; [run_test |]. split; repeat constructor; run_test. Qed.

Lemma verification_tests_pass : no_arguments_still_runs_the_verification.
Proof.
  split; [reflexivity |]. unfold prints.
  apply existsb_exists. exists "ABI Verification:"%string. split; [| reflexivity].
  apply list_elem_of_In. cbv [stdout]. rewrite !elem_of_app. right; right; right. left.
Qed.

End smoke.
End SmokeTests.
