(* ===== verification/Accessors.v ===== *)
(** * Accessors: the methods that return a field

    Elsewhere a method that returns a field is the projection of its record.  Here
    each is a function under its own name, in a module per source file, with the
    lemmas that constructors and setters are read back. *)

From S2P Require Import Prelude Bytes.
From S2P Require Task Executor Memory Abi BlkMq Gpu Virtio Vmm Simd Scheduler Zram Pool Fault.

(** ** src/memory.rs *)
Module MemoryRs.
Import Memory.
Definition PhysAddr_as_u64 (a : PhysAddr) : Z := phys_as_u64 a.
Definition VirtAddr_as_u64 (a : VirtAddr) : Z := virt_as_u64 a.
Definition Pfn_as_u64 (p : Pfn) : Z := pfn_as_u64 p.
End MemoryRs.

(** ** src/ublk.rs *)
Module UblkRs.
Import Abi.
Definition UblkCtrlCmd_dev_id (c : UblkCtrlCmd) : Z := dev_id c.
Definition UblkCtrlCmd_queue_id (c : UblkCtrlCmd) : Z := queue_id c.
Definition UblkCtrlCmd_len (c : UblkCtrlCmd) : Z := ctrl_len c.
Definition UblkCtrlCmd_addr (c : UblkCtrlCmd) : Z := ctrl_addr c.
Definition UblkCtrlCmd_data (c : UblkCtrlCmd) : Z := data c.
Definition UblkIoDesc_op_flags (d : UblkIoDesc) : Z := op_flags d.
Definition UblkIoDesc_nr_sectors (d : UblkIoDesc) : Z := nr_sectors d.
Definition UblkIoDesc_start_sector (d : UblkIoDesc) : Z := start_sector d.
Definition UblkIoDesc_addr (d : UblkIoDesc) : Z := desc_addr d.
Definition UblkIoCmd_q_id (c : UblkIoCmd) : Z := q_id c.
Definition UblkIoCmd_tag (c : UblkIoCmd) : Z := tag c.
Definition UblkIoCmd_result (c : UblkIoCmd) : Z := cmd_result c.
Definition UblkIoCmd_addr (c : UblkIoCmd) : Z := cmd_addr c.
End UblkRs.

(** ** src/blk_mq.rs *)
Module BlkMqRs.
Import BlkMq.
Definition RequestFlags_bits (f : RequestFlags) : Z := bits f.
Definition Request_tag (r : Request) : Z := tag r.
Definition Request_queue_id (r : Request) : Z := queue_id r.
Definition Request_op (r : Request) : RequestOp := op r.
Definition Request_flags (r : Request) : RequestFlags := rq_flags r.
Definition Request_sector (r : Request) : Z := sector r.
Definition Request_nr_sectors (r : Request) : Z := nr_sectors r.
Definition Request_bio_vec (r : Request) : BioVec := bio_vec r.
End BlkMqRs.

(** ** src/gpu.rs *)
Module GpuRs.
Import Gpu.
Definition BufferUsage_bits (u : BufferUsage) : Z := usage_bits u.
Definition Buffer_id (b : Buffer) : Z := b_id b.
Definition Buffer_size (b : Buffer) : Z := b_size b.
Definition Buffer_usage (b : Buffer) : BufferUsage := b_usage b.
Definition Buffer_data (b : Buffer) : bytes := b_data b.
Definition ComputeShader_id (s : ComputeShader) : Z := shader_id s.
Definition ComputeShader_source (s : ComputeShader) : string := shader_source s.
Definition ComputeShader_entry_point (s : ComputeShader) : string := entry_point s.
Definition ComputeShader_workgroup_size (s : ComputeShader) : Z * Z * Z := workgroup_size s.
Definition GpuDevice_info (d : GpuDevice) : GpuDeviceInfo := info d.
Definition GpuDevice_dispatch_count (d : GpuDevice) : Z := dispatch_count d.
Definition GpuDevice_default : GpuDevice := mock.
Definition ComputePipeline_shader (p : ComputePipeline) : ComputeShader := pipeline_shader p.
End GpuRs.

(** ** src/virtio.rs *)
Module VirtioRs.
Import Virtio.
Definition VsockConnection_state (c : VsockConnection) : VsockConnState := c_state c.
Definition VsockConnection_local (c : VsockConnection) : VsockAddr := c_local c.
Definition VsockConnection_remote (c : VsockConnection) : VsockAddr := c_remote c.
Definition VsockConnection_forward_count (c : VsockConnection) : Z := fwd_cnt c.
Definition VirtioVsock_cid (d : VirtioVsock) : Z := vs_cid d.
Definition VirtioVsock_is_ready (d : VirtioVsock) : bool := vs_ready d.
End VirtioRs.

(** ** src/vmm.rs *)
Module VmmRs.
Import Vmm.
Definition Vcpu_id (v : Vcpu) : Z := vcpu_id v.
Definition Vcpu_is_running (v : Vcpu) : bool := vcpu_running v.
Definition MicroVm_config (vm : MicroVm) : VmConfig := vm_config vm.
Definition Jailer_config (j : Jailer) : JailerConfig := j_config j.
End VmmRs.

(** ** src/executor.rs: the trait methods whose answer is a field or a constant *)
Module ExecutorRs.
Import Task Executor.
Definition CpuExecutor_running_tasks (e : CpuExecutor) : Z := running_tasks e.
Definition CpuExecutor_default {W} {os : Os W} : CpuExecutor := default_workers.
Definition CpuExecutor_backend (e : CpuExecutor) : Backend := Cpu.
Definition CpuExecutor_num_workers (e : CpuExecutor) : Z := cpu_workers e.
Definition CpuExecutor_is_healthy (e : CpuExecutor) : bool := cpu_running e.
Definition GpuExecutor_backend (e : GpuExecutor) : Backend := Gpu.
Definition GpuExecutor_num_workers (e : GpuExecutor) : Z := num_devices e.
Definition RemoteExecutor_backend (e : RemoteExecutor) : Backend := Remote.
Definition RemoteExecutor_num_workers (e : RemoteExecutor) : Z := Z.of_nat (length (remote_workers e)).

(** The trait object answers with these methods. *)
Lemma executors_answer {W} {os : Os W} c g r :
  (ex_backend (W := W) c, ex_num_workers (W := W) c, ex_is_healthy (W := W) c) =
    (CpuExecutor_backend c, CpuExecutor_num_workers c, CpuExecutor_is_healthy c) /\
  (ex_backend (W := W) g, ex_num_workers (W := W) g) =
    (GpuExecutor_backend g, GpuExecutor_num_workers g) /\
  (ex_backend (W := W) r, ex_num_workers (W := W) r) =
    (RemoteExecutor_backend r, RemoteExecutor_num_workers r).
Proof. done. Qed.
End ExecutorRs.

(** ** src/simd.rs, src/zram.rs, src/pool.rs, src/fault.rs *)
Module OtherRs.
Definition SimdOps_caps (s : Simd.SimdOps) : Simd.SimdCapabilities := Simd.caps s.
Definition SimdOps_default `{Simd.Machine} : Simd.SimdOps := Simd.SimdOps_new.
Definition MatrixOps_default `{Simd.Machine} : Simd.MatrixOps := Simd.MatrixOps_new.
Definition ZramDevice_config (d : Zram.ZramDevice) : Zram.ZramConfig := Zram.config d.
Definition PageEntry_default : Zram.PageEntry := Zram.Empty.
Definition PageTable_default : Zram.PageTable := Zram.PageTable_new.
Definition Pool_builder : Pool.PoolBuilder := Pool.PoolBuilder_new.
Definition RetryState_default : Fault.RetryState := Fault.RetryState_new.
End OtherRs.

(** ** What is set is read back *)

Import UblkRs BlkMqRs GpuRs.

Lemma request_read_back tag q s n o n' v f :
  let r := BlkMq.set_flags (BlkMq.set_bio_vec (BlkMq.set_sector_range (BlkMq.Request_read tag q s n) o n') v) f in
  (Request_tag r, Request_queue_id r, Request_sector r, Request_nr_sectors r) = (tag, q, o, n') /\
  Request_op r = BlkMq.Read /\ Request_bio_vec r = v /\ Request_flags r = f.
Proof. done. Qed.

Lemma ctrl_cmd_read_back dev queue addr len extra :
  let c := Abi.set_extra_data (Abi.set_data (Abi.with_queue dev queue) addr len) extra in
  (UblkCtrlCmd_dev_id c, UblkCtrlCmd_queue_id c, UblkCtrlCmd_addr c, UblkCtrlCmd_len c, UblkCtrlCmd_data c) =
  (dev, queue, addr, len, extra).
Proof. done. Qed.

Lemma io_cmd_read_back q t r a :
  let c := Abi.cmd_set_addr (Abi.set_result (Abi.UblkIoCmd_new q t) r) a in
  (UblkIoCmd_q_id c, UblkIoCmd_tag c, UblkIoCmd_result c, UblkIoCmd_addr c) = (q, t, r, a).
Proof. done. Qed.

Lemma buffer_read_back id content usage :
  let b := Gpu.Buffer_with_data id content usage in
  (Buffer_id b, Buffer_size b, Buffer_usage b, Buffer_data b) =
  (id, Z.of_nat (length content), usage, content).
Proof. done. Qed.
